(** * pico-touchscr-sdk: screen buffer, selective update, touch filter and
      calibration, embedded from the C sources.

    - [ili9341.c] / [ili9341.h] / [ili9341hw.h]: the two-plane screen buffer
      (1 bpp pixel plane of 32-bit words, one attribute byte per 8x8 block),
      its drawing primitives and the budgeted selective write.
    - [msp2807_touch.c]: the polling routine [CheckTouch] with its snap /
      exponential filter step.
    - [msp2807_calibration.c]: [CalculateCalibrationMat] and
      [TouchTransformCoords], in binary32 arithmetic.
    - the demo program: the generator [PRN32], [TestRandomLines],
      [TestRandomLabels] and the touch-drawing step of [main].

    C integers are modelled as [Z]; where the width matters the wrap-around
    is written out.  C arrays are lists indexed from 0. *)

From Stdlib Require Import ZArith Lia Bool List.
From Stdlib Require Import SpecFloat.
From stdpp Require Import base list.

Local Open Scope Z_scope.

(** * Part I: the embedding *)

(** ** Machine integers *)

Module CInt.

(** Two's-complement wrap of a value to a signed 32-bit [int]. *)
Definition wrap32 (z : Z) : Z := (z + 2 ^ 31) mod 2 ^ 32 - 2 ^ 31.

(** Wrap to an unsigned integer of [w] bits. *)
Definition wrapu (w z : Z) : Z := z mod 2 ^ w.

Definition INT_MIN : Z := - 2 ^ 31.
Definition INT_MAX : Z := 2 ^ 31 - 1.

(** A value of type [uint32_t]. *)
Definition word32 (w : Z) : Prop := 0 <= w < 2 ^ 32.

End CInt.

(** ** C arrays *)

Module CArray.

(** [p[i]] as an rvalue.  An index outside the object is undefined in C; the
    model reads 0 there. *)
Definition rd (l : list Z) (i : Z) : Z :=
  if i <? 0 then 0 else default 0 (l !! Z.to_nat i).

(** [p[i] = v].  A store outside the object is undefined in C; the model
    drops it. *)
Definition wr (l : list Z) (i v : Z) : list Z :=
  if i <? 0 then l else <[Z.to_nat i := v]> l.

(** The index set of [for (i = lo; i < hi; ++i)]. *)
Definition range (lo hi : Z) : list Z := seqZ lo (hi - lo).

(** Loops whose body may [return]: [Next] carries the state on, [Ret] leaves
    the function with a value. *)
Inductive flow (S R : Type) : Type :=
| Next (s : S)
| Ret (r : R) (s : S).
Arguments Next {S R} s.
Arguments Ret {S R} r s.

Fixpoint for_each {I S R : Type} (body : I -> S -> flow S R)
    (ixs : list I) (s : S) : flow S R :=
  match ixs with
  | [] => Next s
  | i :: rest =>
      match body i s with
      | Next s' => for_each body rest s'
      | Ret r s' => Ret r s'
      end
  end.

(** Loops without early exit. *)
Definition for_all {I S : Type} (body : I -> S -> S) (ixs : list I) (s : S)
    : S :=
  fold_left (fun acc i => body i acc) ixs s.

End CArray.

Import CInt CArray.

(** ** ili9341hw.h, ili9341.h: geometry, palette, bit macros, control block *)

Module Ili9341.

Definition ILI9341_CASET : Z := 0x2A.
Definition ILI9341_PASET : Z := 0x2B.
Definition ILI9341_RAMWR : Z := 0x2C.

Definition PIX_WIDTH : Z := 240.
Definition PIX_HEIGHT : Z := 320.
Definition PIX_BITCOUNT : Z := PIX_WIDTH * PIX_HEIGHT.
Definition PIX_W32COUNT : Z := PIX_BITCOUNT / 32.
Definition PIX_BYTE_STRIDE : Z := PIX_WIDTH / 8.
Definition TEXT_HEIGHT : Z := PIX_HEIGHT / 8.
Definition TEXT_WIDTH : Z := PIX_WIDTH / 8.
Definition TEXT_CHARCOUNT : Z := TEXT_HEIGHT * TEXT_WIDTH.

(** [color_t]: the enumerators in declaration order. *)
Definition kBlack : Z := 0.
Definition kBlue : Z := 1.
Definition kRed : Z := 2.
Definition kMagenta : Z := 3.
Definition kGreen : Z := 4.
Definition kCyan : Z := 5.
Definition kYellow : Z := 6.
Definition kWhite : Z := 7.

Definition spPalette : list Z :=
  [0x0000; 0x1F00; 0x00F8; 0x1FF8; 0xE007; 0xFF07; 0xE0FF; 0xffff].

(** [GET_DATA_BIT(p, n)]: bit [n] of the plane lives in word [n >> 5], most
    significant bit first. *)
Definition GET_DATA_BIT (p : list Z) (n : Z) : Z :=
  Z.land (Z.shiftr (rd p (Z.shiftr n 5)) (31 - Z.land n 31)) 1.

Definition SET_DATA_BIT (p : list Z) (n : Z) : list Z :=
  wr p (Z.shiftr n 5)
     (Z.lor (rd p (Z.shiftr n 5)) (Z.shiftr 0x80000000 (Z.land n 31))).

Definition CLR_DATA_BIT (p : list Z) (n : Z) : list Z :=
  wr p (Z.shiftr n 5)
     (Z.land (rd p (Z.shiftr n 5))
             (wrapu 32 (Z.lnot (Z.shiftr 0x80000000 (Z.land n 31))))).

(** [screen_control_t].  The hardware handle [mpHWConfig] is represented by
    the transport log the write functions return; [mCursorType] is unused by
    the sources.  [mpPixBuffer] has [PIX_W32COUNT] 32-bit words and
    [mpColorBuffer] has [TEXT_CHARCOUNT] bytes laid out
    Flash|Changed|Pap2|Pap1|Pap0|Ink2|Ink1|Ink0. *)
Record screen_control_t : Type := mkScreen {
  mCursorX : Z;
  mCursorY : Z;
  mCanvasPaper : Z;
  mCanvasInk : Z;
  mpPixBuffer : list Z;
  mpColorBuffer : list Z
}.

Definition with_pix (pscr : screen_control_t) (pix : list Z) :=
  mkScreen (mCursorX pscr) (mCursorY pscr) (mCanvasPaper pscr)
           (mCanvasInk pscr) pix (mpColorBuffer pscr).

Definition with_color (pscr : screen_control_t) (cb : list Z) :=
  mkScreen (mCursorX pscr) (mCursorY pscr) (mCanvasPaper pscr)
           (mCanvasInk pscr) (mpPixBuffer pscr) cb.

Definition with_cursor (pscr : screen_control_t) (x y : Z) :=
  mkScreen x y (mCanvasPaper pscr) (mCanvasInk pscr)
           (mpPixBuffer pscr) (mpColorBuffer pscr).

(** Conversion of an [int] to the [int16_t] cursor fields. *)
Definition to_int16 (z : Z) : Z := (z + 2 ^ 15) mod 2 ^ 16 - 2 ^ 15.

(** The arrays have their declared sizes. *)
Definition wf_screen (pscr : screen_control_t) : Prop :=
  length (mpPixBuffer pscr) = Z.to_nat PIX_W32COUNT /\
  length (mpColorBuffer pscr) = Z.to_nat TEXT_CHARCOUNT.

(** What goes out on the display's SPI port: a command byte (D/C low), a
    parameter byte, or a block of 16-bit colour values. *)
Inductive spi_event : Type :=
| SetCommand (cmd : Z)
| CommandParam (data : Z)
| WriteData (words : list Z).

(** [ILI9341_SetOutWriting] *)
Definition ILI9341_SetOutWriting (start_col end_col start_page end_page : Z)
    : list spi_event :=
  [ SetCommand ILI9341_CASET;
    CommandParam (Z.land (Z.shiftr start_col 8) 0xFF);
    CommandParam (Z.land start_col 0xFF);
    CommandParam (Z.land (Z.shiftr end_col 8) 0xFF);
    CommandParam (Z.land end_col 0xFF);
    SetCommand ILI9341_PASET;
    CommandParam (Z.land (Z.shiftr start_page 8) 0xFF);
    CommandParam (Z.land start_page 0xFF);
    CommandParam (Z.land (Z.shiftr end_page 8) 0xFF);
    CommandParam (Z.land end_page 0xFF);
    SetCommand ILI9341_RAMWR ].

(** ** ili9341.c: screen buffer operations *)

(** [TftClearScreenBuffer].  [color_t] is an enumeration without a negative
    enumerator, hence an unsigned type: an argument arrives as its value
    modulo [2 ^ 32], never negative, and the test [paper < 0] is made on
    that value.  (Were the enumeration stored in one byte the value would
    be taken modulo [2 ^ 8]; the byte [attr_val] is the same.) *)
Definition TftClearScreenBuffer (pscr : screen_control_t) (paper ink : Z)
    : screen_control_t :=
  let paper := wrapu 32 paper in
  let ink := wrapu 32 ink in
  let attr_val :=
    wrapu 8
      (if paper <? 0
       then Z.lor (Z.lor (mCanvasInk pscr) (Z.shiftl (mCanvasPaper pscr) 3))
                  (Z.shiftl 1 6)
       else Z.lor (Z.lor ink (Z.shiftl paper 3)) (Z.shiftl 1 6)) in
  mkScreen 0 0 (mCanvasPaper pscr) (mCanvasInk pscr)
           (replicate (Z.to_nat PIX_W32COUNT) 0)
           (replicate (Z.to_nat TEXT_CHARCOUNT) attr_val).

(** The colour one pixel is sent as: palette entry of ink or paper. *)
Definition pixel_color (pix : list Z) (n ink paper : Z) : Z :=
  if GET_DATA_BIT pix n =? 0 then rd spPalette paper else rd spPalette ink.

(** [TftFullScreenWrite]: the per-pixel body, the per-row body and the
    function.  The state of the loops is the colour buffer and the log. *)
Definition full_write_row (pix : list Z) (j : Z) (st : list Z * list spi_event)
    : list Z * list spi_event :=
  let line_of_symbol := Z.shiftr j 3 * TEXT_WIDTH in
  let '(cb, line) :=
    for_all
      (fun i (acc : list Z * list Z) =>
         let '(cb, sBufLine) := acc in
         let ix_of_symbol := line_of_symbol + Z.shiftr i 3 in
         let paper := Z.land (Z.shiftr (rd cb ix_of_symbol) 3) 7 in
         let ink := Z.land (rd cb ix_of_symbol) 7 in
         (wr cb ix_of_symbol
             (Z.land (rd cb ix_of_symbol) (Z.lnot (Z.shiftl 1 6))),
          sBufLine ++ [pixel_color pix (j * PIX_WIDTH + i) ink paper]))
      (range 0 PIX_WIDTH) (fst st, []) in
  (cb, snd st ++ [WriteData line]).

Definition TftFullScreenWrite (pscr : screen_control_t)
    : screen_control_t * list spi_event :=
  let '(cb, out) :=
    for_all (full_write_row (mpPixBuffer pscr)) (range 0 PIX_HEIGHT)
      (mpColorBuffer pscr,
       ILI9341_SetOutWriting 0 (PIX_WIDTH - 1) 0 (PIX_HEIGHT - 1)) in
  (with_color pscr cb, out).

(** [TftSymbolWrite]: sends block [(sym_x, sym_y)] and clears its
    `need update' bit. *)
Definition TftSymbolWrite (pscr : screen_control_t) (sym_x sym_y : Z)
    : screen_control_t * list spi_event :=
  let pix_tl_x := Z.shiftl sym_x 3 in
  let pix_tl_y := Z.shiftl sym_y 3 in
  let psym_box := sym_y * TEXT_WIDTH + sym_x in
  let box := rd (mpColorBuffer pscr) psym_box in
  let paper := Z.land (Z.shiftr box 3) 7 in
  let ink := Z.land box 7 in
  let rows :=
    map (fun j =>
           let pix_line := (pix_tl_y + j) * PIX_WIDTH + pix_tl_x in
           WriteData
             (map (fun i => pixel_color (mpPixBuffer pscr) (pix_line + i)
                                        ink paper)
                  (range 0 8)))
        (range 0 8) in
  (with_color pscr
     (wr (mpColorBuffer pscr) psym_box (Z.land box (Z.lnot (Z.shiftl 1 6)))),
   ILI9341_SetOutWriting pix_tl_x (pix_tl_x + 7) pix_tl_y (pix_tl_y + 7)
   ++ rows).

(** [TftFullScreenSelectiveWrite].  The loop state is the control block,
    the remaining budget [nblock_max] and the log; [--nblock_max] is an
    [int] decrement. *)
Definition scan_state : Type := screen_control_t * Z * list spi_event.

Definition selective_cell (j i : Z) (st : scan_state) : flow scan_state Z :=
  let '(pscr, nblock_max, out) := st in
  let line := j * TEXT_WIDTH in
  if Z.land (Z.shiftr (rd (mpColorBuffer pscr) (line + i)) 6) 1 =? 0
  then Next st
  else
    let '(pscr', ev) := TftSymbolWrite pscr i j in
    let nblock_max' := wrap32 (nblock_max - 1) in
    if nblock_max' =? 0
    then Ret 0 (pscr', nblock_max', out ++ ev)
    else Next (pscr', nblock_max', out ++ ev).

Definition TftFullScreenSelectiveWrite (pscr : screen_control_t)
    (nblock_max : Z) : Z * screen_control_t * list spi_event :=
  match
    for_each
      (fun j st => for_each (selective_cell j) (range 0 TEXT_WIDTH) st)
      (range 0 TEXT_HEIGHT) (pscr, nblock_max, [])
  with
  | Ret r (pscr', _, out) => (r, pscr', out)
  | Next (pscr', _, out) => (1, pscr', out)
  end.

(** [TftSetCursor] *)
Definition TftSetCursor (pscr : screen_control_t) (x y : Z) :=
  with_cursor pscr (to_int16 x) (to_int16 y).

(** The attribute update shared by [TftPutChar] and [TftPutColorAttr]:
    keep the two top bits, store ink and paper, set `need update'. *)
Definition put_attr (box paper ink : Z) : Z :=
  let b := Z.land box 0xC0 in
  let b := Z.lor b (Z.land ink 7) in
  let b := Z.lor b (Z.shiftl (Z.land paper 7) 3) in
  Z.lor b (Z.shiftl 1 6).

(** [TftPutColorAttr] *)
Definition TftPutColorAttr (pscr : screen_control_t) (x y paper ink : Z)
    : screen_control_t :=
  let pbox := x + TEXT_WIDTH * y in
  with_color pscr
    (wr (mpColorBuffer pscr) pbox
        (put_attr (rd (mpColorBuffer pscr) pbox) paper ink)).

(** [memmove] inside an array [mem] that is followed in memory by [ext]:
    the [n] cells starting at [src] are read from [mem ++ ext] and stored
    at [dest]. *)
Definition memmove (mem ext : list Z) (dest src n : Z) : list Z :=
  take (Z.to_nat dest) mem
  ++ take (Z.to_nat n) (drop (Z.to_nat src) (mem ++ ext))
  ++ drop (Z.to_nat (dest + n)) mem.

Definition memset (mem : list Z) (dest v n : Z) : list Z :=
  take (Z.to_nat dest) mem
  ++ replicate (Z.to_nat n) v
  ++ drop (Z.to_nat (dest + n)) mem.

(** The loop that marks the blocks [a .. b - 1] as changed. *)
Definition mark_range (cb : list Z) (a b : Z) : list Z :=
  for_all (fun j cb => wr cb j (Z.lor (rd cb j) (Z.shiftl 1 6))) (range a b) cb.

(** [TftScrollVerticalZone].  The pixel plane is moved as bytes; the three
    byte offsets are multiples of [8 * PIX_BYTE_STRIDE = 240], so the moves
    are moves of whole 32-bit words and the offsets are divided by 4.  The
    attribute [memmove] copies [bot_y - top_y] rows starting one row below
    [top_y], so its last row is read from below the zone: from [beyond],
    the bytes that follow [mpColorBuffer] in memory, when
    [bot_y = TEXT_HEIGHT]. *)
Definition TftScrollVerticalZone (beyond : list Z) (pscr : screen_control_t)
    (top_y bot_y : Z) : screen_control_t :=
  let kscroll_area_height := bot_y - top_y in
  let kscroll_area_bytes :=
    Z.shiftl (kscroll_area_height - 1) 3 * PIX_BYTE_STRIDE in
  let ppixdest := top_y * TEXT_WIDTH * 8 in
  let ppixsrc := ppixdest + PIX_BYTE_STRIDE * 8 in
  let pix := memmove (mpPixBuffer pscr) [] (ppixdest / 4) (ppixsrc / 4)
                     (kscroll_area_bytes / 4) in
  let pix := memset pix ((ppixdest + kscroll_area_bytes) / 4) 0
                    (8 * PIX_BYTE_STRIDE / 4) in
  let kscroll_attr_bytes := kscroll_area_height * TEXT_WIDTH in
  let pattrdest := top_y * TEXT_WIDTH in
  let pattrsrc := pattrdest + TEXT_WIDTH in
  let cb := memmove (mpColorBuffer pscr) beyond pattrdest pattrsrc
                    kscroll_attr_bytes in
  let cb := mark_range cb (top_y * TEXT_WIDTH) (bot_y * TEXT_WIDTH) in
  mkScreen (mCursorX pscr) (mCursorY pscr) (mCanvasPaper pscr)
           (mCanvasInk pscr) pix cb.

(** [TftPutPixel] *)
Definition TftPutPixel (pscr : screen_control_t) (x y paper ink : Z)
    : screen_control_t :=
  if (x <? 0) || (y <? 0) || (x >? PIX_WIDTH - 1) || (y >? PIX_HEIGHT - 1)
  then pscr
  else
    TftPutColorAttr
      (with_pix pscr (SET_DATA_BIT (mpPixBuffer pscr) (x + y * PIX_WIDTH)))
      (Z.shiftr x 3) (Z.shiftr y 3) paper ink.

(** [TftPutLine]: the Bresenham loop, at most [cnt] rounds. *)
Fixpoint put_line_loop (cnt : nat) (pscr : screen_control_t)
    (x0 y0 x1 y1 sx sy dx dy err : Z) : screen_control_t :=
  match cnt with
  | O => pscr
  | S cnt' =>
      let pix := SET_DATA_BIT (mpPixBuffer pscr) (x0 + y0 * PIX_WIDTH) in
      let k := Z.shiftr x0 3 + Z.shiftr y0 3 * TEXT_WIDTH in
      let cb := wr (mpColorBuffer pscr) k
                   (Z.lor (rd (mpColorBuffer pscr) k) (Z.shiftl 1 6)) in
      let pscr := with_color (with_pix pscr pix) cb in
      if (x0 =? x1) && (y0 =? y1) then pscr
      else
        let e2 := err in
        let '(err, x0) :=
          if e2 >? - dx then (err - dy, x0 + sx) else (err, x0) in
        let '(err, y0) :=
          if e2 <? dy then (err + dx, y0 + sy) else (err, y0) in
        put_line_loop cnt' pscr x0 y0 x1 y1 sx sy dx dy err
  end.

Definition TftPutLine (pscr : screen_control_t) (x0 y0 x1 y1 : Z)
    : screen_control_t :=
  if (x0 <? 0) || (y0 <? 0) || (x1 <? 0) || (y1 <? 0) then pscr
  else if (x0 >? PIX_WIDTH) || (y0 >? PIX_HEIGHT)
          || (x1 >? PIX_WIDTH) || (y1 >? PIX_HEIGHT) then pscr
  else
    let sx := if x0 <? x1 then 1 else -1 in
    let sy := if y0 <? y1 then 1 else -1 in
    let dx := if x1 >? x0 then x1 - x0 else x0 - x1 in
    let dy := if y1 >? y0 then y1 - y0 else y0 - y1 in
    let err := Z.quot (if dx >? dy then dx else - dy) 2 in
    put_line_loop 1000 pscr x0 y0 x1 y1 sx sy dx dy err.

(** [TftClearRect8]: for each of the eight pixel rows, the 32-bit word
    that holds the first pixel of the block's row is stored as 0. *)
Definition TftClearRect8 (pscr : screen_control_t) (x y : Z)
    : screen_control_t :=
  let pix :=
    for_all (fun j pix =>
               let shft := Z.shiftl x 3 + (j + Z.shiftl y 3) * PIX_WIDTH in
               wr pix (Z.shiftr shft 5) 0)
            (range 0 8) (mpPixBuffer pscr) in
  let pbox := x + TEXT_WIDTH * y in
  mkScreen (mCursorX pscr) (mCursorY pscr) (mCanvasPaper pscr)
           (mCanvasInk pscr) pix
           (wr (mpColorBuffer pscr) pbox
               (Z.lor (rd (mpColorBuffer pscr) pbox) (Z.shiftl 1 6))).

Section Font.

(** [font_8x8.h] is not part of the sources at hand: the glyph table
    [kFONT_] (two header bytes, then eight bytes per character from 0x20)
    is a parameter. *)
Variable kFONT_ : list Z.

(** The glyph bit the sources test for column [i] of row [j]. *)
Definition glyph_bit (chr j i : Z) : bool :=
  negb (Z.land (Z.shiftr (rd kFONT_ (2 + 8 * chr + j)) (8 - i)) 1 =? 0).

(** [TftPutChar] *)
Definition TftPutChar (pscr : screen_control_t) (x y paper ink chr : Z)
    : screen_control_t :=
  if (chr >? 0x7E) || (chr <? 0x20) then pscr
  else
    let chr := chr - 0x20 in
    let x_pix := Z.shiftl x 3 in
    let y_pix := Z.shiftl y 3 in
    let pix :=
      for_all (fun j pix =>
                 let bit_line := (y_pix + j) * PIX_WIDTH + x_pix in
                 for_all (fun i pix =>
                            if glyph_bit chr j i
                            then SET_DATA_BIT pix (bit_line + i)
                            else CLR_DATA_BIT pix (bit_line + i))
                         (range 0 8) pix)
              (range 0 8) (mpPixBuffer pscr) in
    let pbox := x + TEXT_WIDTH * y in
    mkScreen (mCursorX pscr) (mCursorY pscr) (mCanvasPaper pscr)
             (mCanvasInk pscr) pix
             (wr (mpColorBuffer pscr) pbox
                 (put_attr (rd (mpColorBuffer pscr) pbox) paper ink)).

(** [TftPutString]: one round of the loop per character up to the
    terminating 0. *)
Definition put_string_step (beyond : list Z) (top_y bot_y paper ink : Z)
    (pscr : screen_control_t) (ch : Z) : screen_control_t :=
  let pscr :=
    if mCursorY pscr >=? bot_y
    then
      let s := TftScrollVerticalZone beyond pscr top_y bot_y in
      with_cursor s (mCursorX s) (to_int16 (mCursorY s - 1))
    else pscr in
  if (ch =? 10) || (ch =? 13)
  then with_cursor pscr 0 (to_int16 (mCursorY pscr + 1))
  else
    let pscr := TftPutChar pscr (mCursorX pscr) (mCursorY pscr) paper ink ch in
    let cx := to_int16 (mCursorX pscr + 1) in
    if cx >=? TEXT_WIDTH
    then with_cursor pscr 0 (to_int16 (mCursorY pscr + 1))
    else with_cursor pscr cx (mCursorY pscr).

Fixpoint TftPutString (beyond : list Z) (pscr : screen_control_t)
    (str : list Z) (top_y bot_y paper ink : Z) : screen_control_t :=
  match str with
  | [] => pscr
  | ch :: rest =>
      if ch =? 0 then pscr
      else TftPutString beyond
             (put_string_step beyond top_y bot_y paper ink pscr ch)
             rest top_y bot_y paper ink
  end.

(** [TftPutTextLabel]: one glyph at pixel position [(x_pix, y_pix)]. *)
Definition put_label_glyph (over : bool) (chr x_pix y_pix : Z)
    (pscr : screen_control_t) : screen_control_t :=
  let '(pix, cb) :=
    for_all (fun j (st : list Z * list Z) =>
               let bit_line := (y_pix + j) * PIX_WIDTH + x_pix in
               let blk_line := TEXT_WIDTH * Z.shiftr (y_pix + j) 3 in
               for_all (fun i (st : list Z * list Z) =>
                          let '(pix, cb) := st in
                          let pix :=
                            if glyph_bit chr j i
                            then SET_DATA_BIT pix (bit_line + i)
                            else if over
                                 then CLR_DATA_BIT pix (bit_line + i)
                                 else pix in
                          let k := Z.shiftr (x_pix + i) 3 + blk_line in
                          (pix, wr cb k (Z.lor (rd cb k) (Z.shiftl 1 6))))
                       (range 0 8) st)
            (range 0 8) (mpPixBuffer pscr, mpColorBuffer pscr) in
  mkScreen (mCursorX pscr) (mCursorY pscr) (mCanvasPaper pscr)
           (mCanvasInk pscr) pix cb.

Fixpoint put_label_loop (over : bool) (pstr : list Z) (max_len : nat)
    (x_pix y_pix : Z) (pscr : screen_control_t) : screen_control_t :=
  match pstr, max_len with
  | chr :: rest, S max_len' =>
      if chr =? 0 then pscr
      else if (chr >? 0x7E) || (chr <? 0x20) then pscr
      else put_label_loop over rest max_len' (x_pix + 8) y_pix
             (put_label_glyph over (chr - 0x20) x_pix y_pix pscr)
  | _, _ => pscr
  end.

(** [TftPutTextLabel].  The guard bounds the position from above only.
    At a position that is not negative every store of a glyph is inside
    the two buffers; at a negative one the C stores can fall before the
    pixel plane, which the arrays of the model do not cover: the model
    describes labels at positions that are not negative. *)
Definition TftPutTextLabel (pscr : screen_control_t) (pstr : list Z)
    (x_pix y_pix : Z) (over : bool) : screen_control_t :=
  if (x_pix >? PIX_WIDTH - 8) || (y_pix >? PIX_HEIGHT - 8) then pscr
  else
    put_label_loop over pstr (Z.to_nat (Z.shiftr (PIX_WIDTH - x_pix) 3))
                   x_pix y_pix pscr.

End Font.

(** *** Vocabulary of the statements *)

(** Whether block [k] of the colour buffer awaits an update: the test of
    the selective write. *)
Definition need_update (cb : list Z) (k : Z) : bool :=
  negb (Z.land (Z.shiftr (rd cb k) 6) 1 =? 0).

(** Ink and paper colour indices of an attribute byte. *)
Definition ink_of (box : Z) : Z := Z.land box 7.
Definition paper_of (box : Z) : Z := Z.land (Z.shiftr box 3) 7.

(** Pixel [(x, y)] of the plane, and the block it belongs to. *)
Definition pixel_at (pscr : screen_control_t) (x y : Z) : Z :=
  GET_DATA_BIT (mpPixBuffer pscr) (x + y * PIX_WIDTH).

Definition block_of (x y : Z) : Z := Z.shiftr x 3 + Z.shiftr y 3 * TEXT_WIDTH.

(** The body of the selective write's inner loop at block [c]. *)
Definition cell_body (c : Z * Z) (st : scan_state) : flow scan_state Z :=
  selective_cell (fst c) (snd c) st.

(** The blocks as (row, column) pairs in the order of the scan, the flat
    index of a block, and the blocks that await an update. *)
Definition blocks : list (Z * Z) :=
  list_prod (range 0 TEXT_HEIGHT) (range 0 TEXT_WIDTH).

Definition idx (c : Z * Z) : Z := fst c * TEXT_WIDTH + snd c.

Definition dirty_cells (cb : list Z) (cs : list (Z * Z)) : list (Z * Z) :=
  filter (fun c => need_update cb (idx c)) cs.

Definition pending (pscr : screen_control_t) : list (Z * Z) :=
  dirty_cells (mpColorBuffer pscr) blocks.

(** The colour buffer with the `need update' bit of the given blocks
    cleared and every other bit kept. *)
Definition clear_update (cb : list Z) (k : Z) : list Z :=
  wr cb k (Z.land (rd cb k) (Z.lnot (Z.shiftl 1 6))).

Definition clear_cells (cb : list Z) (ws : list (Z * Z)) : list Z :=
  fold_left (fun cb c => clear_update cb (idx c)) ws cb.

Definition flush_blocks (pscr : screen_control_t) (ws : list (Z * Z))
    : screen_control_t :=
  with_color pscr (clear_cells (mpColorBuffer pscr) ws).

(** What the transport receives when the given blocks are sent, one after
    the other, from [pscr]. *)
Definition out_blocks (pscr : screen_control_t) (ws : list (Z * Z))
    : list spi_event :=
  concat (map (fun c => snd (TftSymbolWrite pscr (snd c) (fst c))) ws).

(** The attribute byte of the block in text row [j], column [i]. *)
Definition attr_at (pscr : screen_control_t) (j i : Z) : Z :=
  rd (mpColorBuffer pscr) (j * TEXT_WIDTH + i).

(** The dirty-flag invariant between the screen before and after a drawing
    operation: a block with a pixel or a colour that changed awaits an
    update. *)
Definition dirty_invariant (s s' : screen_control_t) : Prop :=
  forall x y, 0 <= x < PIX_WIDTH -> 0 <= y < PIX_HEIGHT ->
    pixel_at s' x y <> pixel_at s x y
    \/ ink_of (rd (mpColorBuffer s') (block_of x y))
       <> ink_of (rd (mpColorBuffer s) (block_of x y))
    \/ paper_of (rd (mpColorBuffer s') (block_of x y))
       <> paper_of (rd (mpColorBuffer s) (block_of x y)) ->
    need_update (mpColorBuffer s') (block_of x y) = true.

(** A drawing step from buffers [(pix, cb)] to [(pix', cb')] is tracked
    when it clears no update flag and every block with a changed pixel or
    colour awaits an update afterwards. *)
Definition tracked_bufs (pix cb pix' cb' : list Z) : Prop :=
  (forall k, need_update cb k = true -> need_update cb' k = true)
  /\ (forall x y, 0 <= x < PIX_WIDTH -> 0 <= y < PIX_HEIGHT ->
        GET_DATA_BIT pix' (x + y * PIX_WIDTH)
        <> GET_DATA_BIT pix (x + y * PIX_WIDTH)
        \/ ink_of (rd cb' (block_of x y)) <> ink_of (rd cb (block_of x y))
        \/ paper_of (rd cb' (block_of x y)) <> paper_of (rd cb (block_of x y)) ->
        need_update cb' (block_of x y) = true).

Definition tracked (s s' : screen_control_t) : Prop :=
  tracked_bufs (mpPixBuffer s) (mpColorBuffer s)
               (mpPixBuffer s') (mpColorBuffer s').

(** The buffers have their declared sizes. *)
Definition wf_bufs (pix cb : list Z) : Prop :=
  length pix = Z.to_nat PIX_W32COUNT /\ length cb = Z.to_nat TEXT_CHARCOUNT.

(** The cursor is inside the text area and not below row [bot_y]. *)
Definition cursor_ok (bot_y : Z) (s : screen_control_t) : Prop :=
  0 <= mCursorX s < TEXT_WIDTH /\ 0 <= mCursorY s <= bot_y.

(** The state of the line loop: [rx] and [ry] are the distances still to
    go to [(x1, y1)], and the error term is tied to them. *)
Definition line_inv (x1 y1 sx sy dx dy err0 x0 y0 err : Z) : Prop :=
  let rx := sx * (x1 - x0) in
  let ry := sy * (y1 - y0) in
  0 <= rx <= dx /\ 0 <= ry <= dy
  /\ err = err0 + dy * rx - dx * ry
  /\ (dy < dx -> 0 <= err < dx)
  /\ (dx <= dy -> - dy < err <= 0 \/ dy = 0).

(** *** Sample inputs *)

(** The screen of the demo after [TftClearScreenBuffer (.., kBlack, kRed)]
    with canvas colours black and magenta. *)
Definition screen_demo : screen_control_t :=
  Eval vm_compute in
  TftClearScreenBuffer
    (mkScreen 0 0 kBlack kMagenta (replicate (Z.to_nat PIX_W32COUNT) 0)
              (replicate (Z.to_nat TEXT_CHARCOUNT) 0))
    kBlack kRed.

(** The same after a complete flush: no block awaits an update. *)
Definition screen_idle : screen_control_t :=
  Eval vm_compute in
  snd (fst (TftFullScreenSelectiveWrite screen_demo 10000)).

(** One yellow pixel at (8, 0), flushed. *)
Definition screen_dot : screen_control_t :=
  Eval vm_compute in
  snd (fst (TftFullScreenSelectiveWrite
              (TftPutPixel screen_idle 8 0 kBlack kYellow) 10000)).

(** ** What the display receives *)

(** The colour word the display receives for pixel [(x, y)]: the palette
    entry of the block's ink where the pixel is set, of its paper where it
    is clear. *)
Definition sent_color (pscr : screen_control_t) (x y : Z) : Z :=
  let box := rd (mpColorBuffer pscr) (block_of x y) in
  if pixel_at pscr x y =? 0
  then rd spPalette (paper_of box)
  else rd spPalette (ink_of box).

(** The blocks whose attribute byte [TftFullScreenWrite] visits while it
    sends pixel row [j], one visit per pixel, and over the whole screen. *)
Definition row_visits (j : Z) : list (Z * Z) :=
  map (fun i => (Z.shiftr j 3, Z.shiftr i 3)) (range 0 PIX_WIDTH).

Definition screen_visits : list (Z * Z) :=
  concat (map row_visits (range 0 PIX_HEIGHT)).

(** What the transport is to receive for the block in text row [fst c],
    column [snd c], written out event by event: the column command 0x2A
    with the first and the last pixel column of the block, the page
    command 0x2B with its first and last pixel row, each as two bytes,
    high byte first, the write command 0x2C, and then 8 rows of 8 colour
    words, the word of a pixel being the palette entry of the block's ink
    where the pixel is set and of its paper where it is clear. *)
Definition block_image (pscr : screen_control_t) (c : Z * Z)
    : list spi_event :=
  let x := 8 * snd c in
  let y := 8 * fst c in
  [ SetCommand 0x2A;
    CommandParam (x / 256 mod 256); CommandParam (x mod 256);
    CommandParam ((x + 7) / 256 mod 256); CommandParam ((x + 7) mod 256);
    SetCommand 0x2B;
    CommandParam (y / 256 mod 256); CommandParam (y mod 256);
    CommandParam ((y + 7) / 256 mod 256); CommandParam ((y + 7) mod 256);
    SetCommand 0x2C ]
  ++ map (fun j =>
            WriteData (map (fun i => sent_color pscr (x + i) (y + j))
                           (range 0 8)))
         (range 0 8).

End Ili9341.

(** ** msp2807_touch.h, msp2807_touch.c *)

Module Touch.

(** [int] arithmetic of the filter expression. *)
Definition add32 (a b : Z) : Z := wrap32 (a + b).
Definition sub32 (a b : Z) : Z := wrap32 (a - b).
Definition shl32 (a n : Z) : Z := wrap32 (Z.shiftl a n).
(** [>>] on a signed [int] is an arithmetic shift on the target. *)
Definition sar32 (a n : Z) : Z := Z.shiftr a n.

(** [touch_hwconfig_t] without the SPI port handle. *)
Record touch_hwconfig_t : Type := mkTouchHW {
  mGPIO_miso : Z;
  mGPIO_cs : Z;
  mGPIO_sck : Z;
  mGPIO_mosi : Z;
  mGPIO_ispressed : Z
}.

(** [touch_control_t]; a null [mpHWConfig] is [None].  [mZ] is never
    accessed by the sources. *)
Record touch_control_t : Type := mkTouch {
  mpHWConfig : option touch_hwconfig_t;
  mIsPressed : bool;
  mTmOfLastTouch : Z;
  mIsProcessed : bool;
  mX : Z;
  mY : Z;
  mXf : Z;
  mYf : Z;
  mkTmMinFlick : Z;
  mkTmLongFlick : Z;
  mkBetaShft : Z
}.

(** What the hardware presents during one call: the level of every GPIO
    pin, the two halves of the microsecond timer, and the byte the touch
    controller answers to the [k]-th SPI read of the call. *)
Record touch_hw : Type := mkTouchIn {
  gpio_get : Z -> bool;
  timelr : Z;
  timehr : Z;
  spi_in : nat -> Z
}.

(** [spi_read_blocking] of one byte; [pos] counts the bytes read so far. *)
Definition spi_read (hw : touch_hw) (pos : nat) : Z * nat :=
  (wrapu 8 (spi_in hw pos), S pos).

(** [TouchReadRegisters]: two command/answer rounds, X then Y. *)
Definition TouchReadRegisters (hw : touch_hw) (pcontrol : touch_control_t)
    (pos : nat) : touch_control_t * nat :=
  let '(res0, pos) := spi_read hw pos in
  let '(res1, pos) := spi_read hw pos in
  (mkTouch (mpHWConfig pcontrol) (mIsPressed pcontrol)
           (mTmOfLastTouch pcontrol) true res0 res1
           (mXf pcontrol) (mYf pcontrol)
           (mkTmMinFlick pcontrol) (mkTmLongFlick pcontrol)
           (mkBetaShft pcontrol),
   pos).

Definition with_time (c : touch_control_t) (tm : Z) : touch_control_t :=
  mkTouch (mpHWConfig c) (mIsPressed c) tm (mIsProcessed c) (mX c) (mY c)
          (mXf c) (mYf c) (mkTmMinFlick c) (mkTmLongFlick c) (mkBetaShft c).

Definition with_filtered (c : touch_control_t) (xf yf : Z) : touch_control_t :=
  mkTouch (mpHWConfig c) (mIsPressed c) (mTmOfLastTouch c) (mIsProcessed c)
          (mX c) (mY c) xf yf (mkTmMinFlick c) (mkTmLongFlick c)
          (mkBetaShft c).

(** The update of one filtered coordinate:
    [f += ((raw << 14) - f + (1 << (beta - 1))) >> beta]. *)
Definition filter_step (beta raw f : Z) : Z :=
  add32 f (sar32 (add32 (sub32 (shl32 raw 14) f) (shl32 1 (beta - 1))) beta).

(** [ktm64_now - pcontrol->mTmOfLastTouch > threshold]: the difference is
    taken in [uint64_t] and the [int] threshold is converted to it. *)
Definition elapsed (now last : Z) : Z := wrapu 64 (now - last).
Definition exceeds (now last threshold : Z) : bool :=
  elapsed now last >? wrapu 64 threshold.

Definition ktm64_now (hw : touch_hw) : Z :=
  Z.lor (wrapu 64 (Z.shiftl (wrapu 32 (timehr hw)) 32)) (wrapu 32 (timelr hw)).

(** [CheckTouch]: status, control block afterwards, number of bytes read
    from the touch controller. *)
Definition CheckTouch (pcontrol : option touch_control_t) (hw : touch_hw)
    : Z * option touch_control_t * nat :=
  match pcontrol with
  | None => (-1, None, O)
  | Some c =>
      match mpHWConfig c with
      | Some cfg =>
          if mkBetaShft c >? 0 then
            let kb_ispressed := gpio_get hw (mGPIO_ispressed cfg) in
            if negb kb_ispressed then
              let now := ktm64_now hw in
              let '(c, pos) :=
                if exceeds now (mTmOfLastTouch c) (mkTmLongFlick c) then
                  let '(c, pos) := TouchReadRegisters hw c O in
                  let c := with_time c now in
                  (with_filtered c (shl32 (mX c) 14) (shl32 (mY c) 14), pos)
                else (c, O) in
              let '(c, pos) :=
                if exceeds now (mTmOfLastTouch c) (mkTmMinFlick c) then
                  let '(c, pos) := TouchReadRegisters hw c pos in
                  let c := with_time c now in
                  (with_filtered c
                     (filter_step (mkBetaShft c) (mX c) (mXf c))
                     (filter_step (mkBetaShft c) (mY c) (mYf c)),
                   pos)
                else (c, pos) in
              (0, Some c, pos)
            else (1, Some c, O)
          else (-2, Some c, O)
      | None => (-2, Some c, O)
      end
  end.

(** *** Vocabulary of the statements *)

(** The press line is active low. *)
Definition pressed (c : touch_control_t) (hw : touch_hw) : bool :=
  match mpHWConfig c with
  | Some cfg => negb (gpio_get hw (mGPIO_ispressed cfg))
  | None => false
  end.

(** The configuration [CheckTouch] accepts. *)
Definition valid_config (pcontrol : option touch_control_t) : bool :=
  match pcontrol with
  | Some c =>
      match mpHWConfig c with
      | Some _ => mkBetaShft c >? 0
      | None => false
      end
  | None => false
  end.

(** Whether a call took a sample: it read the touch controller. *)
Definition sampled (r : Z * option touch_control_t * nat) : bool :=
  negb (snd r =? 0)%nat.

(** The filter update in unbounded integers, as the formula reads. *)
Definition filter_formula (beta raw f : Z) : Z :=
  f + Z.shiftr (Z.shiftl raw 14 - f + Z.shiftl 1 (beta - 1)) beta.

(** The value the filter aims at, [raw << 14], and the rounding band
    around it in which [(raw << 14) - f + (1 << (beta - 1))] shifts to 0. *)
Definition target (raw : Z) : Z := Z.shiftl raw 14.

Definition dead_band (beta raw f : Z) : Prop :=
  - 2 ^ (beta - 1) <= target raw - f < 2 ^ (beta - 1).

Definition dead_band_dec (beta raw f : Z)
    : {dead_band beta raw f} + {~ dead_band beta raw f}.
Proof.
  unfold dead_band.
  destruct (Z_le_dec (- 2 ^ (beta - 1)) (target raw - f));
    destruct (Z_lt_dec (target raw - f) (2 ^ (beta - 1)));
    (left; lia) || (right; lia).
Defined.

(** Filtered values for which the update expression does not overflow. *)
Definition in_range (f : Z) : Prop := - 2 ^ 30 <= f <= 2 ^ 30.

(** A number of rounds after which the filter has settled, for 32-bit
    values. *)
Definition settle_bound (beta : Z) : Z := 2 ^ beta * (32 - beta).

(** [n] rounds of the filter on a constant raw sample. *)
Fixpoint filter_iter (n : nat) (beta raw f : Z) : Z :=
  match n with
  | O => f
  | S n' => filter_iter n' beta raw (filter_step beta raw f)
  end.

(** *** Sample inputs *)

Definition hw_config0 : touch_hwconfig_t := mkTouchHW 12 13 10 11 15.

(** A control block as [TouchInitCtl (.., 1000, 50000, 5)] leaves it, with
    a sample taken at time 100000 still waiting to be consumed. *)
Definition control0 : touch_control_t :=
  mkTouch (Some hw_config0) false 100000 true 40 50
          (Z.shiftl 40 14) (Z.shiftl 50 14) 1000 50000 5.

(** The pen is up (the line is high) at time 100500. *)
Definition hw_released : touch_hw :=
  mkTouchIn (fun _ => true) 100500 0 (fun _ => 0).

(** The pen is down at time 100500, within the min-flick window. *)
Definition hw_pressed_soon : touch_hw :=
  mkTouchIn (fun _ => false) 100500 0 (fun _ => 77).

(** The pen is down at time 160000, past the long-press threshold. *)
Definition hw_pressed_late : touch_hw :=
  mkTouchIn (fun _ => false) 160000 0 (fun k => if (k =? 0)%nat then 41 else 52).



(** ** Initialisation and successive polls *)

(** [TouchInitCtl].  The [memset] covers [sizeof (pcontrol)] bytes, the
    size of a pointer: the field [mpHWConfig], which is assigned next.  The
    three constants are stored through casts; the other fields keep what
    the memory held. *)
Definition TouchInitCtl (pcontrol : touch_control_t)
    (phwconfig : option touch_hwconfig_t)
    (min_flick_us long_press_us beta : Z) : touch_control_t :=
  mkTouch phwconfig (mIsPressed pcontrol) (mTmOfLastTouch pcontrol)
          (mIsProcessed pcontrol) (mX pcontrol) (mY pcontrol)
          (mXf pcontrol) (mYf pcontrol) min_flick_us long_press_us beta.

(** Successive polls of one control block, one per entry of [ticks]: the
    statuses, and the control block at the end. *)
Fixpoint polls (c : touch_control_t) (ticks : list touch_hw)
    : list Z * touch_control_t :=
  match ticks with
  | [] => ([], c)
  | hw :: rest =>
      match CheckTouch (Some c) hw with
      | (status, Some c', _) =>
          let '(l, c'') := polls c' rest in (status :: l, c'')
      | (status, None, _) => ([status], c)
      end
  end.

(** The filtered coordinates are within the range of a raw sample. *)
Definition filtered_ok (c : touch_control_t) : Prop :=
  0 <= mXf c <= 255 * 2 ^ 14 /\ 0 <= mYf c <= 255 * 2 ^ 14.

End Touch.

(** ** msp2807_calibration.h, msp2807_calibration.c *)

Module Calibration.

(** [float] is IEEE binary32 and [double] binary64, both with rounding to
    nearest even, as specified by [SpecFloat]. *)
Definition float : Type := spec_float.

Definition fadd : float -> float -> float := SFadd 24 128.
Definition fsub : float -> float -> float := SFsub 24 128.
Definition fmul : float -> float -> float := SFmul 24 128.
Definition fdiv : float -> float -> float := SFdiv 24 128.

(** [(float) z] for an integer [z]. *)
Definition of_int (z : Z) : float := binary_normalize 24 128 z 0 false.

(** The literals [.0f], [1.f], [.5f] and [1024.f]. *)
Definition f0 : float := S754_zero false.
Definition f1 : float := of_int 1.
Definition fhalf : float := binary_normalize 24 128 1 (-1) false.
Definition f1024 : float := of_int 1024.

(** A [float] promoted to [double]: the same number. *)
Definition to_double (x : float) : spec_float :=
  match x with
  | S754_finite s m e =>
      binary_normalize 53 1024 (cond_Zopp s (Zpos m)) e false
  | _ => x
  end.

(** The [double] literal [1e-9]. *)
Definition eps : spec_float :=
  SFdiv 53 1024 (binary_normalize 53 1024 1 0 false)
                (binary_normalize 53 1024 1000000000 0 false).

(** [fabs (x) < 1e-9], evaluated in [double]. *)
Definition below_eps (x : float) : bool := SFltb (SFabs (to_double x)) eps.

(** [(int16_t) x]: the fraction is discarded; a value that does not fit
    is undefined in C and wraps here, as do infinities and NaN to 0. *)
Definition truncate (x : float) : Z :=
  match x with
  | S754_finite s m e =>
      cond_Zopp s (if 0 <=? e then Zpos m * 2 ^ e else Zpos m / 2 ^ (- e))
  | _ => 0
  end.

Definition float_to_int16 (x : float) : Z :=
  (truncate x + 2 ^ 15) mod 2 ^ 16 - 2 ^ 15.

(** [calibration_mat_t] *)
Record calibration_mat_t : Type := mkMat {
  KX1 : float; KX2 : float; KX3 : float;
  KY1 : float; KY2 : float; KY3 : float
}.

(** [TouchTransformCoords]: the two assignments, in order, on the pair
    [( *Px, *Py )]. *)
Definition TouchTransformCoords (pcmat : calibration_mat_t) (Px Py : Z)
    : Z * Z :=
  let d1024 := fdiv f1 f1024 in
  let Px :=
    float_to_int16
      (fadd (fadd (fadd (fmul (fmul d1024 (KX1 pcmat)) (of_int Px))
                        (fmul (fmul d1024 (KX2 pcmat)) (of_int Py)))
                  (KX3 pcmat))
            fhalf) in
  let Py :=
    float_to_int16
      (fadd (fadd (fadd (fmul (fmul d1024 (KY1 pcmat)) (of_int Px))
                        (fmul (fmul d1024 (KY2 pcmat)) (of_int Py)))
                  (KY3 pcmat))
            fhalf) in
  (Px, Py).

(** The transformation as the specification words it: each output from
    the original pair. *)
Definition transform_of_original (pcmat : calibration_mat_t) (Px Py : Z)
    : Z * Z :=
  let d1024 := fdiv f1 f1024 in
  (float_to_int16
     (fadd (fadd (fadd (fmul (fmul d1024 (KX1 pcmat)) (of_int Px))
                       (fmul (fmul d1024 (KX2 pcmat)) (of_int Py)))
                 (KX3 pcmat))
           fhalf),
   float_to_int16
     (fadd (fadd (fadd (fmul (fmul d1024 (KY1 pcmat)) (of_int Px))
                       (fmul (fmul d1024 (KY2 pcmat)) (of_int Py)))
                 (KY3 pcmat))
           fhalf)).

(** The local arrays [a], [b], [c], [d] of three [float]s each. *)
Record sums : Type := mkSums {
  a0 : float; a1 : float; a2 : float;
  b0 : float; b1 : float; b2 : float;
  c0 : float; c1 : float; c2 : float;
  d0 : float; d1 : float; d2 : float
}.

(** The points are [int16_t] arrays [x0, y0, x1, y1, ...]. *)
Definition point (p : list Z) (k : Z) : float := of_int (rd p k).

(** [npoints == 3]: the arrays hold the three points themselves. *)
Definition load3 (pReferencePoint pSamplePoint : list Z) : sums :=
  mkSums (point pSamplePoint 0) (point pSamplePoint 2) (point pSamplePoint 4)
         (point pSamplePoint 1) (point pSamplePoint 3) (point pSamplePoint 5)
         (point pReferencePoint 0) (point pReferencePoint 2)
         (point pReferencePoint 4)
         (point pReferencePoint 1) (point pReferencePoint 3)
         (point pReferencePoint 5).

(** [npoints > 3]: one round of the accumulation loop for point [i]. *)
Definition accumulate_point (pReferencePoint pSamplePoint : list Z)
    (i : Z) (s : sums) : sums :=
  let ixl := Z.shiftl i 1 in
  let sx := point pSamplePoint (ixl + 0) in
  let sy := point pSamplePoint (ixl + 1) in
  let rx := point pReferencePoint (ixl + 0) in
  let ry := point pReferencePoint (ixl + 1) in
  let a2' := fadd (a2 s) sx in
  let b2' := fadd (b2 s) sy in
  let c2' := fadd (c2 s) rx in
  let d2' := fadd (d2 s) ry in
  let a0' := fadd (a0 s) (fmul sx sx) in
  let a1' := fadd (a1 s) (fmul sx sy) in
  let b0' := a1' in
  let b1' := fadd (b1 s) (fmul sy sy) in
  let c0' := fadd (c0 s) (fmul sx rx) in
  let c1' := fadd (c1 s) (fmul sy rx) in
  let d0' := fadd (d0 s) (fmul sx ry) in
  let d1' := fadd (d1 s) (fmul sy ry) in
  mkSums a0' a1' a2' b0' b1' b2' c0' c1' c2' d0' d1' d2'.

Definition accumulate (pReferencePoint pSamplePoint : list Z) (npoints : Z)
    : sums :=
  for_all (accumulate_point pReferencePoint pSamplePoint) (range 0 npoints)
          (mkSums f0 f0 f0 f0 f0 f0 f0 f0 f0 f0 f0 f0).

(** The divisions by the coordinate sums and the scaling by [1 / npoints]. *)
Definition normalize (fnpointsM1 : float) (s : sums) : sums :=
  mkSums (fdiv (a0 s) (a2 s)) (fdiv (a1 s) (b2 s)) (fmul (a2 s) fnpointsM1)
         (fdiv (b0 s) (a2 s)) (fdiv (b1 s) (b2 s)) (fmul (b2 s) fnpointsM1)
         (fdiv (c0 s) (a2 s)) (fdiv (c1 s) (b2 s)) (fmul (c2 s) fnpointsM1)
         (fdiv (d0 s) (a2 s)) (fdiv (d1 s) (b2 s)) (fmul (d2 s) fnpointsM1).

(** [k = (a[0]-a[2])*(b[1]-b[2])-(a[1]-a[2])*(b[0]-b[2])] *)
Definition determinant (s : sums) : float :=
  fsub (fmul (fsub (a0 s) (a2 s)) (fsub (b1 s) (b2 s)))
       (fmul (fsub (a1 s) (a2 s)) (fsub (b0 s) (b2 s))).

(** The six coefficients from the arrays and [kM1 = 1.f / k]. *)
Definition coefficients (s : sums) (kM1 : float) : calibration_mat_t :=
  let lin u0 u1 u2 :=
    fmul (fsub (fmul (fsub u0 u2) (fsub (b1 s) (b2 s)))
               (fmul (fsub u1 u2) (fsub (b0 s) (b2 s)))) kM1 in
  let lin2 u0 u1 u2 :=
    fmul (fsub (fmul (fsub u1 u2) (fsub (a0 s) (a2 s)))
               (fmul (fsub u0 u2) (fsub (a1 s) (a2 s)))) kM1 in
  let off u0 u1 u2 :=
    fmul (fadd (fadd (fmul (b0 s) (fsub (fmul (a2 s) u1) (fmul (a1 s) u2)))
                     (fmul (b1 s) (fsub (fmul (a0 s) u2) (fmul (a2 s) u0))))
               (fmul (b2 s) (fsub (fmul (a1 s) u0) (fmul (a0 s) u1)))) kM1 in
  mkMat (lin (c0 s) (c1 s) (c2 s)) (lin2 (c0 s) (c1 s) (c2 s))
        (off (c0 s) (c1 s) (c2 s))
        (lin (d0 s) (d1 s) (d2 s)) (lin2 (d0 s) (d1 s) (d2 s))
        (off (d0 s) (d1 s) (d2 s)).

(** [CalculateCalibrationMat]: the status and the matrix [*pcmat] after
    the call. *)
Definition CalculateCalibrationMat (pReferencePoint pSamplePoint : list Z)
    (npoints : Z) (pcmat : calibration_mat_t) : Z * calibration_mat_t :=
  if npoints <? 3 then (-1, pcmat)
  else
    let fnpointsM1 := fdiv f1 (of_int npoints) in
    let finish (s : sums) :=
      let k := determinant s in
      if below_eps k then (-3, pcmat)
      else (npoints, coefficients s (fdiv f1 k)) in
    if npoints =? 3 then finish (load3 pReferencePoint pSamplePoint)
    else
      let s := accumulate pReferencePoint pSamplePoint npoints in
      if below_eps (a2 s) || below_eps (b2 s) then (-2, pcmat)
      else finish (normalize fnpointsM1 s).

(** *** Vocabulary of the statements *)

(** The quantities the error paths test, for [npoints > 3]: the sums of
    the sample coordinates, the sums of their squares, and the
    determinant. *)
Definition sample_sum_x (ref smp : list Z) (n : Z) : float :=
  a2 (accumulate ref smp n).
Definition sample_sum_y (ref smp : list Z) (n : Z) : float :=
  b2 (accumulate ref smp n).
Definition sample_sumsq_x (ref smp : list Z) (n : Z) : float :=
  a0 (accumulate ref smp n).
Definition sample_sumsq_y (ref smp : list Z) (n : Z) : float :=
  b1 (accumulate ref smp n).

Definition fitted_determinant (ref smp : list Z) (n : Z) : float :=
  if n =? 3 then determinant (load3 ref smp)
  else determinant (normalize (fdiv f1 (of_int n)) (accumulate ref smp n)).

(** The sums are degenerate: the test that guards the divisions. *)
Definition sums_degenerate (ref smp : list Z) (n : Z) : bool :=
  below_eps (sample_sum_x ref smp n) || below_eps (sample_sum_y ref smp n).

(** A [float] or [double] of sign [s] whose magnitude is at least 1: an
    infinity, or a finite number [m * 2 ^ e] whose mantissa has at most
    [prec] digits and reaches the bit of weight [2 ^ 0]. *)
Definition large (prec : Z) (s : bool) (x : spec_float) : Prop :=
  match x with
  | S754_infinity s' => s' = s
  | S754_finite s' m e =>
      s' = s /\ 1 <= Zdigits2 (Zpos m) + e /\ Zdigits2 (Zpos m) <= prec
  | _ => False
  end.

(** A finite number that is an integer: [m * 2 ^ e] with [e >= 0], or
    with [m] a multiple of [2 ^ (- e)]. *)
Definition integral (m e : Z) : Prop := 0 <= e \/ (2 ^ (- e) | m).

(** A sum of integers in [float]: not a number, a zero, or an integer of
    magnitude at least 1 (an infinity included). *)
Definition whole (x : spec_float) : Prop :=
  match x with
  | S754_nan | S754_zero _ | S754_infinity _ => True
  | S754_finite _ m e =>
      1 <= Zdigits2 (Zpos m) + e /\ Zdigits2 (Zpos m) <= 24
      /\ integral (Zpos m) e
  end.

(** An infinity or not a number: what a division by zero gives. *)
Definition wild (x : spec_float) : Prop :=
  match x with
  | S754_nan | S754_infinity _ => True
  | _ => False
  end.

(** *** Sample inputs *)

(** Four sample points placed symmetrically about the origin, and the
    corners of the screen as reference points. *)
Definition ref_corners : list Z := [0; 0; 240; 0; 0; 320; 240; 320].
Definition smp_symmetric : list Z := [-1; -1; 1; -1; -1; 1; 1; 1].

(** The sample points of the demo. *)
Definition smp_demo : list Z := [10; 120; 119; 119; 9; 11; 118; 12].

Definition mat_zero : calibration_mat_t := mkMat f0 f0 f0 f0 f0 f0.

(** A matrix that sends every point to [X = 100] and takes [Y] from the
    sampled [X]: [KX = (0, 0, 100)], [KY = (1024, 0, 0)]. *)
Definition mat_swap : calibration_mat_t :=
  mkMat f0 f0 (of_int 100) (of_int 1024) f0 f0.

End Calibration.

(** ** The demo program

    The generator [PRN32], the two random tests, and the point the
    touch-drawing loop of [main] plots for a sample. *)

Module Demo.
Import Ili9341 Touch Calibration.

(** [PRN32]: the xorshift generator, on a [uint32_t]. *)
Definition PRN32 (val : Z) : Z :=
  let val := Z.lxor val (wrapu 32 (Z.shiftl val 13)) in
  let val := Z.lxor val (Z.shiftr val 17) in
  Z.lxor val (wrapu 32 (Z.shiftl val 5)).

(** [TestRandomLines]: four draws of the generator give the end points of
    a line, which is drawn and flushed.  The static seed is passed in and
    returned. *)
Definition TestRandomLines (p_screen : screen_control_t) (rnd_seed : Z)
    : screen_control_t * Z * list spi_event :=
  let rnd_seed := PRN32 rnd_seed in
  let x0 := rnd_seed mod 240 in
  let rnd_seed := PRN32 rnd_seed in
  let x1 := rnd_seed mod 240 in
  let rnd_seed := PRN32 rnd_seed in
  let y0 := rnd_seed mod 320 in
  let rnd_seed := PRN32 rnd_seed in
  let y1 := rnd_seed mod 320 in
  let p_screen := TftPutLine p_screen x0 y0 x1 y1 in
  let '(_, p_screen, out) := TftFullScreenSelectiveWrite p_screen 10000 in
  (p_screen, rnd_seed, out).

(** The string literal of [TestRandomLabels], with its terminator. *)
Definition pico_rulezz : list Z :=
  [80; 105; 99; 111; 32; 82; 85; 76; 69; 90; 90; 0].

Section DemoFont.

Variable kFONT_ : list Z.

(** [TestRandomLabels]: two draws give the position of a label, which is
    drawn without overwriting and flushed. *)
Definition TestRandomLabels (p_screen : screen_control_t) (rnd_seed : Z)
    : screen_control_t * Z * list spi_event :=
  let rnd_seed := PRN32 rnd_seed in
  let x := rnd_seed mod 240 in
  let rnd_seed := PRN32 rnd_seed in
  let y := rnd_seed mod 312 in
  let p_screen := TftPutTextLabel kFONT_ p_screen pico_rulezz x y false in
  let '(_, p_screen, out) := TftFullScreenSelectiveWrite p_screen 10000 in
  (p_screen, rnd_seed, out).

End DemoFont.

(** The identity calibration: [KX = (1, 0, 0)], [KY = (0, 1, 0)]. *)
Definition mat_identity : calibration_mat_t := mkMat f1 f0 f0 f0 f1 f0.

(** The point [main] plots for a sample: each filtered coordinate is
    brought from 14 to 10 fractional bits, [(f + 8) >> 4], and the pair is
    handed to [TouchTransformCoords]. *)
Definition pen_point (pcmat : calibration_mat_t) (c : touch_control_t)
    : Z * Z :=
  let x := sar32 (add32 (mXf c) 8) 4 in
  let y := sar32 (add32 (mYf c) 8) 4 in
  TouchTransformCoords pcmat x y.

(** The coordinate [main] derives from a raw sample [v] right after a
    snap: [((v << 14) + 8) >> 4]. *)
Definition snapped (v : Z) : Z := sar32 (add32 (shl32 v 14) 8) 4.

End Demo.

(** * Part II: properties *)

Import Ili9341 Touch.

Section MachineIntegers.

Lemma wrap32_id z : INT_MIN <= z <= INT_MAX -> wrap32 z = z.
Proof.
  unfold wrap32, INT_MIN, INT_MAX. intros H.
  rewrite Z.mod_small by lia. lia.
Qed.

Lemma wrap32_range z : INT_MIN <= wrap32 z <= INT_MAX.
Proof.
  unfold wrap32, INT_MIN, INT_MAX.
  pose proof (Z.mod_pos_bound (z + 2 ^ 31) (2 ^ 32) ltac:(lia)). lia.
Qed.

Lemma wrap32_zero_iff z : wrap32 z = 0 <-> z mod 2 ^ 32 = 0.
Proof.
  unfold wrap32.
  pose proof (Z.mod_pos_bound (z + 2 ^ 31) (2 ^ 32) ltac:(lia)) as Hb.
  pose proof (Z.mod_pos_bound z (2 ^ 32) ltac:(lia)) as Hz.
  pose proof (Z.div_mod (z + 2 ^ 31) (2 ^ 32) ltac:(lia)) as E1.
  pose proof (Z.div_mod z (2 ^ 32) ltac:(lia)) as E2.
  split; intros H; lia.
Qed.

End MachineIntegers.

Section Arrays.

Lemma length_wr l i v : length (wr l i v) = length l.
Proof. unfold wr. destruct (i <? 0); [done | apply length_insert]. Qed.

Lemma rd_wr_ne l i j v : i <> j -> rd (wr l i v) j = rd l j.
Proof.
  unfold rd, wr. intros Hne.
  destruct (j <? 0) eqn:Hj; [done |].
  destruct (i <? 0) eqn:Hi; [done |].
  rewrite list_lookup_insert_ne; [done | lia].
Qed.

Lemma rd_wr_eq l i v :
  0 <= i < Z.of_nat (length l) -> rd (wr l i v) i = v.
Proof.
  unfold rd, wr. intros H.
  destruct (i <? 0) eqn:Hi; [lia |].
  rewrite list_lookup_insert_eq; [done | lia].
Qed.

Lemma rd_outside l i : Z.of_nat (length l) <= i -> rd l i = 0.
Proof.
  unfold rd. intros H. destruct (i <? 0); [done |].
  rewrite lookup_ge_None_2; [done | lia].
Qed.

Lemma rd_negative l i : i < 0 -> rd l i = 0.
Proof. unfold rd. intros H. destruct (i <? 0) eqn:E; [done | lia]. Qed.

End Arrays.

(** ** The selective write *)

Lemma for_each_app {I S R : Type} (body : I -> S -> flow S R) (l1 l2 : list I) (s : S) :
  for_each body (l1 ++ l2) s =
  match for_each body l1 s with
  | Next s' => for_each body l2 s'
  | Ret r s' => Ret r s'
  end.
Proof.
  revert s. induction l1 as [| c l1 IH]; intros s; [done |].
  cbn [app for_each]. destruct (body c s); [apply IH | done].
Qed.

Section Loops.

Context {I J S R : Type}.

Lemma for_each_row (f : I -> J -> S -> flow S R) (i : I) (cs : list J) (s : S) :
  for_each (fun c st => f (fst c) (snd c) st) (map (fun y => (i, y)) cs) s
  = for_each (f i) cs s.
Proof.
  revert s. induction cs as [| j cs IH]; intros s; [done |].
  cbn [map for_each fst snd]. destruct (f i j s); [apply IH | done].
Qed.

(** Two nested loops visit the pairs of [list_prod] in order. *)
Lemma for_each_nested (f : I -> J -> S -> flow S R)
    (rs : list I) (cs : list J) (s : S) :
  for_each (fun i st => for_each (f i) cs st) rs s
  = for_each (fun c st => f (fst c) (snd c) st) (list_prod rs cs) s.
Proof.
  revert s. induction rs as [| i rs IH]; intros s; [done |].
  cbn [list_prod for_each].
  rewrite for_each_app, for_each_row.
  destruct (for_each (f i) cs s); [apply IH | done].
Qed.

End Loops.

(** A loop without [return], one round at a time, and what every round
    keeps. *)
Lemma for_all_cons {I S : Type} (f : I -> S -> S) (i : I) (l : list I) (s : S) :
  for_all f (i :: l) s = for_all f l (f i s).
Proof. done. Qed.

Lemma for_all_ind {I S : Type} (P : S -> Prop) (f : I -> S -> S)
    (l : list I) (s : S) :
  P s -> (forall i s, P s -> P (f i s)) -> P (for_all f l s).
Proof.
  intros Hs Hf. revert s Hs.
  induction l as [| i l IH]; intros s Hs; [done |].
  rewrite for_all_cons. by apply IH, Hf.
Qed.

Section UpdateBit.

Lemma testbit_1 n : 0 <= n -> Z.testbit 1 n = (n =? 0).
Proof.
  intros Hn. destruct (Z.eqb_spec n 0) as [-> | Hne]; [done |].
  change 1 with (2 ^ 0). apply Z.pow2_bits_false. lia.
Qed.

(** [(b >> m) & 1] is bit [m] of [b]. *)
Lemma low_bit_testbit b m :
  0 <= m -> Z.land (Z.shiftr b m) 1 = Z.b2z (Z.testbit b m).
Proof.
  intros Hm. apply Z.bits_inj'. intros n Hn.
  rewrite Z.land_spec, Z.shiftr_spec, testbit_1 by lia.
  destruct (Z.eqb_spec n 0) as [-> | Hne].
  - rewrite andb_true_r, Z.add_0_l. destruct (Z.testbit b m); reflexivity.
  - rewrite andb_false_r. destruct (Z.testbit b m); cbn [Z.b2z].
    + rewrite testbit_1 by lia. destruct (Z.eqb_spec n 0); [lia | done].
    + symmetry. apply Z.bits_0.
Qed.

Lemma update_bit_testbit b :
  Z.land (Z.shiftr b 6) 1 = Z.b2z (Z.testbit b 6).
Proof. by apply low_bit_testbit. Qed.

Lemma need_update_testbit cb k :
  need_update cb k = Z.testbit (rd cb k) 6.
Proof.
  unfold need_update. rewrite update_bit_testbit.
  destruct (Z.testbit (rd cb k) 6); done.
Qed.

Lemma need_update_clear_eq cb k : need_update (clear_update cb k) k = false.
Proof.
  rewrite need_update_testbit. unfold clear_update.
  destruct (Z_lt_dec k 0) as [Hneg | Hpos].
  { rewrite rd_negative by lia. done. }
  destruct (Z_lt_dec k (Z.of_nat (length cb))) as [Hin | Hout].
  - rewrite rd_wr_eq by lia.
    rewrite Z.land_spec, Z.lnot_spec by lia.
    change (Z.testbit (Z.shiftl 1 6) 6) with true.
    apply andb_false_r.
  - rewrite rd_outside; [done |]. rewrite length_wr. lia.
Qed.

Lemma need_update_clear_ne cb k k' :
  k <> k' -> need_update (clear_update cb k) k' = need_update cb k'.
Proof.
  intros Hne. unfold need_update, clear_update. by rewrite rd_wr_ne.
Qed.

(** Clearing update bits never sets one. *)
Lemma need_update_clear_cells cb ws k :
  need_update (clear_cells cb ws) k = true -> need_update cb k = true.
Proof.
  revert cb. induction ws as [| c ws IH]; intros cb; [done |].
  cbn [clear_cells fold_left]. intros H. apply IH in H.
  destruct (Z.eq_dec (idx c) k) as [<- | Hne].
  - by rewrite need_update_clear_eq in H.
  - by rewrite need_update_clear_ne in H.
Qed.

Lemma rd_clear_cells_other cb ws k :
  k ∉ map idx ws -> rd (clear_cells cb ws) k = rd cb k.
Proof.
  revert cb. induction ws as [| c ws IH]; intros cb Hk; [done |].
  cbn [clear_cells fold_left]. cbn [map] in Hk.
  apply not_elem_of_cons in Hk as [Hne Hk].
  fold (clear_cells (clear_update cb (idx c)) ws).
  rewrite IH by done. unfold clear_update. by rewrite rd_wr_ne.
Qed.

Lemma dirty_cells_ext cb cb' cs :
  (forall c, c ∈ cs -> rd cb' (idx c) = rd cb (idx c)) ->
  dirty_cells cb' cs = dirty_cells cb cs.
Proof.
  unfold dirty_cells. induction cs as [| c cs IH]; intros H; [done |].
  assert (E : need_update cb' (idx c) = need_update cb (idx c)).
  { unfold need_update. by rewrite (H c) by apply list_elem_of_here. }
  rewrite !filter_cons, IH.
  - repeat case_decide; try done; rewrite E in *; contradiction.
  - intros c' Hc'. apply H. by apply list_elem_of_further.
Qed.

End UpdateBit.

Section SelectiveWrite.

Lemma TftSymbolWrite_state pscr c :
  fst (TftSymbolWrite pscr (snd c) (fst c))
  = with_color pscr (clear_update (mpColorBuffer pscr) (idx c)).
Proof. done. Qed.

(** What is sent for a block depends on the pixel plane and on the
    block's own attribute byte only. *)
Lemma TftSymbolWrite_out_ext p1 p2 x y :
  mpPixBuffer p1 = mpPixBuffer p2 ->
  rd (mpColorBuffer p1) (y * TEXT_WIDTH + x)
  = rd (mpColorBuffer p2) (y * TEXT_WIDTH + x) ->
  snd (TftSymbolWrite p1 x y) = snd (TftSymbolWrite p2 x y).
Proof. unfold TftSymbolWrite. cbn [snd]. intros -> ->. done. Qed.

Lemma out_blocks_ext p1 p2 ws :
  mpPixBuffer p1 = mpPixBuffer p2 ->
  (forall c, c ∈ ws ->
     rd (mpColorBuffer p1) (idx c) = rd (mpColorBuffer p2) (idx c)) ->
  out_blocks p1 ws = out_blocks p2 ws.
Proof.
  intros Hpix. unfold out_blocks.
  induction ws as [| c ws IH]; intros H; [done |].
  cbn [map concat]. f_equal.
  - apply TftSymbolWrite_out_ext; [done |]. apply H, list_elem_of_here.
  - apply IH. intros c' Hc'. by apply H, list_elem_of_further.
Qed.

Lemma dirty_cells_subset cb cs c : c ∈ dirty_cells cb cs -> c ∈ cs.
Proof. unfold dirty_cells. rewrite list_elem_of_filter. tauto. Qed.

Lemma idx_not_in c (cs : list (Z * Z)) c' :
  idx c ∉ map idx cs -> c' ∈ cs -> idx c <> idx c'.
Proof.
  intros Hn Hc' E. apply Hn. rewrite E.
  apply list_elem_of_In, in_map, list_elem_of_In, Hc'.
Qed.

(** One visit of a block that awaits no update, and of one that does. *)
Lemma cell_body_clean c pscr n out :
  need_update (mpColorBuffer pscr) (idx c) = false ->
  cell_body c (pscr, n, out) = Next (pscr, n, out).
Proof.
  unfold cell_body, selective_cell, need_update, idx. intros H.
  apply negb_false_iff in H. by rewrite H.
Qed.

Lemma cell_body_dirty c pscr n out :
  need_update (mpColorBuffer pscr) (idx c) = true ->
  cell_body c (pscr, n, out) =
  let st := (with_color pscr (clear_update (mpColorBuffer pscr) (idx c)),
             wrap32 (n - 1),
             out ++ snd (TftSymbolWrite pscr (snd c) (fst c))) in
  if wrap32 (n - 1) =? 0 then Ret 0 st else Next st.
Proof.
  unfold cell_body, selective_cell, need_update, idx. intros H.
  apply negb_true_iff in H. rewrite H. done.
Qed.

End SelectiveWrite.

Section ScanLemmas.

Lemma flush_blocks_nil pscr : flush_blocks pscr [] = pscr.
Proof. by destruct pscr. Qed.

Lemma flush_blocks_cons pscr c ws :
  flush_blocks pscr (c :: ws)
  = flush_blocks
      (with_color pscr (clear_update (mpColorBuffer pscr) (idx c))) ws.
Proof. done. Qed.

(** After a block has been sent, the blocks still to visit look the same. *)
Lemma dirty_cells_after_write cb c cs :
  idx c ∉ map idx cs ->
  dirty_cells (clear_update cb (idx c)) cs = dirty_cells cb cs.
Proof.
  intros Hc. apply dirty_cells_ext. intros c' Hc'.
  unfold clear_update. apply rd_wr_ne. by eapply idx_not_in.
Qed.

Lemma out_blocks_after_write pscr c cs ws :
  idx c ∉ map idx cs -> (forall c', c' ∈ ws -> c' ∈ cs) ->
  out_blocks (with_color pscr (clear_update (mpColorBuffer pscr) (idx c))) ws
  = out_blocks pscr ws.
Proof.
  intros Hc Hsub. apply out_blocks_ext; [done |]. intros c' Hc'.
  cbn [with_color mpColorBuffer]. unfold clear_update.
  apply rd_wr_ne. eapply idx_not_in; eauto.
Qed.

Lemma out_blocks_cons pscr c ws :
  out_blocks pscr (c :: ws)
  = snd (TftSymbolWrite pscr (snd c) (fst c)) ++ out_blocks pscr ws.
Proof. done. Qed.

Lemma elem_of_take_dirty cb cs n c :
  c ∈ take n (dirty_cells cb cs) -> c ∈ cs.
Proof.
  intros H. apply (dirty_cells_subset cb).
  rewrite <- (take_drop n (dirty_cells cb cs)). apply elem_of_app. by left.
Qed.

(** The scan with a positive budget: it stops with 0 right after the
    [n]-th block sent, and runs to the end when fewer than [n] await. *)
Lemma scan_positive cs : forall pscr n out,
  NoDup (map idx cs) -> 1 <= n <= INT_MAX ->
  for_each cell_body cs (pscr, n, out) =
  let d := dirty_cells (mpColorBuffer pscr) cs in
  if n <=? Z.of_nat (length d)
  then Ret 0 (flush_blocks pscr (take (Z.to_nat n) d), 0,
              out ++ out_blocks pscr (take (Z.to_nat n) d))
  else Next (flush_blocks pscr d, n - Z.of_nat (length d),
             out ++ out_blocks pscr d).
Proof.
  induction cs as [| c cs IH]; intros pscr n out Hnd Hn.
  { cbn. replace (n <=? Z.of_nat 0) with false
      by (symmetry; apply Z.leb_gt; lia).
    rewrite flush_blocks_nil, app_nil_r, Z.sub_0_r. done. }
  cbn [map] in Hnd. apply NoDup_cons in Hnd as [Hc Hnd].
  cbn [for_each]. cbv zeta.
  destruct (need_update (mpColorBuffer pscr) (idx c)) eqn:Hd.
  - (* the block awaits an update *)
    rewrite cell_body_dirty by done. cbv zeta.
    assert (Ed : dirty_cells (mpColorBuffer pscr) (c :: cs)
                 = c :: dirty_cells (mpColorBuffer pscr) cs).
    { unfold dirty_cells. apply filter_cons_True. by rewrite Hd. }
    rewrite Ed. cbn [length].
    rewrite wrap32_id by (unfold INT_MIN, INT_MAX in *; lia).
    replace (Z.to_nat n) with (S (Z.to_nat (n - 1))) by lia.
    cbn [take]. rewrite flush_blocks_cons, out_blocks_cons.
    destruct (Z.eqb_spec (n - 1) 0) as [E0 | Hne].
    + destruct (Z.leb_spec n (Z.of_nat (S (length (dirty_cells (mpColorBuffer pscr) cs)))));
        [| lia].
      rewrite E0. cbn [Z.to_nat take]. rewrite flush_blocks_nil. done.
    + rewrite IH by (try done; unfold INT_MAX in *; lia). cbv zeta.
      cbn [with_color mpColorBuffer].
      rewrite dirty_cells_after_write by done.
      set (d := dirty_cells (mpColorBuffer pscr) cs).
      destruct (Z.leb_spec (n - 1) (Z.of_nat (length d)));
        destruct (Z.leb_spec n (Z.of_nat (S (length d)))); try lia.
      * rewrite (out_blocks_after_write pscr c cs), <- app_assoc; [done | done |].
        intros c'. apply elem_of_take_dirty.
      * rewrite (out_blocks_after_write pscr c cs), <- app_assoc; [| done |].
        -- do 3 f_equal. lia.
        -- intros c'. apply dirty_cells_subset.
  - (* the block is clean *)
    rewrite cell_body_clean by done.
    assert (Ed : dirty_cells (mpColorBuffer pscr) (c :: cs)
                 = dirty_cells (mpColorBuffer pscr) cs).
    { unfold dirty_cells. apply filter_cons_False. rewrite Hd. intros []. }
    rewrite Ed. by apply IH.
Qed.

Lemma wrap32_pred c : wrap32 (wrap32 c - 1) = wrap32 (c - 1).
Proof.
  unfold wrap32.
  replace ((c + 2 ^ 31) mod 2 ^ 32 - 2 ^ 31 - 1 + 2 ^ 31)
    with ((c + 2 ^ 31) mod 2 ^ 32 + (-1)) by lia.
  rewrite Zplus_mod_idemp_l. f_equal. f_equal. lia.
Qed.

(** The scan with a budget that is zero or negative: the counter, decremented
    before it is tested, does not come back to zero within one scan. *)
Lemma scan_nonpositive cs : forall pscr n out,
  NoDup (map idx cs) -> n <= 0 -> - 2 ^ 32 < n - Z.of_nat (length cs) ->
  for_each cell_body cs (pscr, wrap32 n, out) =
  let d := dirty_cells (mpColorBuffer pscr) cs in
  Next (flush_blocks pscr d, wrap32 (n - Z.of_nat (length d)),
        out ++ out_blocks pscr d).
Proof.
  induction cs as [| c cs IH]; intros pscr n out Hnd Hn Hlen.
  { cbn. rewrite flush_blocks_nil, app_nil_r, Z.sub_0_r. done. }
  cbn [map] in Hnd. apply NoDup_cons in Hnd as [Hc Hnd].
  cbn [length] in Hlen. cbn [for_each]. cbv zeta.
  destruct (need_update (mpColorBuffer pscr) (idx c)) eqn:Hd.
  - rewrite cell_body_dirty by done. cbv zeta.
    assert (Ed : dirty_cells (mpColorBuffer pscr) (c :: cs)
                 = c :: dirty_cells (mpColorBuffer pscr) cs).
    { unfold dirty_cells. apply filter_cons_True. by rewrite Hd. }
    rewrite Ed. cbn [length]. rewrite wrap32_pred.
    destruct (Z.eqb_spec (wrap32 (n - 1)) 0) as [E0 | Hne].
    + apply wrap32_zero_iff in E0.
      pose proof (Z.div_mod (n - 1) (2 ^ 32) ltac:(lia)) as Hq.
      exfalso. clear - Hn Hlen E0 Hq. lia.
    + rewrite IH by (try done; lia). cbv zeta.
      cbn [with_color mpColorBuffer].
      rewrite dirty_cells_after_write by done.
      rewrite flush_blocks_cons, out_blocks_cons.
      rewrite (out_blocks_after_write pscr c cs), <- app_assoc; [| done |].
      * do 3 f_equal. apply (f_equal wrap32). lia.
      * intros c'. apply dirty_cells_subset.
  - rewrite cell_body_clean by done.
    assert (Ed : dirty_cells (mpColorBuffer pscr) (c :: cs)
                 = dirty_cells (mpColorBuffer pscr) cs).
    { unfold dirty_cells. apply filter_cons_False. rewrite Hd. intros []. }
    rewrite Ed. apply IH; [done | done | lia].
Qed.

End ScanLemmas.

Section FlushResult.

Lemma clear_cells_cons cb c ws :
  clear_cells cb (c :: ws) = clear_cells (clear_update cb (idx c)) ws.
Proof. done. Qed.

(** What still awaits an update after the first [n] waiting blocks of
    [cs] have been sent. *)
Lemma dirty_cells_after_flush cs : forall cb n,
  NoDup (map idx cs) ->
  dirty_cells (clear_cells cb (take n (dirty_cells cb cs))) cs
  = drop n (dirty_cells cb cs).
Proof.
  induction cs as [| c cs IH]; intros cb n Hnd.
  { unfold dirty_cells. rewrite !filter_nil. by rewrite drop_nil. }
  cbn [map] in Hnd. apply NoDup_cons in Hnd as [Hc Hnd].
  destruct (need_update cb (idx c)) eqn:Hd.
  - assert (Ed : dirty_cells cb (c :: cs) = c :: dirty_cells cb cs).
    { unfold dirty_cells. apply filter_cons_True. by rewrite Hd. }
    rewrite Ed. destruct n as [| n]; [done |].
    cbn [take drop]. rewrite clear_cells_cons.
    rewrite <- (dirty_cells_after_write cb c cs) by done.
    rewrite <- IH by done.
    unfold dirty_cells at 1. apply filter_cons_False.
    intros Hset. apply Is_true_true in Hset.
    apply need_update_clear_cells in Hset.
    by rewrite need_update_clear_eq in Hset.
  - assert (Ed : dirty_cells cb (c :: cs) = dirty_cells cb cs).
    { unfold dirty_cells. apply filter_cons_False. rewrite Hd. intros []. }
    rewrite Ed, <- IH by done.
    unfold dirty_cells at 1. apply filter_cons_False.
    intros Hset. apply Is_true_true in Hset.
    apply need_update_clear_cells in Hset. congruence.
Qed.

Lemma idx_blocks : map idx blocks = seqZ 0 TEXT_CHARCOUNT.
Proof. vm_compute. reflexivity. Qed.

Lemma NoDup_blocks : NoDup (map idx blocks).
Proof. rewrite idx_blocks. apply NoDup_seqZ. Qed.

Lemma length_blocks : length blocks = Z.to_nat TEXT_CHARCOUNT.
Proof. vm_compute. reflexivity. Qed.

Lemma length_pending pscr : Z.of_nat (length (pending pscr)) <= TEXT_CHARCOUNT.
Proof.
  unfold pending, dirty_cells.
  pose proof (length_filter (fun c => need_update (mpColorBuffer pscr) (idx c))
                blocks) as H.
  rewrite length_blocks in H. change TEXT_CHARCOUNT with 1200 in *. lia.
Qed.

(** The function in terms of the flat scan. *)
Lemma TftFullScreenSelectiveWrite_scan pscr n :
  TftFullScreenSelectiveWrite pscr n =
  match for_each cell_body blocks (pscr, n, []) with
  | Ret r (pscr', _, out) => (r, pscr', out)
  | Next (pscr', _, out) => (1, pscr', out)
  end.
Proof.
  unfold TftFullScreenSelectiveWrite.
  by rewrite (for_each_nested selective_cell).
Qed.

(** A flush leaves the pixel plane, the cursor and the canvas colours
    alone; in the colour buffer it clears the update bit of the blocks sent
    and nothing else. *)
Lemma flush_blocks_frame pscr ws :
  mpPixBuffer (flush_blocks pscr ws) = mpPixBuffer pscr /\
  mCursorX (flush_blocks pscr ws) = mCursorX pscr /\
  mCursorY (flush_blocks pscr ws) = mCursorY pscr /\
  mCanvasPaper (flush_blocks pscr ws) = mCanvasPaper pscr /\
  mCanvasInk (flush_blocks pscr ws) = mCanvasInk pscr /\
  length (mpColorBuffer (flush_blocks pscr ws)) = length (mpColorBuffer pscr).
Proof.
  repeat split. cbn [flush_blocks with_color mpColorBuffer].
  generalize (mpColorBuffer pscr). induction ws as [| c ws IH]; intros cb; [done |].
  rewrite clear_cells_cons, IH. unfold clear_update. apply length_wr.
Qed.

Lemma flush_blocks_other pscr ws k :
  k ∉ map idx ws ->
  rd (mpColorBuffer (flush_blocks pscr ws)) k = rd (mpColorBuffer pscr) k.
Proof. apply rd_clear_cells_other. Qed.

Lemma flush_blocks_sent pscr ws k :
  k ∈ map idx ws ->
  rd (mpColorBuffer (flush_blocks pscr ws)) k
  = Z.land (rd (mpColorBuffer pscr) k) (Z.lnot (Z.shiftl 1 6)).
Proof.
  cbn [flush_blocks with_color mpColorBuffer].
  generalize (mpColorBuffer pscr).
  induction ws as [| c ws IH]; intros cb Hk; [by apply elem_of_nil in Hk |].
  rewrite clear_cells_cons.
  assert (Hc : rd (clear_update cb (idx c)) (idx c)
               = Z.land (rd cb (idx c)) (Z.lnot (Z.shiftl 1 6))).
  { unfold clear_update.
    destruct (Z_lt_dec (idx c) 0) as [Hneg | Hpos].
    { by rewrite !rd_negative by lia. }
    destruct (Z_lt_dec (idx c) (Z.of_nat (length cb))) as [Hin | Hout].
    - by rewrite rd_wr_eq by lia.
    - rewrite !rd_outside; [done | lia | rewrite length_wr; lia]. }
  destruct (decide (k ∈ map idx ws)) as [Hin | Hout].
  - rewrite IH by done.
    destruct (Z.eq_dec (idx c) k) as [<- | Hne].
    + rewrite Hc, <- Z.land_assoc, Z.land_diag. done.
    + unfold clear_update. by rewrite rd_wr_ne.
  - rewrite rd_clear_cells_other by done.
    cbn [map] in Hk. apply elem_of_cons in Hk as [-> | Hk]; [done | contradiction].
Qed.

End FlushResult.

(** ** The image of a block on the transport *)

Section BlockImage.

Lemma block_of_cell x y i j :
  0 <= i < 8 -> 0 <= j < 8 ->
  block_of (8 * x + i) (8 * y + j) = y * TEXT_WIDTH + x.
Proof.
  intros Hi Hj. unfold block_of.
  rewrite !Z.shiftr_div_pow2 by lia. change (2 ^ 3) with 8.
  rewrite !(Z.mul_comm 8), !(Z.add_comm (_ * 8)), !Z.div_add, !Z.div_small by lia.
  lia.
Qed.

Lemma In_range i lo hi : In i (range lo hi) -> lo <= i < hi.
Proof.
  intros H. apply list_elem_of_In in H. unfold range in H.
  rewrite elem_of_seqZ in H. lia.
Qed.

(** The two bytes of a window coordinate. *)
Lemma window_bytes v :
  Z.land (Z.shiftr v 8) 0xFF = v / 256 mod 256 /\ Z.land v 0xFF = v mod 256.
Proof.
  change 0xFF with (Z.ones 8). rewrite !Z.land_ones by lia.
  rewrite Z.shiftr_div_pow2 by lia. done.
Qed.

(** What [TftSymbolWrite] sends for a block is the image of the block. *)
Lemma TftSymbolWrite_image pscr c :
  snd (TftSymbolWrite pscr (snd c) (fst c)) = block_image pscr c.
Proof.
  destruct c as [sym_y sym_x]. unfold TftSymbolWrite, block_image.
  cbn [fst snd]. cbv zeta.
  rewrite !Z.shiftl_mul_pow2 by lia. change (2 ^ 3) with 8.
  rewrite !(Z.mul_comm _ 8).
  unfold ILI9341_SetOutWriting.
  destruct (window_bytes (8 * sym_x)) as [-> ->].
  destruct (window_bytes (8 * sym_x + 7)) as [-> ->].
  destruct (window_bytes (8 * sym_y)) as [-> ->].
  destruct (window_bytes (8 * sym_y + 7)) as [-> ->].
  apply (f_equal (app _)).
  apply map_ext_in. intros j Hj. apply In_range in Hj.
  apply (f_equal WriteData).
  apply map_ext_in. intros i Hi. apply In_range in Hi.
  unfold sent_color, pixel_color, pixel_at.
  rewrite block_of_cell by done.
  fold (ink_of (rd (mpColorBuffer pscr) (sym_y * TEXT_WIDTH + sym_x))).
  fold (paper_of (rd (mpColorBuffer pscr) (sym_y * TEXT_WIDTH + sym_x))).
  replace ((8 * sym_y + j) * PIX_WIDTH + 8 * sym_x + i)
    with (8 * sym_x + i + (8 * sym_y + j) * PIX_WIDTH) by lia.
  done.
Qed.

Lemma out_blocks_image pscr ws :
  out_blocks pscr ws = concat (map (block_image pscr) ws).
Proof.
  unfold out_blocks. f_equal. apply map_ext. intros c.
  apply TftSymbolWrite_image.
Qed.

End BlockImage.

Section SelectiveWriteClaims.

Lemma selective_write_idle pscr n :
  1 <= n <= INT_MAX -> pending pscr = [] ->
  TftFullScreenSelectiveWrite pscr n = (1, pscr, []).
Proof.
  intros Hn Hp. rewrite TftFullScreenSelectiveWrite_scan.
  rewrite scan_positive by (done || apply NoDup_blocks). cbv zeta.
  fold (pending pscr). rewrite Hp. cbn [length].
  replace (n <=? Z.of_nat 0) with false by (symmetry; apply Z.leb_gt; lia).
  by rewrite flush_blocks_nil.
Qed.

(** C2: with a budget [n >= 1], [TftFullScreenSelectiveWrite] sends the
    first [n] blocks that await an update, in row-major order: the
    transport receives, block after block, the window of the block and
    its 64 colour words.  It clears the update bit of exactly those
    blocks; it returns 0 as soon as the [n]-th block has been sent and 1
    when the scan reached the end, and then no block awaits an update.
    When the budget is at least the number of blocks, a second call sends
    nothing, changes nothing and returns 1. *)
Theorem TftFullScreenSelectiveWrite_budget (pscr : screen_control_t) (n : Z) :
  1 <= n <= INT_MAX ->
  let d := pending pscr in
  let sent := take (Z.to_nat n) d in
  let pscr' := flush_blocks pscr sent in
  TftFullScreenSelectiveWrite pscr n
  = (if n <=? Z.of_nat (length d) then 0 else 1, pscr',
     concat (map (block_image pscr) sent))
  /\ pending pscr' = drop (Z.to_nat n) d
  /\ (Z.of_nat (length d) < n -> pending pscr' = [])
  /\ (TEXT_CHARCOUNT <= n ->
      TftFullScreenSelectiveWrite pscr' n = (1, pscr', [])).
Proof.
  intros Hn d sent pscr'.
  assert (Hpend : pending pscr' = drop (Z.to_nat n) d).
  { unfold pending, pscr', flush_blocks. cbn [with_color mpColorBuffer].
    apply dirty_cells_after_flush, NoDup_blocks. }
  assert (Hdone : Z.of_nat (length d) <= n -> pending pscr' = []).
  { intros Hlt. rewrite Hpend. apply drop_ge. lia. }
  repeat split.
  - rewrite TftFullScreenSelectiveWrite_scan.
    rewrite scan_positive by (done || apply NoDup_blocks). cbv zeta.
    fold (pending pscr). fold d. rewrite <- out_blocks_image.
    destruct (Z.leb_spec n (Z.of_nat (length d))) as [Hle | Hgt].
    + done.
    + unfold pscr', sent. rewrite take_ge by lia. done.
  - done.
  - intros Hlt. apply Hdone. lia.
  - intros Hall. apply selective_write_idle; [done |].
    apply Hdone. pose proof (length_pending pscr). fold d in H. lia.
Qed.

(** C10: with a budget [n <= 0] the scan is never cut short: every block
    that awaits an update is sent, in row-major order, the transport
    receiving for each the window of the block and its 64 colour words;
    each has its bit cleared, no block awaits an update afterwards, and
    the call returns 1. *)
Theorem TftFullScreenSelectiveWrite_nonpositive (pscr : screen_control_t)
    (n : Z) :
  INT_MIN <= n <= 0 ->
  TftFullScreenSelectiveWrite pscr n
  = (1, flush_blocks pscr (pending pscr),
     concat (map (block_image pscr) (pending pscr)))
  /\ pending (flush_blocks pscr (pending pscr)) = [].
Proof.
  intros Hn. split.
  - rewrite <- out_blocks_image. rewrite TftFullScreenSelectiveWrite_scan.
    rewrite <- (wrap32_id n) at 1 by (unfold INT_MAX; lia).
    rewrite scan_nonpositive; [done | apply NoDup_blocks | lia |].
    rewrite length_blocks. unfold INT_MIN in Hn.
    change TEXT_CHARCOUNT with 1200. lia.
  - unfold pending, flush_blocks. cbn [with_color mpColorBuffer].
    rewrite <- (take_ge (dirty_cells (mpColorBuffer pscr) blocks)
                  (length (dirty_cells (mpColorBuffer pscr) blocks))) at 1 by lia.
    rewrite dirty_cells_after_flush by apply NoDup_blocks.
    by rewrite drop_all.
Qed.

End SelectiveWriteClaims.

Section SelectiveWriteWitnesses.

(** The demo screen with one pending block, the second of the first text
    row, flushed with a budget of 5: the window is columns 8 to 15 and
    rows 0 to 7, and the first word sent is the palette's yellow. *)
Lemma TftFullScreenSelectiveWrite_budget_witness :
  let pscr := TftPutPixel screen_idle 8 0 kBlack kYellow in
  1 <= 5 <= INT_MAX
  /\ fst (fst (TftFullScreenSelectiveWrite pscr 5)) = 1
  /\ pending (snd (fst (TftFullScreenSelectiveWrite pscr 5))) = []
  /\ take 12 (snd (TftFullScreenSelectiveWrite pscr 5))
     = [ SetCommand 0x2A; CommandParam 0; CommandParam 8;
         CommandParam 0; CommandParam 15;
         SetCommand 0x2B; CommandParam 0; CommandParam 0;
         CommandParam 0; CommandParam 7;
         SetCommand 0x2C;
         WriteData [0xE0FF; 0; 0; 0; 0; 0; 0; 0] ].
Proof.
  cbv zeta.
  assert (Hn : 1 <= 5 <= INT_MAX) by (vm_compute; intuition discriminate).
  split; [exact Hn |].
  destruct (TftFullScreenSelectiveWrite_budget
              (TftPutPixel screen_idle 8 0 kBlack kYellow) 5 Hn)
    as (Hrun & _ & Hdone & _).
  assert (Hlen : Z.of_nat (length (pending
                   (TftPutPixel screen_idle 8 0 kBlack kYellow))) < 5)
    by (vm_compute; reflexivity).
  rewrite Hrun. cbn [fst snd]. split; [| split].
  - destruct (Z.leb_spec 5 (Z.of_nat (length (pending
               (TftPutPixel screen_idle 8 0 kBlack kYellow)))));
      [exfalso; lia | reflexivity].
  - apply Hdone, Hlen.
  - vm_compute. reflexivity.
Defined.

(** The same screen flushed with a budget of 0. *)
Lemma TftFullScreenSelectiveWrite_nonpositive_witness :
  let pscr := TftPutPixel screen_idle 8 0 kBlack kYellow in
  INT_MIN <= 0 <= 0
  /\ fst (fst (TftFullScreenSelectiveWrite pscr 0)) = 1
  /\ length (snd (TftFullScreenSelectiveWrite pscr 0)) = 19%nat.
Proof.
  cbv zeta.
  assert (Hn : INT_MIN <= 0 <= 0) by (vm_compute; intuition discriminate).
  split; [exact Hn |].
  destruct (TftFullScreenSelectiveWrite_nonpositive
              (TftPutPixel screen_idle 8 0 kBlack kYellow) 0 Hn) as [Hrun _].
  rewrite Hrun. split; [reflexivity | vm_compute; reflexivity].
Defined.

End SelectiveWriteWitnesses.

(** ** The touch poll *)

Section TouchPoll.

Lemma CheckTouch_null hw : CheckTouch None hw = (-1, None, O).
Proof. done. Qed.

Lemma CheckTouch_invalid c hw :
  valid_config (Some c) = false -> CheckTouch (Some c) hw = (-2, Some c, O).
Proof.
  cbn [valid_config CheckTouch]. destruct (mpHWConfig c); [| done].
  by intros ->.
Qed.

Lemma CheckTouch_released c hw :
  valid_config (Some c) = true -> pressed c hw = false ->
  CheckTouch (Some c) hw = (1, Some c, O).
Proof.
  cbn [valid_config CheckTouch]. unfold pressed.
  destruct (mpHWConfig c); [| done]. intros -> Hp.
  apply negb_false_iff in Hp. by rewrite Hp.
Qed.

Lemma CheckTouch_pressed c hw :
  valid_config (Some c) = true -> pressed c hw = true ->
  fst (fst (CheckTouch (Some c) hw)) = 0.
Proof.
  cbn [valid_config CheckTouch]. unfold pressed.
  destruct (mpHWConfig c); [| done]. intros -> ->.
  destruct (exceeds _ _ _); [destruct (TouchReadRegisters _ _ _) |].
  all: destruct (exceeds _ _ _); [destruct (TouchReadRegisters _ _ _) |].
  all: done.
Qed.

(** C5 (as amended): [CheckTouch] returns a negative status exactly for a
    configuration it rejects: -1 for a null control block, -2 for a null
    hardware configuration or a filter shift that is not positive, without
    sampling and without touching the control block.  Otherwise it returns
    0 exactly when the press line reads pressed, whether or not a sample
    was taken on this tick, and 1 exactly when the line reads not pressed;
    on such a tick it returns without sampling and leaves the control
    block, processed flag included, as it was. *)
Theorem CheckTouch_status (pcontrol : option touch_control_t) (hw : touch_hw) :
  let r := CheckTouch pcontrol hw in
  let status := fst (fst r) in
  (status < 0 <-> valid_config pcontrol = false)
  /\ (pcontrol = None -> status = -1)
  /\ (forall c, pcontrol = Some c -> valid_config pcontrol = false ->
        status = -2 /\ snd (fst r) = Some c /\ sampled r = false)
  /\ (forall c, pcontrol = Some c -> valid_config pcontrol = true ->
        (status = 0 <-> pressed c hw = true)
        /\ (status = 1 <-> pressed c hw = false)
        /\ (pressed c hw = false ->
            snd (fst r) = Some c /\ sampled r = false)).
Proof.
  cbv zeta. destruct pcontrol as [c |].
  2: { rewrite CheckTouch_null. cbn [fst snd valid_config].
       split; [split; [done | lia] |]. split; [done |].
       split; intros c [=]. }
  destruct (valid_config (Some c)) eqn:Hv.
  - split.
    { destruct (pressed c hw) eqn:Hp.
      - rewrite (CheckTouch_pressed c hw Hv Hp). split; [lia | done].
      - rewrite (CheckTouch_released c hw Hv Hp). cbn. split; [lia | done]. }
    split; [done |]. split; [intros c0 _ [=] |].
    intros c0 [= <-] _. destruct (pressed c hw) eqn:Hp.
    + rewrite (CheckTouch_pressed c hw Hv Hp).
      split; [done |]. split; [split; [lia | done] | done].
    + rewrite (CheckTouch_released c hw Hv Hp). cbn.
      split; [split; [lia | done] |]. split; done.
  - rewrite (CheckTouch_invalid c hw Hv). cbn [fst snd].
    split; [split; [done | lia] |]. split; [done |].
    split; [| intros c0 _ [=]].
    intros c0 [= <-] _. done.
Qed.

(** C5, as stated, fails on a tick with the pen up: the status is 1
    although the screen is not pressed, and the processed flag stays set. *)
Lemma CheckTouch_status_counterexample :
  let r := CheckTouch (Some control0) hw_released in
  ~ ((fst (fst r) = 1 <->
      pressed control0 hw_released = true /\ sampled r = false)
     /\ (pressed control0 hw_released = false ->
         option_map mIsProcessed (snd (fst r)) = Some false)).
Proof.
  cbv zeta. intros [H1 _]. apply proj1 in H1.
  destruct (H1 eq_refl) as [Hp _]. vm_compute in Hp. discriminate.
Qed.

Lemma CheckTouch_status_witness :
  let r := CheckTouch (Some control0) hw_pressed_soon in
  valid_config (Some control0) = true /\
  fst (fst r) = 0 /\ sampled r = false.
Proof.
  pose proof (CheckTouch_status (Some control0) hw_pressed_soon) as H.
  cbv zeta in H. destruct H as (_ & _ & _ & H).
  destruct (H control0 eq_refl eq_refl) as (H0 & _ & _).
  split; [reflexivity |]. split; [apply H0; reflexivity | reflexivity].
Defined.

End TouchPoll.

Section RoundedShift.

(** The quotient [(e + h) / (2 h)] of the filter, [h = 2 ^ (beta - 1)]. *)
Variables (h e : Z).
Hypothesis Hh : 1 <= h.

Let q := (e + h) / (2 * h).

Lemma rounded_quot_spec : 2 * h * q <= e + h < 2 * h * q + 2 * h.
Proof.
  unfold q.
  pose proof (Z.div_mod (e + h) (2 * h) ltac:(lia)).
  pose proof (Z.mod_pos_bound (e + h) (2 * h) ltac:(lia)). lia.
Qed.

Lemma rounded_quot_nonneg : 0 <= e -> 0 <= q <= e.
Proof. pose proof rounded_quot_spec. intros He. split; nia. Qed.

Lemma rounded_quot_nonpos : e <= 0 -> e <= q <= 0.
Proof. pose proof rounded_quot_spec. intros He. split; nia. Qed.

Lemma rounded_quot_band : - h <= e < h -> q = 0.
Proof. pose proof rounded_quot_spec. intros He. nia. Qed.

Lemma rounded_quot_ge m : 0 <= m -> m * (2 * h) <= e -> m <= q.
Proof. pose proof rounded_quot_spec. intros Hm He. nia. Qed.

Lemma rounded_quot_le m : 0 <= m -> e <= - m * (2 * h) -> q <= - m.
Proof. pose proof rounded_quot_spec. intros Hm He. nia. Qed.

Lemma rounded_quot_above : h <= e -> 1 <= q.
Proof. pose proof rounded_quot_spec. intros He. nia. Qed.

Lemma rounded_quot_below : e < - h -> q <= -1.
Proof. pose proof rounded_quot_spec. intros He. nia. Qed.

End RoundedShift.

Lemma half_pos beta : 1 <= beta <= 30 -> 1 <= 2 ^ (beta - 1) <= 2 ^ 29.
Proof.
  intros Hbeta. split.
  - apply (Z.pow_le_mono_r 2 0 (beta - 1)); lia.
  - apply Z.pow_le_mono_r; lia.
Qed.

Lemma pow_beta beta : 1 <= beta <= 30 -> 2 ^ beta = 2 * 2 ^ (beta - 1).
Proof.
  intros Hbeta. replace beta with (1 + (beta - 1)) at 1 by lia.
  rewrite Z.pow_add_r by lia. done.
Qed.

Section FilterConvergence.

Variables (beta raw : Z).
Hypothesis Hbeta : 1 <= beta <= 30.
Hypothesis Hraw : 0 <= raw <= 255.

Let T := target raw.
Let h := 2 ^ (beta - 1).
Let step := filter_step beta raw.

Lemma target_range : 0 <= T <= 255 * 2 ^ 14.
Proof. unfold T, target. rewrite Z.shiftl_mul_pow2 by lia. lia. Qed.

Lemma filter_formula_quot f :
  filter_formula beta raw f = f + (T - f + h) / (2 * h).
Proof.
  unfold filter_formula. fold (target raw). fold T.
  rewrite Z.shiftr_div_pow2, Z.shiftl_mul_pow2, Z.mul_1_l by lia.
  fold h. by rewrite (pow_beta beta Hbeta).
Qed.

(** Without overflow the C expression is the formula in the integers. *)
Lemma filter_step_formula f :
  in_range f -> step f = filter_formula beta raw f.
Proof.
  unfold in_range. intros Hf. rewrite filter_formula_quot.
  unfold step, filter_step, add32, sub32, shl32, sar32.
  fold (target raw). fold T.
  pose proof (half_pos beta Hbeta) as Hh. pose proof target_range as Ht.
  rewrite Z.shiftl_mul_pow2, Z.mul_1_l by lia. fold h.
  rewrite (wrap32_id T) by (unfold INT_MIN, INT_MAX; lia).
  rewrite (wrap32_id h) by (unfold INT_MIN, INT_MAX; lia).
  rewrite (wrap32_id (T - f)) by (unfold INT_MIN, INT_MAX; lia).
  rewrite (wrap32_id (T - f + h)) by (unfold INT_MIN, INT_MAX; lia).
  rewrite Z.shiftr_div_pow2, (pow_beta beta Hbeta) by lia. fold h.
  apply wrap32_id. unfold INT_MIN, INT_MAX.
  destruct (Z_le_dec 0 (T - f)) as [Hpos | Hneg].
  - pose proof (rounded_quot_nonneg h (T - f) (proj1 Hh) Hpos). lia.
  - pose proof (rounded_quot_nonpos h (T - f) (proj1 Hh) ltac:(lia)). lia.
Qed.

(** One round moves the value towards the target, never past it. *)
Lemma step_below f : in_range f -> f <= T -> f <= step f <= T.
Proof.
  intros Hf Hle. rewrite filter_step_formula, filter_formula_quot by done.
  pose proof (rounded_quot_nonneg h (T - f) (proj1 (half_pos beta Hbeta)) ltac:(lia)). lia.
Qed.

Lemma step_above f : in_range f -> T <= f -> T <= step f <= f.
Proof.
  intros Hf Hle. rewrite filter_step_formula, filter_formula_quot by done.
  pose proof (rounded_quot_nonpos h (T - f) (proj1 (half_pos beta Hbeta)) ltac:(lia)). lia.
Qed.

Lemma step_in_range f : in_range f -> in_range (step f).
Proof.
  intros Hf. pose proof target_range. unfold in_range in *.
  destruct (Z_le_dec f T).
  - pose proof (step_below f Hf ltac:(lia)). lia.
  - pose proof (step_above f Hf ltac:(lia)). lia.
Qed.

Lemma step_dist f : in_range f -> Z.abs (T - step f) <= Z.abs (T - f).
Proof.
  intros Hf. destruct (Z_le_dec f T).
  - pose proof (step_below f Hf ltac:(lia)). lia.
  - pose proof (step_above f Hf ltac:(lia)). lia.
Qed.

(** Inside the rounding band the value no longer moves. *)
Lemma step_fixed f : in_range f -> dead_band beta raw f -> step f = f.
Proof.
  unfold dead_band. fold (target raw). fold T. fold h. intros Hf Hband.
  rewrite filter_step_formula, filter_formula_quot by done.
  rewrite (rounded_quot_band h (T - f) (proj1 (half_pos beta Hbeta))) by lia. lia.
Qed.

(** Outside the band the distance shrinks, by at least [m] when it is at
    least [m * 2 ^ beta]. *)
Lemma step_progress f m :
  in_range f -> 0 <= m -> m * (2 * h) <= Z.abs (T - f) ->
  Z.abs (T - step f) <= Z.abs (T - f) - m.
Proof.
  intros Hf Hm Hd. rewrite filter_step_formula, filter_formula_quot by done.
  pose proof (half_pos beta Hbeta) as Hh.
  destruct (Z_le_dec 0 (T - f)) as [Hpos | Hneg].
  - pose proof (rounded_quot_nonneg h (T - f) (proj1 Hh) Hpos).
    pose proof (rounded_quot_ge h (T - f) (proj1 Hh) m Hm ltac:(lia)). lia.
  - pose proof (rounded_quot_nonpos h (T - f) (proj1 Hh) ltac:(lia)).
    pose proof (rounded_quot_le h (T - f) (proj1 Hh) m Hm ltac:(lia)). lia.
Qed.

Lemma step_progress_1 f :
  in_range f -> ~ dead_band beta raw f ->
  Z.abs (T - step f) <= Z.abs (T - f) - 1.
Proof.
  unfold dead_band. fold (target raw). fold T. fold h. intros Hf Hout.
  rewrite filter_step_formula, filter_formula_quot by done.
  pose proof (half_pos beta Hbeta) as Hh.
  destruct (Z_le_dec 0 (T - f)) as [Hpos | Hneg].
  - pose proof (rounded_quot_nonneg h (T - f) (proj1 Hh) Hpos).
    pose proof (rounded_quot_above h (T - f) (proj1 Hh) ltac:(lia)). lia.
  - pose proof (rounded_quot_nonpos h (T - f) (proj1 Hh) ltac:(lia)).
    pose proof (rounded_quot_below h (T - f) (proj1 Hh) ltac:(lia)). lia.
Qed.

Lemma filter_iter_add n m f :
  filter_iter (n + m) beta raw f = filter_iter m beta raw (filter_iter n beta raw f).
Proof. revert f. induction n as [| n IH]; intros f; [done | apply IH]. Qed.

Lemma filter_iter_S n f :
  filter_iter (S n) beta raw f = step (filter_iter n beta raw f).
Proof.
  replace (S n) with (n + 1)%nat by lia. by rewrite filter_iter_add.
Qed.

Lemma iter_in_range n f : in_range f -> in_range (filter_iter n beta raw f).
Proof.
  revert f. induction n as [| n IH]; intros f Hf; [done |].
  cbn [filter_iter]. apply IH. by apply step_in_range.
Qed.

Lemma iter_fixed n f :
  in_range f -> dead_band beta raw f -> filter_iter n beta raw f = f.
Proof.
  intros Hf Hband. induction n as [| n IH]; [done |].
  cbn [filter_iter]. fold step. by rewrite step_fixed.
Qed.

(** While the distance is at least [2 ^ k * 2 ^ beta] each round takes
    [2 ^ k] off. *)
Lemma iter_descend k m : 0 <= k -> forall f, in_range f ->
  Z.abs (T - filter_iter m beta raw f)
  <= Z.max (2 ^ k * (2 * h) - 1) (Z.abs (T - f) - Z.of_nat m * 2 ^ k).
Proof.
  intros Hk. induction m as [| m IH]; intros f Hf.
  { cbn [filter_iter]. lia. }
  cbn [filter_iter]. fold step.
  pose proof (IH (step f) (step_in_range f Hf)) as Hm.
  pose proof (step_dist f Hf) as Hd.
  assert (0 < 2 ^ k) by (apply Z.pow_pos_nonneg; lia).
  destruct (Z_le_dec (2 ^ k * (2 * h)) (Z.abs (T - f))) as [Hbig | Hsmall].
  - pose proof (step_progress f (2 ^ k) Hf ltac:(lia) Hbig). lia.
  - nia.
Qed.

Lemma iter_phases j : forall f, in_range f ->
  Z.abs (T - f) < 2 ^ Z.of_nat j * (2 * h) ->
  Z.abs (T - filter_iter (j * Z.to_nat (2 * h)) beta raw f) < 2 * h.
Proof.
  pose proof (half_pos beta Hbeta) as Hh.
  induction j as [| j IH]; intros f Hf Hd.
  { cbn [Nat.mul filter_iter]. change (2 ^ Z.of_nat 0) with 1 in Hd. lia. }
  cbn [Nat.mul]. rewrite filter_iter_add.
  apply IH; [by apply iter_in_range |].
  pose proof (iter_descend (Z.of_nat j) (Z.to_nat (2 * h)) ltac:(lia) f Hf) as Hm.
  rewrite Nat2Z.inj_succ, Z.pow_succ_r in Hd by lia.
  rewrite Z2Nat.id in Hm by lia.
  assert (0 < 2 ^ Z.of_nat j) by (apply Z.pow_pos_nonneg; lia).
  nia.
Qed.

Lemma iter_settle m : forall f, in_range f ->
  dead_band beta raw (filter_iter m beta raw f)
  \/ Z.abs (T - filter_iter m beta raw f) <= Z.abs (T - f) - Z.of_nat m.
Proof.
  induction m as [| m IH]; intros f Hf.
  { right. cbn [filter_iter]. lia. }
  rewrite filter_iter_S.
  destruct (IH f Hf) as [Hband | Hd].
  - left. by rewrite step_fixed by (done || by apply iter_in_range).
  - destruct (dead_band_dec beta raw (filter_iter m beta raw f)) as [Hband | Hout].
    + left. by rewrite step_fixed by (done || by apply iter_in_range).
    + right.
      pose proof (step_progress_1 _ (iter_in_range m f Hf) Hout). lia.
Qed.

Lemma iter_reaches_band f :
  in_range f ->
  dead_band beta raw
    (filter_iter (Z.to_nat (31 - beta) * Z.to_nat (2 * h) + Z.to_nat h)
                 beta raw f).
Proof.
  intros Hf. pose proof (half_pos beta Hbeta) as Hh. pose proof target_range as Ht.
  rewrite filter_iter_add.
  set (g := filter_iter (Z.to_nat (31 - beta) * Z.to_nat (2 * h)) beta raw f).
  assert (Hg : in_range g) by (by apply iter_in_range).
  assert (Hd : Z.abs (T - g) < 2 * h).
  { apply iter_phases; [done |]. rewrite Z2Nat.id by lia.
    change (2 * h) with (2 * 2 ^ (beta - 1)).
    rewrite <- (pow_beta beta Hbeta), <- Z.pow_add_r by lia.
    replace (31 - beta + beta) with 31 by lia.
    unfold in_range in Hf. lia. }
  destruct (iter_settle (Z.to_nat h) g Hg) as [Hband | Hlt]; [done |].
  rewrite Z2Nat.id in Hlt by lia.
  unfold dead_band. fold (target raw). fold T. fold h. lia.
Qed.

End FilterConvergence.

Section TouchFilterStep.

Lemma exceeds_self now thr : exceeds now now thr = false.
Proof.
  unfold exceeds, elapsed, wrapu. rewrite Z.sub_diag, Z.mod_0_l by lia.
  pose proof (Z.mod_pos_bound thr (2 ^ 64) ltac:(lia)). lia.
Qed.

(** The three ways through a pressed tick. *)
Lemma CheckTouch_snap c hw :
  valid_config (Some c) = true -> pressed c hw = true ->
  exceeds (ktm64_now hw) (mTmOfLastTouch c) (mkTmLongFlick c) = true ->
  CheckTouch (Some c) hw
  = (0, Some (mkTouch (mpHWConfig c) (mIsPressed c) (ktm64_now hw) true
                (wrapu 8 (spi_in hw 0)) (wrapu 8 (spi_in hw 1))
                (shl32 (wrapu 8 (spi_in hw 0)) 14)
                (shl32 (wrapu 8 (spi_in hw 1)) 14)
                (mkTmMinFlick c) (mkTmLongFlick c) (mkBetaShft c)),
     2%nat).
Proof.
  cbn [valid_config CheckTouch]. unfold pressed.
  destruct (mpHWConfig c) as [cfg |] eqn:Hcfg; [| done]. intros -> -> ->.
  cbn [TouchReadRegisters spi_read with_time with_filtered
       mTmOfLastTouch mkTmMinFlick mX mY mXf mYf mkBetaShft mpHWConfig
       mIsPressed mIsProcessed mkTmLongFlick].
  rewrite exceeds_self. cbn. by rewrite ?Hcfg.
Qed.

Lemma CheckTouch_filter c hw :
  valid_config (Some c) = true -> pressed c hw = true ->
  exceeds (ktm64_now hw) (mTmOfLastTouch c) (mkTmLongFlick c) = false ->
  exceeds (ktm64_now hw) (mTmOfLastTouch c) (mkTmMinFlick c) = true ->
  CheckTouch (Some c) hw
  = (0, Some (mkTouch (mpHWConfig c) (mIsPressed c) (ktm64_now hw) true
                (wrapu 8 (spi_in hw 0)) (wrapu 8 (spi_in hw 1))
                (filter_step (mkBetaShft c) (wrapu 8 (spi_in hw 0)) (mXf c))
                (filter_step (mkBetaShft c) (wrapu 8 (spi_in hw 1)) (mYf c))
                (mkTmMinFlick c) (mkTmLongFlick c) (mkBetaShft c)),
     2%nat).
Proof.
  cbn [valid_config CheckTouch]. unfold pressed.
  destruct (mpHWConfig c) as [cfg |] eqn:Hcfg; [| done]. intros -> -> -> ->.
  cbn. by rewrite ?Hcfg.
Qed.

Lemma CheckTouch_hold c hw :
  valid_config (Some c) = true -> pressed c hw = true ->
  exceeds (ktm64_now hw) (mTmOfLastTouch c) (mkTmLongFlick c) = false ->
  exceeds (ktm64_now hw) (mTmOfLastTouch c) (mkTmMinFlick c) = false ->
  CheckTouch (Some c) hw = (0, Some c, 0%nat).
Proof.
  cbn [valid_config CheckTouch]. unfold pressed.
  destruct (mpHWConfig c) as [cfg |] eqn:Hcfg; [| done]. intros -> -> -> ->.
  cbn. by rewrite ?Hcfg.
Qed.

Section Elapsed.




End Elapsed.




End TouchFilterStep.

Section FilterClaims.

(** C7, as stated, fails: with [beta = 5] and a constant raw sample 0 the
    filter started at 10 never reaches [0 << 14]. *)
Lemma filter_stalls_counterexample :
  ~ exists n : nat, filter_iter n 5 0 10 = target 0.
Proof.
  intros [n Hn].
  assert (Hfix : forall m, filter_iter m 5 0 10 = 10).
  { induction m as [| m IH]; [done | exact IH]. }
  rewrite Hfix in Hn. discriminate.
Qed.

(** C7 (as amended): for [1 <= beta <= 30], a constant raw sample and a
    starting value of magnitude at most [2 ^ 30], iterating the update
    moves the filtered value monotonically towards [raw << 14] without
    passing it, strictly closer while it is outside the rounding band
    [- 2 ^ (beta - 1) <= (raw << 14) - f < 2 ^ (beta - 1)]; after at most
    [2 ^ beta * (32 - beta)] rounds it is inside the band and does not
    change any more. *)
Theorem filter_settles (beta raw f0 : Z) :
  1 <= beta <= 30 -> 0 <= raw <= 255 -> in_range f0 ->
  let f := fun n => filter_iter n beta raw f0 in
  (forall n, Z.abs (target raw - f (S n)) <= Z.abs (target raw - f n))
  /\ (f0 <= target raw -> forall n, f n <= f (S n) <= target raw)
  /\ (target raw <= f0 -> forall n, target raw <= f (S n) <= f n)
  /\ (forall n, ~ dead_band beta raw (f n) ->
        Z.abs (target raw - f (S n)) < Z.abs (target raw - f n))
  /\ (forall n, settle_bound beta <= Z.of_nat n ->
        dead_band beta raw (f n) /\ f (S n) = f n).
Proof.
  intros Hb Hr Hf f.
  assert (Hin : forall n, in_range (f n)) by (intros n; by apply iter_in_range).
  assert (HS : forall n, f (S n) = filter_step beta raw (f n))
    by (intros n; by apply filter_iter_S).
  split; [| split; [| split; [| split]]].
  - intros n. rewrite HS. by apply step_dist.
  - intros Hle. induction n as [| n IH].
    + rewrite HS. by apply step_below.
    + rewrite (HS (S n)). apply step_below; [done | done | done | lia].
  - intros Hle. induction n as [| n IH].
    + rewrite HS. by apply step_above.
    + rewrite (HS (S n)). apply step_above; [done | done | done | lia].
  - intros n Hout. rewrite HS.
    pose proof (step_progress_1 beta raw Hb Hr (f n) (Hin n) Hout). lia.
  - intros n Hn.
    set (N := (Z.to_nat (31 - beta) * Z.to_nat (2 * 2 ^ (beta - 1))
               + Z.to_nat (2 ^ (beta - 1)))%nat).
    assert (HN : dead_band beta raw (f N)) by (by apply iter_reaches_band).
    assert (Hle : (N <= n)%nat).
    { pose proof (half_pos beta Hb) as Hh.
      pose proof (pow_beta beta Hb) as Hp.
      unfold settle_bound in Hn. rewrite Hp in Hn. unfold N.
      apply Nat2Z.inj_le.
      rewrite Nat2Z.inj_add, Nat2Z.inj_mul, !Z2Nat.id by lia.
      set (h := 2 ^ (beta - 1)) in *. nia. }
    assert (Hn' : f n = f N).
    { assert (E : n = (N + (n - N))%nat) by lia.
      revert E. generalize (n - N)%nat. intros m ->.
      unfold f. rewrite filter_iter_add.
      apply iter_fixed; [done | done | apply (Hin N) | exact HN]. }
    rewrite HS, Hn'. split; [done |].
    apply step_fixed; [done | done | apply (Hin N) | exact HN].
Qed.

(** The filter of the demo ([beta = 5]) settling from 0 towards a sample
    of 100. *)
Lemma filter_settles_witness :
  1 <= 5 <= 30 /\ 0 <= 100 <= 255 /\ in_range 0
  /\ dead_band 5 100 (filter_iter 864 5 100 0)
  /\ filter_iter 865 5 100 0 = filter_iter 864 5 100 0.
Proof.
  assert (H1 : 1 <= 5 <= 30) by lia.
  assert (H2 : 0 <= 100 <= 255) by lia.
  assert (H3 : in_range 0) by (unfold in_range; lia).
  destruct (filter_settles 5 100 0 H1 H2 H3) as (_ & _ & _ & _ & H).
  split; [exact H1 |]. split; [exact H2 |]. split; [exact H3 |].
  apply (H 864%nat). vm_compute. discriminate.
Defined.

End FilterClaims.

(** ** Vertical scroll *)

Section BlockMoves.

Lemma rd_lookup (l : list Z) (i : Z) (v : Z) :
  0 <= i -> l !! Z.to_nat i = Some v -> rd l i = v.
Proof.
  unfold rd. intros Hi ->. destruct (i <? 0) eqn:E; [lia | done].
Qed.

Lemma rd_inside (l : list Z) (i : Z) :
  0 <= i < Z.of_nat (length l) -> l !! Z.to_nat i = Some (rd l i).
Proof.
  intros Hi. unfold rd. destruct (i <? 0) eqn:E; [lia |].
  destruct (lookup_lt_is_Some_2 l (Z.to_nat i) ltac:(lia)) as [v Hv].
  by rewrite Hv.
Qed.

Lemma rd_app_l (l ext : list Z) i :
  i < Z.of_nat (length l) -> rd (l ++ ext) i = rd l i.
Proof.
  intros Hi. unfold rd. destruct (i <? 0) eqn:E; [done |].
  rewrite lookup_app_l by lia. done.
Qed.

Lemma length_memmove mem ext dest src n :
  0 <= dest -> 0 <= src -> 0 <= n ->
  dest + n <= Z.of_nat (length mem) ->
  src + n <= Z.of_nat (length (mem ++ ext)) ->
  length (memmove mem ext dest src n) = length mem.
Proof.
  intros Hd Hs Hn Hdn Hsn. unfold memmove.
  rewrite !length_app, !length_take, !length_drop. lia.
Qed.

Lemma rd_memmove mem ext dest src n i :
  0 <= dest -> 0 <= src -> 0 <= n ->
  dest + n <= Z.of_nat (length mem) ->
  src + n <= Z.of_nat (length (mem ++ ext)) ->
  rd (memmove mem ext dest src n) i =
  if (dest <=? i) && (i <? dest + n)
  then rd (mem ++ ext) (i - dest + src)
  else rd mem i.
Proof.
  intros Hd Hs Hn Hdn Hsn.
  destruct (Z_lt_dec i 0) as [Hneg | Hpos].
  { rewrite !(rd_negative _ i) by lia.
    destruct (Z.leb_spec dest i); [exfalso; lia | done]. }
  unfold memmove, rd.
  destruct (i <? 0) eqn:Ei; [lia |].
  destruct (i - dest + src <? 0) eqn:Ej.
  { destruct (Z.leb_spec dest i); [lia |]. cbn [andb].
    rewrite lookup_app_l by (rewrite length_take; lia).
    rewrite lookup_take_lt by lia. done. }
  destruct (Z.leb_spec dest i) as [Hge | Hlt]; cbn [andb].
  - rewrite lookup_app_r by (rewrite length_take; lia).
    rewrite length_take, Nat.min_l by lia.
    destruct (Z.ltb_spec i (dest + n)) as [Hin | Hout].
    + rewrite lookup_app_l by (rewrite length_take, length_drop; lia).
      rewrite lookup_take_lt, lookup_drop by lia.
      do 2 f_equal. lia.
    + rewrite lookup_app_r by (rewrite length_take, length_drop; lia).
      rewrite length_take, length_drop, Nat.min_l, lookup_drop by lia.
      do 2 f_equal. lia.
  - rewrite lookup_app_l by (rewrite length_take; lia).
    rewrite lookup_take_lt by lia. done.
Qed.

Lemma length_memset mem dest v n :
  0 <= dest -> 0 <= n -> dest + n <= Z.of_nat (length mem) ->
  length (memset mem dest v n) = length mem.
Proof.
  intros Hd Hn Hdn. unfold memset.
  rewrite !length_app, length_take, length_replicate, length_drop. lia.
Qed.

Lemma rd_memset mem dest v n i :
  0 <= dest -> 0 <= n -> dest + n <= Z.of_nat (length mem) ->
  rd (memset mem dest v n) i =
  if (dest <=? i) && (i <? dest + n) then v else rd mem i.
Proof.
  intros Hd Hn Hdn.
  destruct (Z_lt_dec i 0) as [Hneg | Hpos].
  { rewrite !(rd_negative _ i) by lia.
    destruct (Z.leb_spec dest i); [exfalso; lia | done]. }
  unfold memset, rd.
  destruct (i <? 0) eqn:Ei; [lia |].
  destruct (Z.leb_spec dest i) as [Hge | Hlt]; cbn [andb].
  - rewrite lookup_app_r by (rewrite length_take; lia).
    rewrite length_take, Nat.min_l by lia.
    destruct (Z.ltb_spec i (dest + n)) as [Hin | Hout].
    + rewrite lookup_app_l by (rewrite length_replicate; lia).
      rewrite lookup_replicate_2 by lia. done.
    + rewrite lookup_app_r by (rewrite length_replicate; lia).
      rewrite length_replicate, lookup_drop.
      do 2 f_equal. lia.
  - rewrite lookup_app_l by (rewrite length_take; lia).
    rewrite lookup_take_lt by lia. done.
Qed.

Lemma length_mark_range cb a b : length (mark_range cb a b) = length cb.
Proof.
  unfold mark_range, for_all. generalize (range a b). intros l.
  revert cb. induction l as [| j l IH]; intros cb; [done |].
  cbn [fold_left]. by rewrite IH, length_wr.
Qed.

Lemma rd_mark_range cb a b i :
  0 <= a -> b <= Z.of_nat (length cb) ->
  rd (mark_range cb a b) i =
  if (a <=? i) && (i <? b) then Z.lor (rd cb i) (Z.shiftl 1 6) else rd cb i.
Proof.
  intros Ha Hb. unfold mark_range, for_all, range.
  destruct (Z_le_dec b a) as [Hempty | Hne].
  { rewrite (seqZ_nil a (b - a)) by lia. cbn [fold_left].
    destruct (Z.leb_spec a i); destruct (Z.ltb_spec i b); cbn [andb];
      (done || (exfalso; lia)). }
  remember (Z.to_nat (b - a)) as m eqn:Hm.
  replace (b - a) with (Z.of_nat m) by lia.
  assert (Hbm : a + Z.of_nat m <= Z.of_nat (length cb)) by lia.
  replace b with (a + Z.of_nat m) by lia.
  clear Hm Hne Hb b. revert cb a Ha Hbm.
  induction m as [| m IH]; intros cb a Ha Hbm.
  { change (Z.of_nat 0) with 0. rewrite seqZ_nil by lia. cbn [fold_left].
    destruct (Z.leb_spec a i); destruct (Z.ltb_spec i (a + 0)); cbn [andb];
      (done || (exfalso; lia)). }
  rewrite seqZ_cons by lia. cbn [fold_left].
  replace (Z.pred (Z.of_nat (S m))) with (Z.of_nat m) by lia.
  rewrite IH by (rewrite ?length_wr; lia).
  destruct (Z.eq_dec i a) as [-> | Hne].
  - rewrite rd_wr_eq by lia.
    destruct (Z.leb_spec (Z.succ a) a); [exfalso; lia |]. cbn [andb].
    destruct (Z.leb_spec a a); [| exfalso; lia].
    destruct (Z.ltb_spec a (a + Z.of_nat (S m))); [done | exfalso; lia].
  - rewrite rd_wr_ne by done.
    destruct (Z.leb_spec (Z.succ a) i); destruct (Z.leb_spec a i);
      destruct (Z.ltb_spec i (Z.succ a + Z.of_nat m));
      destruct (Z.ltb_spec i (a + Z.of_nat (S m)));
      cbn [andb]; (done || (exfalso; lia)).
Qed.

End BlockMoves.

Section AttributeBits.

Lemma ink_of_mark b : ink_of (Z.lor b (Z.shiftl 1 6)) = ink_of b.
Proof.
  unfold ink_of. rewrite Z.land_lor_distr_l.
  change (Z.land (Z.shiftl 1 6) 7) with 0. apply Z.lor_0_r.
Qed.

Lemma paper_of_mark b : paper_of (Z.lor b (Z.shiftl 1 6)) = paper_of b.
Proof.
  unfold paper_of. rewrite Z.shiftr_lor, Z.land_lor_distr_l.
  change (Z.land (Z.shiftr (Z.shiftl 1 6) 3) 7) with 0. apply Z.lor_0_r.
Qed.

Lemma need_update_mark cb k :
  Z.testbit (rd cb k) 6 = true -> need_update cb k = true.
Proof. by rewrite need_update_testbit. Qed.

Lemma testbit_mark b : Z.testbit (Z.lor b (Z.shiftl 1 6)) 6 = true.
Proof. rewrite Z.lor_spec. apply orb_true_r. Qed.

(** Pixels eight rows apart sit at the same bit of words 60 apart. *)
Lemma GET_DATA_BIT_row8 p p' n :
  rd p' (Z.shiftr n 5) = rd p (Z.shiftr n 5 + 60) ->
  GET_DATA_BIT p' n = GET_DATA_BIT p (n + 8 * PIX_WIDTH).
Proof.
  intros H. unfold GET_DATA_BIT. change (8 * PIX_WIDTH) with (60 * 32).
  rewrite (Z.shiftr_div_pow2 n 5) in * by lia.
  rewrite (Z.shiftr_div_pow2 (n + 60 * 32) 5) by lia.
  change (2 ^ 5) with 32 in *.
  rewrite Z.div_add by lia. rewrite H.
  change 31 with (Z.ones 5). rewrite !Z.land_ones by lia.
  change (2 ^ 5) with 32. by rewrite Z.mod_add by lia.
Qed.

Lemma GET_DATA_BIT_same p p' n :
  rd p' (Z.shiftr n 5) = rd p (Z.shiftr n 5) ->
  GET_DATA_BIT p' n = GET_DATA_BIT p n.
Proof. intros H. unfold GET_DATA_BIT. by rewrite H. Qed.

Lemma GET_DATA_BIT_zero p n : rd p (Z.shiftr n 5) = 0 -> GET_DATA_BIT p n = 0.
Proof. intros H. unfold GET_DATA_BIT. rewrite H, Z.shiftr_0_l. done. Qed.

(** The word that holds pixel [(x, y)]. *)
Lemma pixel_word x y :
  0 <= x < PIX_WIDTH -> 0 <= y ->
  60 * (y / 8) <= Z.shiftr (x + y * PIX_WIDTH) 5 < 60 * (y / 8) + 60.
Proof.
  unfold PIX_WIDTH. intros Hx Hy.
  rewrite Z.shiftr_div_pow2 by lia. change (2 ^ 5) with 32.
  pose proof (Z.div_mod y 8 ltac:(lia)) as Ey.
  pose proof (Z.mod_pos_bound y 8 ltac:(lia)) as By.
  set (q := y / 8) in *. set (r := y mod 8) in *.
  assert (E : x + y * 240 = 60 * q * 32 + (x + r * 240)) by lia.
  rewrite E, Z.add_comm, Z.div_add by lia.
  assert (0 <= (x + r * 240) / 32 < 60).
  { split; [apply Z.div_pos; lia | apply Z.div_lt_upper_bound; lia]. }
  lia.
Qed.

End AttributeBits.

Section Scroll.

Variables (beyond : list Z) (pscr : screen_control_t) (top_y bot_y : Z).
Hypothesis Hwf : wf_screen pscr.
Hypothesis Hzone : 0 <= top_y < bot_y /\ bot_y <= TEXT_HEIGHT.
Hypothesis Hbeyond : TEXT_WIDTH <= Z.of_nat (length beyond).

(** The offsets of the function, in words and in attribute bytes. *)
Lemma scroll_unfold :
  TftScrollVerticalZone beyond pscr top_y bot_y =
  mkScreen (mCursorX pscr) (mCursorY pscr) (mCanvasPaper pscr)
    (mCanvasInk pscr)
    (memset (memmove (mpPixBuffer pscr) [] (60 * top_y) (60 * top_y + 60)
                     (60 * (bot_y - top_y - 1)))
            (60 * (bot_y - 1)) 0 60)
    (mark_range (memmove (mpColorBuffer pscr) beyond (30 * top_y)
                         (30 * top_y + 30) (30 * (bot_y - top_y)))
                (30 * top_y) (30 * bot_y)).
Proof.
  unfold TftScrollVerticalZone, TEXT_WIDTH, PIX_BYTE_STRIDE, PIX_WIDTH.
  change (240 / 8) with 30. change (8 * 30 / 4) with 60.
  rewrite Z.shiftl_mul_pow2 by lia. change (2 ^ 3) with 8.
  replace (top_y * 30 * 8) with (60 * top_y * 4) by lia.
  replace (60 * top_y * 4 + 30 * 8) with ((60 * top_y + 60) * 4) by lia.
  replace ((bot_y - top_y - 1) * 8 * 30)
    with (60 * (bot_y - top_y - 1) * 4) by lia.
  replace (60 * top_y * 4 + 60 * (bot_y - top_y - 1) * 4)
    with (60 * (bot_y - 1) * 4) by lia.
  rewrite !Z.div_mul by lia.
  by rewrite !(Z.mul_comm _ 30).
Qed.

Lemma scroll_pix_word w :
  0 <= w < PIX_W32COUNT ->
  rd (mpPixBuffer (TftScrollVerticalZone beyond pscr top_y bot_y)) w =
  if (60 * top_y <=? w) && (w <? 60 * (bot_y - 1))
  then rd (mpPixBuffer pscr) (w + 60)
  else if (60 * (bot_y - 1) <=? w) && (w <? 60 * bot_y) then 0
  else rd (mpPixBuffer pscr) w.
Proof.
  destruct Hwf as [Hp Hc]. unfold TEXT_HEIGHT, PIX_HEIGHT in Hzone.
  change (320 / 8) with 40 in Hzone. change PIX_W32COUNT with 2400 in *.
  intros Hw. rewrite scroll_unfold. cbn [mpPixBuffer].
  rewrite rd_memset
    by (rewrite ?length_memmove; rewrite ?length_app, ?Hp; cbn [length]; lia).
  rewrite rd_memmove by (rewrite ?length_app, ?Hp; cbn [length]; lia).
  rewrite app_nil_r.
  destruct (Z.leb_spec (60 * (bot_y - 1)) w);
    destruct (Z.ltb_spec w (60 * (bot_y - 1) + 60));
    destruct (Z.leb_spec (60 * top_y) w);
    destruct (Z.ltb_spec w (60 * top_y + 60 * (bot_y - top_y - 1)));
    destruct (Z.ltb_spec w (60 * (bot_y - 1)));
    destruct (Z.ltb_spec w (60 * bot_y));
    cbn [andb]; try (exfalso; lia); try done.
  f_equal. lia.
Qed.

Lemma scroll_attr k :
  0 <= k < TEXT_CHARCOUNT ->
  rd (mpColorBuffer (TftScrollVerticalZone beyond pscr top_y bot_y)) k =
  if (30 * top_y <=? k) && (k <? 30 * bot_y)
  then Z.lor (rd (mpColorBuffer pscr ++ beyond) (k + 30)) (Z.shiftl 1 6)
  else rd (mpColorBuffer pscr) k.
Proof.
  destruct Hwf as [Hp Hc]. unfold TEXT_HEIGHT, PIX_HEIGHT in Hzone.
  change (320 / 8) with 40 in Hzone. change TEXT_CHARCOUNT with 1200 in *.
  change TEXT_WIDTH with 30 in Hbeyond.
  intros Hk. rewrite scroll_unfold. cbn [mpColorBuffer].
  rewrite rd_mark_range
    by (rewrite ?length_memmove; rewrite ?length_app, ?Hc; lia).
  rewrite rd_memmove by (rewrite ?length_app, ?Hc; lia).
  destruct (Z.leb_spec (30 * top_y) k);
    destruct (Z.ltb_spec k (30 * bot_y));
    destruct (Z.ltb_spec k (30 * top_y + 30 * (bot_y - top_y)));
    cbn [andb]; try (exfalso; lia); try done.
  do 2 f_equal. lia.
Qed.

Lemma scroll_wf : wf_screen (TftScrollVerticalZone beyond pscr top_y bot_y).
Proof.
  destruct Hwf as [Hp Hc]. unfold TEXT_HEIGHT, PIX_HEIGHT in Hzone.
  change (320 / 8) with 40 in Hzone. change TEXT_WIDTH with 30 in Hbeyond.
  rewrite scroll_unfold. split; cbn [mpPixBuffer mpColorBuffer].
  - rewrite length_memset, length_memmove;
      rewrite ?length_memmove; rewrite ?length_app, ?Hp; cbn [length];
      change (Z.to_nat PIX_W32COUNT) with 2400%nat; lia.
  - rewrite length_mark_range, length_memmove;
      rewrite ?length_app, ?Hc;
      change (Z.to_nat TEXT_CHARCOUNT) with 1200%nat; lia.
Qed.

End Scroll.

Section ScrollClaim.

(** C4, as stated, fails: after the demo screen (canvas ink magenta) has
    been cleared to red ink and rows [0, 8) are scrolled, the freed row 7
    carries red ink, not the default canvas colours. *)
Lemma TftScrollVerticalZone_counterexample :
  let s' := TftScrollVerticalZone [] screen_idle 0 8 in
  ~ (ink_of (attr_at s' 7 0) = mCanvasInk s'
     /\ paper_of (attr_at s' 7 0) = mCanvasPaper s').
Proof. vm_compute. intros [H _]. discriminate H. Qed.

(** C4 (as amended): for [0 <= top < bot <= TEXT_HEIGHT],
    [TftScrollVerticalZone] moves the pixel rows of text rows
    [top + 1 .. bot - 1] up by eight pixel rows, so that the former top row
    is gone, and leaves the pixels of text row [bot - 1] all clear; the
    blocks of rows [top .. bot - 2] take the ink and paper of the blocks
    beneath them; every block of rows [top .. bot - 1] is marked as
    changed; pixels and attributes outside the zone, the cursor and the
    canvas colours are unchanged. *)
Theorem TftScrollVerticalZone_shift (beyond : list Z)
    (pscr : screen_control_t) (top_y bot_y : Z) :
  wf_screen pscr ->
  0 <= top_y < bot_y /\ bot_y <= TEXT_HEIGHT ->
  TEXT_WIDTH <= Z.of_nat (length beyond) ->
  let pscr' := TftScrollVerticalZone beyond pscr top_y bot_y in
  (forall x y, 0 <= x < PIX_WIDTH -> 8 * top_y <= y < 8 * (bot_y - 1) ->
     pixel_at pscr' x y = pixel_at pscr x (y + 8))
  /\ (forall x y, 0 <= x < PIX_WIDTH -> 8 * (bot_y - 1) <= y < 8 * bot_y ->
        pixel_at pscr' x y = 0)
  /\ (forall x y, 0 <= x < PIX_WIDTH -> 0 <= y < PIX_HEIGHT ->
        y < 8 * top_y \/ 8 * bot_y <= y ->
        pixel_at pscr' x y = pixel_at pscr x y)
  /\ (forall i j, 0 <= i < TEXT_WIDTH -> top_y <= j < bot_y - 1 ->
        ink_of (attr_at pscr' j i) = ink_of (attr_at pscr (j + 1) i)
        /\ paper_of (attr_at pscr' j i) = paper_of (attr_at pscr (j + 1) i))
  /\ (forall i j, 0 <= i < TEXT_WIDTH -> top_y <= j < bot_y ->
        need_update (mpColorBuffer pscr') (j * TEXT_WIDTH + i) = true)
  /\ (forall i j, 0 <= i < TEXT_WIDTH -> 0 <= j < TEXT_HEIGHT ->
        j < top_y \/ bot_y <= j ->
        attr_at pscr' j i = attr_at pscr j i)
  /\ mCursorX pscr' = mCursorX pscr /\ mCursorY pscr' = mCursorY pscr
  /\ mCanvasPaper pscr' = mCanvasPaper pscr
  /\ mCanvasInk pscr' = mCanvasInk pscr
  /\ wf_screen pscr'.
Proof.
  intros Hwf Hzone Hbeyond pscr'.
  assert (Hz : 0 <= top_y < bot_y /\ bot_y <= 40) by exact Hzone.
  assert (Hlen : Z.of_nat (length (mpColorBuffer pscr)) = 1200).
  { destruct Hwf as [_ ->]. done. }
  assert (Hpix : forall x y, 0 <= x < PIX_WIDTH -> 0 <= y < PIX_HEIGHT ->
            0 <= Z.shiftr (x + y * PIX_WIDTH) 5 < PIX_W32COUNT).
  { intros x y Hx Hy. pose proof (pixel_word x y Hx ltac:(lia)) as Hw.
    change PIX_HEIGHT with 320 in Hy. change PIX_W32COUNT with 2400.
    pose proof (Z.div_mod y 8 ltac:(lia)).
    pose proof (Z.mod_pos_bound y 8 ltac:(lia)). lia. }
  assert (Hrow : forall y, 0 <= y ->
            8 * (y / 8) <= y < 8 * (y / 8) + 8).
  { intros y Hy. pose proof (Z.div_mod y 8 ltac:(lia)).
    pose proof (Z.mod_pos_bound y 8 ltac:(lia)). lia. }
  split; [| split; [| split; [| split; [| split; [| split]]]]].
  - intros x y Hx Hy. unfold pixel_at.
    replace (x + (y + 8) * PIX_WIDTH) with (x + y * PIX_WIDTH + 8 * PIX_WIDTH)
      by lia.
    apply GET_DATA_BIT_row8.
    pose proof (pixel_word x y Hx ltac:(lia)) as Hw.
    pose proof (Hrow y ltac:(lia)) as Hr.
    unfold pscr'. rewrite scroll_pix_word; try done.
    2: { apply Hpix; [done |]. change PIX_HEIGHT with 320. lia. }
    destruct (Z.leb_spec (60 * top_y) (Z.shiftr (x + y * PIX_WIDTH) 5));
      [| exfalso; lia].
    destruct (Z.ltb_spec (Z.shiftr (x + y * PIX_WIDTH) 5) (60 * (bot_y - 1)));
      [done | exfalso; lia].
  - intros x y Hx Hy. unfold pixel_at. apply GET_DATA_BIT_zero.
    pose proof (pixel_word x y Hx ltac:(lia)) as Hw.
    pose proof (Hrow y ltac:(lia)) as Hr.
    unfold pscr'. rewrite scroll_pix_word; try done.
    2: { apply Hpix; [done |]. change PIX_HEIGHT with 320. lia. }
    destruct (Z.ltb_spec (Z.shiftr (x + y * PIX_WIDTH) 5) (60 * (bot_y - 1)));
      [exfalso; lia |]. rewrite andb_false_r.
    destruct (Z.leb_spec (60 * (bot_y - 1)) (Z.shiftr (x + y * PIX_WIDTH) 5));
      [| exfalso; lia].
    destruct (Z.ltb_spec (Z.shiftr (x + y * PIX_WIDTH) 5) (60 * bot_y));
      [done | exfalso; lia].
  - intros x y Hx Hy Hout. unfold pixel_at. apply GET_DATA_BIT_same.
    pose proof (pixel_word x y Hx ltac:(lia)) as Hw.
    pose proof (Hrow y ltac:(lia)) as Hr.
    unfold pscr'. rewrite scroll_pix_word; try done.
    2: { by apply Hpix. }
    destruct (Z.leb_spec (60 * top_y) (Z.shiftr (x + y * PIX_WIDTH) 5));
      destruct (Z.ltb_spec (Z.shiftr (x + y * PIX_WIDTH) 5) (60 * (bot_y - 1)));
      destruct (Z.leb_spec (60 * (bot_y - 1)) (Z.shiftr (x + y * PIX_WIDTH) 5));
      destruct (Z.ltb_spec (Z.shiftr (x + y * PIX_WIDTH) 5) (60 * bot_y));
      cbn [andb]; try done; exfalso; lia.
  - intros i j Hi Hj. change TEXT_WIDTH with 30 in *. unfold attr_at, pscr'.
    rewrite scroll_attr; try done.
    2: { change TEXT_CHARCOUNT with 1200. change TEXT_WIDTH with 30. lia. }
    change TEXT_WIDTH with 30.
    destruct (Z.leb_spec (30 * top_y) (j * 30 + i)); [| exfalso; lia].
    destruct (Z.ltb_spec (j * 30 + i) (30 * bot_y)); [| exfalso; lia].
    cbn [andb]. rewrite ink_of_mark, paper_of_mark.
    rewrite rd_app_l by lia.
    replace (j * 30 + i + 30) with ((j + 1) * 30 + i) by lia. done.
  - intros i j Hi Hj. change TEXT_WIDTH with 30 in *. unfold pscr'.
    apply need_update_mark. rewrite scroll_attr; try done.
    2: { change TEXT_CHARCOUNT with 1200. lia. }
    destruct (Z.leb_spec (30 * top_y) (j * 30 + i)); [| exfalso; lia].
    destruct (Z.ltb_spec (j * 30 + i) (30 * bot_y)); [| exfalso; lia].
    apply testbit_mark.
  - intros i j Hi Hj Hout. change TEXT_WIDTH with 30 in *.
    change TEXT_HEIGHT with 40 in *. unfold attr_at, pscr'.
    rewrite scroll_attr; try done.
    2: { change TEXT_CHARCOUNT with 1200. change TEXT_WIDTH with 30. lia. }
    change TEXT_WIDTH with 30.
    destruct (Z.leb_spec (30 * top_y) (j * 30 + i));
      destruct (Z.ltb_spec (j * 30 + i) (30 * bot_y));
      cbn [andb]; try done; exfalso; lia.
  - unfold pscr'. rewrite scroll_unfold. cbn.
    repeat split; try done.
    + pose proof (scroll_wf beyond pscr top_y bot_y Hwf Hzone Hbeyond) as [H _].
      by rewrite scroll_unfold in H.
    + pose proof (scroll_wf beyond pscr top_y bot_y Hwf Hzone Hbeyond) as [_ H].
      by rewrite scroll_unfold in H.
Qed.

(** Scrolling rows [38, 40) of the dotted demo screen, the last row being
    read from thirty bytes of value 0x55 past the buffer. *)
Lemma TftScrollVerticalZone_shift_witness :
  let s' := TftScrollVerticalZone (replicate 30 0x55) screen_dot 38 40 in
  wf_screen screen_dot
  /\ (0 <= 38 < 40 /\ 40 <= TEXT_HEIGHT)
  /\ TEXT_WIDTH <= Z.of_nat (length (replicate 30 0x55))
  /\ need_update (mpColorBuffer s') (39 * TEXT_WIDTH + 29) = true
  /\ attr_at s' 0 1 = attr_at screen_dot 0 1.
Proof.
  assert (Hwf : wf_screen screen_dot) by (split; vm_compute; reflexivity).
  assert (Hzone : 0 <= 38 < 40 /\ 40 <= TEXT_HEIGHT)
    by (vm_compute; intuition discriminate).
  assert (Hb : TEXT_WIDTH <= Z.of_nat (length (replicate 30 0x55)))
    by (vm_compute; discriminate).
  destruct (TftScrollVerticalZone_shift (replicate 30 0x55) screen_dot 38 40
              Hwf Hzone Hb) as (_ & _ & _ & _ & Hd & Ho & _).
  split; [exact Hwf |]. split; [exact Hzone |]. split; [exact Hb |].
  split.
  - apply Hd; vm_compute; intuition discriminate.
  - apply Ho; vm_compute; intuition discriminate.
Defined.

End ScrollClaim.

(** ** Clipping *)

Section Clipping.

(** [TftPutPixel] drops every point outside the plane. *)
Lemma TftPutPixel_clipped pscr x y paper ink :
  x < 0 \/ y < 0 \/ PIX_WIDTH <= x \/ PIX_HEIGHT <= y ->
  TftPutPixel pscr x y paper ink = pscr.
Proof.
  unfold TftPutPixel, PIX_WIDTH, PIX_HEIGHT. intros H.
  destruct (Z.ltb_spec x 0); [done |].
  destruct (Z.ltb_spec y 0); [done |].
  destruct (Z.gtb_spec x (240 - 1)); [done |].
  destruct (Z.gtb_spec y (320 - 1)); [done |].
  exfalso. lia.
Qed.

(** [TftPutLine] drops a line with a negative coordinate, or with one
    beyond the width or the height. *)
Lemma TftPutLine_clipped pscr x0 y0 x1 y1 :
  x0 < 0 \/ y0 < 0 \/ x1 < 0 \/ y1 < 0
  \/ PIX_WIDTH < x0 \/ PIX_HEIGHT < y0 \/ PIX_WIDTH < x1 \/ PIX_HEIGHT < y1 ->
  TftPutLine pscr x0 y0 x1 y1 = pscr.
Proof.
  unfold TftPutLine, PIX_WIDTH, PIX_HEIGHT. intros H.
  destruct (Z.ltb_spec x0 0); [done |].
  destruct (Z.ltb_spec y0 0); [done |].
  destruct (Z.ltb_spec x1 0); [done |].
  destruct (Z.ltb_spec y1 0); [done |].
  cbn [orb].
  destruct (Z.gtb_spec x0 240); [done |].
  destruct (Z.gtb_spec y0 320); [done |].
  destruct (Z.gtb_spec x1 240); [done |].
  destruct (Z.gtb_spec y1 320); [done |].
  exfalso. lia.
Qed.

End Clipping.

(** ** The dirty flag *)

Section PixelBits.

Lemma bit_index_range n : 0 <= Z.land n 31 <= 31.
Proof.
  change 31 with (Z.ones 5) at 1 2. rewrite Z.land_ones by lia.
  pose proof (Z.mod_pos_bound n (2 ^ 5) ltac:(lia)). lia.
Qed.

Lemma bit_mask k : 0 <= k <= 31 -> Z.shiftr 0x80000000 k = 2 ^ (31 - k).
Proof.
  intros Hk. rewrite Z.shiftr_div_pow2 by lia.
  change 0x80000000 with (2 ^ 31).
  rewrite <- Z.pow_sub_r by lia. done.
Qed.

(** A pixel index is its word and its bit. *)
Lemma bit_index_split n n' :
  Z.shiftr n 5 = Z.shiftr n' 5 -> Z.land n 31 = Z.land n' 31 -> n = n'.
Proof.
  rewrite !Z.shiftr_div_pow2 by lia.
  change 31 with (Z.ones 5). rewrite !Z.land_ones by lia.
  intros Hq Hr.
  rewrite (Z.div_mod n (2 ^ 5)), (Z.div_mod n' (2 ^ 5)) by lia.
  by rewrite Hq, Hr.
Qed.

Lemma GET_SET_other p n n' :
  n <> n' -> GET_DATA_BIT (SET_DATA_BIT p n) n' = GET_DATA_BIT p n'.
Proof.
  intros Hne. unfold GET_DATA_BIT, SET_DATA_BIT.
  destruct (Z.eq_dec (Z.shiftr n 5) (Z.shiftr n' 5)) as [Ew | Hw].
  2: { by rewrite rd_wr_ne. }
  rewrite <- Ew.
  destruct (Z_lt_dec (Z.shiftr n 5) 0) as [Hneg | Hpos].
  { by rewrite !rd_negative by lia. }
  destruct (Z_lt_dec (Z.shiftr n 5) (Z.of_nat (length p))) as [Hin | Hout].
  2: { rewrite !rd_outside; [done | lia | rewrite length_wr; lia]. }
  rewrite rd_wr_eq by lia.
  pose proof (bit_index_range n) as Hk. pose proof (bit_index_range n') as Hk'.
  rewrite !low_bit_testbit by lia. f_equal.
  rewrite Z.lor_spec, bit_mask by lia.
  rewrite Z.pow2_bits_eqb by lia.
  destruct (Z.eqb_spec (31 - Z.land n 31) (31 - Z.land n' 31)) as [E | _].
  - exfalso. apply Hne, bit_index_split; [done | lia].
  - apply orb_false_r.
Qed.

Lemma GET_SET_same p n :
  0 <= Z.shiftr n 5 < Z.of_nat (length p) ->
  GET_DATA_BIT (SET_DATA_BIT p n) n = 1.
Proof.
  intros Hw. unfold GET_DATA_BIT, SET_DATA_BIT.
  rewrite rd_wr_eq by lia.
  pose proof (bit_index_range n) as Hk.
  rewrite low_bit_testbit by lia.
  rewrite Z.lor_spec, bit_mask by lia.
  rewrite Z.pow2_bits_true by lia. by rewrite orb_true_r.
Qed.

(** Pixels of the plane have distinct bit indices, and pixels of distinct
    blocks are distinct. *)
Lemma pixel_index_inj x y x' y' :
  0 <= x < PIX_WIDTH -> 0 <= x' < PIX_WIDTH ->
  x + y * PIX_WIDTH = x' + y' * PIX_WIDTH -> x = x' /\ y = y'.
Proof. unfold PIX_WIDTH. intros Hx Hx' E. lia. Qed.

End PixelBits.

Section AttributeUpdate.

Lemma put_attr_marked box paper ink : Z.testbit (put_attr box paper ink) 6 = true.
Proof. unfold put_attr. rewrite Z.lor_spec. apply orb_true_r. Qed.

Lemma need_update_wr cb k v k' :
  need_update cb k' = true -> Z.testbit v 6 = true ->
  need_update (wr cb k v) k' = true.
Proof.
  intros Hk' Hv. rewrite need_update_testbit in *.
  destruct (Z.eq_dec k k') as [<- | Hne]; [| by rewrite rd_wr_ne].
  destruct (Z_lt_dec k 0) as [Hneg | Hpos].
  { by rewrite rd_negative in Hk' by lia. }
  destruct (Z_lt_dec k (Z.of_nat (length cb))) as [Hin | Hout].
  - by rewrite rd_wr_eq by lia.
  - by rewrite rd_outside in Hk' by lia.
Qed.

(** [TftPutColorAttr] marks its block and clears no flag. *)
Lemma TftPutColorAttr_marks pscr x y paper ink :
  0 <= x + TEXT_WIDTH * y < Z.of_nat (length (mpColorBuffer pscr)) ->
  need_update (mpColorBuffer (TftPutColorAttr pscr x y paper ink))
              (x + TEXT_WIDTH * y) = true.
Proof.
  intros Hk. unfold TftPutColorAttr. cbn [with_color mpColorBuffer].
  rewrite need_update_testbit, rd_wr_eq by lia. apply put_attr_marked.
Qed.

Lemma TftPutColorAttr_keeps pscr x y paper ink k :
  need_update (mpColorBuffer pscr) k = true ->
  need_update (mpColorBuffer (TftPutColorAttr pscr x y paper ink)) k = true.
Proof.
  intros Hk. unfold TftPutColorAttr. cbn [with_color mpColorBuffer].
  apply need_update_wr; [done | apply put_attr_marked].
Qed.

Lemma block_of_range x y :
  0 <= x < PIX_WIDTH -> 0 <= y < PIX_HEIGHT ->
  0 <= block_of x y < TEXT_CHARCOUNT.
Proof.
  unfold block_of, PIX_WIDTH, PIX_HEIGHT. intros Hx Hy.
  change TEXT_WIDTH with 30. change TEXT_CHARCOUNT with 1200.
  rewrite !Z.shiftr_div_pow2 by lia. change (2 ^ 3) with 8.
  assert (0 <= x / 8 < 30)
    by (split; [apply Z.div_pos; lia | apply Z.div_lt_upper_bound; lia]).
  assert (0 <= y / 8 < 40)
    by (split; [apply Z.div_pos; lia | apply Z.div_lt_upper_bound; lia]).
  lia.
Qed.

(** [TftPutPixel] inside the plane: the pixel is set, its block is marked,
    no flag is cleared and the dirty-flag invariant holds. *)
Lemma TftPutPixel_marks pscr x y paper ink :
  wf_screen pscr -> 0 <= x < PIX_WIDTH -> 0 <= y < PIX_HEIGHT ->
  let pscr' := TftPutPixel pscr x y paper ink in
  pixel_at pscr' x y = 1
  /\ need_update (mpColorBuffer pscr') (block_of x y) = true
  /\ (forall k, need_update (mpColorBuffer pscr) k = true ->
                need_update (mpColorBuffer pscr') k = true)
  /\ dirty_invariant pscr pscr'.
Proof.
  intros [Hp Hc] Hx Hy. cbv zeta.
  pose proof (block_of_range x y Hx Hy) as Hb.
  assert (Hw : 0 <= Z.shiftr (x + y * PIX_WIDTH) 5 < PIX_W32COUNT).
  { pose proof (pixel_word x y Hx ltac:(lia)) as Hw.
    change PIX_HEIGHT with 320 in Hy. change PIX_W32COUNT with 2400.
    pose proof (Z.div_mod y 8 ltac:(lia)).
    pose proof (Z.mod_pos_bound y 8 ltac:(lia)). lia. }
  assert (Hrun : TftPutPixel pscr x y paper ink =
            TftPutColorAttr
              (with_pix pscr (SET_DATA_BIT (mpPixBuffer pscr) (x + y * PIX_WIDTH)))
              (Z.shiftr x 3) (Z.shiftr y 3) paper ink).
  { unfold TftPutPixel, PIX_WIDTH, PIX_HEIGHT in *.
    destruct (Z.ltb_spec x 0); [lia |]. destruct (Z.ltb_spec y 0); [lia |].
    destruct (Z.gtb_spec x (240 - 1)); [lia |].
    destruct (Z.gtb_spec y (320 - 1)); [lia |]. done. }
  rewrite Hrun.
  assert (Hblk : block_of x y = Z.shiftr x 3 + TEXT_WIDTH * Z.shiftr y 3)
    by (unfold block_of; lia).
  assert (Hmark : need_update
            (mpColorBuffer
               (TftPutColorAttr
                  (with_pix pscr
                     (SET_DATA_BIT (mpPixBuffer pscr) (x + y * PIX_WIDTH)))
                  (Z.shiftr x 3) (Z.shiftr y 3) paper ink))
            (block_of x y) = true).
  { rewrite Hblk. apply TftPutColorAttr_marks. cbn [with_pix mpColorBuffer].
    rewrite Hc, <- Hblk. change (Z.to_nat TEXT_CHARCOUNT) with 1200%nat.
    change TEXT_CHARCOUNT with 1200 in Hb. lia. }
  split; [| split; [exact Hmark | split]].
  - unfold pixel_at, TftPutColorAttr. cbn [with_color with_pix mpPixBuffer].
    apply GET_SET_same. rewrite Hp.
    change (Z.to_nat PIX_W32COUNT) with 2400%nat.
    change PIX_W32COUNT with 2400 in Hw. lia.
  - intros k Hk. by apply TftPutColorAttr_keeps.
  - intros x' y' Hx' Hy' Hdiff.
    destruct (Z.eq_dec (block_of x' y') (block_of x y)) as [-> | Hother];
      [exact Hmark |].
    exfalso. unfold pixel_at, TftPutColorAttr in Hdiff.
    cbn [with_color with_pix mpPixBuffer mpColorBuffer] in Hdiff.
    rewrite rd_wr_ne in Hdiff by (rewrite <- Hblk; congruence).
    rewrite GET_SET_other in Hdiff.
    + destruct Hdiff as [H | [H | H]]; by apply H.
    + intros E. apply pixel_index_inj in E as [-> ->]; done.
Qed.

(** [TftClearScreenBuffer] marks every block. *)
Lemma TftClearScreenBuffer_marks pscr paper ink k :
  0 <= k < TEXT_CHARCOUNT ->
  need_update (mpColorBuffer (TftClearScreenBuffer pscr paper ink)) k = true.
Proof.
  intros Hk. unfold TftClearScreenBuffer. cbn [mpColorBuffer].
  rewrite need_update_testbit.
  erewrite rd_lookup; [| lia | apply lookup_replicate_2;
    change (Z.to_nat TEXT_CHARCOUNT) with 1200%nat;
    change TEXT_CHARCOUNT with 1200 in Hk; lia].
  cbv zeta. unfold wrapu at 1. rewrite Z.mod_pow2_bits_low by lia.
  destruct (_ <? 0); rewrite Z.lor_spec; apply orb_true_r.
Qed.

End AttributeUpdate.

Section GlyphBits.

Lemma GET_CLR_other p n n' :
  n <> n' -> GET_DATA_BIT (CLR_DATA_BIT p n) n' = GET_DATA_BIT p n'.
Proof.
  intros Hne. unfold GET_DATA_BIT, CLR_DATA_BIT.
  destruct (Z.eq_dec (Z.shiftr n 5) (Z.shiftr n' 5)) as [Ew | Hw].
  2: { by rewrite rd_wr_ne. }
  rewrite <- Ew.
  destruct (Z_lt_dec (Z.shiftr n 5) 0) as [Hneg | Hpos].
  { by rewrite !rd_negative by lia. }
  destruct (Z_lt_dec (Z.shiftr n 5) (Z.of_nat (length p))) as [Hin | Hout].
  2: { rewrite !rd_outside; [done | lia | rewrite length_wr; lia]. }
  rewrite rd_wr_eq by lia.
  pose proof (bit_index_range n) as Hk. pose proof (bit_index_range n') as Hk'.
  rewrite !low_bit_testbit by lia. f_equal.
  rewrite Z.land_spec, bit_mask by lia.
  unfold wrapu. rewrite Z.mod_pow2_bits_low, Z.lnot_spec by lia.
  rewrite Z.pow2_bits_eqb by lia.
  destruct (Z.eqb_spec (31 - Z.land n 31) (31 - Z.land n' 31)) as [E | _].
  - exfalso. apply Hne, bit_index_split; [done | lia].
  - apply andb_true_r.
Qed.

Lemma length_SET p n : length (SET_DATA_BIT p n) = length p.
Proof. apply length_wr. Qed.

Lemma length_CLR p n : length (CLR_DATA_BIT p n) = length p.
Proof. apply length_wr. Qed.

(** A loop whose rounds leave a pixel alone leaves it alone. *)
Lemma GET_for_all_other {I : Type} (f : I -> list Z -> list Z)
    (ixs : list I) (n' : Z) :
  (forall i p, i ∈ ixs -> GET_DATA_BIT (f i p) n' = GET_DATA_BIT p n') ->
  forall p, GET_DATA_BIT (for_all f ixs p) n' = GET_DATA_BIT p n'.
Proof.
  unfold for_all. induction ixs as [| i ixs IH]; intros H p; [done |].
  cbn [fold_left]. rewrite IH.
  - apply H, list_elem_of_here.
  - intros j q Hj. by apply H, list_elem_of_further.
Qed.

Lemma elem_of_range i lo hi : i ∈ range lo hi -> lo <= i < hi.
Proof. unfold range. rewrite elem_of_seqZ. lia. Qed.

Variable kFONT_ : list Z.

(** [TftPutChar] with a printable character inside the text area: its
    block is marked, no flag is cleared and the dirty-flag invariant
    holds. *)
Lemma TftPutChar_marks pscr x y paper ink chr :
  wf_screen pscr -> 0 <= x < TEXT_WIDTH -> 0 <= y < TEXT_HEIGHT ->
  let pscr' := TftPutChar kFONT_ pscr x y paper ink chr in
  (0x20 <= chr <= 0x7E ->
   need_update (mpColorBuffer pscr') (x + TEXT_WIDTH * y) = true)
  /\ (forall k, need_update (mpColorBuffer pscr) k = true ->
                need_update (mpColorBuffer pscr') k = true)
  /\ dirty_invariant pscr pscr'.
Proof.
  intros [Hp Hc] Hx Hy. cbv zeta. unfold TftPutChar.
  change TEXT_WIDTH with 30 in *. change TEXT_HEIGHT with 40 in *.
  destruct ((chr >? 0x7E) || (chr <? 0x20)) eqn:Hchr.
  { split; [| split].
    - intros Hr. exfalso.
      destruct (Z.gtb_spec chr 0x7E); destruct (Z.ltb_spec chr 0x20);
        cbn in Hchr; try discriminate; lia.
    - done.
    - intros x' y' _ _ [H | [H | H]]; by destruct H. }
  cbn [mpColorBuffer mpPixBuffer].
  assert (Hk : 0 <= x + 30 * y < Z.of_nat (length (mpColorBuffer pscr))).
  { rewrite Hc. change (Z.to_nat TEXT_CHARCOUNT) with 1200%nat. lia. }
  assert (Hmark : need_update
            (wr (mpColorBuffer pscr) (x + 30 * y)
                (put_attr (rd (mpColorBuffer pscr) (x + 30 * y)) paper ink))
            (x + 30 * y) = true).
  { rewrite need_update_testbit, rd_wr_eq by lia. apply put_attr_marked. }
  split; [done |]. split.
  { intros k Hkk. apply need_update_wr; [done | apply put_attr_marked]. }
  intros x' y' Hx' Hy' Hdiff.
  destruct (Z.eq_dec (block_of x' y') (x + 30 * y)) as [-> | Hother];
    [exact Hmark |].
  exfalso. unfold pixel_at in Hdiff.
  cbn [mpPixBuffer mpColorBuffer] in Hdiff.
  rewrite rd_wr_ne in Hdiff by congruence.
  rewrite GET_for_all_other in Hdiff.
  { destruct Hdiff as [H | [H | H]]; by apply H. }
  intros j p Hj. apply GET_for_all_other. intros i q Hi.
  apply elem_of_range in Hj, Hi.
  assert (Hne : (Z.shiftl y 3 + j) * PIX_WIDTH + Z.shiftl x 3 + i
                <> x' + y' * PIX_WIDTH).
  { rewrite !Z.shiftl_mul_pow2 by lia. change (2 ^ 3) with 8.
    intros E. apply Hother. unfold block_of.
    assert (Ex : x' = x * 8 + i /\ y' = y * 8 + j).
    { unfold PIX_WIDTH in *. lia. }
    destruct Ex as [-> ->].
    rewrite !Z.shiftr_div_pow2 by lia. change (2 ^ 3) with 8.
    change TEXT_WIDTH with 30.
    rewrite !(Z.add_comm (_ * 8)), !Z.div_add, !Z.div_small by lia. lia. }
  destruct (glyph_bit kFONT_ (chr - 32) j i);
    [by apply GET_SET_other | by apply GET_CLR_other].
Qed.

End GlyphBits.

Section ScrollFlags.

Variables (beyond : list Z) (pscr : screen_control_t) (top_y bot_y : Z).
Hypothesis Hwf : wf_screen pscr.
Hypothesis Hzone : 0 <= top_y < bot_y /\ bot_y <= TEXT_HEIGHT.
Hypothesis Hbeyond : TEXT_WIDTH <= Z.of_nat (length beyond).

(** The blocks of the zone are marked; the other attributes are kept. *)
Lemma scroll_zone_marked k :
  30 * top_y <= k < 30 * bot_y ->
  need_update (mpColorBuffer (TftScrollVerticalZone beyond pscr top_y bot_y)) k
  = true.
Proof.
  intros Hk. change TEXT_HEIGHT with 40 in Hzone.
  apply need_update_mark. rewrite scroll_attr; try done.
  2: { change TEXT_CHARCOUNT with 1200. lia. }
  destruct (Z.leb_spec (30 * top_y) k); [| exfalso; lia].
  destruct (Z.ltb_spec k (30 * bot_y)); [| exfalso; lia].
  apply testbit_mark.
Qed.

Lemma scroll_outside_attr k :
  0 <= k < TEXT_CHARCOUNT -> k < 30 * top_y \/ 30 * bot_y <= k ->
  rd (mpColorBuffer (TftScrollVerticalZone beyond pscr top_y bot_y)) k
  = rd (mpColorBuffer pscr) k.
Proof.
  intros Hk Hout. rewrite scroll_attr by done.
  destruct (Z.leb_spec (30 * top_y) k); destruct (Z.ltb_spec k (30 * bot_y));
    cbn [andb]; try done; exfalso; lia.
Qed.

Lemma scroll_outside_pixel x y :
  0 <= x < PIX_WIDTH -> 0 <= y < PIX_HEIGHT ->
  y < 8 * top_y \/ 8 * bot_y <= y ->
  pixel_at (TftScrollVerticalZone beyond pscr top_y bot_y) x y
  = pixel_at pscr x y.
Proof.
  intros Hx Hy Hout. change TEXT_HEIGHT with 40 in Hzone.
  unfold pixel_at. apply GET_DATA_BIT_same.
  pose proof (pixel_word x y Hx ltac:(lia)) as Hw.
  pose proof (Z.div_mod y 8 ltac:(lia)).
  pose proof (Z.mod_pos_bound y 8 ltac:(lia)).
  change PIX_HEIGHT with 320 in Hy.
  rewrite scroll_pix_word; try done.
  2: { change PIX_W32COUNT with 2400. lia. }
  destruct (Z.leb_spec (60 * top_y) (Z.shiftr (x + y * PIX_WIDTH) 5));
    destruct (Z.ltb_spec (Z.shiftr (x + y * PIX_WIDTH) 5) (60 * (bot_y - 1)));
    destruct (Z.leb_spec (60 * (bot_y - 1)) (Z.shiftr (x + y * PIX_WIDTH) 5));
    destruct (Z.ltb_spec (Z.shiftr (x + y * PIX_WIDTH) 5) (60 * bot_y));
    cbn [andb]; try done; exfalso; lia.
Qed.

(** [TftScrollVerticalZone] clears no flag and keeps the dirty-flag
    invariant. *)
Lemma TftScrollVerticalZone_marks :
  let pscr' := TftScrollVerticalZone beyond pscr top_y bot_y in
  (forall k, 0 <= k < TEXT_CHARCOUNT ->
     need_update (mpColorBuffer pscr) k = true ->
     need_update (mpColorBuffer pscr') k = true)
  /\ dirty_invariant pscr pscr'.
Proof.
  cbv zeta. change TEXT_HEIGHT with 40 in Hzone. split.
  - intros k Hk Hset.
    destruct (Z_lt_dec k (30 * top_y)) as [Hlo | Hge].
    { unfold need_update. rewrite scroll_outside_attr by (done || lia).
      exact Hset. }
    destruct (Z_le_dec (30 * bot_y) k) as [Hhi | Hlt].
    { unfold need_update. rewrite scroll_outside_attr by (done || lia).
      exact Hset. }
    apply scroll_zone_marked. lia.
  - intros x y Hx Hy Hdiff.
    pose proof (block_of_range x y Hx Hy) as Hb.
    assert (Hrow : 30 * (y / 8) <= block_of x y < 30 * (y / 8) + 30).
    { unfold block_of. change TEXT_WIDTH with 30.
      rewrite !Z.shiftr_div_pow2 by lia. change (2 ^ 3) with 8.
      unfold PIX_WIDTH in Hx.
      assert (0 <= x / 8 < 30)
        by (split; [apply Z.div_pos; lia | apply Z.div_lt_upper_bound; lia]).
      lia. }
    pose proof (Z.div_mod y 8 ltac:(lia)).
    pose proof (Z.mod_pos_bound y 8 ltac:(lia)).
    destruct (Z_lt_dec y (8 * top_y)) as [Hlo | Hge].
    { exfalso. rewrite scroll_outside_pixel in Hdiff by (done || lia).
      rewrite scroll_outside_attr in Hdiff by (done || lia).
      destruct Hdiff as [Hd | [Hd | Hd]]; by apply Hd. }
    destruct (Z_le_dec (8 * bot_y) y) as [Hhi | Hlt].
    { exfalso. rewrite scroll_outside_pixel in Hdiff by (done || lia).
      rewrite scroll_outside_attr in Hdiff by (done || lia).
      destruct Hdiff as [Hd | [Hd | Hd]]; by apply Hd. }
    apply scroll_zone_marked. lia.
Qed.

End ScrollFlags.

Section Tracked.

Lemma tracked_bufs_refl pix cb : tracked_bufs pix cb pix cb.
Proof.
  split; [done |]. intros x y _ _ [H | [H | H]]; by destruct H.
Qed.

Lemma tracked_bufs_trans pix0 cb0 pix1 cb1 pix2 cb2 :
  tracked_bufs pix0 cb0 pix1 cb1 -> tracked_bufs pix1 cb1 pix2 cb2 ->
  tracked_bufs pix0 cb0 pix2 cb2.
Proof.
  intros [Hk1 Hd1] [Hk2 Hd2]. split; [auto |].
  intros x y Hx Hy Hdiff.
  destruct (Z.eq_dec (GET_DATA_BIT pix2 (x + y * PIX_WIDTH))
                     (GET_DATA_BIT pix1 (x + y * PIX_WIDTH))) as [Ep | Np];
    [| apply Hd2; auto].
  destruct (Z.eq_dec (ink_of (rd cb2 (block_of x y)))
                     (ink_of (rd cb1 (block_of x y)))) as [Ei | Ni];
    [| apply Hd2; auto].
  destruct (Z.eq_dec (paper_of (rd cb2 (block_of x y)))
                     (paper_of (rd cb1 (block_of x y)))) as [Ea | Na];
    [| apply Hd2; auto].
  apply Hk2, Hd1; [done | done |]. rewrite <- Ep, <- Ei, <- Ea. exact Hdiff.
Qed.

Lemma tracked_refl s : tracked s s.
Proof. apply tracked_bufs_refl. Qed.

Lemma tracked_trans s0 s1 s2 : tracked s0 s1 -> tracked s1 s2 -> tracked s0 s2.
Proof. apply tracked_bufs_trans. Qed.

Lemma tracked_dirty_invariant s s' : tracked s s' -> dirty_invariant s s'.
Proof. intros [_ H]. exact H. Qed.

(** The elementary drawing step: pixel [(x, y)] of the plane is set,
    cleared or left, and its block is marked. *)
Lemma tracked_pixel_step pix cb pix' x y :
  wf_bufs pix cb -> 0 <= x < PIX_WIDTH -> 0 <= y < PIX_HEIGHT ->
  pix' = SET_DATA_BIT pix (x + y * PIX_WIDTH)
  \/ pix' = CLR_DATA_BIT pix (x + y * PIX_WIDTH) \/ pix' = pix ->
  let cb' := wr cb (block_of x y) (Z.lor (rd cb (block_of x y)) (Z.shiftl 1 6)) in
  wf_bufs pix' cb' /\ tracked_bufs pix cb pix' cb'.
Proof.
  intros [Hp Hc] Hx Hy Hpix. cbv zeta.
  pose proof (block_of_range x y Hx Hy) as Hb.
  change TEXT_CHARCOUNT with 1200 in Hb.
  assert (Hlen : length pix' = length pix).
  { destruct Hpix as [-> | [-> | ->]]; [apply length_wr | apply length_wr | done]. }
  assert (Hmark : need_update
            (wr cb (block_of x y) (Z.lor (rd cb (block_of x y)) (Z.shiftl 1 6)))
            (block_of x y) = true).
  { apply need_update_mark. rewrite rd_wr_eq.
    - apply testbit_mark.
    - rewrite Hc. change (Z.to_nat TEXT_CHARCOUNT) with 1200%nat. lia. }
  split; [split; [by rewrite Hlen | by rewrite length_wr] |].
  split.
  - intros k Hk. apply need_update_wr; [done | apply testbit_mark].
  - intros x' y' Hx' Hy' Hdiff.
    destruct (Z.eq_dec (block_of x' y') (block_of x y)) as [-> | Hother];
      [exact Hmark |].
    exfalso. rewrite rd_wr_ne in Hdiff by congruence.
    assert (Hne : x + y * PIX_WIDTH <> x' + y' * PIX_WIDTH).
    { intros E. apply pixel_index_inj in E as [-> ->]; done. }
    assert (Hsame : GET_DATA_BIT pix' (x' + y' * PIX_WIDTH)
                    = GET_DATA_BIT pix (x' + y' * PIX_WIDTH)).
    { destruct Hpix as [-> | [-> | ->]];
        [by apply GET_SET_other | by apply GET_CLR_other | done]. }
    destruct Hdiff as [H | [H | H]]; by apply H.
Qed.

(** A loop of tracked rounds is tracked. *)
Lemma tracked_for_all {I : Type} (f : I -> list Z * list Z -> list Z * list Z)
    (ixs : list I) :
  (forall i st, i ∈ ixs -> wf_bufs (fst st) (snd st) ->
     wf_bufs (fst (f i st)) (snd (f i st))
     /\ tracked_bufs (fst st) (snd st) (fst (f i st)) (snd (f i st))) ->
  forall st, wf_bufs (fst st) (snd st) ->
    wf_bufs (fst (for_all f ixs st)) (snd (for_all f ixs st))
    /\ tracked_bufs (fst st) (snd st)
                    (fst (for_all f ixs st)) (snd (for_all f ixs st)).
Proof.
  unfold for_all. induction ixs as [| i ixs IH]; intros H st Hwf.
  { split; [done | apply tracked_bufs_refl]. }
  cbn [fold_left].
  destruct (H i st (list_elem_of_here _ _) Hwf) as [Hwf1 Ht1].
  destruct (IH (fun j s Hj => H j s (list_elem_of_further _ _ _ Hj)) _ Hwf1)
    as [Hwf2 Ht2].
  split; [done | by eapply tracked_bufs_trans].
Qed.

End Tracked.

Section TrackedOperations.

Variable kFONT_ : list Z.

Lemma wf_screen_bufs s : wf_screen s <-> wf_bufs (mpPixBuffer s) (mpColorBuffer s).
Proof. done. Qed.

Lemma need_update_inside cb k :
  need_update cb k = true -> 0 <= k < Z.of_nat (length cb).
Proof.
  rewrite need_update_testbit. intros H.
  destruct (Z_lt_dec k 0); [by rewrite rd_negative in H by lia |].
  destruct (Z_lt_dec k (Z.of_nat (length cb))); [lia |].
  by rewrite rd_outside in H by lia.
Qed.

Lemma length_for_all {I : Type} (f : I -> list Z -> list Z) (ixs : list I) :
  (forall i p, length (f i p) = length p) ->
  forall p, length (for_all f ixs p) = length p.
Proof.
  intros H. unfold for_all. induction ixs as [| i ixs IH]; intros p; [done |].
  cbn [fold_left]. by rewrite IH, H.
Qed.

Lemma TftPutPixel_tracked pscr x y paper ink :
  wf_screen pscr ->
  wf_screen (TftPutPixel pscr x y paper ink)
  /\ tracked pscr (TftPutPixel pscr x y paper ink).
Proof.
  intros Hwf.
  destruct (Z_lt_dec x 0) as [Hx0 | Hx0];
    [rewrite TftPutPixel_clipped by lia; split; [done | apply tracked_refl] |].
  destruct (Z_lt_dec y 0) as [Hy0 | Hy0];
    [rewrite TftPutPixel_clipped by lia; split; [done | apply tracked_refl] |].
  destruct (Z_le_dec PIX_WIDTH x) as [Hx1 | Hx1];
    [rewrite TftPutPixel_clipped by lia; split; [done | apply tracked_refl] |].
  destruct (Z_le_dec PIX_HEIGHT y) as [Hy1 | Hy1];
    [rewrite TftPutPixel_clipped by lia; split; [done | apply tracked_refl] |].
  destruct (TftPutPixel_marks pscr x y paper ink Hwf ltac:(lia) ltac:(lia))
    as (_ & _ & Hk & Hd).
  split; [| by split].
  destruct Hwf as [Hp Hc]. unfold TftPutPixel, TftPutColorAttr.
  destruct (_ || _); [done |].
  split; cbn [with_color with_pix mpPixBuffer mpColorBuffer];
    unfold SET_DATA_BIT; by rewrite length_wr.
Qed.

Lemma TftPutColorAttr_tracked pscr x y paper ink :
  wf_screen pscr ->
  wf_screen (TftPutColorAttr pscr x y paper ink)
  /\ (0 <= x < TEXT_WIDTH -> 0 <= y < TEXT_HEIGHT ->
      tracked pscr (TftPutColorAttr pscr x y paper ink)).
Proof.
  intros [Hp Hc]. split.
  { split; unfold TftPutColorAttr; cbn [with_color mpPixBuffer mpColorBuffer];
      [done | by rewrite length_wr]. }
  intros Hx Hy. change TEXT_WIDTH with 30 in *. change TEXT_HEIGHT with 40 in *.
  assert (Hk : 0 <= x + TEXT_WIDTH * y < Z.of_nat (length (mpColorBuffer pscr))).
  { rewrite Hc. change (Z.to_nat TEXT_CHARCOUNT) with 1200%nat.
    change TEXT_WIDTH with 30. lia. }
  split; [intros k Hkk; by apply TftPutColorAttr_keeps |].
  intros x' y' Hx' Hy' Hdiff.
  destruct (Z.eq_dec (block_of x' y') (x + TEXT_WIDTH * y)) as [-> | Hother];
    [by apply TftPutColorAttr_marks |].
  exfalso. unfold TftPutColorAttr in Hdiff.
  cbn [with_color mpPixBuffer mpColorBuffer] in Hdiff.
  rewrite rd_wr_ne in Hdiff by congruence.
  destruct Hdiff as [H | [H | H]]; by apply H.
Qed.

Lemma TftClearScreenBuffer_tracked pscr paper ink :
  wf_screen pscr ->
  wf_screen (TftClearScreenBuffer pscr paper ink)
  /\ tracked pscr (TftClearScreenBuffer pscr paper ink).
Proof.
  intros [Hp Hc]. split.
  { split; unfold TftClearScreenBuffer; cbn [mpPixBuffer mpColorBuffer];
      apply length_replicate. }
  split.
  - intros k Hk. apply TftClearScreenBuffer_marks.
    apply need_update_inside in Hk. rewrite Hc in Hk.
    change (Z.to_nat TEXT_CHARCOUNT) with 1200%nat in Hk.
    change TEXT_CHARCOUNT with 1200. lia.
  - intros x y Hx Hy _. apply TftClearScreenBuffer_marks.
    by apply block_of_range.
Qed.

Lemma TftPutChar_tracked pscr x y paper ink chr :
  wf_screen pscr -> 0 <= x < TEXT_WIDTH -> 0 <= y < TEXT_HEIGHT ->
  wf_screen (TftPutChar kFONT_ pscr x y paper ink chr)
  /\ tracked pscr (TftPutChar kFONT_ pscr x y paper ink chr).
Proof.
  intros Hwf Hx Hy.
  destruct (TftPutChar_marks kFONT_ pscr x y paper ink chr Hwf Hx Hy)
    as (_ & Hk & Hd).
  split; [| by split].
  destruct Hwf as [Hp Hc]. unfold TftPutChar.
  destruct (_ || _); [done |].
  split; cbn [mpPixBuffer mpColorBuffer]; [| by rewrite length_wr].
  rewrite <- Hp. apply length_for_all. intros j p.
  apply length_for_all. intros i q.
  destruct (glyph_bit _ _ _ _); apply length_wr.
Qed.

Lemma TftScrollVerticalZone_tracked beyond pscr top_y bot_y :
  wf_screen pscr -> 0 <= top_y < bot_y /\ bot_y <= TEXT_HEIGHT ->
  TEXT_WIDTH <= Z.of_nat (length beyond) ->
  wf_screen (TftScrollVerticalZone beyond pscr top_y bot_y)
  /\ tracked pscr (TftScrollVerticalZone beyond pscr top_y bot_y).
Proof.
  intros Hwf Hzone Hb. split; [by apply scroll_wf |].
  destruct (TftScrollVerticalZone_marks beyond pscr top_y bot_y Hwf Hzone Hb)
    as [Hk Hd].
  split; [| exact Hd].
  intros k Hkk. apply Hk; [| done].
  apply need_update_inside in Hkk. destruct Hwf as [_ Hc].
  rewrite Hc in Hkk. change (Z.to_nat TEXT_CHARCOUNT) with 1200%nat in Hkk.
  change TEXT_CHARCOUNT with 1200. lia.
Qed.

(** [TftPutString]: with the cursor inside the text area and a scroll
    zone inside the screen, every round is tracked. *)
Lemma to_int16_small z : - 2 ^ 15 <= z < 2 ^ 15 -> to_int16 z = z.
Proof.
  intros Hz. unfold to_int16. rewrite Z.mod_small by lia. lia.
Qed.

Lemma put_string_step_tracked beyond top_y bot_y paper ink pscr ch :
  wf_screen pscr -> 0 <= top_y < bot_y /\ bot_y <= TEXT_HEIGHT ->
  TEXT_WIDTH <= Z.of_nat (length beyond) -> cursor_ok bot_y pscr ->
  let s' := put_string_step kFONT_ beyond top_y bot_y paper ink pscr ch in
  wf_screen s' /\ cursor_ok bot_y s' /\ tracked pscr s'.
Proof.
  intros Hwf Hzone Hb [Hcx Hcy]. cbv zeta. unfold put_string_step.
  change TEXT_WIDTH with 30 in *. change TEXT_HEIGHT with 40 in *.
  set (s1 := if mCursorY pscr >=? bot_y then _ else pscr).
  assert (H1 : wf_screen s1 /\ tracked pscr s1
               /\ 0 <= mCursorX s1 < 30 /\ 0 <= mCursorY s1 < bot_y).
  { unfold s1. destruct (Z.geb_spec (mCursorY pscr) bot_y) as [Hge | Hlt].
    - destruct (TftScrollVerticalZone_tracked beyond pscr top_y bot_y
                  Hwf Hzone Hb) as [Hw Ht].
      rewrite scroll_unfold in *. cbn [with_cursor mCursorX mCursorY] in *.
      rewrite to_int16_small by lia.
      split; [exact Hw |]. split; [exact Ht |]. lia.
    - split; [done |]. split; [apply tracked_refl | lia]. }
  clearbody s1. destruct H1 as (Hw1 & Ht1 & Hx1 & Hy1).
  destruct ((ch =? 10) || (ch =? 13)).
  { cbn [with_cursor]. rewrite to_int16_small by lia.
    split; [exact Hw1 |]. split; [| exact Ht1].
    unfold cursor_ok, with_cursor. cbn [mCursorX mCursorY]. change TEXT_WIDTH with 30. lia. }
  destruct (TftPutChar_tracked s1 (mCursorX s1) (mCursorY s1) paper ink ch
              Hw1 ltac:(change TEXT_WIDTH with 30; lia)
              ltac:(change TEXT_HEIGHT with 40; lia)) as [Hw2 Ht2].
  set (s2 := TftPutChar kFONT_ s1 (mCursorX s1) (mCursorY s1) paper ink ch) in *.
  assert (Hc2 : mCursorX s2 = mCursorX s1 /\ mCursorY s2 = mCursorY s1).
  { unfold s2, TftPutChar. by destruct (_ || _). }
  destruct Hc2 as [Ex Ey]. rewrite Ex, Ey.
  rewrite !to_int16_small by lia.
  destruct (Z.geb_spec (mCursorX s1 + 1) 30).
  - cbn [with_cursor]. split; [exact Hw2 |].
    split; [| by eapply tracked_trans].
    unfold cursor_ok, with_cursor. cbn [mCursorX mCursorY]. change TEXT_WIDTH with 30. lia.
  - cbn [with_cursor]. split; [exact Hw2 |].
    split; [| by eapply tracked_trans].
    unfold cursor_ok, with_cursor. cbn [mCursorX mCursorY]. change TEXT_WIDTH with 30. lia.
Qed.

Lemma TftPutString_tracked beyond str top_y bot_y paper ink : forall pscr,
  wf_screen pscr -> 0 <= top_y < bot_y /\ bot_y <= TEXT_HEIGHT ->
  TEXT_WIDTH <= Z.of_nat (length beyond) -> cursor_ok bot_y pscr ->
  tracked pscr (TftPutString kFONT_ beyond pscr str top_y bot_y paper ink).
Proof.
  induction str as [| ch str IH]; intros pscr Hwf Hzone Hb Hc.
  { apply tracked_refl. }
  cbn [TftPutString]. destruct (ch =? 0); [apply tracked_refl |].
  destruct (put_string_step_tracked beyond top_y bot_y paper ink pscr ch
              Hwf Hzone Hb Hc) as (Hw1 & Hc1 & Ht1).
  eapply tracked_trans; [exact Ht1 |]. by apply IH.
Qed.

(** [TftPutTextLabel]: every glyph pixel written has its own block
    marked. *)
Lemma put_label_glyph_tracked over chr x_pix y_pix pscr :
  wf_screen pscr -> 0 <= x_pix <= PIX_WIDTH - 8 -> 0 <= y_pix <= PIX_HEIGHT - 8 ->
  wf_screen (put_label_glyph kFONT_ over chr x_pix y_pix pscr)
  /\ tracked pscr (put_label_glyph kFONT_ over chr x_pix y_pix pscr).
Proof.
  intros Hwf Hx Hy. unfold put_label_glyph, tracked, wf_screen.
  change PIX_WIDTH with 240 in Hx. change PIX_HEIGHT with 320 in Hy.
  match goal with
  | |- context [for_all ?f ?js (?p, ?c)] =>
      assert (Hstep : forall j st, j ∈ js -> wf_bufs (fst st) (snd st) ->
                wf_bufs (fst (f j st)) (snd (f j st))
                /\ tracked_bufs (fst st) (snd st) (fst (f j st)) (snd (f j st)));
      [| destruct (tracked_for_all f js Hstep (p, c) Hwf) as [Hw Ht];
         destruct (for_all f js (p, c)) as [pix cb]; by split]
  end.
  intros j st Hj Hwj. apply elem_of_range in Hj.
  apply tracked_for_all; [| exact Hwj].
  intros i [pix cb] Hi Hwi. apply elem_of_range in Hi. cbn [fst snd] in *.
  replace (Z.shiftr (x_pix + i) 3 + TEXT_WIDTH * Z.shiftr (y_pix + j) 3)
    with (block_of (x_pix + i) (y_pix + j)) by (unfold block_of; lia).
  replace ((y_pix + j) * PIX_WIDTH + x_pix + i)
    with ((x_pix + i) + (y_pix + j) * PIX_WIDTH) by lia.
  apply tracked_pixel_step;
    [done | change PIX_WIDTH with 240; lia | change PIX_HEIGHT with 320; lia |].
  destruct (glyph_bit _ _ _ _); [by left |].
  destruct over; [right; by left | right; by right].
Qed.

Lemma put_label_loop_tracked over y_pix pstr : forall max_len x_pix pscr,
  wf_screen pscr -> 0 <= x_pix -> x_pix + 8 * Z.of_nat max_len <= PIX_WIDTH ->
  0 <= y_pix <= PIX_HEIGHT - 8 ->
  tracked pscr (put_label_loop kFONT_ over pstr max_len x_pix y_pix pscr).
Proof.
  induction pstr as [| chr pstr IH]; intros max_len x_pix pscr Hwf Hx Hlen Hy.
  { apply tracked_refl. }
  destruct max_len as [| max_len]; [apply tracked_refl |].
  cbn [put_label_loop]. destruct (chr =? 0); [apply tracked_refl |].
  destruct (_ || _); [apply tracked_refl |].
  destruct (put_label_glyph_tracked over (chr - 32) x_pix y_pix pscr Hwf
              ltac:(lia) Hy) as [Hw1 Ht1].
  eapply tracked_trans; [exact Ht1 |]. apply IH; [done | lia | lia | done].
Qed.

Lemma TftPutTextLabel_tracked pscr pstr x_pix y_pix over :
  wf_screen pscr -> 0 <= x_pix -> 0 <= y_pix ->
  tracked pscr (TftPutTextLabel kFONT_ pscr pstr x_pix y_pix over).
Proof.
  intros Hwf Hx Hy. unfold TftPutTextLabel.
  change PIX_WIDTH with 240. change PIX_HEIGHT with 320.
  destruct (Z.gtb_spec x_pix (240 - 8)); [apply tracked_refl |].
  destruct (Z.gtb_spec y_pix (320 - 8)); [apply tracked_refl |].
  cbn [orb]. apply put_label_loop_tracked; [done | done | | change PIX_HEIGHT with 320; lia].
  rewrite Z2Nat.id by (apply Z.shiftr_nonneg; lia).
  rewrite Z.shiftr_div_pow2 by lia. change (2 ^ 3) with 8.
  change PIX_WIDTH with 240.
  pose proof (Z.mul_div_le (240 - x_pix) 8 ltac:(lia)). lia.
Qed.

End TrackedOperations.

Section Line.

(** The Bresenham loop between two points of the plane.  [rx] and [ry]
    are the distances still to go; the error term is tied to them, which
    keeps every point visited between the end points. *)
Variables (x1 y1 sx sy dx dy err0 : Z).
Hypothesis Hsx : sx = 1 \/ sx = -1.
Hypothesis Hsy : sy = 1 \/ sy = -1.
Hypothesis Hdx : 0 <= dx.
Hypothesis Hdy : 0 <= dy.
Hypothesis Hbx : forall x, 0 <= sx * (x1 - x) <= dx -> 0 <= x < PIX_WIDTH.
Hypothesis Hby : forall y, 0 <= sy * (y1 - y) <= dy -> 0 <= y < PIX_HEIGHT.
Hypothesis Herr0 :
  (dy < dx -> 0 <= err0 < dx) /\ (dx <= dy -> - dy < err0 <= 0 \/ dy = 0).

Let line_inv' := line_inv x1 y1 sx sy dx dy err0.

Lemma line_step x0 y0 err :
  line_inv' x0 y0 err -> ~ (x0 = x1 /\ y0 = y1) ->
  let e2 := err in
  let '(err', x0') := if e2 >? - dx then (err - dy, x0 + sx) else (err, x0) in
  let '(err'', y0') := if e2 <? dy then (err' + dx, y0 + sy) else (err', y0) in
  line_inv' x0' y0' err''.
Proof.
  unfold line_inv', line_inv. cbv zeta.
  intros (Hrx & Hry & He & Hmaj & Hmin) Hgo.
  assert (Hnz : sx * (x1 - x0) <> 0 \/ sy * (y1 - y0) <> 0).
  { destruct (Z.eq_dec x0 x1) as [-> | Hx]; [| left; nia].
    destruct (Z.eq_dec y0 y1) as [-> | Hy]; [tauto | right; nia]. }
  destruct Herr0 as [Hmaj0 Hmin0].
  set (rx := sx * (x1 - x0)) in *. set (ry := sy * (y1 - y0)) in *.
  assert (Ex : sx * (x1 - (x0 + sx)) = rx - 1) by (unfold rx; nia).
  assert (Ey : sy * (y1 - (y0 + sy)) = ry - 1) by (unfold ry; nia).
  destruct (Z_lt_dec dy dx) as [Hx | Hy].
  - (* x is the driving axis: it steps in every round *)
    specialize (Hmaj Hx). specialize (Hmaj0 Hx).
    assert (Hrx1 : 1 <= rx) by nia.
    destruct (Z.gtb_spec err (- dx)); [| lia].
    destruct (Z.ltb_spec err dy).
    + assert (Hry1 : 1 <= ry) by nia.
      rewrite Ex, Ey. repeat split; try lia; nia.
    + rewrite Ex. repeat split; try lia; nia.
  - (* y is the driving axis *)
    assert (Hdy1 : 1 <= dy) by nia.
    destruct (Hmin ltac:(lia)) as [He1 | ?]; [| lia].
    destruct (Hmin0 ltac:(lia)) as [He0 | ?]; [| lia].
    assert (Hry1 : 1 <= ry) by nia.
    destruct (Z.ltb_spec err dy); [| lia].
    destruct (Z.gtb_spec err (- dx)).
    + assert (Hrx1 : 1 <= rx) by nia.
      rewrite Ex, Ey. repeat split; try lia; nia.
    + rewrite Ey. repeat split; try lia; nia.
Qed.

Lemma put_line_loop_tracked cnt : forall pscr x0 y0 err,
  wf_screen pscr -> line_inv' x0 y0 err ->
  wf_screen (put_line_loop cnt pscr x0 y0 x1 y1 sx sy dx dy err)
  /\ tracked pscr (put_line_loop cnt pscr x0 y0 x1 y1 sx sy dx dy err).
Proof.
  induction cnt as [| cnt IH]; intros pscr x0 y0 err Hwf Hinv.
  { split; [done | apply tracked_refl]. }
  cbn [put_line_loop].
  assert (Hpt : 0 <= x0 < PIX_WIDTH /\ 0 <= y0 < PIX_HEIGHT).
  { destruct Hinv as (Hrx & Hry & _). split; [by apply Hbx | by apply Hby]. }
  destruct Hpt as [Hx0 Hy0].
  destruct (tracked_pixel_step (mpPixBuffer pscr) (mpColorBuffer pscr)
              (SET_DATA_BIT (mpPixBuffer pscr) (x0 + y0 * PIX_WIDTH)) x0 y0
              Hwf Hx0 Hy0 ltac:(by left)) as [Hw1 Ht1].
  fold (block_of x0 y0).
  set (s1 := with_color (with_pix pscr _) _) in *.
  assert (Hs1 : wf_screen s1 /\ tracked pscr s1) by (split; [exact Hw1 | exact Ht1]).
  clearbody s1. destruct Hs1 as [Hws1 Hts1].
  destruct (Z.eqb_spec x0 x1) as [Ex | Nx];
    [destruct (Z.eqb_spec y0 y1) as [Ey | Ny] |]; cbn [andb]; [by split | |].
  - pose proof (line_step x0 y0 err Hinv ltac:(tauto)) as Hnext.
    cbv zeta in Hnext.
    destruct (err >? - dx); destruct (err <? dy);
      destruct (IH s1 _ _ _ Hws1 Hnext) as [Hw2 Ht2];
      (split; [exact Hw2 | by eapply tracked_trans]).
  - pose proof (line_step x0 y0 err Hinv ltac:(tauto)) as Hnext.
    cbv zeta in Hnext.
    destruct (err >? - dx); destruct (err <? dy);
      destruct (IH s1 _ _ _ Hws1 Hnext) as [Hw2 Ht2];
      (split; [exact Hw2 | by eapply tracked_trans]).
Qed.

End Line.

(** [TftPutLine] between two points of the plane is tracked. *)
Lemma TftPutLine_tracked pscr x0 y0 x1 y1 :
  wf_screen pscr ->
  0 <= x0 < PIX_WIDTH -> 0 <= y0 < PIX_HEIGHT ->
  0 <= x1 < PIX_WIDTH -> 0 <= y1 < PIX_HEIGHT ->
  tracked pscr (TftPutLine pscr x0 y0 x1 y1).
Proof.
  intros Hwf Hx0 Hy0 Hx1 Hy1. unfold TftPutLine.
  change PIX_WIDTH with 240 in *. change PIX_HEIGHT with 320 in *.
  destruct (Z.ltb_spec x0 0); [lia |]. destruct (Z.ltb_spec y0 0); [lia |].
  destruct (Z.ltb_spec x1 0); [lia |]. destruct (Z.ltb_spec y1 0); [lia |].
  cbn [orb].
  destruct (Z.gtb_spec x0 240); [lia |]. destruct (Z.gtb_spec y0 320); [lia |].
  destruct (Z.gtb_spec x1 240); [lia |]. destruct (Z.gtb_spec y1 320); [lia |].
  cbn [orb].
  set (sx := if x0 <? x1 then 1 else -1).
  set (sy := if y0 <? y1 then 1 else -1).
  set (dx := if x1 >? x0 then x1 - x0 else x0 - x1).
  set (dy := if y1 >? y0 then y1 - y0 else y0 - y1).
  set (err0 := Z.quot (if dx >? dy then dx else - dy) 2).
  assert (Hsx : (sx = 1 /\ dx = x1 - x0 /\ x0 < x1)
                \/ (sx = -1 /\ dx = x0 - x1 /\ x1 <= x0)).
  { unfold sx, dx. destruct (Z.ltb_spec x0 x1); destruct (Z.gtb_spec x1 x0); lia. }
  assert (Hsy : (sy = 1 /\ dy = y1 - y0 /\ y0 < y1)
                \/ (sy = -1 /\ dy = y0 - y1 /\ y1 <= y0)).
  { unfold sy, dy. destruct (Z.ltb_spec y0 y1); destruct (Z.gtb_spec y1 y0); lia. }
  assert (Herr0 : (dy < dx -> 0 <= err0 < dx)
                  /\ (dx <= dy -> - dy < err0 <= 0 \/ dy = 0)).
  { unfold err0. destruct (Z.gtb_spec dx dy).
    - split; [| lia]. intros _.
      rewrite Z.quot_div_nonneg by lia.
      pose proof (Z.div_mod dx 2 ltac:(lia)).
      pose proof (Z.mod_pos_bound dx 2 ltac:(lia)). lia.
    - split; [lia |]. intros _.
      destruct (Z.eq_dec dy 0); [by right | left].
      rewrite Z.quot_opp_l, Z.quot_div_nonneg by lia.
      pose proof (Z.div_mod dy 2 ltac:(lia)).
      pose proof (Z.mod_pos_bound dy 2 ltac:(lia)). lia. }
  clearbody sx sy dx dy err0.
  assert (Hbx : forall x, 0 <= sx * (x1 - x) <= dx -> 0 <= x < PIX_WIDTH).
  { intros x Hr. change PIX_WIDTH with 240. nia. }
  assert (Hby : forall y, 0 <= sy * (y1 - y) <= dy -> 0 <= y < PIX_HEIGHT).
  { intros y Hr. change PIX_HEIGHT with 320. nia. }
  assert (Hinv : line_inv x1 y1 sx sy dx dy err0 x0 y0 err0).
  { destruct Herr0 as [Hmaj Hmin].
    unfold line_inv. cbv zeta.
    split; [nia |]. split; [nia |]. split; [nia |]. split; [exact Hmaj | exact Hmin]. }
  apply (put_line_loop_tracked x1 y1 sx sy dx dy err0
           ltac:(lia) ltac:(lia) ltac:(lia) ltac:(lia) Hbx Hby Herr0
           1000 pscr x0 y0 err0 Hwf Hinv).
Qed.

Section DrawingClaims.

(** C3: the code departs from the claim for a line that touches
    [x = PIX_WIDTH].  [TftPutLine (.., 240, 0, 240, 0)] has both end points
    outside [0, 240) x [0, 320), yet it is drawn: bit 240 of the plane,
    which is pixel (0, 1), is set and block 30 is marked as changed. *)
Theorem TftPutLine_edge_drawn :
  let s' := TftPutLine screen_idle 240 0 240 0 in
  pixel_at screen_idle 0 1 = 0 /\ pixel_at s' 0 1 = 1
  /\ need_update (mpColorBuffer screen_idle) 30 = false
  /\ need_update (mpColorBuffer s') 30 = true
  /\ s' <> screen_idle.
Proof.
  cbv zeta.
  assert (H0 : pixel_at screen_idle 0 1 = 0) by (vm_compute; reflexivity).
  assert (H1 : pixel_at (TftPutLine screen_idle 240 0 240 0) 0 1 = 1)
    by (vm_compute; reflexivity).
  split; [exact H0 |]. split; [exact H1 |].
  split; [vm_compute; reflexivity |]. split; [vm_compute; reflexivity |].
  intros E. rewrite E, H0 in H1. discriminate H1.
Qed.

(** C1: the code departs from the claim in [TftClearRect8].  On a screen
    with pixel (8, 0) set and no block awaiting an update, clearing block
    (0, 0) stores 0 in the whole word 0 of the plane, which also holds the
    top pixel row of blocks 1, 2 and 3: pixel (8, 0) changes while the flag
    of its block stays clear. *)
Theorem TftClearRect8_neighbour_not_marked :
  let s' := TftClearRect8 screen_dot 0 0 in
  pixel_at screen_dot 8 0 = 1 /\ pixel_at s' 8 0 = 0
  /\ need_update (mpColorBuffer s') (block_of 8 0) = false
  /\ ~ dirty_invariant screen_dot s'.
Proof.
  cbv zeta.
  assert (H0 : pixel_at screen_dot 8 0 = 1) by (vm_compute; reflexivity).
  assert (H1 : pixel_at (TftClearRect8 screen_dot 0 0) 8 0 = 0)
    by (vm_compute; reflexivity).
  assert (H2 : need_update (mpColorBuffer (TftClearRect8 screen_dot 0 0))
                 (block_of 8 0) = false) by (vm_compute; reflexivity).
  split; [exact H0 |]. split; [exact H1 |]. split; [exact H2 |].
  intros Hinv.
  specialize (Hinv 8 0 ltac:(done) ltac:(done)).
  rewrite H2 in Hinv. discriminate Hinv. left. by rewrite H0, H1.
Qed.

End DrawingClaims.

(** ** Calibration *)

Section CalibrationClaims.
Import Calibration.

(** The four ways out of [CalculateCalibrationMat]. *)
Lemma CalculateCalibrationMat_few ref smp n pcmat :
  n < 3 -> CalculateCalibrationMat ref smp n pcmat = (-1, pcmat).
Proof.
  intros Hn. unfold CalculateCalibrationMat.
  destruct (Z.ltb_spec n 3); [done | lia].
Qed.

Lemma CalculateCalibrationMat_sums ref smp n pcmat :
  3 < n -> sums_degenerate ref smp n = true ->
  CalculateCalibrationMat ref smp n pcmat = (-2, pcmat).
Proof.
  intros Hn Hs. unfold CalculateCalibrationMat.
  destruct (Z.ltb_spec n 3); [lia |].
  destruct (Z.eqb_spec n 3); [lia |].
  unfold sums_degenerate, sample_sum_x, sample_sum_y in Hs. by rewrite Hs.
Qed.

Lemma CalculateCalibrationMat_fit ref smp n pcmat :
  3 <= n -> (3 < n -> sums_degenerate ref smp n = false) ->
  CalculateCalibrationMat ref smp n pcmat =
  if below_eps (fitted_determinant ref smp n) then (-3, pcmat)
  else (n, snd (CalculateCalibrationMat ref smp n pcmat)).
Proof.
  intros Hn Hs. unfold CalculateCalibrationMat, fitted_determinant.
  cbv zeta.
  destruct (Z.ltb_spec n 3); [lia |].
  destruct (Z.eqb_spec n 3) as [-> | Hne].
  - by destruct (below_eps (determinant (load3 ref smp))).
  - unfold sums_degenerate, sample_sum_x, sample_sum_y in Hs.
    rewrite Hs by lia.
    by destruct (below_eps (determinant (normalize _ _))).
Qed.

(** The converse of the second clause does not hold: for four sample
    points placed symmetrically about the origin both sums of squares are
    4, far from the threshold, and the call still returns -2, because the
    sums of the coordinates are 0. *)
Lemma CalculateCalibrationMat_symmetric :
  let r := CalculateCalibrationMat ref_corners smp_symmetric 4 mat_zero in
  ~ (fst r = -2 <->
     below_eps (sample_sumsq_x ref_corners smp_symmetric 4) = true
     \/ below_eps (sample_sumsq_y ref_corners smp_symmetric 4) = true).
Proof.
  cbv zeta. intros [H _].
  destruct (H ltac:(vm_compute; reflexivity)) as [E | E];
    vm_compute in E; discriminate E.
Qed.

(** The paths of [CalculateCalibrationMat], by the tests of the code. *)
Lemma CalculateCalibrationMat_paths (ref smp : list Z) (n : Z)
    (pcmat : calibration_mat_t) :
  let r := CalculateCalibrationMat ref smp n pcmat in
  let bad_sums := (3 <? n) && sums_degenerate ref smp n in
  let bad_det := below_eps (fitted_determinant ref smp n) in
  (fst r = -1 <-> n < 3)
  /\ (3 <= n -> (fst r = -2 <-> bad_sums = true))
  /\ (3 <= n -> (fst r = -3 <-> bad_sums = false /\ bad_det = true))
  /\ (3 <= n -> (fst r = n <-> bad_sums = false /\ bad_det = false))
  /\ (fst r < 0 -> snd r = pcmat).
Proof.
  cbv zeta. destruct (Z_lt_dec n 3) as [Hfew | Hn].
  { rewrite CalculateCalibrationMat_few by done. cbn [fst snd].
    intuition (lia || discriminate || congruence). }
  destruct (Z.ltb_spec 3 n) as [Hmany | H3]; cbn [andb].
  - destruct (sums_degenerate ref smp n) eqn:Hs.
    + rewrite CalculateCalibrationMat_sums by done. cbn [fst snd].
      intuition (lia || discriminate || congruence).
    + rewrite CalculateCalibrationMat_fit by (lia || done).
      destruct (below_eps (fitted_determinant ref smp n)); cbn [fst snd];
        intuition (lia || discriminate || congruence).
  - assert (E : n = 3) by lia. subst n.
    rewrite CalculateCalibrationMat_fit by (lia || (intros; lia)).
    destruct (below_eps (fitted_determinant ref smp 3)); cbn [fst snd];
      intuition (lia || discriminate || congruence).
Qed.

Section Digits.

Lemma digits2_size p : digits2_pos p = Pos.size p.
Proof. induction p as [p IH | p IH |]; cbn; by rewrite ?IH. Qed.

Lemma Zdigits2_log2 m : 0 < m -> Zdigits2 m = Z.log2 m + 1.
Proof.
  destruct m as [| p | p]; [lia | | lia]. intros _. cbn [Zdigits2].
  rewrite digits2_size.
  destruct p as [p | p |]; cbn [Pos.size Z.log2]; lia.
Qed.

Lemma Zdigits2_pos m : 0 < m -> 1 <= Zdigits2 m.
Proof.
  intros Hm. rewrite Zdigits2_log2 by done.
  pose proof (Z.log2_nonneg m). lia.
Qed.

Lemma Zdigits2_mono a b : 0 < a <= b -> Zdigits2 a <= Zdigits2 b.
Proof.
  intros H. rewrite !Zdigits2_log2 by lia.
  pose proof (Z.log2_le_mono a b ltac:(lia)). lia.
Qed.

Lemma Zdigits2_div m n :
  0 < m -> 0 <= n < Zdigits2 m ->
  0 < m / 2 ^ n /\ Zdigits2 (m / 2 ^ n) = Zdigits2 m - n.
Proof.
  intros Hm Hn. rewrite Zdigits2_log2 in Hn by done.
  assert (Hpos : 0 < m / 2 ^ n).
  { apply Z.div_str_pos. split; [apply Z.pow_pos_nonneg; lia |].
    pose proof (Z.log2_spec m Hm) as [Hlo _].
    pose proof (Z.pow_le_mono_r 2 n (Z.log2 m) ltac:(lia) ltac:(lia)). lia. }
  split; [exact Hpos |].
  rewrite !Zdigits2_log2 by done.
  rewrite <- Z.shiftr_div_pow2 by lia.
  rewrite Z.log2_shiftr by done. lia.
Qed.

Lemma Zdigits2_mul_pow2 m n :
  0 < m -> 0 <= n -> Zdigits2 (m * 2 ^ n) = Zdigits2 m + n.
Proof.
  intros Hm Hn.
  assert (0 < 2 ^ n) by (apply Z.pow_pos_nonneg; lia).
  rewrite !Zdigits2_log2 by nia.
  rewrite Z.log2_mul_pow2 by lia. lia.
Qed.

(** One step of the right shift halves the mantissa; [p] steps divide it
    by [2 ^ p]. *)
Lemma shr_1_m mrs : 0 <= shr_m mrs -> shr_m (shr_1 mrs) = shr_m mrs / 2.
Proof.
  destruct mrs as [m r s]. cbn [shr_m]. intros Hm.
  rewrite <- Z.div2_div.
  destruct m as [| [p | p |] | p]; [done | done | done | done | lia].
Qed.

Lemma iter_shr_m p : forall mrs,
  0 <= shr_m mrs ->
  shr_m (SpecFloat.iter_pos shr_1 p mrs) = shr_m mrs / 2 ^ Zpos p.
Proof.
  assert (Hhalf : forall mrs, 0 <= shr_m mrs -> 0 <= shr_m (shr_1 mrs)).
  { intros mrs H. rewrite shr_1_m by done. apply Z.div_pos; lia. }
  induction p as [p IH | p IH |]; intros mrs Hm; cbn [SpecFloat.iter_pos].
  - assert (H2 : 0 < 2 ^ Zpos p) by (apply Z.pow_pos_nonneg; lia).
    assert (E : 2 ^ Zpos p~1 = 2 * (2 ^ Zpos p * 2 ^ Zpos p)).
    { replace (Zpos p~1) with (1 + Zpos p + Zpos p) by lia.
      rewrite !Z.pow_add_r by lia. lia. }
    rewrite IH.
    2: { rewrite IH by (by apply Hhalf). apply Z.div_pos; [by apply Hhalf | done]. }
    rewrite IH by (by apply Hhalf). rewrite shr_1_m by done.
    rewrite !Z.div_div by lia. by rewrite E.
  - assert (H2 : 0 < 2 ^ Zpos p) by (apply Z.pow_pos_nonneg; lia).
    assert (E : 2 ^ Zpos p~0 = 2 ^ Zpos p * 2 ^ Zpos p).
    { replace (Zpos p~0) with (Zpos p + Zpos p) by lia.
      rewrite !Z.pow_add_r by lia. lia. }
    rewrite IH.
    2: { rewrite IH by done. apply Z.div_pos; [done | done]. }
    rewrite IH by done.
    rewrite !Z.div_div by lia. by rewrite E.
  - by rewrite shr_1_m.
Qed.

Lemma shr_record_of_loc_m m l : shr_m (shr_record_of_loc m l) = m.
Proof. by destruct l as [| []]. Qed.

Lemma round_nearest_even_range m l :
  m <= round_nearest_even m l <= m + 1.
Proof.
  unfold round_nearest_even.
  destruct l as [| []]; try lia. destruct (Z.even m); lia.
Qed.

Lemma iter_xO m d : Zpos (Pos.iter xO m d) = Zpos m * 2 ^ Zpos d.
Proof.
  induction d as [| d IH] using Pos.peano_ind.
  - cbn. lia.
  - rewrite Pos.iter_succ, Pos2Z.inj_xO, IH, Pos2Z.inj_succ, Z.pow_succ_r by lia.
    lia.
Qed.

Lemma shl_align_value mx ex ez :
  ez <= ex ->
  Zpos (fst (shl_align mx ex ez)) = Zpos mx * 2 ^ (ex - ez)
  /\ snd (shl_align mx ex ez) = ez.
Proof.
  intros Hle. unfold shl_align.
  destruct (ez - ex) as [| d | d] eqn:Ed; cbn [fst snd].
  - assert (ex = ez) as -> by lia. rewrite Z.sub_diag. lia.
  - lia.
  - rewrite iter_xO. replace (ex - ez) with (Zpos d) by lia. done.
Qed.

Lemma shl_align_keep mx ex ez :
  ex <= ez -> shl_align mx ex ez = (mx, ex).
Proof.
  intros Hle. unfold shl_align.
  destruct (ez - ex) as [| d | d] eqn:Ed; [done | done | lia].
Qed.

End Digits.

Section FloatMagnitude.

Variables prec emax : Z.
Hypothesis Hprec : 0 < prec.
Hypothesis Hemax : 2 <= emax.

(** A number of magnitude at least 1 is in the normal range: the shift
    brings the mantissa to at most [prec] digits and keeps the position
    of its leading digit. *)
Lemma shr_fexp_large m e l :
  0 < m -> 1 <= Zdigits2 m + e ->
  exists mrs' e',
    shr_fexp prec emax m e l = (mrs', e')
    /\ 0 < shr_m mrs'
    /\ Zdigits2 (shr_m mrs') = Z.min (Zdigits2 m) prec
    /\ Zdigits2 (shr_m mrs') + e' = Zdigits2 m + e.
Proof.
  intros Hm Hmag. unfold shr_fexp, shr.
  assert (Efexp : fexp prec emax (Zdigits2 m + e) = Zdigits2 m + e - prec).
  { unfold fexp, emin. lia. }
  rewrite Efexp.
  remember (Zdigits2 m + e - prec - e) as n eqn:En.
  destruct n as [| p | p].
  - exists (shr_record_of_loc m l), e. rewrite shr_record_of_loc_m.
    split; [done |]. split; [done |]. split; lia.
  - exists (SpecFloat.iter_pos shr_1 p (shr_record_of_loc m l)), (e + Zpos p).
    rewrite iter_shr_m by (rewrite shr_record_of_loc_m; lia).
    rewrite shr_record_of_loc_m.
    destruct (Zdigits2_div m (Zpos p) Hm ltac:(lia)) as [Hpos Hd].
    split; [done |]. split; [done |]. split; lia.
  - exists (shr_record_of_loc m l), e. rewrite shr_record_of_loc_m.
    split; [done |]. split; [done |]. split; lia.
Qed.

(** Rounding keeps a magnitude of at least 1, and the sign. *)
Lemma binary_round_aux_large s m e l :
  0 < m -> 1 <= Zdigits2 m + e ->
  large prec s (binary_round_aux prec emax s m e l).
Proof.
  intros Hm Hmag. unfold binary_round_aux.
  destruct (shr_fexp_large m e l Hm Hmag) as (mrs1 & e1 & -> & Hm1 & Hd1 & He1).
  set (m2 := round_nearest_even (shr_m mrs1) (loc_of_shr_record mrs1)).
  pose proof (round_nearest_even_range (shr_m mrs1) (loc_of_shr_record mrs1))
    as Hr. fold m2 in Hr.
  pose proof (Zdigits2_mono (shr_m mrs1) m2 ltac:(lia)) as Hd2.
  destruct (shr_fexp_large m2 e1 loc_Exact ltac:(lia) ltac:(lia))
    as (mrs3 & e3 & -> & Hm3 & Hd3 & He3).
  destruct (shr_m mrs3) as [| m3 | m3] eqn:E3; [lia | | lia].
  destruct (e3 <=? emax - prec); cbn [large]; [| done].
  split; [done |]. split; lia.
Qed.

Lemma binary_round_large s m e :
  1 <= Zdigits2 (Zpos m) + e ->
  large prec s (binary_round prec emax s m e).
Proof.
  intros Hmag. unfold binary_round.
  change (Zpos (digits2_pos m)) with (Zdigits2 (Zpos m)).
  destruct (Z_le_dec e (fexp prec emax (Zdigits2 (Zpos m) + e))) as [Hle | Hgt].
  - rewrite shl_align_keep by done.
    by apply binary_round_aux_large.
  - destruct (shl_align_value m e (fexp prec emax (Zdigits2 (Zpos m) + e))
                ltac:(lia)) as [Hv He].
    destruct (shl_align m e _) as [mz ez]. cbn [fst snd] in Hv, He. subst ez.
    apply binary_round_aux_large; [done |].
    assert (Efexp : fexp prec emax (Zdigits2 (Zpos m) + e)
                    = Zdigits2 (Zpos m) + e - prec)
      by (unfold fexp, emin; lia).
    rewrite Hv, Zdigits2_mul_pow2 by lia. lia.
Qed.

(** The sum of two numbers that are at least 1 is at least 1. *)
Lemma SFadd_large x y :
  large prec false x -> large prec false y ->
  large prec false (SFadd prec emax x y).
Proof.
  destruct x as [sx | sx | | sx mx ex], y as [sy | sy | | sy my ey];
    cbn [large]; try done.
  - intros -> ->. done.
  - intros (-> & Hx & Hdx) (-> & Hy & Hdy). cbn [SFadd cond_Zopp].
    destruct (shl_align_value mx ex (Z.min ex ey) ltac:(lia)) as [Hvx _].
    set (a := fst (shl_align mx ex (Z.min ex ey))) in *.
    set (b := fst (shl_align my ey (Z.min ex ey))).
    change (Zpos a + Zpos b) with (Zpos (a + b)). cbn [binary_normalize].
    apply binary_round_large.
    assert (Hp : 0 < 2 ^ (ex - Z.min ex ey)) by (apply Z.pow_pos_nonneg; lia).
    pose proof (Zdigits2_mono (Zpos a) (Zpos (a + b)) ltac:(lia)) as Hmono.
    rewrite Hvx, Zdigits2_mul_pow2 in Hmono by lia. lia.
Qed.

(** So is their product, with the sign of a product. *)
Lemma SFmul_large sx sy x y :
  large prec sx x -> large prec sy y ->
  large prec (xorb sx sy) (SFmul prec emax x y).
Proof.
  destruct x as [s1 | s1 | | s1 mx ex], y as [s2 | s2 | | s2 my ey];
    cbn [large]; try done.
  - by intros -> ->.
  - by intros -> (-> & _).
  - by intros (-> & _) ->.
  - intros (-> & Hx & Hdx) (-> & Hy & Hdy). cbn [SFmul].
    apply binary_round_aux_large; [done |].
    rewrite Pos2Z.inj_mul.
    rewrite !Zdigits2_log2 in * by lia.
    pose proof (Z.log2_mul_below (Zpos mx) (Zpos my) ltac:(lia) ltac:(lia)).
    lia.
Qed.

End FloatMagnitude.

Section SumsOfSquares.

Lemma of_int_zero : of_int 0 = f0.
Proof. reflexivity. Qed.

Lemma of_int_large z : z <> 0 -> exists s, large 24 s (of_int z).
Proof.
  intros Hz. unfold of_int.
  destruct z as [| m | m]; [done | exists false | exists true];
    cbn [binary_normalize]; apply binary_round_large; try lia;
    pose proof (Zdigits2_pos (Zpos m) ltac:(lia)); lia.
Qed.

(** The square of a sample coordinate is [+0] or at least 1. *)
Lemma square_cases z :
  (z = 0 /\ of_int z = f0 /\ fmul (of_int z) (of_int z) = f0)
  \/ large 24 false (fmul (of_int z) (of_int z)).
Proof.
  destruct (Z.eq_dec z 0) as [-> | Hz]; [by left |].
  right. destruct (of_int_large z Hz) as [s Hs].
  rewrite <- (xorb_nilpotent s). apply SFmul_large; (lia || done).
Qed.

(** A number of magnitude at least 1 is not below [1e-9]. *)
Lemma below_eps_large s x : large 24 s x -> below_eps x = false.
Proof.
  intros Hx. unfold below_eps.
  assert (Hd : large 53 s (to_double x)).
  { destruct x as [s' | s' | | s' m e]; cbn [large] in Hx; try done.
    destruct Hx as (-> & Hmag & _). cbn [to_double].
    destruct s; cbn [cond_Zopp Z.opp binary_normalize];
      apply binary_round_large; lia. }
  destruct (to_double x) as [s' | s' | | s' m e]; cbn [large] in Hd; try done.
  destruct Hd as (-> & Hmag & Hdig).
  replace eps with (S754_finite false 4835703278458517 (-82))
    by (vm_compute; reflexivity).
  cbn [SFabs]. unfold SFltb. cbn [SFcompare].
  assert (E : (e ?= -82) = Gt) by (apply Z.compare_gt_iff; lia).
  by rewrite E.
Qed.

Lemma below_eps_zero : below_eps f0 = true.
Proof. vm_compute. reflexivity. Qed.

Lemma fadd_zero_zero : fadd f0 f0 = f0.
Proof. reflexivity. Qed.

Lemma fadd_large_zero x : large 24 false x -> fadd x f0 = x.
Proof. destruct x as [s | s | | s m e]; cbn [large]; done. Qed.

Lemma fadd_zero_large x : large 24 false x -> fadd f0 x = x.
Proof. destruct x as [s | s | | s m e]; cbn [large]; done. Qed.

(** The accumulated sums of the sample coordinates and of their squares:
    as long as every coordinate was 0 both are [+0]; after the first
    coordinate that is not 0 the sum of squares is at least 1. *)
Lemma accumulate_squares ref smp n :
  let s := accumulate ref smp n in
  ((a0 s = f0 /\ a2 s = f0) \/ large 24 false (a0 s))
  /\ ((b1 s = f0 /\ b2 s = f0) \/ large 24 false (b1 s)).
Proof.
  cbv zeta. unfold accumulate.
  apply (for_all_ind
           (fun s => ((a0 s = f0 /\ a2 s = f0) \/ large 24 false (a0 s))
                     /\ ((b1 s = f0 /\ b2 s = f0) \/ large 24 false (b1 s)))).
  { split; left; done. }
  intros i s [Ha Hb]. unfold accumulate_point. cbv zeta. cbn [a0 a2 b1 b2].
  unfold point. split.
  - destruct (square_cases (rd smp (Z.shiftl i 1 + 0))) as [(_ & -> & ->) | Hsq].
    + destruct Ha as [[-> ->] | Ha]; [by left |].
      right. by rewrite fadd_large_zero.
    + right. destruct Ha as [[-> _] | Ha].
      * by rewrite fadd_zero_large.
      * apply SFadd_large; (lia || done).
  - destruct (square_cases (rd smp (Z.shiftl i 1 + 1))) as [(_ & -> & ->) | Hsq].
    + destruct Hb as [[-> ->] | Hb]; [by left |].
      right. by rewrite fadd_large_zero.
    + right. destruct Hb as [[-> _] | Hb].
      * by rewrite fadd_zero_large.
      * apply SFadd_large; (lia || done).
Qed.

(** A sum of squares below [1e-9] means a sum of coordinates that is 0,
    and so below [1e-9]. *)
Lemma sumsq_degenerate ref smp n :
  below_eps (sample_sumsq_x ref smp n) = true
  \/ below_eps (sample_sumsq_y ref smp n) = true ->
  sums_degenerate ref smp n = true.
Proof.
  unfold sample_sumsq_x, sample_sumsq_y, sums_degenerate,
    sample_sum_x, sample_sum_y.
  destruct (accumulate_squares ref smp n) as [Ha Hb]. cbv zeta in Ha, Hb.
  intros [H | H].
  - destruct Ha as [[_ ->] | Ha].
    + by rewrite below_eps_zero.
    + by rewrite (below_eps_large false) in H.
  - destruct Hb as [[_ ->] | Hb].
    + rewrite below_eps_zero. apply orb_true_r.
    + by rewrite (below_eps_large false) in H.
Qed.

End SumsOfSquares.

Section ExactShift.

(** A nonzero integer has magnitude at least 1. *)
Lemma integral_magnitude m e :
  0 < m -> integral m e -> 1 <= Zdigits2 m + e.
Proof.
  intros Hm [He | [c Hc]].
  - pose proof (Zdigits2_pos m Hm). lia.
  - destruct (Z_le_dec 0 e) as [He | He];
      [pose proof (Zdigits2_pos m Hm); lia |].
    assert (Hp : 0 < 2 ^ (- e)) by (apply Z.pow_pos_nonneg; lia).
    assert (Hc0 : 0 < c) by nia.
    rewrite Hc, Zdigits2_mul_pow2 by lia.
    pose proof (Zdigits2_pos c Hc0). lia.
Qed.

(** Shifting out zeros is exact. *)
Lemma shr_1_exact c :
  0 <= c ->
  shr_1 (Build_shr_record (2 * c) false false) = Build_shr_record c false false.
Proof. destruct c as [| p | p]; [done | done | lia]. Qed.

Lemma iter_shr_exact p : forall c,
  0 <= c ->
  SpecFloat.iter_pos shr_1 p (Build_shr_record (c * 2 ^ Zpos p) false false)
  = Build_shr_record c false false.
Proof.
  induction p as [p IH | p IH |]; intros c Hc; cbn [SpecFloat.iter_pos].
  - assert (H2 : 0 < 2 ^ Zpos p) by (apply Z.pow_pos_nonneg; lia).
    replace (c * 2 ^ Zpos p~1) with (2 * (c * 2 ^ Zpos p * 2 ^ Zpos p)).
    2: { replace (Zpos p~1) with (1 + Zpos p + Zpos p) by lia.
         rewrite !Z.pow_add_r by lia. lia. }
    rewrite shr_1_exact by nia. rewrite IH by nia. by apply IH.
  - assert (H2 : 0 < 2 ^ Zpos p) by (apply Z.pow_pos_nonneg; lia).
    replace (c * 2 ^ Zpos p~0) with (c * 2 ^ Zpos p * 2 ^ Zpos p).
    2: { replace (Zpos p~0) with (Zpos p + Zpos p) by lia.
         rewrite !Z.pow_add_r by lia. lia. }
    rewrite IH by nia. by apply IH.
  - rewrite Z.mul_comm. by apply shr_1_exact.
Qed.

End ExactShift.

Section FloatIntegers.

Variables prec emax : Z.
Hypothesis Hprec : 0 < prec.
Hypothesis Hemax : 2 <= emax.

(** The shift of an integer to the working precision: the exponent does
    not decrease, and while it is negative nothing is lost. *)
Lemma shr_fexp_integral m e :
  0 < m -> 1 <= Zdigits2 m + e -> integral m e ->
  exists mrs' e',
    shr_fexp prec emax m e loc_Exact = (mrs', e')
    /\ (0 <= e'
        \/ (loc_of_shr_record mrs' = loc_Exact
            /\ integral (shr_m mrs') e' /\ e' < 0)).
Proof.
  intros Hm Hmag Hint. unfold shr_fexp, shr.
  assert (Efexp : fexp prec emax (Zdigits2 m + e) = Zdigits2 m + e - prec).
  { unfold fexp, emin. lia. }
  rewrite Efexp.
  remember (Zdigits2 m + e - prec - e) as n eqn:En.
  assert (Hkeep : exists mrs' e',
            (shr_record_of_loc m loc_Exact, e) = (mrs', e')
            /\ (0 <= e'
                \/ (loc_of_shr_record mrs' = loc_Exact
                    /\ integral (shr_m mrs') e' /\ e' < 0))).
  { exists (shr_record_of_loc m loc_Exact), e. split; [done |].
    destruct (Z_le_dec 0 e); [by left | right].
    split; [done |]. split; [exact Hint | lia]. }
  destruct n as [| p | p]; [exact Hkeep | | exact Hkeep].
  eexists _, (e + Zpos p). split; [reflexivity |].
  destruct (Z_le_dec 0 (e + Zpos p)) as [He | He]; [by left | right].
  destruct Hint as [He0 | [c Hc]]; [lia |].
  assert (Hp : 0 < 2 ^ (- (e + Zpos p))) by (apply Z.pow_pos_nonneg; lia).
  assert (Em : m = c * 2 ^ (- (e + Zpos p)) * 2 ^ Zpos p).
  { rewrite Hc, <- Z.mul_assoc, <- Z.pow_add_r by lia. do 2 f_equal; lia. }
  assert (Eit : SpecFloat.iter_pos shr_1 p (shr_record_of_loc m loc_Exact)
                = Build_shr_record (c * 2 ^ (- (e + Zpos p))) false false).
  { cbn [shr_record_of_loc]. rewrite Em. apply iter_shr_exact. nia. }
  rewrite Eit.
  split; [done |]. split; [| lia].
  right. cbn [shr_m]. by exists c.
Qed.

Lemma binary_round_aux_integral s m e :
  0 < m -> integral m e ->
  match binary_round_aux prec emax s m e loc_Exact with
  | S754_finite _ m' e' => integral (Zpos m') e'
  | _ => True
  end.
Proof.
  intros Hm Hint. pose proof (integral_magnitude m e Hm Hint) as Hmag.
  unfold binary_round_aux.
  destruct (shr_fexp_large prec emax Hprec Hemax m e loc_Exact Hm Hmag)
    as (mrs1 & e1 & E1 & Hm1 & Hd1 & He1).
  destruct (shr_fexp_integral m e Hm Hmag Hint) as (mrs1' & e1' & E1' & Hi1).
  rewrite E1 in E1'. injection E1' as <- <-. rewrite E1.
  set (m2 := round_nearest_even (shr_m mrs1) (loc_of_shr_record mrs1)).
  pose proof (round_nearest_even_range (shr_m mrs1) (loc_of_shr_record mrs1))
    as Hr. fold m2 in Hr.
  pose proof (Zdigits2_mono (shr_m mrs1) m2 ltac:(lia)) as Hd2.
  destruct (shr_fexp_large prec emax Hprec Hemax m2 e1 loc_Exact
              ltac:(lia) ltac:(lia)) as (mrs3 & e3 & E3 & Hm3 & Hd3 & He3).
  assert (Hi3 : integral (shr_m mrs3) e3).
  { destruct Hi1 as [He | (Hloc & Hint1 & Hneg)]; [left; lia |].
    assert (Em2 : m2 = shr_m mrs1) by (unfold m2; by rewrite Hloc).
    rewrite Em2 in *.
    destruct (shr_fexp_integral (shr_m mrs1) e1 Hm1 ltac:(lia) Hint1)
      as (mrs3' & e3' & E3' & Hi3).
    rewrite E3 in E3'. injection E3' as <- <-.
    destruct Hi3 as [He | (_ & Hint3 & _)]; [by left | exact Hint3]. }
  rewrite E3.
  destruct (shr_m mrs3) as [| m3 | m3] eqn:Em3; [done | | done].
  by destruct (e3 <=? emax - prec).
Qed.

Lemma binary_round_integral s m e :
  integral (Zpos m) e ->
  match binary_round prec emax s m e with
  | S754_finite _ m' e' => integral (Zpos m') e'
  | _ => True
  end.
Proof.
  intros Hint. unfold binary_round.
  change (Zpos (digits2_pos m)) with (Zdigits2 (Zpos m)).
  destruct (Z_le_dec e (fexp prec emax (Zdigits2 (Zpos m) + e))) as [Hle | Hgt].
  - rewrite shl_align_keep by done.
    by apply binary_round_aux_integral.
  - destruct (shl_align_value m e (fexp prec emax (Zdigits2 (Zpos m) + e))
                ltac:(lia)) as [Hv He].
    destruct (shl_align m e _) as [mz ez]. cbn [fst snd] in Hv, He. subst ez.
    apply binary_round_aux_integral; [done |].
    rewrite Hv.
    set (f := fexp prec emax (Zdigits2 (Zpos m) + e)) in *.
    destruct (Z_le_dec 0 f) as [Hf | Hf]; [by left | right].
    destruct Hint as [He | [c Hc]].
    + exists (Zpos m * 2 ^ e).
      rewrite <- Z.mul_assoc, <- !Z.pow_add_r by lia. do 2 f_equal; lia.
    + destruct (Z_le_dec 0 e) as [He | He].
      * exists (Zpos m * 2 ^ e).
        rewrite <- Z.mul_assoc, <- !Z.pow_add_r by lia. do 2 f_equal; lia.
      * exists c. rewrite Hc.
        rewrite <- Z.mul_assoc, <- !Z.pow_add_r by lia. do 2 f_equal; lia.
Qed.

End FloatIntegers.

Section SumsOfCoordinates.

Lemma whole_round s m e :
  integral (Zpos m) e -> whole (binary_round 24 128 s m e).
Proof.
  intros Hint.
  pose proof (binary_round_large 24 128 ltac:(lia) ltac:(lia) s m e
                (integral_magnitude (Zpos m) e ltac:(lia) Hint)) as Hl.
  pose proof (binary_round_integral 24 128 ltac:(lia) ltac:(lia) s m e Hint)
    as Hi.
  destruct (binary_round 24 128 s m e) as [s' | s' | | s' m' e'];
    cbn [large whole] in *; [done | done | done |].
  destruct Hl as (_ & Hmag & Hdig). done.
Qed.

Lemma whole_of_int z : whole (of_int z).
Proof.
  unfold of_int. destruct z as [| m | m]; [done | |];
    cbn [binary_normalize]; apply whole_round; by left.
Qed.

(** The aligned mantissa of an integer is a multiple of what the common
    exponent asks for. *)
Lemma aligned_integral m e ez :
  ez <= e -> integral (Zpos m) e ->
  integral (Zpos (fst (shl_align m e ez))) ez
  /\ (ez < 0 -> (2 ^ (- ez) | Zpos (fst (shl_align m e ez)))).
Proof.
  intros Hle Hint.
  destruct (shl_align_value m e ez Hle) as [-> _].
  assert (Hdiv : ez < 0 -> (2 ^ (- ez) | Zpos m * 2 ^ (e - ez))).
  { intros Hneg. destruct Hint as [He | [c Hc]].
    - exists (Zpos m * 2 ^ e).
      rewrite <- Z.mul_assoc, <- !Z.pow_add_r by lia. do 2 f_equal; lia.
    - destruct (Z_le_dec 0 e) as [He | He].
      + exists (Zpos m * 2 ^ e).
        rewrite <- Z.mul_assoc, <- !Z.pow_add_r by lia. do 2 f_equal; lia.
      + exists c. rewrite Hc.
        rewrite <- Z.mul_assoc, <- !Z.pow_add_r by lia. do 2 f_equal; lia. }
  split; [| exact Hdiv].
  destruct (Z_le_dec 0 ez); [by left | right; apply Hdiv; lia].
Qed.

(** A sum of integers is an integer. *)
Lemma whole_fadd x y : whole x -> whole y -> whole (fadd x y).
Proof.
  destruct x as [sx | sx | | sx mx ex], y as [sy | sy | | sy my ey];
    try (intros _ _; by destruct sx, sy) ; try done.
  intros (_ & _ & Hx) (_ & _ & Hy). unfold fadd. cbn [SFadd].
  destruct (aligned_integral mx ex (Z.min ex ey) ltac:(lia) Hx) as [_ Hax].
  destruct (aligned_integral my ey (Z.min ex ey) ltac:(lia) Hy) as [_ Hay].
  set (a := fst (shl_align mx ex (Z.min ex ey))) in *.
  set (b := fst (shl_align my ey (Z.min ex ey))) in *.
  set (ez := Z.min ex ey) in *.
  assert (Hsum : forall u v : Z, (ez < 0 -> (2 ^ (- ez) | u)) ->
            (ez < 0 -> (2 ^ (- ez) | v)) -> integral (u + v) ez).
  { intros u v Hu Hv. destruct (Z_le_dec 0 ez); [by left | right].
    apply Z.divide_add_r; [apply Hu | apply Hv]; lia. }
  assert (Hopp : forall (s : bool) (u : Z), (ez < 0 -> (2 ^ (- ez) | u)) ->
            ez < 0 -> (2 ^ (- ez) | cond_Zopp s u)).
  { intros s u Hu Hneg. destruct s; cbn [cond_Zopp]; [| by apply Hu].
    by apply Z.divide_opp_r, Hu. }
  pose proof (Hsum _ _ (Hopp sx _ Hax) (Hopp sy _ Hay)) as Hint.
  destruct (cond_Zopp sx (Zpos a) + cond_Zopp sy (Zpos b)) as [| m | m] eqn:Es;
    cbn [binary_normalize]; [done | by apply whole_round |].
  apply whole_round.
  destruct Hint as [He | [c Hc]]; [by left | right].
  exists (- c). lia.
Qed.

(** A sum of integers that is below [1e-9] is a zero. *)
Lemma whole_below_eps x :
  whole x -> below_eps x = true -> exists s, x = S754_zero s.
Proof.
  destruct x as [s | s | | s m e]; cbn [whole]; intros Hw Hb.
  - by exists s.
  - exfalso. assert (Hl : large 24 s (S754_infinity s)) by done.
    apply below_eps_large in Hl. congruence.
  - done.
  - exfalso. destruct Hw as (Hmag & Hdig & _).
    assert (Hl : large 24 s (S754_finite s m e)) by done.
    apply below_eps_large in Hl. congruence.
Qed.

Lemma accumulate_whole ref smp n :
  whole (a2 (accumulate ref smp n)) /\ whole (b2 (accumulate ref smp n)).
Proof.
  unfold accumulate.
  apply (for_all_ind (fun s => whole (a2 s) /\ whole (b2 s))); [done |].
  intros i s [Ha Hb]. unfold accumulate_point. cbv zeta. cbn [a2 b2].
  split; apply whole_fadd; (done || apply whole_of_int).
Qed.

(** What a division by zero gives, and what becomes of it. *)
Lemma wild_fdiv x s : wild (fdiv x (S754_zero s)).
Proof. by destruct x as [sx | sx | | sx mx ex]. Qed.

Lemma wild_fsub x y : wild x -> wild (fsub x y).
Proof.
  destruct x as [sx | sx | | sx mx ex]; [done | | | done]; intros _.
  - destruct y as [sy | sy | | sy my ey]; try done. by destruct sx, sy.
  - done.
Qed.

Lemma wild_fmul_l x y : wild x -> wild (fmul x y).
Proof.
  destruct x as [sx | sx | | sx mx ex]; [done | | | done]; intros _.
  - by destruct y.
  - done.
Qed.

Lemma wild_fmul_r x y : wild y -> wild (fmul x y).
Proof.
  destruct y as [sy | sy | | sy my ey]; [done | | | done]; intros _.
  - by destruct x.
  - by destruct x.
Qed.

Lemma wild_below_eps x : wild x -> below_eps x = false.
Proof. by destruct x as [s | s | | s m e]. Qed.

(** Where the guard of the divisions fires, the determinant would not be
    below the threshold: it would be an infinity or not a number. *)
Lemma degenerate_determinant ref smp n k :
  sums_degenerate ref smp n = true ->
  below_eps (determinant (normalize k (accumulate ref smp n))) = false.
Proof.
  intros Hs. apply wild_below_eps.
  destruct (accumulate_whole ref smp n) as [Ha Hb].
  unfold sums_degenerate, sample_sum_x, sample_sum_y in Hs.
  unfold determinant, normalize. cbn [a0 a1 a2 b0 b1 b2].
  apply wild_fsub.
  destruct (below_eps (a2 (accumulate ref smp n))) eqn:Ea.
  - destruct (whole_below_eps _ Ha Ea) as [s ->].
    apply wild_fmul_l, wild_fsub, wild_fdiv.
  - cbn [orb] in Hs.
    destruct (whole_below_eps _ Hb Hs) as [s ->].
    apply wild_fmul_r, wild_fsub, wild_fdiv.
Qed.

End SumsOfCoordinates.

(** C8: [CalculateCalibrationMat] returns -1 exactly when [npoints < 3].
    For [npoints > 3] it returns -2 when the accumulated sum of squares of
    the sample x coordinates, or of the sample y coordinates, is below
    [1e-9]: the code tests the sums of the coordinates, and a sum of
    squares below the threshold leaves them 0.  It returns -3 when the
    determinant is below [1e-9] in magnitude, which it is not where the
    sums are degenerate; otherwise it returns [npoints]; and on every
    failing path the matrix is left as it was. *)
Theorem CalculateCalibrationMat_status (ref smp : list Z) (n : Z)
    (pcmat : calibration_mat_t) :
  let r := CalculateCalibrationMat ref smp n pcmat in
  let bad_sums := (3 <? n) && sums_degenerate ref smp n in
  let bad_det := below_eps (fitted_determinant ref smp n) in
  (fst r = -1 <-> n < 3)
  /\ (3 < n ->
      below_eps (sample_sumsq_x ref smp n) = true
      \/ below_eps (sample_sumsq_y ref smp n) = true ->
      fst r = -2)
  /\ (3 <= n -> bad_det = true -> fst r = -3)
  /\ (3 <= n -> (fst r = -2 <-> bad_sums = true))
  /\ (3 <= n -> (fst r = -3 <-> bad_sums = false /\ bad_det = true))
  /\ (3 <= n -> (fst r = n <-> bad_sums = false /\ bad_det = false))
  /\ (fst r < 0 -> snd r = pcmat).
Proof.
  cbv zeta.
  destruct (CalculateCalibrationMat_paths ref smp n pcmat)
    as (Hfew & Hsums & Hdet & Hfit & Hkeep).
  split; [exact Hfew |].
  split; [| split; [| exact (conj Hsums (conj Hdet (conj Hfit Hkeep)))]].
  - intros Hn Hsq.
    rewrite CalculateCalibrationMat_sums; [done | done |].
    by apply sumsq_degenerate.
  - intros Hn Hbad. apply Hdet; [done |]. split; [| done].
    destruct (Z.ltb_spec 3 n) as [Hmany | H3]; [| done]. cbn [andb].
    destruct (sums_degenerate ref smp n) eqn:Hs; [exfalso | done].
    unfold fitted_determinant in Hbad.
    destruct (Z.eqb_spec n 3); [lia |].
    by rewrite degenerate_determinant in Hbad.
Qed.

(** The calibration of the demo: four points, no degenerate sum, a
    determinant away from 0; and four samples at the origin, where the
    sums of squares are 0. *)
Lemma CalculateCalibrationMat_status_witness :
  fst (CalculateCalibrationMat ref_corners smp_demo 4 mat_zero) = 4
  /\ fst (CalculateCalibrationMat ref_corners [] 4 mat_zero) = -2.
Proof.
  split.
  - destruct (CalculateCalibrationMat_status ref_corners smp_demo 4 mat_zero)
      as (_ & _ & _ & _ & _ & H & _).
    apply H; [lia |]. split; vm_compute; reflexivity.
  - destruct (CalculateCalibrationMat_status ref_corners [] 4 mat_zero)
      as (_ & H & _).
    apply H; [lia |]. left. vm_compute. reflexivity.
Defined.

(** C9: the code departs from the claim.  With [KX = (0, 0, 100)] and
    [KY = (1024, 0, 0)] the point (5, 7) has the affine image (100, 5);
    the function returns (100, 100), because [*Py] is computed from the
    [*Px] it has just overwritten. *)
Theorem TouchTransformCoords_uses_new_x :
  TouchTransformCoords mat_swap 5 7 = (100, 100)
  /\ transform_of_original mat_swap 5 7 = (100, 5)
  /\ (forall pcmat Px Py,
        snd (TouchTransformCoords pcmat Px Py)
        = snd (transform_of_original pcmat
                 (fst (TouchTransformCoords pcmat Px Py)) Py)).
Proof.
  split; [vm_compute; reflexivity |].
  split; [vm_compute; reflexivity |].
  intros pcmat Px Py. unfold TouchTransformCoords, transform_of_original.
  cbv zeta. cbn [fst snd]. reflexivity.
Qed.

End CalibrationClaims.

(** * Part III: the rest of the library and the demo *)

Import Demo.

(** ** Bit macros *)

Section BitMacros.

Lemma GET_CLR_same p n :
  0 <= Z.shiftr n 5 < Z.of_nat (length p) ->
  GET_DATA_BIT (CLR_DATA_BIT p n) n = 0.
Proof.
  intros Hw. unfold GET_DATA_BIT, CLR_DATA_BIT.
  rewrite rd_wr_eq by lia.
  pose proof (bit_index_range n) as Hk.
  rewrite low_bit_testbit by lia.
  rewrite Z.land_spec, bit_mask by lia.
  unfold wrapu. rewrite Z.mod_pow2_bits_low, Z.lnot_spec by lia.
  rewrite Z.pow2_bits_true by lia. by rewrite andb_false_r.
Qed.

(** A word of the plane is a [uint32_t]. *)

Lemma word32_mod w : word32 w <-> Z.land w (Z.ones 32) = w.
Proof.
  unfold word32. rewrite Z.land_ones by lia. split.
  - intros H. by apply Z.mod_small.
  - intros <-. apply Z.mod_pos_bound. lia.
Qed.

Lemma word32_lor a b : word32 a -> word32 b -> word32 (Z.lor a b).
Proof.
  rewrite !word32_mod. intros Ha Hb.
  by rewrite Z.land_lor_distr_l, Ha, Hb.
Qed.

Lemma word32_land a b : word32 a -> word32 (Z.land a b).
Proof.
  rewrite !word32_mod. intros Ha.
  by rewrite <- Z.land_assoc, (Z.land_comm b), Z.land_assoc, Ha.
Qed.

Lemma word32_mask k : 0 <= k <= 31 -> word32 (Z.shiftr 0x80000000 k).
Proof.
  intros Hk. rewrite bit_mask by lia. unfold word32. split; [lia |].
  apply Z.pow_lt_mono_r; lia.
Qed.

Lemma rd_elem l i : 0 <= i < Z.of_nat (length l) -> rd l i ∈ l.
Proof.
  intros Hi. apply list_elem_of_lookup. exists (Z.to_nat i). by apply rd_inside.
Qed.

Lemma Forall_wr (P : Z -> Prop) l i v :
  Forall P l -> P v -> Forall P (wr l i v).
Proof.
  intros Hl Hv. unfold wr. destruct (i <? 0); [done |].
  destruct (decide (Z.to_nat i < length l)%nat) as [Hin | Hout].
  - by apply Forall_insert.
  - by rewrite list_insert_ge by lia.
Qed.

End BitMacros.

(** X1: the bit macros of the pixel plane.  For a bit index [n] whose word
    lies in the array, [SET_DATA_BIT] makes [GET_DATA_BIT] read 1 and
    [CLR_DATA_BIT] makes it read 0; neither changes what is read at any
    other index, the number of words, or the width of a word. *)
Theorem DATA_BIT_roundtrip (p : list Z) (n : Z) :
  0 <= Z.shiftr n 5 < Z.of_nat (length p) ->
  GET_DATA_BIT (SET_DATA_BIT p n) n = 1
  /\ GET_DATA_BIT (CLR_DATA_BIT p n) n = 0
  /\ (forall n', n' <> n ->
        GET_DATA_BIT (SET_DATA_BIT p n) n' = GET_DATA_BIT p n'
        /\ GET_DATA_BIT (CLR_DATA_BIT p n) n' = GET_DATA_BIT p n')
  /\ length (SET_DATA_BIT p n) = length p
  /\ length (CLR_DATA_BIT p n) = length p
  /\ (Forall word32 p ->
      Forall word32 (SET_DATA_BIT p n) /\ Forall word32 (CLR_DATA_BIT p n)).
Proof.
  intros Hw. split; [by apply GET_SET_same |]. split; [by apply GET_CLR_same |].
  split.
  { intros n' Hne. split; [apply GET_SET_other | apply GET_CLR_other]; congruence. }
  split; [apply length_SET |]. split; [apply length_CLR |].
  intros Hp.
  assert (Hrd : word32 (rd p (Z.shiftr n 5))).
  { eapply Forall_forall; [exact Hp | by apply rd_elem]. }
  pose proof (bit_index_range n) as Hk.
  split; apply Forall_wr; try done.
  - apply word32_lor; [done | by apply word32_mask].
  - by apply word32_land.
Qed.

(** Bit 37 of a plane of two words: bit 26 of word 1. *)
Lemma DATA_BIT_roundtrip_witness :
  0 <= Z.shiftr 37 5 < Z.of_nat (length [0; 0])
  /\ GET_DATA_BIT (SET_DATA_BIT [0; 0] 37) 37 = 1
  /\ SET_DATA_BIT [0; 0] 37 = [0; 2 ^ 26].
Proof.
  assert (H : 0 <= Z.shiftr 37 5 < Z.of_nat (length [0; 0]))
    by (vm_compute; split; [discriminate | reflexivity]).
  split; [exact H |]. split; [| reflexivity].
  apply (DATA_BIT_roundtrip [0; 0] 37 H).
Defined.

(** ** The output window *)

Section Window.

Lemma byte_pair z :
  0 <= z < 2 ^ 16 ->
  256 * Z.land (Z.shiftr z 8) 0xFF + Z.land z 0xFF = z.
Proof.
  intros Hz. change 0xFF with (Z.ones 8). rewrite !Z.land_ones by lia.
  rewrite Z.shiftr_div_pow2 by lia. change (2 ^ 8) with 256.
  rewrite (Z.mod_small (z / 256)).
  - pose proof (Z.div_mod z 256 ltac:(lia)). lia.
  - split; [apply Z.div_pos; lia | apply Z.div_lt_upper_bound; lia].
Qed.

Lemma byte_range z : 0 <= Z.land z 0xFF <= 255.
Proof.
  change 0xFF with (Z.ones 8) at 1 2. rewrite Z.land_ones by lia.
  pose proof (Z.mod_pos_bound z (2 ^ 8) ltac:(lia)). lia.
Qed.

End Window.

(** X2: [ILI9341_SetOutWriting] sends the column command, the page
    command and the write command, in this order, each window coordinate
    as two parameter bytes, high byte first: every parameter is a byte,
    and coordinates below [2 ^ 16] can be read back from the eleven events,
    so that two windows with the same events are the same window. *)
Theorem ILI9341_SetOutWriting_roundtrip (sc ec sp ep : Z) :
  0 <= sc < 2 ^ 16 -> 0 <= ec < 2 ^ 16 ->
  0 <= sp < 2 ^ 16 -> 0 <= ep < 2 ^ 16 ->
  (exists a b c d e f g h,
     ILI9341_SetOutWriting sc ec sp ep
     = [ SetCommand ILI9341_CASET;
         CommandParam a; CommandParam b; CommandParam c; CommandParam d;
         SetCommand ILI9341_PASET;
         CommandParam e; CommandParam f; CommandParam g; CommandParam h;
         SetCommand ILI9341_RAMWR ]
     /\ Forall (fun v => 0 <= v <= 255) [a; b; c; d; e; f; g; h]
     /\ sc = 256 * a + b /\ ec = 256 * c + d
     /\ sp = 256 * e + f /\ ep = 256 * g + h)
  /\ (forall sc' ec' sp' ep',
        0 <= sc' < 2 ^ 16 -> 0 <= ec' < 2 ^ 16 ->
        0 <= sp' < 2 ^ 16 -> 0 <= ep' < 2 ^ 16 ->
        ILI9341_SetOutWriting sc' ec' sp' ep'
        = ILI9341_SetOutWriting sc ec sp ep ->
        sc' = sc /\ ec' = ec /\ sp' = sp /\ ep' = ep).
Proof.
  intros Hsc Hec Hsp Hep. split.
  - do 8 eexists. split; [reflexivity |]. split.
    + repeat (apply Forall_cons_2; [apply byte_range |]). apply Forall_nil_2.
    + by rewrite !byte_pair.
  - intros sc' ec' sp' ep' Hsc' Hec' Hsp' Hep' E.
    unfold ILI9341_SetOutWriting in E.
    injection E as E1 E2 E3 E4 E5 E6 E7 E8.
    rewrite <- (byte_pair sc'), <- (byte_pair ec'), <- (byte_pair sp'),
      <- (byte_pair ep') by done.
    rewrite E1, E2, E3, E4, E5, E6, E7, E8.
    by rewrite !byte_pair.
Qed.

(** The window of block (29, 39), the last of the screen. *)
Lemma ILI9341_SetOutWriting_roundtrip_witness :
  ILI9341_SetOutWriting 232 239 312 319
  = [ SetCommand 0x2A; CommandParam 0; CommandParam 232;
      CommandParam 0; CommandParam 239;
      SetCommand 0x2B; CommandParam 1; CommandParam 56;
      CommandParam 1; CommandParam 63;
      SetCommand 0x2C ]
  /\ forall sc' ec' sp' ep',
       0 <= sc' < 2 ^ 16 -> 0 <= ec' < 2 ^ 16 ->
       0 <= sp' < 2 ^ 16 -> 0 <= ep' < 2 ^ 16 ->
       ILI9341_SetOutWriting sc' ec' sp' ep'
       = ILI9341_SetOutWriting 232 239 312 319 ->
       sc' = 232 /\ ec' = 239 /\ sp' = 312 /\ ep' = 319.
Proof.
  split; [reflexivity |].
  apply (ILI9341_SetOutWriting_roundtrip 232 239 312 319); lia.
Defined.

(** ** The full screen write *)

Section FullWrite.

Lemma ink_of_clear b : ink_of (Z.land b (Z.lnot (Z.shiftl 1 6))) = ink_of b.
Proof.
  unfold ink_of. rewrite <- Z.land_assoc.
  change (Z.land (Z.lnot (Z.shiftl 1 6)) 7) with 7. done.
Qed.

Lemma paper_of_clear b : paper_of (Z.land b (Z.lnot (Z.shiftl 1 6))) = paper_of b.
Proof.
  unfold paper_of. rewrite Z.shiftr_land, <- Z.land_assoc.
  change (Z.land (Z.shiftr (Z.lnot (Z.shiftl 1 6)) 3) 7) with 7. done.
Qed.

(** Reading back after a store. *)
Lemma rd_wr l i v j :
  rd (wr l i v) j
  = if (i =? j) && (0 <=? i) && (i <? Z.of_nat (length l)) then v else rd l j.
Proof.
  destruct (Z.eqb_spec i j) as [<- | Hne]; cbn [andb];
    [| by apply rd_wr_ne].
  destruct (Z.leb_spec 0 i); cbn [andb].
  - destruct (Z.ltb_spec i (Z.of_nat (length l))).
    + apply rd_wr_eq. lia.
    + rewrite !rd_outside; [done | lia | rewrite length_wr; lia].
  - by rewrite !rd_negative by lia.
Qed.

Lemma clear_cells_app cb ws1 ws2 :
  clear_cells cb (ws1 ++ ws2) = clear_cells (clear_cells cb ws1) ws2.
Proof. apply fold_left_app. Qed.

(** Clearing update bits leaves ink and paper alone. *)
Lemma clear_cells_colors ws : forall cb k,
  ink_of (rd (clear_cells cb ws) k) = ink_of (rd cb k)
  /\ paper_of (rd (clear_cells cb ws) k) = paper_of (rd cb k).
Proof.
  induction ws as [| c ws IH]; intros cb k; [done |].
  rewrite clear_cells_cons.
  destruct (IH (clear_update cb (idx c)) k) as [-> ->].
  unfold clear_update. rewrite rd_wr.
  destruct (_ && _ && _) eqn:E; [| done].
  apply andb_true_iff in E as [E _]. apply andb_true_iff in E as [E _].
  apply Z.eqb_eq in E. subst k.
  by rewrite ink_of_clear, paper_of_clear.
Qed.

Variables (pix cb0 : list Z).

Let color (j i : Z) : Z :=
  pixel_color pix (j * PIX_WIDTH + i)
    (ink_of (rd cb0 (Z.shiftr j 3 * TEXT_WIDTH + Z.shiftr i 3)))
    (paper_of (rd cb0 (Z.shiftr j 3 * TEXT_WIDTH + Z.shiftr i 3))).

(** The inner loop of [TftFullScreenWrite] over the columns [cols] of
    pixel row [j]. *)
Lemma full_write_cols j cols : forall ws line,
  for_all
    (fun i (acc : list Z * list Z) =>
       let '(cb, sBufLine) := acc in
       let ix_of_symbol := Z.shiftr j 3 * TEXT_WIDTH + Z.shiftr i 3 in
       let paper := Z.land (Z.shiftr (rd cb ix_of_symbol) 3) 7 in
       let ink := Z.land (rd cb ix_of_symbol) 7 in
       (wr cb ix_of_symbol
           (Z.land (rd cb ix_of_symbol) (Z.lnot (Z.shiftl 1 6))),
        sBufLine ++ [pixel_color pix (j * PIX_WIDTH + i) ink paper]))
    cols (clear_cells cb0 ws, line)
  = (clear_cells cb0
       (ws ++ map (fun i => (Z.shiftr j 3, Z.shiftr i 3)) cols),
     line ++ map (color j) cols).
Proof.
  unfold for_all.
  induction cols as [| i cols IH]; intros ws line.
  { cbn. by rewrite !app_nil_r. }
  cbn [fold_left map].
  fold (ink_of (rd (clear_cells cb0 ws)
                   (Z.shiftr j 3 * TEXT_WIDTH + Z.shiftr i 3))).
  fold (paper_of (rd (clear_cells cb0 ws)
                     (Z.shiftr j 3 * TEXT_WIDTH + Z.shiftr i 3))).
  destruct (clear_cells_colors ws cb0
              (Z.shiftr j 3 * TEXT_WIDTH + Z.shiftr i 3)) as [-> ->].
  fold (color j i).
  replace (wr (clear_cells cb0 ws) _ _)
    with (clear_cells cb0 (ws ++ [(Z.shiftr j 3, Z.shiftr i 3)]))
    by (by rewrite clear_cells_app).
  rewrite IH, <- !app_assoc. done.
Qed.

Lemma full_write_row_eq j ws out :
  full_write_row pix j (clear_cells cb0 ws, out)
  = (clear_cells cb0 (ws ++ row_visits j),
     out ++ [WriteData (map (color j) (range 0 PIX_WIDTH))]).
Proof.
  unfold full_write_row. cbn [fst snd].
  pose proof (full_write_cols j (range 0 PIX_WIDTH) ws []) as H.
  cbv zeta in *. rewrite H. done.
Qed.

Lemma full_write_rows rows : forall ws out,
  for_all (full_write_row pix) rows (clear_cells cb0 ws, out)
  = (clear_cells cb0 (ws ++ concat (map row_visits rows)),
     out ++ map (fun j => WriteData (map (color j) (range 0 PIX_WIDTH))) rows).
Proof.
  induction rows as [| j rows IH]; intros ws out.
  { cbn. by rewrite !app_nil_r. }
  rewrite for_all_cons, full_write_row_eq, IH.
  cbn [map concat]. rewrite <- !app_assoc. done.
Qed.

End FullWrite.

Lemma dirty_cells_none cb cs :
  (forall c, c ∈ cs -> need_update cb (idx c) = false) ->
  dirty_cells cb cs = [].
Proof.
  intros H. destruct (dirty_cells cb cs) as [| c l] eqn:E; [done |].
  exfalso. assert (Hc : c ∈ dirty_cells cb cs) by (rewrite E; left).
  unfold dirty_cells in Hc. apply list_elem_of_filter in Hc as [Hd Hin].
  apply Is_true_true in Hd. by rewrite H in Hd.
Qed.

Lemma screen_visits_all k :
  0 <= k < TEXT_CHARCOUNT -> k ∈ map idx screen_visits.
Proof.
  change TEXT_CHARCOUNT with 1200. intros Hk.
  pose proof (Z.div_mod k 30 ltac:(lia)) as E.
  pose proof (Z.mod_pos_bound k 30 ltac:(lia)) as Hr.
  assert (Hq : 0 <= k / 30 < 40)
    by (split; [apply Z.div_pos; lia | apply Z.div_lt_upper_bound; lia]).
  apply list_elem_of_In, in_map_iff.
  exists (k / 30, k mod 30). split.
  { unfold idx. cbn [fst snd]. change TEXT_WIDTH with 30. lia. }
  unfold screen_visits. apply in_concat.
  exists (row_visits (8 * (k / 30))). split.
  - apply in_map, list_elem_of_In. unfold range.
    apply elem_of_seqZ. change PIX_HEIGHT with 320. lia.
  - unfold row_visits. apply in_map_iff.
    exists (8 * (k mod 30)). split.
    + rewrite !Z.shiftr_div_pow2 by lia. change (2 ^ 3) with 8.
      by rewrite !(Z.mul_comm 8), !Z.div_mul by lia.
    + apply list_elem_of_In. unfold range.
      apply elem_of_seqZ. change PIX_WIDTH with 240. lia.
Qed.

(** X3: [TftFullScreenWrite] opens the window of the whole screen and
    sends 320 rows of 240 colour words, the word of pixel [(x, y)] being
    the palette entry of its block's ink when the pixel is set and of its
    paper otherwise; it leaves the pixel plane, the cursor and the canvas
    colours alone and clears the update bit of every block, keeping the
    other bits, so that no block awaits an update afterwards. *)
Theorem TftFullScreenWrite_sends (pscr : screen_control_t) :
  wf_screen pscr ->
  let r := TftFullScreenWrite pscr in
  snd r
  = ILI9341_SetOutWriting 0 (PIX_WIDTH - 1) 0 (PIX_HEIGHT - 1)
    ++ map (fun y => WriteData (map (fun x => sent_color pscr x y)
                                    (range 0 PIX_WIDTH)))
           (range 0 PIX_HEIGHT)
  /\ mpPixBuffer (fst r) = mpPixBuffer pscr
  /\ mCursorX (fst r) = mCursorX pscr /\ mCursorY (fst r) = mCursorY pscr
  /\ mCanvasPaper (fst r) = mCanvasPaper pscr
  /\ mCanvasInk (fst r) = mCanvasInk pscr
  /\ wf_screen (fst r)
  /\ (forall k, 0 <= k < TEXT_CHARCOUNT ->
        rd (mpColorBuffer (fst r)) k
        = Z.land (rd (mpColorBuffer pscr) k) (Z.lnot (Z.shiftl 1 6)))
  /\ pending (fst r) = [].
Proof.
  intros [Hp Hc]. cbv zeta.
  assert (Hrun : TftFullScreenWrite pscr
            = (flush_blocks pscr screen_visits,
               ILI9341_SetOutWriting 0 (PIX_WIDTH - 1) 0 (PIX_HEIGHT - 1)
               ++ map (fun y => WriteData (map (fun x => sent_color pscr x y)
                                               (range 0 PIX_WIDTH)))
                      (range 0 PIX_HEIGHT))).
  { unfold TftFullScreenWrite.
    pose proof (full_write_rows (mpPixBuffer pscr) (mpColorBuffer pscr)
                  (range 0 PIX_HEIGHT) [] 
                  (ILI9341_SetOutWriting 0 (PIX_WIDTH - 1) 0 (PIX_HEIGHT - 1)))
      as Hrows.
    change (clear_cells (mpColorBuffer pscr) []) with (mpColorBuffer pscr) in Hrows.
    rewrite Hrows. clear Hrows.
    change ([] ++ concat (map row_visits (range 0 PIX_HEIGHT)))
      with screen_visits.
    fold (flush_blocks pscr screen_visits).
    apply (f_equal (pair (flush_blocks pscr screen_visits))).
    apply (f_equal (app (ILI9341_SetOutWriting 0 (PIX_WIDTH - 1) 0
                           (PIX_HEIGHT - 1)))).
    apply map_ext. intros y. apply (f_equal WriteData).
    apply map_ext. intros x. unfold sent_color, pixel_color, pixel_at, block_of.
    by rewrite (Z.add_comm x), (Z.add_comm (Z.shiftr x 3)). }
  rewrite Hrun. cbn [fst snd].
  destruct (flush_blocks_frame pscr screen_visits) as (Ep & Ex & Ey & Ea & Ei & El).
  assert (Hclr : forall k, 0 <= k < TEXT_CHARCOUNT ->
            rd (mpColorBuffer (flush_blocks pscr screen_visits)) k
            = Z.land (rd (mpColorBuffer pscr) k) (Z.lnot (Z.shiftl 1 6))).
  { intros k Hk. apply flush_blocks_sent. by apply screen_visits_all. }
  split; [done |]. split; [done |]. split; [done |]. split; [done |].
  split; [done |]. split; [done |].
  split; [split; [by rewrite Ep | by rewrite El] |].
  split; [exact Hclr |].
  apply dirty_cells_none. intros c Hcell.
  assert (Hidx : idx c ∈ map idx blocks)
    by (apply list_elem_of_In, in_map, list_elem_of_In, Hcell).
  rewrite idx_blocks in Hidx. apply elem_of_seqZ in Hidx.
  apply not_true_is_false. rewrite need_update_testbit, Hclr by lia.
  rewrite Z.land_spec, Z.lnot_spec by lia.
  change (Z.testbit (Z.shiftl 1 6) 6) with true.
  by rewrite andb_false_r.
Qed.

(** The cleared demo screen: a full write leaves nothing to send. *)
Lemma TftFullScreenWrite_sends_witness :
  wf_screen screen_demo
  /\ pending (fst (TftFullScreenWrite screen_demo)) = []
  /\ length (snd (TftFullScreenWrite screen_demo)) = 331%nat.
Proof.
  assert (Hwf : wf_screen screen_demo) by (split; reflexivity).
  split; [exact Hwf |].
  destruct (TftFullScreenWrite_sends screen_demo Hwf)
    as (Hout & _ & _ & _ & _ & _ & _ & _ & Hpend).
  split; [exact Hpend |]. rewrite Hout. reflexivity.
Defined.

(** ** One block on the wire *)

(** X4: [TftSymbolWrite] opens the window of the 8x8 pixels of block
    [(sym_x, sym_y)] and sends 8 rows of 8 colour words, each being the word
    [TftFullScreenWrite] sends for the same pixel.  It leaves the pixel
    plane alone; in the colour buffer it clears the update bit of this
    block, keeps its ink and paper, and leaves every other block as it
    was. *)
Theorem TftSymbolWrite_sends (pscr : screen_control_t) (sym_x sym_y : Z) :
  let r := TftSymbolWrite pscr sym_x sym_y in
  let k := sym_y * TEXT_WIDTH + sym_x in
  snd r
  = ILI9341_SetOutWriting (8 * sym_x) (8 * sym_x + 7) (8 * sym_y) (8 * sym_y + 7)
    ++ map (fun j =>
              WriteData (map (fun i => sent_color pscr (8 * sym_x + i)
                                                  (8 * sym_y + j))
                             (range 0 8)))
           (range 0 8)
  /\ mpPixBuffer (fst r) = mpPixBuffer pscr
  /\ need_update (mpColorBuffer (fst r)) k = false
  /\ ink_of (rd (mpColorBuffer (fst r)) k) = ink_of (rd (mpColorBuffer pscr) k)
  /\ paper_of (rd (mpColorBuffer (fst r)) k)
     = paper_of (rd (mpColorBuffer pscr) k)
  /\ forall k', k' <> k ->
       rd (mpColorBuffer (fst r)) k' = rd (mpColorBuffer pscr) k'.
Proof.
  cbv zeta. split; [| split; [done |]].
  - unfold TftSymbolWrite. cbn [snd].
    rewrite !Z.shiftl_mul_pow2 by lia. change (2 ^ 3) with 8.
    rewrite !(Z.mul_comm _ 8).
    apply (f_equal (app _)).
    apply map_ext_in. intros j Hj. apply In_range in Hj.
    apply (f_equal WriteData).
    apply map_ext_in. intros i Hi. apply In_range in Hi.
    unfold sent_color, pixel_color, pixel_at.
    rewrite block_of_cell by done.
    fold (ink_of (rd (mpColorBuffer pscr) (sym_y * TEXT_WIDTH + sym_x))).
    fold (paper_of (rd (mpColorBuffer pscr) (sym_y * TEXT_WIDTH + sym_x))).
    replace ((8 * sym_y + j) * PIX_WIDTH + 8 * sym_x + i)
      with (8 * sym_x + i + (8 * sym_y + j) * PIX_WIDTH) by lia.
    done.
  - pose proof (TftSymbolWrite_state pscr (sym_y, sym_x)) as Hst.
    cbn [fst snd] in Hst. rewrite Hst. cbn [with_color mpColorBuffer].
    change (idx (sym_y, sym_x)) with (sym_y * TEXT_WIDTH + sym_x).
    split; [apply need_update_clear_eq |].
    pose proof (clear_cells_colors [(sym_y, sym_x)] (mpColorBuffer pscr)
                  (sym_y * TEXT_WIDTH + sym_x)) as [Hi Hp].
    split; [exact Hi |]. split; [exact Hp |].
    intros k' Hk'. unfold clear_update. apply rd_wr_ne. congruence.
Qed.

(** ** Clearing the buffer *)

Section ClearScreen.

Lemma rd_replicate n v k :
  0 <= k < Z.of_nat n -> rd (replicate n v) k = v.
Proof.
  intros Hk. apply rd_lookup; [lia |]. apply lookup_replicate_2. lia.
Qed.

Lemma rd_replicate_0 n k : rd (replicate n 0) k = 0.
Proof.
  destruct (Z_lt_dec k 0); [by apply rd_negative |].
  destruct (Z_lt_dec k (Z.of_nat n)); [apply rd_replicate; lia |].
  apply rd_outside. rewrite length_replicate. lia.
Qed.

Lemma color_cases c : 0 <= c <= 7 ->
  c = 0 \/ c = 1 \/ c = 2 \/ c = 3 \/ c = 4 \/ c = 5 \/ c = 6 \/ c = 7.
Proof. lia. Qed.

(** The attribute byte built from colours in [0, 7]. *)
Lemma attr_val_fields paper ink :
  0 <= paper <= 7 -> 0 <= ink <= 7 ->
  let v := wrapu 8 (Z.lor (Z.lor ink (Z.shiftl paper 3)) (Z.shiftl 1 6)) in
  v = 64 + 8 * paper + ink /\ ink_of v = ink /\ paper_of v = paper.
Proof.
  intros Hp Hi. apply color_cases in Hp, Hi.
  destruct Hp as [-> | [-> | [-> | [-> | [-> | [-> | [-> | ->]]]]]]];
    destruct Hi as [-> | [-> | [-> | [-> | [-> | [-> | [-> | ->]]]]]]];
    vm_compute; repeat split.
Qed.

Lemma dirty_cells_all cb cs :
  (forall c, c ∈ cs -> need_update cb (idx c) = true) ->
  dirty_cells cb cs = cs.
Proof.
  induction cs as [| c cs IH]; intros H; [done |].
  unfold dirty_cells. rewrite filter_cons_True.
  - f_equal. apply IH. intros c' Hc'. by apply H, list_elem_of_further.
  - apply Is_true_true, H, list_elem_of_here.
Qed.

Lemma blocks_idx c : c ∈ blocks -> 0 <= idx c < TEXT_CHARCOUNT.
Proof.
  intros Hc.
  assert (Hidx : idx c ∈ map idx blocks)
    by (apply list_elem_of_In, in_map, list_elem_of_In, Hc).
  rewrite idx_blocks in Hidx. apply elem_of_seqZ in Hidx. lia.
Qed.

End ClearScreen.

(** The attribute byte does not depend on the bits of the arguments above
    the low 32. *)
Lemma attr_val_wrap paper ink :
  wrapu 8 (Z.lor (Z.lor (wrapu 32 ink) (Z.shiftl (wrapu 32 paper) 3))
                 (Z.shiftl 1 6))
  = wrapu 8 (Z.lor (Z.lor ink (Z.shiftl paper 3)) (Z.shiftl 1 6)).
Proof.
  unfold wrapu. apply Z.bits_inj'. intros n Hn.
  destruct (Z_lt_dec n 8) as [Hlow | Hhigh].
  - rewrite !(Z.mod_pow2_bits_low _ 8) by lia.
    rewrite !Z.lor_spec, !(Z.shiftl_spec _ 3) by lia.
    rewrite (Z.mod_pow2_bits_low ink 32) by lia.
    destruct (Z_lt_dec (n - 3) 0) as [Hneg | Hpos].
    + by rewrite !(Z.testbit_neg_r _ (n - 3)) by lia.
    + by rewrite (Z.mod_pow2_bits_low paper 32) by lia.
  - by rewrite !(Z.mod_pow2_bits_high _ 8) by lia.
Qed.

(** The test [paper < 0] on a [color_t] never holds. *)
Lemma color_never_negative paper : (wrapu 32 paper <? 0) = false.
Proof.
  apply Z.ltb_ge. unfold wrapu.
  pose proof (Z.mod_pos_bound paper (2 ^ 32) ltac:(lia)). lia.
Qed.

(** X5: [TftClearScreenBuffer] leaves a screen whose buffers have their
    declared sizes, with every pixel clear, the cursor at the origin and
    the canvas colours kept; every block gets the low byte of
    [ink | paper << 3 | 0x40] and awaits an update.  With colours in
    [0, 7] this is the chosen paper and ink.  The canvas colours are never
    used: [color_t] is unsigned, the special case [paper < 0] cannot
    arise, and a caller's [-1] for the paper gives the byte [0xF8 + ink]. *)
Theorem TftClearScreenBuffer_result (pscr : screen_control_t) (paper ink : Z) :
  let s' := TftClearScreenBuffer pscr paper ink in
  let attr_val :=
    wrapu 8 (Z.lor (Z.lor ink (Z.shiftl paper 3)) (Z.shiftl 1 6)) in
  wf_screen s'
  /\ mCursorX s' = 0 /\ mCursorY s' = 0
  /\ mCanvasPaper s' = mCanvasPaper pscr /\ mCanvasInk s' = mCanvasInk pscr
  /\ (forall x y, pixel_at s' x y = 0)
  /\ (forall k, 0 <= k < TEXT_CHARCOUNT ->
        rd (mpColorBuffer s') k = attr_val
        /\ need_update (mpColorBuffer s') k = true)
  /\ (0 <= paper <= 7 -> 0 <= ink <= 7 ->
      attr_val = 64 + 8 * paper + ink
      /\ ink_of attr_val = ink /\ paper_of attr_val = paper)
  /\ (paper = -1 -> 0 <= ink <= 7 -> attr_val = 0xF8 + ink)
  /\ pending s' = blocks.
Proof.
  cbv zeta.
  assert (Hcb : forall k, 0 <= k < TEXT_CHARCOUNT ->
            rd (mpColorBuffer (TftClearScreenBuffer pscr paper ink)) k
            = wrapu 8 (Z.lor (Z.lor ink (Z.shiftl paper 3)) (Z.shiftl 1 6))).
  { intros k Hk. unfold TftClearScreenBuffer. cbv zeta. cbn [mpColorBuffer].
    rewrite rd_replicate by (change TEXT_CHARCOUNT with 1200 in *;
                             change (Z.to_nat 1200) with 1200%nat; lia).
    rewrite color_never_negative. apply attr_val_wrap. }
  split; [split; apply length_replicate |].
  split; [done |]. split; [done |]. split; [done |]. split; [done |].
  split.
  { intros x y. apply GET_DATA_BIT_zero. apply rd_replicate_0. }
  split.
  { intros k Hk. split; [by apply Hcb | by apply TftClearScreenBuffer_marks]. }
  split; [apply attr_val_fields |].
  split.
  { intros -> Hi. apply color_cases in Hi.
    destruct Hi as [-> | [-> | [-> | [-> | [-> | [-> | [-> | ->]]]]]]];
      vm_compute; reflexivity. }
  apply dirty_cells_all. intros c Hc.
  apply TftClearScreenBuffer_marks. by apply blocks_idx.
Qed.

(** The clear of the demo: paper black, ink red; and the same call with
    -1 for the paper. *)
Lemma TftClearScreenBuffer_result_witness :
  pending screen_demo = blocks
  /\ attr_at screen_demo 39 29 = 66
  /\ attr_at (TftClearScreenBuffer screen_demo (-1) kRed) 39 29 = 0xFA.
Proof.
  destruct (TftClearScreenBuffer_result
              (mkScreen 0 0 kBlack kMagenta
                 (replicate (Z.to_nat PIX_W32COUNT) 0)
                 (replicate (Z.to_nat TEXT_CHARCOUNT) 0))
              kBlack kRed) as (_ & _ & _ & _ & _ & _ & Hk & _ & _ & Hpend).
  split; [exact Hpend |].
  split; [apply (Hk 1199); vm_compute; split; [discriminate | reflexivity] |].
  destruct (TftClearScreenBuffer_result screen_demo (-1) kRed)
    as (_ & _ & _ & _ & _ & _ & Hk' & _ & Hneg & _).
  destruct (Hk' 1199 ltac:(vm_compute; split; [discriminate | reflexivity]))
    as [E _].
  unfold attr_at. change (39 * TEXT_WIDTH + 29) with 1199. rewrite E.
  apply (Hneg eq_refl). unfold kRed. lia.
Defined.

(** ** Colour attributes *)

Ltac cmp_cases :=
  repeat match goal with
         | |- context [?a <=? ?b] => destruct (Z.leb_spec a b)
         | |- context [?a <? ?b] => destruct (Z.ltb_spec a b)
         | |- context [?a =? ?b] => destruct (Z.eqb_spec a b)
         end; try lia.

Section AttributeFields.

(** Bit [n] of a mask of [w] ones shifted left by [s]. *)
Lemma testbit_mask w s n :
  0 <= w -> 0 <= s -> 0 <= n ->
  Z.testbit (Z.shiftl (Z.ones w) s) n = (s <=? n) && (n <? s + w).
Proof.
  intros Hw Hs Hn. rewrite Z.shiftl_spec by lia.
  destruct (Z.leb_spec s n); cbn [andb].
  - rewrite Z.testbit_ones_nonneg by lia.
    destruct (Z.ltb_spec (n - s) w); destruct (Z.ltb_spec n (s + w)); lia.
  - apply Z.testbit_neg_r. lia.
Qed.

Lemma put_attr_bit box paper ink n :
  0 <= n ->
  Z.testbit (put_attr box paper ink) n
  = if n <? 3 then Z.testbit ink n
    else if n <? 6 then Z.testbit paper (n - 3)
    else if n =? 6 then true
    else if n =? 7 then Z.testbit box 7
    else false.
Proof.
  intros Hn. unfold put_attr.
  change 0xC0 with (Z.shiftl (Z.ones 2) 6).
  change 7 with (Z.shiftl (Z.ones 3) 0) at 1 2.
  change (Z.shiftl 1 6) with (Z.shiftl (Z.ones 1) 6).
  rewrite !Z.lor_spec, !Z.land_spec, !testbit_mask by lia.
  rewrite (Z.shiftl_spec _ 3), Z.land_spec by lia.
  destruct (Z.ltb_spec n 3) as [H3 | H3].
  { rewrite !(Z.testbit_neg_r _ (n - 3)) by lia. cmp_cases.
    cbn [andb orb]. by rewrite ?andb_false_r, ?orb_false_r, ?andb_true_r. }
  rewrite testbit_mask by lia. cmp_cases; subst;
    cbn [andb orb];
    rewrite ?andb_false_r, ?orb_false_r, ?andb_true_r, ?orb_true_r; done.
Qed.

Lemma ink_of_put_attr box paper ink :
  ink_of (put_attr box paper ink) = Z.land ink 7.
Proof.
  unfold ink_of. apply Z.bits_inj'. intros n Hn.
  rewrite !Z.land_spec, put_attr_bit by lia.
  change 7 with (Z.ones 3). rewrite Z.testbit_ones_nonneg by lia.
  destruct (Z.ltb_spec n 3); [done |]. by rewrite !andb_false_r.
Qed.

Lemma paper_of_put_attr box paper ink :
  paper_of (put_attr box paper ink) = Z.land paper 7.
Proof.
  unfold paper_of. apply Z.bits_inj'. intros n Hn.
  rewrite !Z.land_spec, Z.shiftr_spec, put_attr_bit by lia.
  change 7 with (Z.ones 3). rewrite Z.testbit_ones_nonneg by lia.
  destruct (Z.ltb_spec n 3); [| by rewrite !andb_false_r].
  destruct (Z.ltb_spec (n + 3) 3); [lia |].
  destruct (Z.ltb_spec (n + 3) 6); [| lia].
  by replace (n + 3 - 3) with n by lia.
Qed.

Lemma put_attr_byte box paper ink : 0 <= put_attr box paper ink <= 255.
Proof.
  assert (E : Z.land (put_attr box paper ink) (Z.ones 8) = put_attr box paper ink).
  { apply Z.bits_inj'. intros n Hn.
    rewrite Z.land_spec, Z.testbit_ones_nonneg, put_attr_bit by lia.
    destruct (Z.ltb_spec n 8); [by rewrite andb_true_r |].
    destruct (Z.ltb_spec n 3); [lia |]. destruct (Z.ltb_spec n 6); [lia |].
    destruct (Z.eqb_spec n 6); [lia |]. destruct (Z.eqb_spec n 7); [lia |].
    done. }
  rewrite Z.land_ones in E by lia.
  pose proof (Z.mod_pos_bound (put_attr box paper ink) (2 ^ 8) ltac:(lia)).
  lia.
Qed.

Lemma land_color c : 0 <= c <= 7 -> Z.land c 7 = c.
Proof.
  intros Hc. change 7 with (Z.ones 3) at 1. rewrite Z.land_ones by lia.
  apply Z.mod_small. lia.
Qed.

End AttributeFields.

(** X6: [TftPutColorAttr] on a block inside the colour buffer stores the
    low three bits of [ink] and of [paper] (the colours themselves when
    they are in [0, 7]), sets the update bit, keeps the flash bit, and
    leaves a byte; every other block, the pixel plane and the cursor are
    as before.  The block is addressed linearly, [x + TEXT_WIDTH * y]. *)
Theorem TftPutColorAttr_lookup (pscr : screen_control_t) (x y paper ink : Z) :
  let k := x + TEXT_WIDTH * y in
  0 <= k < Z.of_nat (length (mpColorBuffer pscr)) ->
  let s' := TftPutColorAttr pscr x y paper ink in
  ink_of (rd (mpColorBuffer s') k) = Z.land ink 7
  /\ paper_of (rd (mpColorBuffer s') k) = Z.land paper 7
  /\ (0 <= ink <= 7 -> ink_of (rd (mpColorBuffer s') k) = ink)
  /\ (0 <= paper <= 7 -> paper_of (rd (mpColorBuffer s') k) = paper)
  /\ need_update (mpColorBuffer s') k = true
  /\ Z.testbit (rd (mpColorBuffer s') k) 7
     = Z.testbit (rd (mpColorBuffer pscr) k) 7
  /\ 0 <= rd (mpColorBuffer s') k <= 255
  /\ (forall k', k' <> k ->
        rd (mpColorBuffer s') k' = rd (mpColorBuffer pscr) k')
  /\ length (mpColorBuffer s') = length (mpColorBuffer pscr)
  /\ mpPixBuffer s' = mpPixBuffer pscr
  /\ mCursorX s' = mCursorX pscr /\ mCursorY s' = mCursorY pscr.
Proof.
  cbv zeta. intros Hk. unfold TftPutColorAttr.
  cbn [with_color mpColorBuffer mpPixBuffer mCursorX mCursorY].
  rewrite rd_wr_eq by lia.
  split; [apply ink_of_put_attr |]. split; [apply paper_of_put_attr |].
  split; [intros Hi; by rewrite ink_of_put_attr, land_color |].
  split; [intros Hp; by rewrite paper_of_put_attr, land_color |].
  split; [rewrite need_update_testbit, rd_wr_eq by lia; apply put_attr_marked |].
  split; [by rewrite put_attr_bit by lia |].
  split; [apply put_attr_byte |].
  split; [intros k' Hk'; apply rd_wr_ne; congruence |].
  split; [apply length_wr |]. done.
Qed.

(** Block (3, 2) of the idle demo screen painted white on blue. *)
Lemma TftPutColorAttr_lookup_witness :
  0 <= 3 + TEXT_WIDTH * 2 < Z.of_nat (length (mpColorBuffer screen_idle))
  /\ ink_of (attr_at (TftPutColorAttr screen_idle 3 2 kBlue kWhite) 2 3) = kWhite
  /\ paper_of (attr_at (TftPutColorAttr screen_idle 3 2 kBlue kWhite) 2 3) = kBlue.
Proof.
  assert (Hk : 0 <= 3 + TEXT_WIDTH * 2
               < Z.of_nat (length (mpColorBuffer screen_idle)))
    by (vm_compute; split; [discriminate | reflexivity]).
  split; [exact Hk |].
  destruct (TftPutColorAttr_lookup screen_idle 3 2 kBlue kWhite Hk)
    as (_ & _ & Hi & Hp & _).
  split; [apply Hi | apply Hp]; vm_compute; split; discriminate.
Defined.

(** ** One pixel *)

Section PutPixel.

Lemma TftPutPixel_inside pscr x y paper ink :
  0 <= x < PIX_WIDTH -> 0 <= y < PIX_HEIGHT ->
  TftPutPixel pscr x y paper ink
  = TftPutColorAttr
      (with_pix pscr (SET_DATA_BIT (mpPixBuffer pscr) (x + y * PIX_WIDTH)))
      (Z.shiftr x 3) (Z.shiftr y 3) paper ink.
Proof.
  unfold TftPutPixel, PIX_WIDTH, PIX_HEIGHT. intros Hx Hy.
  destruct (Z.ltb_spec x 0); [lia |]. destruct (Z.ltb_spec y 0); [lia |].
  destruct (Z.gtb_spec x (240 - 1)); [lia |].
  destruct (Z.gtb_spec y (320 - 1)); [lia |]. done.
Qed.

End PutPixel.

(** X7: [TftPutPixel] at a point of the plane sets that pixel and no
    other, gives the pixel's block the low three bits of [paper] and [ink]
    (so the whole 8x8 block takes these colours) and marks it for update;
    every other block, the sizes of the buffers and the cursor are as
    before. *)
Theorem TftPutPixel_sets (pscr : screen_control_t) (x y paper ink : Z) :
  wf_screen pscr -> 0 <= x < PIX_WIDTH -> 0 <= y < PIX_HEIGHT ->
  let s' := TftPutPixel pscr x y paper ink in
  pixel_at s' x y = 1
  /\ (forall x' y', 0 <= x' < PIX_WIDTH -> 0 <= y' < PIX_HEIGHT ->
        x' <> x \/ y' <> y -> pixel_at s' x' y' = pixel_at pscr x' y')
  /\ ink_of (rd (mpColorBuffer s') (block_of x y)) = Z.land ink 7
  /\ paper_of (rd (mpColorBuffer s') (block_of x y)) = Z.land paper 7
  /\ need_update (mpColorBuffer s') (block_of x y) = true
  /\ (forall k, k <> block_of x y ->
        rd (mpColorBuffer s') k = rd (mpColorBuffer pscr) k)
  /\ wf_screen s'
  /\ mCursorX s' = mCursorX pscr /\ mCursorY s' = mCursorY pscr.
Proof.
  intros Hwf Hx Hy. cbv zeta.
  destruct (TftPutPixel_marks pscr x y paper ink Hwf Hx Hy)
    as (Hset & Hmark & _ & _).
  destruct (TftPutPixel_tracked pscr x y paper ink Hwf) as [Hwf' _].
  split; [exact Hset |].
  rewrite TftPutPixel_inside in * by done.
  assert (Hblk : block_of x y = Z.shiftr x 3 + TEXT_WIDTH * Z.shiftr y 3)
    by (unfold block_of; lia).
  pose proof (block_of_range x y Hx Hy) as Hb.
  destruct Hwf as [Hp Hc].
  assert (Hk : 0 <= block_of x y < Z.of_nat (length (mpColorBuffer pscr))).
  { rewrite Hc. change (Z.to_nat TEXT_CHARCOUNT) with 1200%nat.
    change TEXT_CHARCOUNT with 1200 in Hb. lia. }
  unfold TftPutColorAttr in *. rewrite <- Hblk in *.
  cbn [with_color with_pix mpColorBuffer mpPixBuffer mCursorX mCursorY] in *.
  rewrite rd_wr_eq by lia.
  split.
  { intros x' y' Hx' Hy' Hne. unfold pixel_at.
    cbn [mpPixBuffer]. apply GET_SET_other.
    intros E. apply pixel_index_inj in E as [-> ->]; [tauto | done | done]. }
  split; [apply ink_of_put_attr |]. split; [apply paper_of_put_attr |].
  split; [exact Hmark |].
  split; [intros k Hne; apply rd_wr_ne; congruence |].
  split; [exact Hwf' |]. done.
Qed.

(** The yellow pixel of the demo at (8, 0). *)
Lemma TftPutPixel_sets_witness :
  wf_screen screen_idle /\ 0 <= 8 < PIX_WIDTH /\ 0 <= 0 < PIX_HEIGHT
  /\ pixel_at (TftPutPixel screen_idle 8 0 kBlack kYellow) 8 0 = 1
  /\ pixel_at (TftPutPixel screen_idle 8 0 kBlack kYellow) 9 0
     = pixel_at screen_idle 9 0.
Proof.
  assert (Hwf : wf_screen screen_idle) by (split; reflexivity).
  assert (Hx : 0 <= 8 < PIX_WIDTH) by (unfold PIX_WIDTH; lia).
  assert (Hy : 0 <= 0 < PIX_HEIGHT) by (unfold PIX_HEIGHT; lia).
  split; [exact Hwf |]. split; [exact Hx |]. split; [exact Hy |].
  destruct (TftPutPixel_sets screen_idle 8 0 kBlack kYellow Hwf Hx Hy)
    as (Hset & Hother & _).
  split; [exact Hset |].
  apply Hother; [unfold PIX_WIDTH; lia | unfold PIX_HEIGHT; lia | left; lia].
Defined.

(** ** One character *)

Section WriteOnce.

Lemma for_all_app {I S : Type} (f : I -> S -> S) (l1 l2 : list I) (s : S) :
  for_all f (l1 ++ l2) s = for_all f l2 (for_all f l1 s).
Proof. apply fold_left_app. Qed.

Lemma for_all_row {I J S : Type} (f : I -> J -> S -> S) (j : I)
    (cols : list J) (s : S) :
  for_all (fun c => f (fst c) (snd c)) (map (pair j) cols) s
  = for_all (f j) cols s.
Proof.
  revert s. induction cols as [| i cols IH]; intros s; [done |].
  cbn [map]. rewrite !for_all_cons. apply IH.
Qed.

Lemma for_all_ext {I S : Type} (f g : I -> S -> S) (l : list I) (s : S) :
  (forall i s, f i s = g i s) -> for_all f l s = for_all g l s.
Proof.
  intros H. revert s. induction l as [| i l IH]; intros s; [done |].
  by rewrite !for_all_cons, H, IH.
Qed.

(** Two nested loops are one loop over the pairs of indices. *)
Lemma for_all_nested {I J S : Type} (f : I -> J -> S -> S)
    (rows : list I) (cols : list J) (s : S) :
  for_all (fun j s => for_all (f j) cols s) rows s
  = for_all (fun c => f (fst c) (snd c)) (list_prod rows cols) s.
Proof.
  revert s. induction rows as [| j rows IH]; intros s; [done |].
  cbn [list_prod]. rewrite for_all_cons, for_all_app, for_all_row. apply IH.
Qed.

(** A loop that sets or clears one bit per round, each bit once: a bit
    it visits ends as the round wrote it. *)
Lemma GET_for_all_written {I : Type} (n : I -> Z) (b : I -> bool)
    (ixs : list I) : forall p c,
  NoDup (map n ixs) -> c ∈ ixs ->
  0 <= Z.shiftr (n c) 5 < Z.of_nat (length p) ->
  GET_DATA_BIT
    (for_all (fun i p => if b i then SET_DATA_BIT p (n i)
                         else CLR_DATA_BIT p (n i)) ixs p)
    (n c)
  = Z.b2z (b c).
Proof.
  induction ixs as [| a ixs IH]; intros p c Hnd Hc Hw.
  { by apply elem_of_nil in Hc. }
  cbn [map] in Hnd. apply NoDup_cons in Hnd as [Ha Hnd].
  rewrite for_all_cons.
  apply elem_of_cons in Hc as [-> | Hc].
  - rewrite GET_for_all_other.
    + destruct (b a); [by apply GET_SET_same | by apply GET_CLR_same].
    + intros i q Hi.
      assert (Hne : n i <> n a).
      { intros E. apply Ha. rewrite <- E.
        apply list_elem_of_In, in_map, list_elem_of_In, Hi. }
      destruct (b i); [by apply GET_SET_other | by apply GET_CLR_other].
  - apply IH; [done | done |].
    destruct (b a); [by rewrite length_SET | by rewrite length_CLR].
Qed.

Lemma NoDup_cell_bits base :
  NoDup (map (fun c : Z * Z => base + fst c * PIX_WIDTH + snd c)
             (list_prod (range 0 8) (range 0 8))).
Proof.
  apply (NoDup_fmap_2_strong
           (fun c : Z * Z => base + fst c * PIX_WIDTH + snd c)).
  - intros [j i] [j' i'] Hc Hc' E. cbn [fst snd] in E.
    apply list_elem_of_In, in_prod_iff in Hc as [Hj Hi].
    apply list_elem_of_In, in_prod_iff in Hc' as [Hj' Hi'].
    apply In_range in Hj, Hi, Hj', Hi'. unfold PIX_WIDTH in E.
    assert (j = j' /\ i = i') as [-> ->] by lia. done.
  - apply NoDup_ListNoDup. vm_compute.
    repeat (constructor; [cbn; intuition discriminate |]). constructor.
Qed.

End WriteOnce.

Section Glyph.

Variable kFONT_ : list Z.

Lemma glyph_bit_testbit chr j i :
  0 <= i <= 8 ->
  glyph_bit kFONT_ chr j i = Z.testbit (rd kFONT_ (2 + 8 * chr + j)) (8 - i).
Proof.
  intros Hi. unfold glyph_bit. rewrite low_bit_testbit by lia.
  by destruct (Z.testbit _ _).
Qed.

(** The pixel plane after [TftPutChar] drew a printable character. *)
Lemma TftPutChar_plane pscr x y paper ink chr :
  0x20 <= chr <= 0x7E ->
  mpPixBuffer (TftPutChar kFONT_ pscr x y paper ink chr)
  = for_all (fun c p =>
               if glyph_bit kFONT_ (chr - 0x20) (fst c) (snd c)
               then SET_DATA_BIT p (8 * x + 8 * y * PIX_WIDTH
                                    + fst c * PIX_WIDTH + snd c)
               else CLR_DATA_BIT p (8 * x + 8 * y * PIX_WIDTH
                                    + fst c * PIX_WIDTH + snd c))
            (list_prod (range 0 8) (range 0 8)) (mpPixBuffer pscr).
Proof.
  intros Hchr. unfold TftPutChar.
  destruct (Z.gtb_spec chr 0x7E); [lia |].
  destruct (Z.ltb_spec chr 0x20); [lia |]. cbn [orb mpPixBuffer].
  rewrite (for_all_nested
             (fun j i pix =>
                if glyph_bit kFONT_ (chr - 0x20) j i
                then SET_DATA_BIT pix ((Z.shiftl y 3 + j) * PIX_WIDTH
                                       + Z.shiftl x 3 + i)
                else CLR_DATA_BIT pix ((Z.shiftl y 3 + j) * PIX_WIDTH
                                       + Z.shiftl x 3 + i))).
  apply for_all_ext. intros [j i] p. cbn [fst snd].
  rewrite !Z.shiftl_mul_pow2 by lia. change (2 ^ 3) with 8.
  replace ((y * 8 + j) * PIX_WIDTH + x * 8 + i)
    with (8 * x + 8 * y * PIX_WIDTH + j * PIX_WIDTH + i) by lia.
  done.
Qed.

Lemma TftPutChar_skip pscr x y paper ink chr :
  chr < 0x20 \/ 0x7E < chr -> TftPutChar kFONT_ pscr x y paper ink chr = pscr.
Proof.
  intros Hchr. unfold TftPutChar.
  destruct (Z.gtb_spec chr 0x7E); [done |].
  destruct (Z.ltb_spec chr 0x20); [done | lia].
Qed.

Lemma TftPutChar_colors pscr x y paper ink chr :
  0x20 <= chr <= 0x7E ->
  mpColorBuffer (TftPutChar kFONT_ pscr x y paper ink chr)
  = wr (mpColorBuffer pscr) (x + TEXT_WIDTH * y)
       (put_attr (rd (mpColorBuffer pscr) (x + TEXT_WIDTH * y)) paper ink).
Proof.
  intros Hchr. unfold TftPutChar.
  destruct (Z.gtb_spec chr 0x7E); [lia |].
  destruct (Z.ltb_spec chr 0x20); [lia |]. done.
Qed.

(** The pixels of the cell show the glyph. *)
Lemma TftPutChar_pixel pscr x y paper ink chr i j :
  wf_screen pscr -> 0 <= x < TEXT_WIDTH -> 0 <= y < TEXT_HEIGHT ->
  0x20 <= chr <= 0x7E -> 0 <= i < 8 -> 0 <= j < 8 ->
  pixel_at (TftPutChar kFONT_ pscr x y paper ink chr) (8 * x + i) (8 * y + j)
  = Z.b2z (Z.testbit (rd kFONT_ (2 + 8 * (chr - 0x20) + j)) (8 - i)).
Proof.
  intros [Hp Hc] Hx Hy Hchr Hi Hj. unfold pixel_at.
  change TEXT_WIDTH with 30 in *. change TEXT_HEIGHT with 40 in *.
  rewrite TftPutChar_plane by done.
  rewrite <- glyph_bit_testbit by lia.
  replace (8 * x + i + (8 * y + j) * PIX_WIDTH)
    with ((fun c : Z * Z => 8 * x + 8 * y * PIX_WIDTH
                            + fst c * PIX_WIDTH + snd c) (j, i))
    by (cbn [fst snd]; lia).
  apply (GET_for_all_written
           (fun c : Z * Z => 8 * x + 8 * y * PIX_WIDTH
                             + fst c * PIX_WIDTH + snd c)
           (fun c : Z * Z => glyph_bit kFONT_ (chr - 0x20) (fst c) (snd c))).
  - apply NoDup_cell_bits.
  - apply list_elem_of_In, in_prod_iff.
    split; apply list_elem_of_In, elem_of_seqZ; lia.
  - cbn [fst snd]. rewrite Hp.
    pose proof (pixel_word (8 * x + i) (8 * y + j)
                  ltac:(unfold PIX_WIDTH; lia) ltac:(lia)) as Hw.
    replace (8 * x + 8 * y * PIX_WIDTH + j * PIX_WIDTH + i)
      with (8 * x + i + (8 * y + j) * PIX_WIDTH) by lia.
    replace ((8 * y + j) / 8) with y in Hw
      by (rewrite (Z.mul_comm 8), Z.add_comm, Z.div_add, Z.div_small; lia).
    change (Z.to_nat PIX_W32COUNT) with 2400%nat. lia.
Qed.

(** Pixels and attribute bytes of the other cells are left alone. *)
Lemma TftPutChar_other_pixel pscr x y paper ink chr x' y' :
  0 <= x < TEXT_WIDTH -> 0 <= x' < PIX_WIDTH -> 0 <= y' < PIX_HEIGHT ->
  block_of x' y' <> x + TEXT_WIDTH * y ->
  pixel_at (TftPutChar kFONT_ pscr x y paper ink chr) x' y'
  = pixel_at pscr x' y'.
Proof.
  intros Hx Hx' Hy' Hblk. change TEXT_WIDTH with 30 in Hx.
  destruct (Z_lt_dec chr 0x20); [by rewrite TftPutChar_skip by lia |].
  destruct (Z_lt_dec 0x7E chr); [by rewrite TftPutChar_skip by lia |].
  unfold pixel_at. rewrite TftPutChar_plane by lia.
  apply GET_for_all_other. intros [j i] p Hc'. cbn [fst snd].
  apply list_elem_of_In, in_prod_iff in Hc' as [Hj Hi].
  apply In_range in Hj, Hi.
  assert (Hne : 8 * x + 8 * y * PIX_WIDTH + j * PIX_WIDTH + i
                <> x' + y' * PIX_WIDTH).
  { intros E. apply Hblk.
    assert (Ex : x' = 8 * x + i /\ y' = 8 * y + j)
      by (unfold PIX_WIDTH in *; lia).
    destruct Ex as [-> ->]. rewrite block_of_cell by done. lia. }
  destruct (glyph_bit _ _ _ _);
    [by apply GET_SET_other | by apply GET_CLR_other].
Qed.

Lemma TftPutChar_other_attr pscr x y paper ink chr k' :
  k' <> x + TEXT_WIDTH * y ->
  rd (mpColorBuffer (TftPutChar kFONT_ pscr x y paper ink chr)) k'
  = rd (mpColorBuffer pscr) k'.
Proof.
  intros Hk'.
  destruct (Z_lt_dec chr 0x20); [by rewrite TftPutChar_skip by lia |].
  destruct (Z_lt_dec 0x7E chr); [by rewrite TftPutChar_skip by lia |].
  rewrite TftPutChar_colors by lia. apply rd_wr_ne. congruence.
Qed.

(** X8: [TftPutChar] with a printable character in a cell of the text
    area draws the glyph into the cell's 8x8 pixels: the pixel in column
    [i] of row [j] is bit [8 - i] of the font byte of that row, so that
    with a font of bytes the leftmost column is always clear and bit 0 of
    a font byte is never shown; the cell takes the low three bits of [ink]
    and [paper] and is marked for update.  Pixels and attribute bytes of
    other cells are unchanged.  A character outside [0x20, 0x7E] changes
    nothing. *)
Theorem TftPutChar_glyph (pscr : screen_control_t) (x y paper ink chr : Z) :
  wf_screen pscr -> 0 <= x < TEXT_WIDTH -> 0 <= y < TEXT_HEIGHT ->
  let s' := TftPutChar kFONT_ pscr x y paper ink chr in
  let k := x + TEXT_WIDTH * y in
  (0x20 <= chr <= 0x7E ->
   (forall i j, 0 <= i < 8 -> 0 <= j < 8 ->
      pixel_at s' (8 * x + i) (8 * y + j)
      = Z.b2z (Z.testbit (rd kFONT_ (2 + 8 * (chr - 0x20) + j)) (8 - i)))
   /\ ((forall m, 0 <= rd kFONT_ m < 256) ->
       forall j, 0 <= j < 8 -> pixel_at s' (8 * x) (8 * y + j) = 0)
   /\ ink_of (rd (mpColorBuffer s') k) = Z.land ink 7
   /\ paper_of (rd (mpColorBuffer s') k) = Z.land paper 7
   /\ need_update (mpColorBuffer s') k = true)
  /\ (forall x' y', 0 <= x' < PIX_WIDTH -> 0 <= y' < PIX_HEIGHT ->
        block_of x' y' <> k -> pixel_at s' x' y' = pixel_at pscr x' y')
  /\ (forall k', k' <> k ->
        rd (mpColorBuffer s') k' = rd (mpColorBuffer pscr) k')
  /\ (chr < 0x20 \/ 0x7E < chr -> s' = pscr).
Proof.
  intros Hwf Hx Hy. cbv zeta.
  destruct (TftPutChar_marks kFONT_ pscr x y paper ink chr Hwf Hx Hy)
    as (Hmark & _ & _).
  assert (Hk : 0 <= x + TEXT_WIDTH * y < Z.of_nat (length (mpColorBuffer pscr))).
  { destruct Hwf as [_ Hc]. rewrite Hc.
    change (Z.to_nat TEXT_CHARCOUNT) with 1200%nat.
    change TEXT_WIDTH with 30 in *. change TEXT_HEIGHT with 40 in *. lia. }
  split; [intros Hchr; split; [| split; [| split; [| split]]] |].
  - intros i j Hi Hj. by apply TftPutChar_pixel.
  - intros Hfont j Hj.
    replace (8 * x) with (8 * x + 0) by lia.
    rewrite TftPutChar_pixel by (done || lia).
    rewrite Z.sub_0_r.
    rewrite <- (Z.mod_small (rd kFONT_ (2 + 8 * (chr - 32) + j)) (2 ^ 8))
      by apply Hfont.
    by rewrite Z.mod_pow2_bits_high by lia.
  - rewrite TftPutChar_colors, rd_wr_eq by (done || lia). apply ink_of_put_attr.
  - rewrite TftPutChar_colors, rd_wr_eq by (done || lia). apply paper_of_put_attr.
  - by apply Hmark.
  - split; [| split].
    + intros x' y' Hx' Hy' Hblk. by apply TftPutChar_other_pixel.
    + intros k' Hk'. by apply TftPutChar_other_attr.
    + apply TftPutChar_skip.
Qed.

End Glyph.

(** The letter A (0x41) in cell (2, 1) of the idle demo screen, with a
    font whose bytes are all 0x81: columns 1 and 7 of every row are set. *)
Lemma TftPutChar_glyph_witness :
  wf_screen screen_idle /\ 0 <= 2 < TEXT_WIDTH /\ 0 <= 1 < TEXT_HEIGHT
  /\ pixel_at (TftPutChar (replicate 762 0x81) screen_idle 2 1 kBlack kWhite 0x41)
              (8 * 2 + 1) (8 * 1 + 3) = 1
  /\ pixel_at (TftPutChar (replicate 762 0x81) screen_idle 2 1 kBlack kWhite 0x41)
              (8 * 2) (8 * 1 + 3) = 0.
Proof.
  assert (Hwf : wf_screen screen_idle) by (split; reflexivity).
  assert (Hx : 0 <= 2 < TEXT_WIDTH) by (change TEXT_WIDTH with 30; lia).
  assert (Hy : 0 <= 1 < TEXT_HEIGHT) by (change TEXT_HEIGHT with 40; lia).
  split; [exact Hwf |]. split; [exact Hx |]. split; [exact Hy |].
  destruct (TftPutChar_glyph (replicate 762 0x81) screen_idle 2 1
              kBlack kWhite 0x41 Hwf Hx Hy) as [Hdraw _].
  destruct (Hdraw ltac:(lia)) as (Hpix & Hcol & _).
  split.
  - rewrite (Hpix 1 3) by lia. reflexivity.
  - apply Hcol; [| lia]. intros m.
    destruct (Z_lt_dec m 0); [rewrite rd_negative by lia; lia |].
    destruct (Z_lt_dec m 762); [rewrite rd_replicate by lia; lia |].
    rewrite rd_outside by (rewrite length_replicate; lia). lia.
Defined.

(** ** Strings *)

Section PutString.

Variable kFONT_ : list Z.

Lemma with_cursor_bufs s a b :
  mpPixBuffer (with_cursor s a b) = mpPixBuffer s
  /\ mpColorBuffer (with_cursor s a b) = mpColorBuffer s.
Proof. done. Qed.

Lemma block_row x y :
  0 <= x < PIX_WIDTH -> 0 <= y ->
  30 * (y / 8) <= block_of x y < 30 * (y / 8) + 30.
Proof.
  intros Hx Hy. unfold block_of. change TEXT_WIDTH with 30.
  rewrite !Z.shiftr_div_pow2 by lia. change (2 ^ 3) with 8.
  unfold PIX_WIDTH in Hx.
  assert (0 <= x / 8 < 30)
    by (split; [apply Z.div_pos; lia | apply Z.div_lt_upper_bound; lia]).
  lia.
Qed.

(** One round of [TftPutString] leaves the text rows from [bot_y] on
    alone. *)
Lemma put_string_step_below beyond top_y bot_y paper ink pscr ch :
  wf_screen pscr -> 0 <= top_y < bot_y /\ bot_y <= TEXT_HEIGHT ->
  TEXT_WIDTH <= Z.of_nat (length beyond) -> cursor_ok bot_y pscr ->
  let s' := put_string_step kFONT_ beyond top_y bot_y paper ink pscr ch in
  (forall k, 30 * bot_y <= k < TEXT_CHARCOUNT ->
     rd (mpColorBuffer s') k = rd (mpColorBuffer pscr) k)
  /\ (forall x y, 0 <= x < PIX_WIDTH -> 0 <= y < PIX_HEIGHT -> 8 * bot_y <= y ->
        pixel_at s' x y = pixel_at pscr x y)
  /\ mCanvasPaper s' = mCanvasPaper pscr /\ mCanvasInk s' = mCanvasInk pscr.
Proof.
  intros Hwf Hzone Hb [Hcx Hcy]. cbv zeta. unfold put_string_step.
  change TEXT_WIDTH with 30 in *. change TEXT_HEIGHT with 40 in *.
  set (s1 := if mCursorY pscr >=? bot_y then _ else pscr).
  assert (H1 : (forall k, 30 * bot_y <= k < TEXT_CHARCOUNT ->
                  rd (mpColorBuffer s1) k = rd (mpColorBuffer pscr) k)
               /\ (forall x y, 0 <= x < PIX_WIDTH -> 0 <= y < PIX_HEIGHT ->
                     8 * bot_y <= y -> pixel_at s1 x y = pixel_at pscr x y)
               /\ mCanvasPaper s1 = mCanvasPaper pscr
               /\ mCanvasInk s1 = mCanvasInk pscr
               /\ 0 <= mCursorX s1 < 30 /\ 0 <= mCursorY s1 < bot_y).
  { unfold s1. destruct (Z.geb_spec (mCursorY pscr) bot_y) as [Hge | Hlt].
    - split; [| split].
      + intros k Hk. cbn [with_cursor mpColorBuffer].
        apply scroll_outside_attr; try done; lia.
      + intros x y Hx Hy Hlow. unfold pixel_at. cbn [with_cursor mpPixBuffer].
        apply scroll_outside_pixel; try done; lia.
      + rewrite scroll_unfold by done. cbn [with_cursor mCanvasPaper mCanvasInk
                                             mCursorX mCursorY].
        rewrite to_int16_small by lia. lia.
    - repeat split; try done; lia. }
  clearbody s1. destruct H1 as (Ha1 & Hp1 & Hcp1 & Hci1 & Hx1 & Hy1).
  destruct ((ch =? 10) || (ch =? 13)); [done |].
  assert (H2 : forall a b,
            let s2 := with_cursor
                        (TftPutChar kFONT_ s1 (mCursorX s1) (mCursorY s1)
                                    paper ink ch) a b in
            (forall k, 30 * bot_y <= k < TEXT_CHARCOUNT ->
               rd (mpColorBuffer s2) k = rd (mpColorBuffer pscr) k)
            /\ (forall x y, 0 <= x < PIX_WIDTH -> 0 <= y < PIX_HEIGHT ->
                  8 * bot_y <= y -> pixel_at s2 x y = pixel_at pscr x y)
            /\ mCanvasPaper s2 = mCanvasPaper pscr
            /\ mCanvasInk s2 = mCanvasInk pscr).
  { intros a b. cbv zeta. split; [| split].
    - intros k Hk. cbn [with_cursor mpColorBuffer].
      rewrite TftPutChar_other_attr by (change TEXT_WIDTH with 30; lia).
      by apply Ha1.
    - intros x y Hx Hy Hlow. unfold pixel_at. cbn [with_cursor mpPixBuffer].
      fold (pixel_at (TftPutChar kFONT_ s1 (mCursorX s1) (mCursorY s1)
                        paper ink ch) x y).
      rewrite TftPutChar_other_pixel; [by apply Hp1 | done | done | done |].
      pose proof (block_row x y Hx ltac:(lia)) as Hrow.
      pose proof (Z.div_le_lower_bound y 8 bot_y ltac:(lia) ltac:(lia)).
      change TEXT_WIDTH with 30. lia.
    - unfold TftPutChar. destruct (_ || _); cbn; done. }
  destruct (_ >=? 30); apply H2.
Qed.

(** [TftPutString] keeps the sizes of the buffers and the cursor in
    bounds, tracks what it changes and stays above row [bot_y]. *)
Lemma TftPutString_inv beyond str top_y bot_y paper ink : forall pscr,
  wf_screen pscr -> 0 <= top_y < bot_y /\ bot_y <= TEXT_HEIGHT ->
  TEXT_WIDTH <= Z.of_nat (length beyond) -> cursor_ok bot_y pscr ->
  let s' := TftPutString kFONT_ beyond pscr str top_y bot_y paper ink in
  wf_screen s' /\ cursor_ok bot_y s'
  /\ (forall k, 30 * bot_y <= k < TEXT_CHARCOUNT ->
        rd (mpColorBuffer s') k = rd (mpColorBuffer pscr) k)
  /\ (forall x y, 0 <= x < PIX_WIDTH -> 0 <= y < PIX_HEIGHT -> 8 * bot_y <= y ->
        pixel_at s' x y = pixel_at pscr x y)
  /\ mCanvasPaper s' = mCanvasPaper pscr /\ mCanvasInk s' = mCanvasInk pscr.
Proof.
  induction str as [| ch str IH]; intros pscr Hwf Hzone Hb Hc; cbv zeta.
  { cbn [TftPutString].
    split; [exact Hwf |]. split; [exact Hc |]. repeat split; done. }
  cbn [TftPutString]. destruct (ch =? 0).
  { split; [exact Hwf |]. split; [exact Hc |]. repeat split; done. }
  destruct (put_string_step_tracked kFONT_ beyond top_y bot_y paper ink pscr ch
              Hwf Hzone Hb Hc) as (Hw1 & Hc1 & _).
  destruct (put_string_step_below beyond top_y bot_y paper ink pscr ch
              Hwf Hzone Hb Hc) as (Ha1 & Hp1 & Hcp1 & Hci1).
  destruct (IH _ Hw1 Hzone Hb Hc1) as (Hw2 & Hc2 & Ha2 & Hp2 & Hcp2 & Hci2).
  split; [exact Hw2 |]. split; [exact Hc2 |].
  split; [intros k Hk; by rewrite Ha2, Ha1 |].
  split; [intros x y Hx Hy Hlow; by rewrite Hp2, Hp1 |].
  split; congruence.
Qed.

(** X9: [TftPutString] stops at the first NUL, and printing a string
    without NUL followed by a second string is printing the first and then
    the second. *)
Theorem TftPutString_app (beyond : list Z) (pscr : screen_control_t)
    (s1 s2 : list Z) (top_y bot_y paper ink : Z) :
  Forall (fun ch => ch <> 0) s1 ->
  TftPutString kFONT_ beyond pscr (s1 ++ s2) top_y bot_y paper ink
  = TftPutString kFONT_ beyond
      (TftPutString kFONT_ beyond pscr s1 top_y bot_y paper ink)
      s2 top_y bot_y paper ink
  /\ TftPutString kFONT_ beyond pscr (s1 ++ 0 :: s2) top_y bot_y paper ink
     = TftPutString kFONT_ beyond pscr s1 top_y bot_y paper ink.
Proof.
  intros Hs1. revert pscr.
  induction Hs1 as [| ch s1 Hch Hs1 IH]; intros pscr.
  { split; [done |]. by destruct s2. }
  cbn [app TftPutString].
  destruct (Z.eqb_spec ch 0); [done |]. apply IH.
Qed.

(** X10: with the scroll zone inside the screen and the cursor inside the
    text area and not below row [bot_y], [TftPutString] keeps the buffers
    at their sizes and the cursor within these bounds; it clears no update
    flag and marks every block whose pixels or colours it changes; and it
    changes nothing in the text rows from [bot_y] on, nor the canvas
    colours. *)
Theorem TftPutString_zone (beyond : list Z) (pscr : screen_control_t)
    (str : list Z) (top_y bot_y paper ink : Z) :
  wf_screen pscr -> 0 <= top_y < bot_y /\ bot_y <= TEXT_HEIGHT ->
  TEXT_WIDTH <= Z.of_nat (length beyond) -> cursor_ok bot_y pscr ->
  let s' := TftPutString kFONT_ beyond pscr str top_y bot_y paper ink in
  wf_screen s' /\ cursor_ok bot_y s'
  /\ (forall k, need_update (mpColorBuffer pscr) k = true ->
                need_update (mpColorBuffer s') k = true)
  /\ dirty_invariant pscr s'
  /\ (forall i j, 0 <= i < TEXT_WIDTH -> bot_y <= j < TEXT_HEIGHT ->
        attr_at s' j i = attr_at pscr j i)
  /\ (forall x y, 0 <= x < PIX_WIDTH -> 0 <= y < PIX_HEIGHT -> 8 * bot_y <= y ->
        pixel_at s' x y = pixel_at pscr x y)
  /\ mCanvasPaper s' = mCanvasPaper pscr /\ mCanvasInk s' = mCanvasInk pscr.
Proof.
  intros Hwf Hzone Hb Hc. cbv zeta.
  destruct (TftPutString_inv beyond str top_y bot_y paper ink pscr
              Hwf Hzone Hb Hc) as (Hw & Hcur & Ha & Hp & Hcp & Hci).
  destruct (TftPutString_tracked kFONT_ beyond str top_y bot_y paper ink pscr
              Hwf Hzone Hb Hc) as [Hkeep Hdirty].
  split; [exact Hw |]. split; [exact Hcur |]. split; [exact Hkeep |].
  split; [exact Hdirty |].
  split; [| split; [exact Hp | split; [exact Hcp | exact Hci]]].
  intros i j Hi Hj. unfold attr_at. apply Ha.
  change TEXT_WIDTH with 30 in *. change TEXT_HEIGHT with 40 in *.
  change TEXT_CHARCOUNT with 1200. lia.
Qed.

End PutString.

(** Two strings printed in a row on the idle demo screen. *)
Lemma TftPutString_app_witness :
  Forall (fun ch => ch <> 0) [72; 105]
  /\ TftPutString (replicate 762 0x81) [] screen_idle ([72; 105] ++ [10; 33])
                  0 8 kBlack kWhite
     = TftPutString (replicate 762 0x81) []
         (TftPutString (replicate 762 0x81) [] screen_idle [72; 105]
                       0 8 kBlack kWhite)
         [10; 33] 0 8 kBlack kWhite.
Proof.
  assert (H : Forall (fun ch => ch <> 0) [72; 105])
    by (repeat constructor; discriminate).
  split; [exact H |].
  apply (TftPutString_app (replicate 762 0x81) [] screen_idle
           [72; 105] [10; 33] 0 8 kBlack kWhite H).
Defined.

(** The demo's zone, rows [0, 8), with the cursor at the origin. *)
Lemma TftPutString_zone_witness :
  wf_screen screen_idle /\ (0 <= 0 < 8 /\ 8 <= TEXT_HEIGHT)
  /\ TEXT_WIDTH <= Z.of_nat (length (replicate 30 0))
  /\ cursor_ok 8 screen_idle
  /\ cursor_ok 8 (TftPutString (replicate 762 0x81) (replicate 30 0)
                    screen_idle [72; 105; 10] 0 8 kBlack kWhite).
Proof.
  assert (Hwf : wf_screen screen_idle) by (split; reflexivity).
  assert (Hz : 0 <= 0 < 8 /\ 8 <= TEXT_HEIGHT)
    by (change TEXT_HEIGHT with 40; lia).
  assert (Hb : TEXT_WIDTH <= Z.of_nat (length (replicate 30 0)))
    by (vm_compute; discriminate).
  assert (Hc : cursor_ok 8 screen_idle)
    by (vm_compute; intuition discriminate).
  split; [exact Hwf |]. split; [exact Hz |]. split; [exact Hb |].
  split; [exact Hc |].
  apply (TftPutString_zone (replicate 762 0x81) (replicate 30 0) screen_idle
           [72; 105; 10] 0 8 kBlack kWhite Hwf Hz Hb Hc).
Defined.

(** ** Lines *)

Section LoopFrame.

(** Setting a bit never clears one. *)
Lemma GET_SET_mono p n n' :
  GET_DATA_BIT p n' = 1 -> GET_DATA_BIT (SET_DATA_BIT p n) n' = 1.
Proof.
  intros H. destruct (Z.eq_dec n n') as [-> | Hne];
    [| by rewrite GET_SET_other].
  apply GET_SET_same.
  destruct (Z_lt_dec (Z.shiftr n' 5) 0) as [Hneg | Hpos].
  { rewrite GET_DATA_BIT_zero in H; [done | apply rd_negative; lia]. }
  destruct (Z_lt_dec (Z.shiftr n' 5) (Z.of_nat (length p))); [lia |].
  rewrite GET_DATA_BIT_zero in H; [done | apply rd_outside; lia].
Qed.

(** Marking a block keeps the colours of every block. *)
Lemma mark_colors cb k k' :
  ink_of (rd (wr cb k (Z.lor (rd cb k) (Z.shiftl 1 6))) k') = ink_of (rd cb k')
  /\ paper_of (rd (wr cb k (Z.lor (rd cb k) (Z.shiftl 1 6))) k')
     = paper_of (rd cb k').
Proof.
  rewrite rd_wr. destruct (_ && _ && _) eqn:E; [| done].
  apply andb_true_iff in E as [E _]. apply andb_true_iff in E as [E _].
  apply Z.eqb_eq in E. subst k'. by rewrite ink_of_mark, paper_of_mark.
Qed.

(** The line loop only sets pixels and only marks blocks. *)
Lemma put_line_loop_frame cnt : forall pscr x0 y0 x1 y1 sx sy dx dy err,
  let s' := put_line_loop cnt pscr x0 y0 x1 y1 sx sy dx dy err in
  (forall n, GET_DATA_BIT (mpPixBuffer pscr) n = 1 ->
             GET_DATA_BIT (mpPixBuffer s') n = 1)
  /\ (forall k, ink_of (rd (mpColorBuffer s') k)
                = ink_of (rd (mpColorBuffer pscr) k)
                /\ paper_of (rd (mpColorBuffer s') k)
                   = paper_of (rd (mpColorBuffer pscr) k))
  /\ mCursorX s' = mCursorX pscr /\ mCursorY s' = mCursorY pscr
  /\ mCanvasPaper s' = mCanvasPaper pscr /\ mCanvasInk s' = mCanvasInk pscr.
Proof.
  induction cnt as [| cnt IH]; intros pscr x0 y0 x1 y1 sx sy dx dy err; cbv zeta.
  { cbn [put_line_loop]. repeat split; done. }
  cbn [put_line_loop].
  set (s1 := with_color (with_pix pscr _) _).
  assert (H1 : (forall n, GET_DATA_BIT (mpPixBuffer pscr) n = 1 ->
                          GET_DATA_BIT (mpPixBuffer s1) n = 1)
               /\ (forall k, ink_of (rd (mpColorBuffer s1) k)
                             = ink_of (rd (mpColorBuffer pscr) k)
                             /\ paper_of (rd (mpColorBuffer s1) k)
                                = paper_of (rd (mpColorBuffer pscr) k))
               /\ mCursorX s1 = mCursorX pscr /\ mCursorY s1 = mCursorY pscr
               /\ mCanvasPaper s1 = mCanvasPaper pscr
               /\ mCanvasInk s1 = mCanvasInk pscr).
  { unfold s1. cbn [with_color with_pix mpPixBuffer mpColorBuffer mCursorX
                    mCursorY mCanvasPaper mCanvasInk].
    split; [intros n; apply GET_SET_mono |].
    split; [intros k; apply mark_colors | done]. }
  clearbody s1. destruct H1 as (Hm1 & Hc1 & Hx1 & Hy1 & Hp1 & Hi1).
  destruct ((x0 =? x1) && (y0 =? y1));
    [exact (conj Hm1 (conj Hc1 (conj Hx1 (conj Hy1 (conj Hp1 Hi1))))) |].
  destruct (err >? - dx); destruct (err <? dy);
    match goal with
    | |- context [put_line_loop cnt s1 ?a ?b ?c ?d ?e ?f ?g ?h ?i] =>
        destruct (IH s1 a b c d e f g h i) as (Hm2 & Hc2 & Hx2 & Hy2 & Hp2 & Hi2)
    end;
    (split; [intros n Hn; by apply Hm2, Hm1 |];
     split; [intros k; destruct (Hc2 k) as [-> ->]; apply Hc1 |];
     repeat split; congruence).
Qed.

End LoopFrame.

Section LineDrawn.

Variables (x1 y1 sx sy dx dy err0 : Z).
Hypothesis Hsx : sx = 1 \/ sx = -1.
Hypothesis Hsy : sy = 1 \/ sy = -1.
Hypothesis Hdx : 0 <= dx.
Hypothesis Hdy : 0 <= dy.
Hypothesis Hbx : forall x, 0 <= sx * (x1 - x) <= dx -> 0 <= x < PIX_WIDTH.
Hypothesis Hby : forall y, 0 <= sy * (y1 - y) <= dy -> 0 <= y < PIX_HEIGHT.
Hypothesis Herr0 :
  (dy < dx -> 0 <= err0 < dx) /\ (dx <= dy -> - dy < err0 <= 0 \/ dy = 0).

Let inv := line_inv x1 y1 sx sy dx dy err0.

(** The distance still to go along the driving axis. *)
Let togo (x0 y0 : Z) : Z :=
  if dy <? dx then sx * (x1 - x0) else sy * (y1 - y0).

Lemma line_end x0 y0 err :
  inv x0 y0 err -> togo x0 y0 = 0 -> x0 = x1 /\ y0 = y1.
Proof.
  unfold inv, line_inv, togo. cbv zeta.
  intros (Hrx & Hry & He & Hmaj & Hmin) Ht.
  destruct Herr0 as [Hmaj0 Hmin0].
  destruct (Z.ltb_spec dy dx) as [Hx | Hy].
  - specialize (Hmaj Hx). specialize (Hmaj0 Hx).
    assert (sy * (y1 - y0) = 0) by nia. split; nia.
  - destruct (Z.eq_dec dy 0) as [E0 | N0]; [split; nia |].
    destruct (Hmin ltac:(lia)) as [He1 | ?]; [| lia].
    destruct (Hmin0 ltac:(lia)) as [He0 | ?]; [| lia].
    assert (sx * (x1 - x0) = 0) by nia. split; nia.
Qed.

Lemma togo_range x0 y0 err : inv x0 y0 err -> 0 <= togo x0 y0.
Proof.
  unfold inv, line_inv, togo. cbv zeta. intros (Hrx & Hry & _).
  destruct (dy <? dx); lia.
Qed.

(** One round away from the end point moves one step along the driving
    axis. *)
Lemma line_next x0 y0 err :
  inv x0 y0 err -> ~ (x0 = x1 /\ y0 = y1) ->
  let e2 := err in
  let '(err', x0') := if e2 >? - dx then (err - dy, x0 + sx) else (err, x0) in
  let '(err'', y0') := if e2 <? dy then (err' + dx, y0 + sy) else (err', y0) in
  inv x0' y0' err'' /\ togo x0' y0' = togo x0 y0 - 1.
Proof.
  intros Hinv Hgo.
  pose proof (line_step x1 y1 sx sy dx dy err0 Hsx Hsy Hdx Hdy Herr0
                x0 y0 err Hinv Hgo) as Hstep.
  cbv zeta in *.
  unfold inv, line_inv, togo in *. cbv zeta in *.
  destruct Hinv as (Hrx & Hry & He & Hmaj & Hmin).
  destruct Herr0 as [Hmaj0 Hmin0].
  assert (Hnz : sx * (x1 - x0) <> 0 \/ sy * (y1 - y0) <> 0).
  { destruct (Z.eq_dec x0 x1) as [-> | Hx];
      [| left; clear - Hsx Hx; destruct Hsx as [-> | ->]; lia].
    destruct (Z.eq_dec y0 y1) as [-> | Hy];
      [tauto | right; clear - Hsy Hy; destruct Hsy as [-> | ->]; lia]. }
  assert (Ex : sx * (x1 - (x0 + sx)) = sx * (x1 - x0) - 1)
    by (clear - Hsx; destruct Hsx as [-> | ->]; lia).
  assert (Ey : sy * (y1 - (y0 + sy)) = sy * (y1 - y0) - 1)
    by (clear - Hsy; destruct Hsy as [-> | ->]; lia).
  destruct (Z.ltb_spec dy dx) as [Hx | Hy].
  - specialize (Hmaj Hx).
    destruct (Z.gtb_spec err (- dx)) as [Hgt | Hle];
      [| exfalso; clear - Hmaj Hdx Hle; lia].
    destruct (Z.ltb_spec err dy); (split; [exact Hstep | exact Ex]).
  - destruct (Z.eq_dec dy 0) as [E0 | N0];
      [exfalso; clear - Hrx Hry Hnz Hdx Hy E0; lia |].
    destruct (Hmin Hy) as [He1 | ?]; [| lia].
    destruct (Z.ltb_spec err dy) as [Hlt | Hge];
      [| exfalso; clear - He1 Hge; lia].
    destruct (Z.gtb_spec err (- dx)); (split; [exact Hstep | exact Ey]).
Qed.

(** Every distance from the end point, from that of the current point
    down to 0, is that of a point of the line whose pixel the loop sets. *)
Lemma put_line_loop_visits cnt : forall pscr x0 y0 err t,
  wf_screen pscr -> inv x0 y0 err -> togo x0 y0 < Z.of_nat cnt ->
  0 <= t <= togo x0 y0 ->
  exists x y e,
    inv x y e /\ togo x y = t
    /\ pixel_at (put_line_loop cnt pscr x0 y0 x1 y1 sx sy dx dy err) x y = 1.
Proof.
  induction cnt as [| cnt IH]; intros pscr x0 y0 err t Hwf Hinv Hcnt Ht.
  { pose proof (togo_range x0 y0 err Hinv). lia. }
  assert (Hpt : 0 <= x0 < PIX_WIDTH /\ 0 <= y0 < PIX_HEIGHT).
  { destruct Hinv as (Hrx & Hry & _). split; [by apply Hbx | by apply Hby]. }
  destruct Hpt as [Hx0 Hy0].
  assert (Hset : GET_DATA_BIT
                   (SET_DATA_BIT (mpPixBuffer pscr) (x0 + y0 * PIX_WIDTH))
                   (x0 + y0 * PIX_WIDTH) = 1).
  { apply GET_SET_same. destruct Hwf as [Hp _]. rewrite Hp.
    pose proof (pixel_word x0 y0 Hx0 ltac:(lia)) as Hw.
    change PIX_HEIGHT with 320 in Hy0.
    change (Z.to_nat PIX_W32COUNT) with 2400%nat.
    pose proof (Z.div_mod y0 8 ltac:(lia)).
    pose proof (Z.mod_pos_bound y0 8 ltac:(lia)). lia. }
  destruct (tracked_pixel_step (mpPixBuffer pscr) (mpColorBuffer pscr)
              (SET_DATA_BIT (mpPixBuffer pscr) (x0 + y0 * PIX_WIDTH)) x0 y0
              Hwf Hx0 Hy0 ltac:(by left)) as [Hw1 _].
  destruct (Z.eq_dec t (togo x0 y0)) as [-> | Hlt].
  - (* the current point *)
    exists x0, y0, err. split; [exact Hinv |]. split; [done |].
    unfold pixel_at. cbn [put_line_loop].
    set (s1 := with_color (with_pix pscr _) _).
    assert (Hs1 : GET_DATA_BIT (mpPixBuffer s1) (x0 + y0 * PIX_WIDTH) = 1)
      by exact Hset.
    clearbody s1.
    destruct ((x0 =? x1) && (y0 =? y1)); [exact Hs1 |].
    destruct (err >? - dx); destruct (err <? dy);
      by apply put_line_loop_frame.
  - (* a point further on *)
    assert (Hgo : ~ (x0 = x1 /\ y0 = y1)).
    { intros [-> ->]. unfold togo in *. rewrite !Z.sub_diag, !Z.mul_0_r in *.
      destruct (dy <? dx); lia. }
    pose proof (line_next x0 y0 err Hinv Hgo) as Hnext. cbv zeta in Hnext.
    cbn [put_line_loop]. fold (block_of x0 y0).
    set (s1 := with_color (with_pix pscr _) _) in *.
    assert (Hws1 : wf_screen s1) by exact Hw1. clearbody s1.
    destruct (Z.eqb_spec x0 x1) as [Ex | Nx];
      [destruct (Z.eqb_spec y0 y1) as [Ey | Ny]; [tauto |] |]; cbn [andb].
    + destruct (err >? - dx); destruct (err <? dy);
        destruct Hnext as [Hinv' Hm']; apply IH; (done || lia).
    + destruct (err >? - dx); destruct (err <? dy);
        destruct Hnext as [Hinv' Hm']; apply IH; (done || lia).
Qed.

(** A pixel the loop changes is a point between the current point and the
    end point. *)
Lemma put_line_loop_box cnt : forall pscr x0 y0 err n,
  inv x0 y0 err ->
  GET_DATA_BIT (mpPixBuffer (put_line_loop cnt pscr x0 y0 x1 y1 sx sy dx dy err)) n
  <> GET_DATA_BIT (mpPixBuffer pscr) n ->
  exists x y, n = x + y * PIX_WIDTH
              /\ 0 <= sx * (x1 - x) <= dx /\ 0 <= sy * (y1 - y) <= dy.
Proof.
  induction cnt as [| cnt IH]; intros pscr x0 y0 err n Hinv Hdiff.
  { by destruct Hdiff. }
  cbn [put_line_loop] in Hdiff.
  destruct (Z.eq_dec n (x0 + y0 * PIX_WIDTH)) as [-> | Hne].
  { exists x0, y0. destruct Hinv as (Hrx & Hry & _). done. }
  set (s1 := with_color (with_pix pscr _) _) in *.
  assert (Hs1 : GET_DATA_BIT (mpPixBuffer s1) n = GET_DATA_BIT (mpPixBuffer pscr) n).
  { unfold s1. cbn [with_color with_pix mpPixBuffer].
    apply GET_SET_other. congruence. }
  clearbody s1. rewrite <- Hs1 in Hdiff.
  destruct (Z.eqb_spec x0 x1) as [Ex | Nx];
    [destruct (Z.eqb_spec y0 y1) as [Ey | Ny] |]; cbn [andb] in Hdiff;
    [by destruct Hdiff | |].
  - pose proof (line_next x0 y0 err Hinv ltac:(tauto)) as Hnext.
    cbv zeta in Hnext.
    destruct (err >? - dx); destruct (err <? dy);
      destruct Hnext as [Hinv' _]; by eapply IH.
  - pose proof (line_next x0 y0 err Hinv ltac:(tauto)) as Hnext.
    cbv zeta in Hnext.
    destruct (err >? - dx); destruct (err <? dy);
      destruct Hnext as [Hinv' _]; by eapply IH.
Qed.

End LineDrawn.

Section PutLine.

Lemma pixel_word_inside pscr x y :
  wf_screen pscr -> 0 <= x < PIX_WIDTH -> 0 <= y < PIX_HEIGHT ->
  0 <= Z.shiftr (x + y * PIX_WIDTH) 5 < Z.of_nat (length (mpPixBuffer pscr)).
Proof.
  intros [Hp _] Hx Hy. rewrite Hp.
  pose proof (pixel_word x y Hx ltac:(lia)) as Hw.
  change PIX_HEIGHT with 320 in Hy.
  change (Z.to_nat PIX_W32COUNT) with 2400%nat.
  pose proof (Z.div_mod y 8 ltac:(lia)).
  pose proof (Z.mod_pos_bound y 8 ltac:(lia)). lia.
Qed.

(** The first round sets the pixel of the starting point. *)
Lemma put_line_loop_start cnt pscr x0 y0 x1 y1 sx sy dx dy err :
  wf_screen pscr -> 0 <= x0 < PIX_WIDTH -> 0 <= y0 < PIX_HEIGHT ->
  pixel_at (put_line_loop (S cnt) pscr x0 y0 x1 y1 sx sy dx dy err) x0 y0 = 1.
Proof.
  intros Hwf Hx Hy. unfold pixel_at. cbn [put_line_loop].
  set (s1 := with_color (with_pix pscr _) _).
  assert (Hs1 : GET_DATA_BIT (mpPixBuffer s1) (x0 + y0 * PIX_WIDTH) = 1).
  { unfold s1. cbn [with_color with_pix mpPixBuffer].
    apply GET_SET_same. by apply pixel_word_inside. }
  clearbody s1.
  destruct ((x0 =? x1) && (y0 =? y1)); [exact Hs1 |].
  destruct (err >? - dx); destruct (err <? dy); by apply put_line_loop_frame.
Qed.

(** [TftPutLine] between two points of the plane: the loop it runs, with
    the steps, the distances and the initial error term. *)
Lemma TftPutLine_setup x0 y0 x1 y1 :
  0 <= x0 < PIX_WIDTH -> 0 <= y0 < PIX_HEIGHT ->
  0 <= x1 < PIX_WIDTH -> 0 <= y1 < PIX_HEIGHT ->
  exists sx sy dx dy err0,
    (forall pscr, TftPutLine pscr x0 y0 x1 y1
                  = put_line_loop 1000 pscr x0 y0 x1 y1 sx sy dx dy err0)
    /\ ((sx = 1 /\ dx = x1 - x0 /\ x0 < x1)
        \/ (sx = -1 /\ dx = x0 - x1 /\ x1 <= x0))
    /\ ((sy = 1 /\ dy = y1 - y0 /\ y0 < y1)
        \/ (sy = -1 /\ dy = y0 - y1 /\ y1 <= y0))
    /\ ((dy < dx -> 0 <= err0 < dx)
        /\ (dx <= dy -> - dy < err0 <= 0 \/ dy = 0))
    /\ line_inv x1 y1 sx sy dx dy err0 x0 y0 err0.
Proof.
  intros Hx0 Hy0 Hx1 Hy1.
  change PIX_WIDTH with 240 in *. change PIX_HEIGHT with 320 in *.
  exists (if x0 <? x1 then 1 else -1), (if y0 <? y1 then 1 else -1),
         (if x1 >? x0 then x1 - x0 else x0 - x1),
         (if y1 >? y0 then y1 - y0 else y0 - y1).
  set (sx := if x0 <? x1 then 1 else -1).
  set (sy := if y0 <? y1 then 1 else -1).
  set (dx := if x1 >? x0 then x1 - x0 else x0 - x1).
  set (dy := if y1 >? y0 then y1 - y0 else y0 - y1).
  exists (Z.quot (if dx >? dy then dx else - dy) 2).
  set (err0 := Z.quot (if dx >? dy then dx else - dy) 2).
  assert (Hsx : (sx = 1 /\ dx = x1 - x0 /\ x0 < x1)
                \/ (sx = -1 /\ dx = x0 - x1 /\ x1 <= x0)).
  { unfold sx, dx. destruct (Z.ltb_spec x0 x1); destruct (Z.gtb_spec x1 x0); lia. }
  assert (Hsy : (sy = 1 /\ dy = y1 - y0 /\ y0 < y1)
                \/ (sy = -1 /\ dy = y0 - y1 /\ y1 <= y0)).
  { unfold sy, dy. destruct (Z.ltb_spec y0 y1); destruct (Z.gtb_spec y1 y0); lia. }
  assert (Herr0 : (dy < dx -> 0 <= err0 < dx)
                  /\ (dx <= dy -> - dy < err0 <= 0 \/ dy = 0)).
  { unfold err0. destruct (Z.gtb_spec dx dy).
    - split; [| lia]. intros _.
      rewrite Z.quot_div_nonneg by lia.
      pose proof (Z.div_mod dx 2 ltac:(lia)).
      pose proof (Z.mod_pos_bound dx 2 ltac:(lia)). lia.
    - split; [lia |]. intros _.
      destruct (Z.eq_dec dy 0); [by right | left].
      rewrite Z.quot_opp_l, Z.quot_div_nonneg by lia.
      pose proof (Z.div_mod dy 2 ltac:(lia)).
      pose proof (Z.mod_pos_bound dy 2 ltac:(lia)). lia. }
  split.
  { intros pscr. unfold TftPutLine.
    change PIX_WIDTH with 240. change PIX_HEIGHT with 320.
    destruct (Z.ltb_spec x0 0); [lia |]. destruct (Z.ltb_spec y0 0); [lia |].
    destruct (Z.ltb_spec x1 0); [lia |]. destruct (Z.ltb_spec y1 0); [lia |].
    cbn [orb].
    destruct (Z.gtb_spec x0 240); [lia |]. destruct (Z.gtb_spec y0 320); [lia |].
    destruct (Z.gtb_spec x1 240); [lia |]. destruct (Z.gtb_spec y1 320); [lia |].
    done. }
  split; [exact Hsx |]. split; [exact Hsy |]. split; [exact Herr0 |].
  clearbody sx sy dx dy err0. destruct Herr0 as [Hmaj Hmin].
  unfold line_inv. cbv zeta.
  split; [nia |]. split; [nia |]. split; [nia |]. split; [exact Hmaj | exact Hmin].
Qed.

(** Both end points of a line between two points of the plane are set. *)
Lemma TftPutLine_ends pscr x0 y0 x1 y1 :
  wf_screen pscr ->
  0 <= x0 < PIX_WIDTH -> 0 <= y0 < PIX_HEIGHT ->
  0 <= x1 < PIX_WIDTH -> 0 <= y1 < PIX_HEIGHT ->
  pixel_at (TftPutLine pscr x0 y0 x1 y1) x0 y0 = 1
  /\ pixel_at (TftPutLine pscr x0 y0 x1 y1) x1 y1 = 1.
Proof.
  intros Hwf Hx0 Hy0 Hx1 Hy1.
  destruct (TftPutLine_setup x0 y0 x1 y1 Hx0 Hy0 Hx1 Hy1)
    as (sx & sy & dx & dy & err0 & Hrun & Hsx & Hsy & Herr0 & Hinv).
  rewrite Hrun.
  assert (Hbx : forall x, 0 <= sx * (x1 - x) <= dx -> 0 <= x < PIX_WIDTH)
    by (intros x Hr; change PIX_WIDTH with 240 in *; nia).
  assert (Hby : forall y, 0 <= sy * (y1 - y) <= dy -> 0 <= y < PIX_HEIGHT)
    by (intros y Hr; change PIX_HEIGHT with 320 in *; nia).
  assert (Hcnt : (if dy <? dx then sx * (x1 - x0) else sy * (y1 - y0)) < 1000).
  { change PIX_WIDTH with 240 in *. change PIX_HEIGHT with 320 in *.
    destruct (dy <? dx); nia. }
  split; [by apply put_line_loop_start |].
  destruct (put_line_loop_visits x1 y1 sx sy dx dy err0
              ltac:(lia) ltac:(lia) ltac:(lia) ltac:(lia) Hbx Hby Herr0
              1000 pscr x0 y0 err0 0 Hwf Hinv Hcnt)
    as (x & y & e & Hi & Ht & Hset).
  { destruct (dy <? dx); nia. }
  assert (Hend : x = x1 /\ y = y1).
  { apply (line_end x1 y1 sx sy dx dy err0) with (err := e);
      (exact Herr0 || exact Hi || exact Ht || lia). }
  destruct Hend as [-> ->]. exact Hset.
Qed.

End PutLine.

(** X11: [TftPutLine] between two points of the plane sets the pixels of
    both end points, and the line has no gap: when it is wider than high,
    every column between the end points has a pixel set in a row between
    them, and otherwise every row has one in a column between them.  So a
    horizontal or vertical line sets every pixel from one end to the
    other. *)
Theorem TftPutLine_drawn (pscr : screen_control_t) (x0 y0 x1 y1 : Z) :
  wf_screen pscr ->
  0 <= x0 < PIX_WIDTH -> 0 <= y0 < PIX_HEIGHT ->
  0 <= x1 < PIX_WIDTH -> 0 <= y1 < PIX_HEIGHT ->
  let s' := TftPutLine pscr x0 y0 x1 y1 in
  pixel_at s' x0 y0 = 1 /\ pixel_at s' x1 y1 = 1
  /\ (Z.abs (y1 - y0) < Z.abs (x1 - x0) ->
      forall x, Z.min x0 x1 <= x <= Z.max x0 x1 ->
        exists y, Z.min y0 y1 <= y <= Z.max y0 y1 /\ pixel_at s' x y = 1)
  /\ (Z.abs (x1 - x0) <= Z.abs (y1 - y0) ->
      forall y, Z.min y0 y1 <= y <= Z.max y0 y1 ->
        exists x, Z.min x0 x1 <= x <= Z.max x0 x1 /\ pixel_at s' x y = 1).
Proof.
  intros Hwf Hx0 Hy0 Hx1 Hy1. cbv zeta.
  destruct (TftPutLine_setup x0 y0 x1 y1 Hx0 Hy0 Hx1 Hy1)
    as (sx & sy & dx & dy & err0 & Hrun & Hsx & Hsy & Herr0 & Hinv).
  rewrite Hrun.
  assert (Hbx : forall x, 0 <= sx * (x1 - x) <= dx -> 0 <= x < PIX_WIDTH)
    by (intros x Hr; change PIX_WIDTH with 240 in *; nia).
  assert (Hby : forall y, 0 <= sy * (y1 - y) <= dy -> 0 <= y < PIX_HEIGHT)
    by (intros y Hr; change PIX_HEIGHT with 320 in *; nia).
  assert (Hcnt : (if dy <? dx then sx * (x1 - x0) else sy * (y1 - y0)) < 1000).
  { change PIX_WIDTH with 240 in *. change PIX_HEIGHT with 320 in *.
    destruct (dy <? dx); nia. }
  pose proof (put_line_loop_visits x1 y1 sx sy dx dy err0
                ltac:(lia) ltac:(lia) ltac:(lia) ltac:(lia) Hbx Hby Herr0
                1000 pscr x0 y0 err0) as Hvis.
  rewrite <- Hrun.
  destruct (TftPutLine_ends pscr x0 y0 x1 y1 Hwf Hx0 Hy0 Hx1 Hy1) as [Hs He].
  split; [exact Hs |]. split; [exact He |]. rewrite Hrun. split.
  - intros Hwide x Hx.
    destruct (Z.ltb_spec dy dx) as [Hd | Hd]; [| lia].
    destruct (Hvis (sx * (x1 - x)) Hwf Hinv Hcnt) as (x' & y & e & Hi & Ht & Hset);
      [nia |].
    exists y. destruct Hi as (Hrx & Hry & _).
    assert (x' = x) by nia. subst x'. split; [nia | exact Hset].
  - intros Hhigh y Hy.
    destruct (Z.ltb_spec dy dx) as [Hd | Hd]; [lia |].
    destruct (Hvis (sy * (y1 - y)) Hwf Hinv Hcnt) as (x & y' & e & Hi & Ht & Hset);
      [nia |].
    exists x. destruct Hi as (Hrx & Hry & _).
    assert (y' = y) by nia. subst y'. split; [nia | exact Hset].
Qed.

(** X12: [TftPutLine] between two points of the plane only sets pixels,
    and only inside the rectangle spanned by the end points; it changes no
    ink and no paper, clears no update flag, marks every block it draws
    in, and leaves buffer sizes, cursor and canvas colours as they were. *)
Theorem TftPutLine_frame (pscr : screen_control_t) (x0 y0 x1 y1 : Z) :
  wf_screen pscr ->
  0 <= x0 < PIX_WIDTH -> 0 <= y0 < PIX_HEIGHT ->
  0 <= x1 < PIX_WIDTH -> 0 <= y1 < PIX_HEIGHT ->
  let s' := TftPutLine pscr x0 y0 x1 y1 in
  (forall x y, pixel_at pscr x y = 1 -> pixel_at s' x y = 1)
  /\ (forall x y, 0 <= x < PIX_WIDTH -> 0 <= y < PIX_HEIGHT ->
        pixel_at s' x y <> pixel_at pscr x y ->
        Z.min x0 x1 <= x <= Z.max x0 x1 /\ Z.min y0 y1 <= y <= Z.max y0 y1)
  /\ (forall k, ink_of (rd (mpColorBuffer s') k)
                = ink_of (rd (mpColorBuffer pscr) k)
                /\ paper_of (rd (mpColorBuffer s') k)
                   = paper_of (rd (mpColorBuffer pscr) k))
  /\ (forall k, need_update (mpColorBuffer pscr) k = true ->
                need_update (mpColorBuffer s') k = true)
  /\ dirty_invariant pscr s'
  /\ wf_screen s'
  /\ mCursorX s' = mCursorX pscr /\ mCursorY s' = mCursorY pscr
  /\ mCanvasPaper s' = mCanvasPaper pscr /\ mCanvasInk s' = mCanvasInk pscr.
Proof.
  intros Hwf Hx0 Hy0 Hx1 Hy1. cbv zeta.
  destruct (TftPutLine_tracked pscr x0 y0 x1 y1 Hwf Hx0 Hy0 Hx1 Hy1)
    as [Hkeep Hdirty].
  destruct (TftPutLine_setup x0 y0 x1 y1 Hx0 Hy0 Hx1 Hy1)
    as (sx & sy & dx & dy & err0 & Hrun & Hsx & Hsy & Herr0 & Hinv).
  rewrite Hrun in *.
  assert (Hbx : forall x, 0 <= sx * (x1 - x) <= dx -> 0 <= x < PIX_WIDTH)
    by (intros x Hr; change PIX_WIDTH with 240 in *; nia).
  assert (Hby : forall y, 0 <= sy * (y1 - y) <= dy -> 0 <= y < PIX_HEIGHT)
    by (intros y Hr; change PIX_HEIGHT with 320 in *; nia).
  destruct (put_line_loop_frame 1000 pscr x0 y0 x1 y1 sx sy dx dy err0)
    as (Hmono & Hcol & Hcx & Hcy & Hcp & Hci).
  destruct (put_line_loop_tracked x1 y1 sx sy dx dy err0
              ltac:(lia) ltac:(lia) ltac:(lia) ltac:(lia) Hbx Hby Herr0
              1000 pscr x0 y0 err0 Hwf Hinv) as [Hwf' _].
  split; [intros x y; apply Hmono |].
  split.
  { intros x y Hx Hy Hdiff.
    destruct (put_line_loop_box x1 y1 sx sy dx dy err0
                ltac:(lia) ltac:(lia) ltac:(lia) ltac:(lia) Herr0
                1000 pscr x0 y0 err0 (x + y * PIX_WIDTH) Hinv Hdiff)
      as (x' & y' & E & Hrx & Hry).
    apply pixel_index_inj in E as [-> ->]; [| done | by apply Hbx].
    split; nia. }
  split; [exact Hcol |]. split; [exact Hkeep |]. split; [exact Hdirty |].
  split; [exact Hwf' |]. done.
Qed.

(** The diagonal of the demo screen's top left block, and a horizontal
    line. *)
Lemma TftPutLine_drawn_witness :
  wf_screen screen_idle
  /\ pixel_at (TftPutLine screen_idle 0 0 7 7) 7 7 = 1
  /\ exists y, Z.min 5 5 <= y <= Z.max 5 5
               /\ pixel_at (TftPutLine screen_idle 3 5 200 5) 100 y = 1.
Proof.
  assert (Hwf : wf_screen screen_idle) by (split; reflexivity).
  split; [exact Hwf |].
  assert (Hx : forall v, 0 <= v < 240 -> 0 <= v < PIX_WIDTH) by (intros v H; exact H).
  assert (Hy : forall v, 0 <= v < 320 -> 0 <= v < PIX_HEIGHT) by (intros v H; exact H).
  destruct (TftPutLine_drawn screen_idle 0 0 7 7 Hwf
              (Hx 0 ltac:(lia)) (Hy 0 ltac:(lia)) (Hx 7 ltac:(lia)) (Hy 7 ltac:(lia)))
    as (_ & Hend & _).
  split; [exact Hend |].
  destruct (TftPutLine_drawn screen_idle 3 5 200 5 Hwf
              (Hx 3 ltac:(lia)) (Hy 5 ltac:(lia)) (Hx 200 ltac:(lia)) (Hy 5 ltac:(lia)))
    as (_ & _ & Hwide & _).
  apply Hwide; lia.
Defined.

Lemma TftPutLine_frame_witness :
  wf_screen screen_idle
  /\ forall k, ink_of (rd (mpColorBuffer (TftPutLine screen_idle 0 0 7 7)) k)
               = ink_of (rd (mpColorBuffer screen_idle) k)
               /\ paper_of (rd (mpColorBuffer (TftPutLine screen_idle 0 0 7 7)) k)
                  = paper_of (rd (mpColorBuffer screen_idle) k).
Proof.
  assert (Hwf : wf_screen screen_idle) by (split; reflexivity).
  split; [exact Hwf |].
  assert (Hx : forall v, 0 <= v < 240 -> 0 <= v < PIX_WIDTH) by (intros v H; exact H).
  assert (Hy : forall v, 0 <= v < 320 -> 0 <= v < PIX_HEIGHT) by (intros v H; exact H).
  destruct (TftPutLine_frame screen_idle 0 0 7 7 Hwf
              (Hx 0 ltac:(lia)) (Hy 0 ltac:(lia)) (Hx 7 ltac:(lia)) (Hy 7 ltac:(lia)))
    as (_ & _ & Hcol & _).
  exact Hcol.
Defined.

(** ** Labels *)

Section Label.

Variable kFONT_ : list Z.

(** What one glyph of a label keeps: the pixels that are set, unless it
    overwrites, and the colours of every block. *)
Lemma put_label_glyph_frame over chr x_pix y_pix pscr :
  let s' := put_label_glyph kFONT_ over chr x_pix y_pix pscr in
  (over = false ->
   forall n, GET_DATA_BIT (mpPixBuffer pscr) n = 1 ->
             GET_DATA_BIT (mpPixBuffer s') n = 1)
  /\ (forall k, ink_of (rd (mpColorBuffer s') k)
                = ink_of (rd (mpColorBuffer pscr) k)
                /\ paper_of (rd (mpColorBuffer s') k)
                   = paper_of (rd (mpColorBuffer pscr) k))
  /\ mCursorX s' = mCursorX pscr /\ mCursorY s' = mCursorY pscr
  /\ mCanvasPaper s' = mCanvasPaper pscr /\ mCanvasInk s' = mCanvasInk pscr.
Proof.
  cbv zeta. unfold put_label_glyph.
  match goal with
  | |- context [for_all ?f ?js (?p, ?c)] =>
      pose proof (for_all_ind
        (fun st : list Z * list Z =>
           (over = false ->
            forall n, GET_DATA_BIT (mpPixBuffer pscr) n = 1 ->
                      GET_DATA_BIT (fst st) n = 1)
           /\ (forall k, ink_of (rd (snd st) k)
                         = ink_of (rd (mpColorBuffer pscr) k)
                         /\ paper_of (rd (snd st) k)
                            = paper_of (rd (mpColorBuffer pscr) k)))
        f js (p, c)) as Hloop
  end.
  cbv beta in Hloop.
  match type of Hloop with
  | ?A -> ?B -> _ => assert (HA : A); [| assert (HB : B)]
  end.
  - cbn [fst snd]. split; [by intros _ n Hn | by intros k].
  - intros j st Hst. apply for_all_ind; [exact Hst |].
    intros i [pix cb] [Hpix Hcol]. cbn [fst snd] in *. split.
    + intros Hover n Hn. specialize (Hpix Hover n Hn).
      destruct (glyph_bit _ _ _ _); [by apply GET_SET_mono |].
      by rewrite Hover.
    + intros k.
      pose proof (mark_colors cb
                    (Z.shiftr (x_pix + i) 3
                     + TEXT_WIDTH * Z.shiftr (y_pix + j) 3) k) as [-> ->].
      apply Hcol.
  - specialize (Hloop HA HB).
    destruct (for_all _ _ _) as [pix cb]. cbn [fst snd] in Hloop.
    cbn [mpPixBuffer mpColorBuffer mCursorX mCursorY mCanvasPaper mCanvasInk].
    destruct Hloop as [Hpix Hcol]. split; [exact Hpix |]. split; [exact Hcol |].
    done.
Qed.

Lemma put_label_loop_frame over y_pix pstr : forall max_len x_pix pscr,
  let s' := put_label_loop kFONT_ over pstr max_len x_pix y_pix pscr in
  (over = false ->
   forall n, GET_DATA_BIT (mpPixBuffer pscr) n = 1 ->
             GET_DATA_BIT (mpPixBuffer s') n = 1)
  /\ (forall k, ink_of (rd (mpColorBuffer s') k)
                = ink_of (rd (mpColorBuffer pscr) k)
                /\ paper_of (rd (mpColorBuffer s') k)
                   = paper_of (rd (mpColorBuffer pscr) k))
  /\ mCursorX s' = mCursorX pscr /\ mCursorY s' = mCursorY pscr
  /\ mCanvasPaper s' = mCanvasPaper pscr /\ mCanvasInk s' = mCanvasInk pscr.
Proof.
  induction pstr as [| chr pstr IH]; intros max_len x_pix pscr; cbv zeta.
  { cbn [put_label_loop]. by repeat split. }
  destruct max_len as [| max_len]; [by repeat split |].
  cbn [put_label_loop]. destruct (chr =? 0); [by repeat split |].
  destruct (_ || _); [by repeat split |].
  destruct (put_label_glyph_frame over (chr - 32) x_pix y_pix pscr)
    as (Hp1 & Hc1 & Hx1 & Hy1 & Ha1 & Hi1).
  destruct (IH max_len (x_pix + 8)
              (put_label_glyph kFONT_ over (chr - 32) x_pix y_pix pscr))
    as (Hp2 & Hc2 & Hx2 & Hy2 & Ha2 & Hi2).
  split; [intros Hover n Hn; by apply Hp2, Hp1 |].
  split; [intros k; destruct (Hc2 k) as [-> ->]; apply Hc1 |].
  repeat split; congruence.
Qed.

(** A label stops at the first character that is outside [0x20, 0x7E],
    NUL included, and after [max_len] glyphs. *)
Lemma put_label_loop_stop over y_pix s c t : forall max_len x_pix pscr,
  Forall (fun ch => 0x20 <= ch <= 0x7E) s -> c < 0x20 \/ 0x7E < c ->
  put_label_loop kFONT_ over (s ++ c :: t) max_len x_pix y_pix pscr
  = put_label_loop kFONT_ over s max_len x_pix y_pix pscr.
Proof.
  intros max_len x_pix pscr Hs Hc. revert max_len x_pix pscr.
  induction Hs as [| ch s Hch Hs IH]; intros max_len x_pix pscr.
  { cbn [app put_label_loop]. destruct max_len; [done |].
    destruct (Z.eqb_spec c 0); [done |].
    destruct (Z.gtb_spec c 0x7E); [done |].
    destruct (Z.ltb_spec c 0x20); [done | lia]. }
  cbn [app put_label_loop]. destruct max_len; [done |].
  destruct (ch =? 0); [done |]. destruct (_ || _); [done |]. apply IH.
Qed.

Lemma put_label_loop_take over y_pix pstr : forall max_len x_pix pscr,
  put_label_loop kFONT_ over pstr max_len x_pix y_pix pscr
  = put_label_loop kFONT_ over (take max_len pstr) max_len x_pix y_pix pscr.
Proof.
  induction pstr as [| ch pstr IH]; intros max_len x_pix pscr.
  { by rewrite take_nil. }
  destruct max_len as [| max_len]; [done |].
  cbn [take put_label_loop]. destruct (ch =? 0); [done |].
  destruct (_ || _); [done |]. apply IH.
Qed.

(** X13: a label put at a position that is not negative, where the guard
    keeps every store inside the two buffers.  [TftPutTextLabel] changes
    no ink and no paper of any block, nor the cursor or the canvas
    colours; it clears no update flag and marks every block in which a
    pixel changes; and when it does not overwrite ([over] false) it clears
    no pixel: a pixel that was set stays set. *)
Theorem TftPutTextLabel_overlay (pscr : screen_control_t) (pstr : list Z)
    (x_pix y_pix : Z) (over : bool) :
  wf_screen pscr -> 0 <= x_pix -> 0 <= y_pix ->
  let s' := TftPutTextLabel kFONT_ pscr pstr x_pix y_pix over in
  (over = false ->
   forall x y, pixel_at pscr x y = 1 -> pixel_at s' x y = 1)
  /\ (forall k, ink_of (rd (mpColorBuffer s') k)
                = ink_of (rd (mpColorBuffer pscr) k)
                /\ paper_of (rd (mpColorBuffer s') k)
                   = paper_of (rd (mpColorBuffer pscr) k))
  /\ (forall k, need_update (mpColorBuffer pscr) k = true ->
                need_update (mpColorBuffer s') k = true)
  /\ dirty_invariant pscr s'
  /\ mCursorX s' = mCursorX pscr /\ mCursorY s' = mCursorY pscr
  /\ mCanvasPaper s' = mCanvasPaper pscr /\ mCanvasInk s' = mCanvasInk pscr.
Proof.
  intros Hwf Hx Hy. cbv zeta.
  destruct (TftPutTextLabel_tracked kFONT_ pscr pstr x_pix y_pix over Hwf Hx Hy)
    as [Hkeep Hdirty].
  revert Hkeep Hdirty. unfold TftPutTextLabel.
  destruct (_ || _); intros Hkeep Hdirty; [by repeat split |].
  destruct (put_label_loop_frame over y_pix pstr
              (Z.to_nat (Z.shiftr (PIX_WIDTH - x_pix) 3)) x_pix pscr)
    as (Hp & Hcol & Hrest).
  split; [intros Hover x y; apply Hp, Hover |].
  split; [exact Hcol |]. split; [exact Hkeep |]. split; [exact Hdirty |].
  exact Hrest.
Qed.

(** X14: where [TftPutTextLabel] stops.  A label whose first glyph would
    not fit ([x_pix > PIX_WIDTH - 8] or [y_pix > PIX_HEIGHT - 8]) draws
    nothing; otherwise only the first [(PIX_WIDTH - x_pix) >> 3] characters
    are drawn, and the label ends at the first character outside
    [0x20, 0x7E]: what follows it is not drawn. *)
Theorem TftPutTextLabel_stops (pscr : screen_control_t) (x_pix y_pix : Z)
    (over : bool) :
  (x_pix > PIX_WIDTH - 8 \/ y_pix > PIX_HEIGHT - 8 ->
   forall pstr, TftPutTextLabel kFONT_ pscr pstr x_pix y_pix over = pscr)
  /\ (forall pstr,
        TftPutTextLabel kFONT_ pscr pstr x_pix y_pix over
        = TftPutTextLabel kFONT_ pscr
            (take (Z.to_nat (Z.shiftr (PIX_WIDTH - x_pix) 3)) pstr)
            x_pix y_pix over)
  /\ (forall s c t,
        Forall (fun ch => 0x20 <= ch <= 0x7E) s -> c < 0x20 \/ 0x7E < c ->
        TftPutTextLabel kFONT_ pscr (s ++ c :: t) x_pix y_pix over
        = TftPutTextLabel kFONT_ pscr s x_pix y_pix over).
Proof.
  split; [| split].
  - intros Hclip pstr. unfold TftPutTextLabel.
    destruct (Z.gtb_spec x_pix (PIX_WIDTH - 8)); [done |].
    destruct (Z.gtb_spec y_pix (PIX_HEIGHT - 8)); [done | lia].
  - intros pstr. unfold TftPutTextLabel. destruct (_ || _); [done |].
    apply put_label_loop_take.
  - intros s c t Hs Hc. unfold TftPutTextLabel. destruct (_ || _); [done |].
    by apply put_label_loop_stop.
Qed.

End Label.

(** The label [Pi] on the idle screen, at pixel (10, 20). *)
Lemma TftPutTextLabel_overlay_witness :
  wf_screen screen_idle /\ 0 <= 10 /\ 0 <= 20
  /\ forall k,
       ink_of (rd (mpColorBuffer
                     (TftPutTextLabel (replicate 762 0x81) screen_idle
                        [80; 105; 0] 10 20 false)) k)
       = ink_of (rd (mpColorBuffer screen_idle) k).
Proof.
  assert (Hwf : wf_screen screen_idle) by (split; reflexivity).
  split; [exact Hwf |]. split; [lia |]. split; [lia |].
  destruct (TftPutTextLabel_overlay (replicate 762 0x81) screen_idle
              [80; 105; 0] 10 20 false Hwf ltac:(lia) ltac:(lia))
    as (_ & Hcol & _).
  intros k. apply Hcol.
Defined.

(** ** Clearing a block *)

Section ClearRect.

(** A loop that stores 0 in one word per round. *)
Lemma rd_clear_words {I : Type} (f : I -> Z) (l : list I) : forall p w,
  rd (for_all (fun j p => wr p (f j) 0) l p) w = rd p w
  \/ (rd (for_all (fun j p => wr p (f j) 0) l p) w = 0
      /\ exists j, j ∈ l /\ f j = w).
Proof.
  induction l as [| a l IH]; intros p w; [by left |].
  rewrite for_all_cons.
  destruct (IH (wr p (f a) 0) w) as [E | [E (j & Hj & Hf)]].
  - rewrite E, rd_wr. destruct (_ && _ && _) eqn:Hc; [| by left].
    right. split; [done |]. exists a. split; [left |].
    apply andb_true_iff in Hc as [Hc _]. apply andb_true_iff in Hc as [Hc _].
    by apply Z.eqb_eq in Hc.
  - right. split; [done |]. exists j. split; [by right | done].
Qed.

Lemma rd_clear_words_in {I : Type} (f : I -> Z) (l : list I) : forall p j,
  j ∈ l -> 0 <= f j < Z.of_nat (length p) ->
  rd (for_all (fun j p => wr p (f j) 0) l p) (f j) = 0.
Proof.
  induction l as [| a l IH]; intros p j Hj Hr; [by apply elem_of_nil in Hj |].
  rewrite for_all_cons.
  apply elem_of_cons in Hj as [-> | Hj].
  - destruct (rd_clear_words f l (wr p (f a) 0) (f a)) as [E | [E _]]; [| done].
    rewrite E. by apply rd_wr_eq.
  - apply IH; [done | by rewrite length_wr].
Qed.

(** The pixels of one row of a block share a word. *)
Lemma cell_row_word x r i :
  0 <= i < 8 ->
  Z.shiftr (8 * x + i + r * PIX_WIDTH) 5 = Z.shiftr (8 * x + r * PIX_WIDTH) 5.
Proof.
  intros Hi. rewrite !Z.shiftr_div_pow2 by lia. change (2 ^ 5) with 32.
  unfold PIX_WIDTH. set (a := x + 30 * r).
  pose proof (Z.div_mod a 4 ltac:(lia)) as Ea.
  pose proof (Z.mod_pos_bound a 4 ltac:(lia)) as Ha.
  replace (8 * x + i + r * 240) with (i + 8 * (a mod 4) + a / 4 * 32)
    by (unfold a in *; lia).
  replace (8 * x + r * 240) with (8 * (a mod 4) + a / 4 * 32)
    by (unfold a in *; lia).
  rewrite !Z.div_add by lia.
  by rewrite (Z.div_small (i + 8 * (a mod 4))), (Z.div_small (8 * (a mod 4))) by lia.
Qed.

End ClearRect.

(** X15: [TftClearRect8] on a block of the text area clears the 64
    pixels of the block and marks the block for update; it sets no pixel,
    every pixel it clears lies in the block's own text row, and no ink, no
    paper and no other attribute byte changes. *)
Theorem TftClearRect8_clears (pscr : screen_control_t) (x y : Z) :
  wf_screen pscr -> 0 <= x < TEXT_WIDTH -> 0 <= y < TEXT_HEIGHT ->
  let s' := TftClearRect8 pscr x y in
  (forall i j, 0 <= i < 8 -> 0 <= j < 8 ->
     pixel_at s' (8 * x + i) (8 * y + j) = 0)
  /\ (forall x' y', 0 <= x' < PIX_WIDTH -> 0 <= y' < PIX_HEIGHT ->
        pixel_at s' x' y' <> pixel_at pscr x' y' ->
        pixel_at s' x' y' = 0 /\ 8 * y <= y' < 8 * y + 8)
  /\ need_update (mpColorBuffer s') (x + TEXT_WIDTH * y) = true
  /\ (forall k, ink_of (rd (mpColorBuffer s') k)
                = ink_of (rd (mpColorBuffer pscr) k)
                /\ paper_of (rd (mpColorBuffer s') k)
                   = paper_of (rd (mpColorBuffer pscr) k))
  /\ (forall k, k <> x + TEXT_WIDTH * y ->
        rd (mpColorBuffer s') k = rd (mpColorBuffer pscr) k)
  /\ wf_screen s'.
Proof.
  intros Hwf Hx Hy. cbv zeta.
  change TEXT_WIDTH with 30 in *. change TEXT_HEIGHT with 40 in *.
  assert (Hwf' := Hwf). destruct Hwf' as [Hp Hc].
  unfold TftClearRect8.
  set (f := fun j : Z => Z.shiftr (Z.shiftl x 3 + (j + Z.shiftl y 3) * PIX_WIDTH) 5).
  assert (Hf : forall j, f j = Z.shiftr (8 * x + (8 * y + j) * PIX_WIDTH) 5).
  { intros j. unfold f. rewrite !Z.shiftl_mul_pow2 by lia.
    change (2 ^ 3) with 8. f_equal. lia. }
  change (for_all _ (range 0 8) (mpPixBuffer pscr))
    with (for_all (fun j p => wr p (f j) 0) (range 0 8) (mpPixBuffer pscr)).
  cbn [mpPixBuffer mpColorBuffer].
  split; [| split; [| split; [| split; [| split]]]].
  - intros i j Hi Hj. unfold pixel_at. cbn [mpPixBuffer].
    apply GET_DATA_BIT_zero. rewrite cell_row_word, <- Hf by done.
    apply rd_clear_words_in; [apply elem_of_seqZ; lia |].
    rewrite Hf, <- (cell_row_word x (8 * y + j) 0) by lia.
    apply pixel_word_inside;
      [done | change PIX_WIDTH with 240; lia | change PIX_HEIGHT with 320; lia].
  - intros x' y' Hx' Hy' Hdiff. unfold pixel_at in *. cbn [mpPixBuffer] in *.
    destruct (rd_clear_words f (range 0 8) (mpPixBuffer pscr)
                (Z.shiftr (x' + y' * PIX_WIDTH) 5)) as [E | [E (j & Hj & Ew)]].
    { exfalso. apply Hdiff. by apply GET_DATA_BIT_same. }
    split; [by apply GET_DATA_BIT_zero |].
    apply elem_of_range in Hj. rewrite Hf in Ew.
    pose proof (pixel_word x' y' Hx' ltac:(lia)) as Hw'.
    pose proof (pixel_word (8 * x) (8 * y + j)
                  ltac:(change PIX_WIDTH with 240; lia) ltac:(lia)) as Hw.
    replace ((8 * y + j) / 8) with y in Hw
      by (rewrite (Z.mul_comm 8), Z.add_comm, Z.div_add, Z.div_small; lia).
    rewrite Ew in Hw.
    pose proof (Z.div_mod y' 8 ltac:(lia)).
    pose proof (Z.mod_pos_bound y' 8 ltac:(lia)). lia.
  - apply need_update_mark. rewrite rd_wr_eq.
    + apply testbit_mark.
    + rewrite Hc. change (Z.to_nat TEXT_CHARCOUNT) with 1200%nat. lia.
  - intros k. apply mark_colors.
  - intros k Hk. apply rd_wr_ne. intros E. apply Hk. symmetry. exact E.
  - split; cbn [mpPixBuffer mpColorBuffer]; [| by rewrite length_wr].
    rewrite <- Hp. apply length_for_all. intros j p. apply length_wr.
Qed.

(** Clearing block (1, 0) of the dotted demo screen clears its pixel
    (8, 0). *)
Lemma TftClearRect8_clears_witness :
  wf_screen screen_dot /\ 0 <= 1 < TEXT_WIDTH /\ 0 <= 0 < TEXT_HEIGHT
  /\ pixel_at screen_dot 8 0 = 1
  /\ pixel_at (TftClearRect8 screen_dot 1 0) 8 0 = 0.
Proof.
  assert (Hwf : wf_screen screen_dot) by (split; reflexivity).
  assert (Hx : 0 <= 1 < TEXT_WIDTH) by (change TEXT_WIDTH with 30; lia).
  assert (Hy : 0 <= 0 < TEXT_HEIGHT) by (change TEXT_HEIGHT with 40; lia).
  split; [exact Hwf |]. split; [exact Hx |]. split; [exact Hy |].
  split; [reflexivity |].
  destruct (TftClearRect8_clears screen_dot 1 0 Hwf Hx Hy) as (Hclr & _).
  apply (Hclr 0 0); lia.
Defined.

(** ** Budgets of the selective write *)

Section SelectiveCompose.

(** The selective write with a positive budget, and with one that is not
    positive. *)
Lemma selective_write_positive pscr n :
  1 <= n <= INT_MAX ->
  TftFullScreenSelectiveWrite pscr n
  = (if n <=? Z.of_nat (length (pending pscr)) then 0 else 1,
     flush_blocks pscr (take (Z.to_nat n) (pending pscr)),
     out_blocks pscr (take (Z.to_nat n) (pending pscr))).
Proof.
  intros Hn. rewrite TftFullScreenSelectiveWrite_scan.
  rewrite scan_positive by (done || apply NoDup_blocks). cbv zeta.
  fold (pending pscr).
  destruct (Z.leb_spec n (Z.of_nat (length (pending pscr)))); [done |].
  by rewrite take_ge by lia.
Qed.

Lemma selective_write_nonpositive pscr n :
  INT_MIN <= n <= 0 ->
  TftFullScreenSelectiveWrite pscr n
  = (1, flush_blocks pscr (pending pscr), out_blocks pscr (pending pscr)).
Proof.
  intros Hn. rewrite TftFullScreenSelectiveWrite_scan.
  rewrite <- (wrap32_id n) at 1 by (unfold INT_MAX; lia).
  rewrite scan_nonpositive; [done | apply NoDup_blocks | lia |].
  rewrite length_blocks. unfold INT_MIN in Hn.
  change TEXT_CHARCOUNT with 1200. lia.
Qed.

Lemma NoDup_dirty_cells cb cs :
  NoDup (map idx cs) -> NoDup (map idx (dirty_cells cb cs)).
Proof.
  induction cs as [| c cs IH]; intros Hnd; [done |].
  cbn [map] in Hnd. apply NoDup_cons in Hnd as [Hc Hnd].
  destruct (need_update cb (idx c)) eqn:Hd.
  - unfold dirty_cells. rewrite filter_cons_True by (by rewrite Hd).
    cbn [map]. apply NoDup_cons. split; [| by apply IH].
    intros Hin. apply Hc. apply list_elem_of_In, in_map_iff in Hin
      as (c' & E & Hc').
    rewrite <- E. apply list_elem_of_In, in_map, list_elem_of_In.
    eapply dirty_cells_subset. apply list_elem_of_In, Hc'.
  - unfold dirty_cells. rewrite filter_cons_False by (rewrite Hd; intros []).
    by apply IH.
Qed.

Lemma flush_blocks_app pscr ws1 ws2 :
  flush_blocks (flush_blocks pscr ws1) ws2 = flush_blocks pscr (ws1 ++ ws2).
Proof.
  unfold flush_blocks. cbn [with_color mpColorBuffer mCursorX mCursorY
                             mCanvasPaper mCanvasInk mpPixBuffer].
  by rewrite clear_cells_app.
Qed.

Lemma out_blocks_app pscr ws1 ws2 :
  out_blocks pscr (ws1 ++ ws2) = out_blocks pscr ws1 ++ out_blocks pscr ws2.
Proof. unfold out_blocks. by rewrite map_app, concat_app. Qed.

(** Blocks sent later are sent as they were before the earlier ones were
    flushed. *)
Lemma out_blocks_after_flush pscr n m :
  out_blocks (flush_blocks pscr (take n (pending pscr)))
             (take m (drop n (pending pscr)))
  = out_blocks pscr (take m (drop n (pending pscr))).
Proof.
  apply out_blocks_ext; [apply flush_blocks_frame |].
  intros c Hc. apply flush_blocks_other.
  pose proof (NoDup_dirty_cells (mpColorBuffer pscr) blocks NoDup_blocks) as Hnd.
  fold (pending pscr) in Hnd.
  rewrite <- (take_drop n (pending pscr)), map_app in Hnd.
  apply NoDup_app in Hnd as (_ & Hdisj & _).
  intros Hin. apply (Hdisj (idx c) Hin).
  apply list_elem_of_In, in_map, list_elem_of_In.
  rewrite <- (take_drop m (drop n (pending pscr))).
  apply elem_of_app. by left.
Qed.

End SelectiveCompose.

(** X16: budgets add up.  A selective write with budget [n] followed by
    one with budget [m] sends the same blocks in the same order, leaves
    the same screen and ends with the same status as a single selective
    write with budget [n + m]. *)
Theorem TftFullScreenSelectiveWrite_split (pscr : screen_control_t) (n m : Z) :
  1 <= n -> 1 <= m -> n + m <= INT_MAX ->
  let r1 := TftFullScreenSelectiveWrite pscr n in
  let r2 := TftFullScreenSelectiveWrite (snd (fst r1)) m in
  TftFullScreenSelectiveWrite pscr (n + m)
  = (fst (fst r2), snd (fst r2), snd r1 ++ snd r2).
Proof.
  intros Hn Hm Hnm. cbv zeta.
  rewrite (selective_write_positive pscr n) by lia. cbn [fst snd].
  rewrite (selective_write_positive _ m) by lia. cbn [fst snd].
  rewrite (selective_write_positive pscr (n + m)) by lia.
  set (d := pending pscr).
  assert (Hpend : pending (flush_blocks pscr (take (Z.to_nat n) d))
                  = drop (Z.to_nat n) d).
  { unfold pending, d, flush_blocks. cbn [with_color mpColorBuffer].
    apply dirty_cells_after_flush, NoDup_blocks. }
  rewrite Hpend. unfold d at 5. rewrite out_blocks_after_flush. fold d.
  rewrite flush_blocks_app, <- out_blocks_app, take_take_drop.
  replace (Z.to_nat n + Z.to_nat m)%nat with (Z.to_nat (n + m)) by lia.
  rewrite length_drop.
  destruct (Z.leb_spec (n + m) (Z.of_nat (length d)));
    destruct (Z.leb_spec m (Z.of_nat (length d - Z.to_nat n))); (done || lia).
Qed.

(** The cleared demo screen flushed in two steps of 500 and 700 blocks. *)
Lemma TftFullScreenSelectiveWrite_split_witness :
  1 <= 500 /\ 1 <= 700 /\ 500 + 700 <= INT_MAX
  /\ fst (fst (TftFullScreenSelectiveWrite screen_demo 500)) = 0
  /\ TftFullScreenSelectiveWrite screen_demo (500 + 700)
     = (fst (fst (TftFullScreenSelectiveWrite
                    (snd (fst (TftFullScreenSelectiveWrite screen_demo 500))) 700)),
        snd (fst (TftFullScreenSelectiveWrite
                    (snd (fst (TftFullScreenSelectiveWrite screen_demo 500))) 700)),
        snd (TftFullScreenSelectiveWrite screen_demo 500)
        ++ snd (TftFullScreenSelectiveWrite
                  (snd (fst (TftFullScreenSelectiveWrite screen_demo 500))) 700)).
Proof.
  assert (H1 : 1 <= 500) by lia. assert (H2 : 1 <= 700) by lia.
  assert (H3 : 500 + 700 <= INT_MAX) by (unfold INT_MAX; lia).
  split; [exact H1 |]. split; [exact H2 |]. split; [exact H3 |].
  split; [vm_compute; reflexivity |].
  apply (TftFullScreenSelectiveWrite_split screen_demo 500 700 H1 H2 H3).
Defined.

(** X17: what a selective write leaves alone.  Whatever the budget, it
    changes no pixel, no ink, no paper and no flash bit, sets no update
    flag, and keeps the cursor, the canvas colours and the sizes of the
    buffers; an attribute byte is either unchanged or has lost its update
    bit. *)
Theorem TftFullScreenSelectiveWrite_frame (pscr : screen_control_t) (n : Z) :
  INT_MIN <= n <= INT_MAX ->
  let s' := snd (fst (TftFullScreenSelectiveWrite pscr n)) in
  mpPixBuffer s' = mpPixBuffer pscr
  /\ (forall k, rd (mpColorBuffer s') k = rd (mpColorBuffer pscr) k
                \/ rd (mpColorBuffer s') k
                   = Z.land (rd (mpColorBuffer pscr) k) (Z.lnot (Z.shiftl 1 6)))
  /\ (forall k, ink_of (rd (mpColorBuffer s') k)
                = ink_of (rd (mpColorBuffer pscr) k)
                /\ paper_of (rd (mpColorBuffer s') k)
                   = paper_of (rd (mpColorBuffer pscr) k)
                /\ Z.testbit (rd (mpColorBuffer s') k) 7
                   = Z.testbit (rd (mpColorBuffer pscr) k) 7)
  /\ (forall k, need_update (mpColorBuffer s') k = true ->
                need_update (mpColorBuffer pscr) k = true)
  /\ length (mpColorBuffer s') = length (mpColorBuffer pscr)
  /\ mCursorX s' = mCursorX pscr /\ mCursorY s' = mCursorY pscr
  /\ mCanvasPaper s' = mCanvasPaper pscr /\ mCanvasInk s' = mCanvasInk pscr.
Proof.
  intros Hn. cbv zeta.
  assert (Hflush : exists ws,
            snd (fst (TftFullScreenSelectiveWrite pscr n)) = flush_blocks pscr ws).
  { destruct (Z_le_dec n 0).
    - rewrite selective_write_nonpositive by lia. by eexists.
    - rewrite selective_write_positive by lia. by eexists. }
  destruct Hflush as [ws ->].
  destruct (flush_blocks_frame pscr ws) as (Ep & Ex & Ey & Ea & Ei & El).
  assert (Hrd : forall k,
            rd (mpColorBuffer (flush_blocks pscr ws)) k
            = rd (mpColorBuffer pscr) k
            \/ rd (mpColorBuffer (flush_blocks pscr ws)) k
               = Z.land (rd (mpColorBuffer pscr) k) (Z.lnot (Z.shiftl 1 6))).
  { intros k. destruct (decide (k ∈ map idx ws)).
    - right. by apply flush_blocks_sent.
    - left. by apply flush_blocks_other. }
  split; [exact Ep |]. split; [exact Hrd |].
  split.
  { intros k. destruct (Hrd k) as [-> | ->]; [done |].
    rewrite ink_of_clear, paper_of_clear. split; [done |]. split; [done |].
    rewrite Z.land_spec, Z.lnot_spec by lia.
    change (Z.testbit (Z.shiftl 1 6) 7) with false. apply andb_true_r. }
  split; [intros k; apply need_update_clear_cells |].
  done.
Qed.

Lemma TftFullScreenSelectiveWrite_frame_witness :
  INT_MIN <= 7 <= INT_MAX
  /\ mpPixBuffer (snd (fst (TftFullScreenSelectiveWrite screen_demo 7)))
     = mpPixBuffer screen_demo.
Proof.
  assert (H : INT_MIN <= 7 <= INT_MAX) by (unfold INT_MIN, INT_MAX; lia).
  split; [exact H |].
  apply (TftFullScreenSelectiveWrite_frame screen_demo 7 H).
Defined.

(** ** Polling the touch panel *)

Section TouchInvariants.

(** One poll of a control block: the configuration and the pressed flag
    are never written, the processed flag is never cleared, and the time
    stamp is kept or set to the time of the poll. *)
Lemma CheckTouch_keeps c hw :
  exists c',
    snd (fst (CheckTouch (Some c) hw)) = Some c'
    /\ mpHWConfig c' = mpHWConfig c
    /\ mkTmMinFlick c' = mkTmMinFlick c
    /\ mkTmLongFlick c' = mkTmLongFlick c
    /\ mkBetaShft c' = mkBetaShft c
    /\ mIsPressed c' = mIsPressed c
    /\ (mIsProcessed c = true -> mIsProcessed c' = true)
    /\ (mTmOfLastTouch c' = mTmOfLastTouch c
        \/ mTmOfLastTouch c' = ktm64_now hw)
    /\ (fst (fst (CheckTouch (Some c) hw)) < 0 -> c' = c).
Proof.
  destruct (valid_config (Some c)) eqn:Hv.
  2: { exists c. rewrite CheckTouch_invalid by done. cbn. by repeat split; auto. }
  destruct (pressed c hw) eqn:Hp.
  2: { exists c. rewrite CheckTouch_released by done. cbn. by repeat split; auto. }
  destruct (exceeds (ktm64_now hw) (mTmOfLastTouch c) (mkTmLongFlick c)) eqn:Hl.
  { eexists. rewrite CheckTouch_snap by done. cbn [fst snd].
    split; [reflexivity |]. cbn. repeat split; auto; lia. }
  destruct (exceeds (ktm64_now hw) (mTmOfLastTouch c) (mkTmMinFlick c)) eqn:Hf.
  { eexists. rewrite CheckTouch_filter by done. cbn [fst snd].
    split; [reflexivity |]. cbn. repeat split; auto; lia. }
  exists c. rewrite CheckTouch_hold by done. cbn. by repeat split; auto.
Qed.

Lemma CheckTouch_status_valid c hw :
  valid_config (Some c) = true ->
  fst (fst (CheckTouch (Some c) hw)) = 0 \/ fst (fst (CheckTouch (Some c) hw)) = 1.
Proof.
  intros Hv. destruct (pressed c hw) eqn:Hp.
  - left. by apply CheckTouch_pressed.
  - right. by rewrite CheckTouch_released.
Qed.

Lemma polls_cons c hw rest :
  exists c',
    snd (fst (CheckTouch (Some c) hw)) = Some c'
    /\ polls c (hw :: rest)
       = (fst (fst (CheckTouch (Some c) hw)) :: fst (polls c' rest),
          snd (polls c' rest)).
Proof.
  destruct (CheckTouch_keeps c hw) as (c' & Hc' & _).
  exists c'. split; [exact Hc' |]. cbn [polls].
  destruct (CheckTouch (Some c) hw) as [[status oc] k]. cbn [fst snd] in *.
  subst oc. by destruct (polls c' rest).
Qed.

Lemma wrapu8_range z : 0 <= wrapu 8 z <= 255.
Proof.
  unfold wrapu. pose proof (Z.mod_pos_bound z (2 ^ 8) ltac:(lia)). lia.
Qed.

Lemma snap_range raw : 0 <= raw <= 255 -> 0 <= shl32 raw 14 <= 255 * 2 ^ 14.
Proof.
  intros Hr. unfold shl32. rewrite Z.shiftl_mul_pow2 by lia.
  rewrite wrap32_id by (unfold INT_MIN, INT_MAX; lia). lia.
Qed.

Lemma filter_step_range beta raw f :
  1 <= beta <= 30 -> 0 <= raw <= 255 -> 0 <= f <= 255 * 2 ^ 14 ->
  0 <= filter_step beta raw f <= 255 * 2 ^ 14.
Proof.
  intros Hb Hr Hf.
  assert (Hin : in_range f) by (unfold in_range; lia).
  pose proof (target_range beta raw Hb Hr) as Ht.
  destruct (Z_le_dec f (target raw)).
  - pose proof (step_below beta raw Hb Hr f Hin ltac:(lia)). lia.
  - pose proof (step_above beta raw Hb Hr f Hin ltac:(lia)). lia.
Qed.

Lemma CheckTouch_filtered c hw c' :
  1 <= mkBetaShft c <= 30 -> filtered_ok c ->
  snd (fst (CheckTouch (Some c) hw)) = Some c' -> filtered_ok c'.
Proof.
  intros Hb [Hx Hy].
  destruct (valid_config (Some c)) eqn:Hv.
  2: { rewrite CheckTouch_invalid by done. intros [= <-]. by split. }
  destruct (pressed c hw) eqn:Hp.
  2: { rewrite CheckTouch_released by done. intros [= <-]. by split. }
  destruct (exceeds (ktm64_now hw) (mTmOfLastTouch c) (mkTmLongFlick c)) eqn:Hl.
  { rewrite CheckTouch_snap by done. intros [= <-].
    split; cbn [mXf mYf]; apply snap_range, wrapu8_range. }
  destruct (exceeds (ktm64_now hw) (mTmOfLastTouch c) (mkTmMinFlick c)) eqn:Hf.
  { rewrite CheckTouch_filter by done. intros [= <-].
    split; cbn [mXf mYf]; apply filter_step_range; (done || apply wrapu8_range). }
  rewrite CheckTouch_hold by done. intros [= <-]. by split.
Qed.

End TouchInvariants.

(** X18: polling after [TouchInitCtl].  With a hardware configuration and
    a positive filter shift every poll returns 0 or 1, whatever the
    hardware presents; with a shift that is not positive every poll
    returns -2 and leaves the control block alone.  No poll changes the
    configuration, the thresholds, the shift or the pressed flag, and no
    poll clears the processed flag. *)
Theorem TouchInitCtl_polls (c0 : touch_control_t) (cfg : touch_hwconfig_t)
    (min_flick_us long_press_us beta : Z) (ticks : list touch_hw) :
  let c := TouchInitCtl c0 (Some cfg) min_flick_us long_press_us beta in
  let r := polls c ticks in
  length (fst r) = length ticks
  /\ (0 < beta -> Forall (fun status => status = 0 \/ status = 1) (fst r))
  /\ (beta <= 0 -> Forall (fun status => status = -2) (fst r) /\ snd r = c)
  /\ mpHWConfig (snd r) = Some cfg
  /\ mkTmMinFlick (snd r) = min_flick_us
  /\ mkTmLongFlick (snd r) = long_press_us
  /\ mkBetaShft (snd r) = beta
  /\ mIsPressed (snd r) = mIsPressed c0
  /\ (mIsProcessed c0 = true -> mIsProcessed (snd r) = true).
Proof.
  cbv zeta.
  set (c := TouchInitCtl c0 (Some cfg) min_flick_us long_press_us beta).
  assert (Hinit : mpHWConfig c = Some cfg /\ mkTmMinFlick c = min_flick_us
                  /\ mkTmLongFlick c = long_press_us /\ mkBetaShft c = beta
                  /\ mIsPressed c = mIsPressed c0
                  /\ (mIsProcessed c0 = true -> mIsProcessed c = true))
    by (by repeat split).
  assert (Hgen : forall c,
            mpHWConfig c = Some cfg -> mkBetaShft c = beta ->
            let r := polls c ticks in
            length (fst r) = length ticks
            /\ (0 < beta -> Forall (fun status => status = 0 \/ status = 1) (fst r))
            /\ (beta <= 0 -> Forall (fun status => status = -2) (fst r)
                             /\ snd r = c)
            /\ mpHWConfig (snd r) = mpHWConfig c
            /\ mkTmMinFlick (snd r) = mkTmMinFlick c
            /\ mkTmLongFlick (snd r) = mkTmLongFlick c
            /\ mkBetaShft (snd r) = mkBetaShft c
            /\ mIsPressed (snd r) = mIsPressed c
            /\ (mIsProcessed c = true -> mIsProcessed (snd r) = true)).
  { clear c Hinit. induction ticks as [| hw rest IH]; intros c Hcfg Hbeta; cbv zeta.
    { cbn [polls fst snd length]. repeat split; try done; constructor. }
    destruct (polls_cons c hw rest) as (c' & Hc' & ->). cbn [fst snd length].
    destruct (CheckTouch_keeps c hw)
      as (c'' & Hc'' & Ecfg & Emin & Elong & Ebeta & Epr & Eproc & _ & Hneg).
    rewrite Hc' in Hc''. injection Hc'' as <-.
    destruct (IH c' ltac:(congruence) ltac:(congruence))
      as (Hlen & Hpos & Hnon & Hcfg' & Hmin' & Hlong' & Hbeta' & Hpr' & Hproc').
    assert (Hvalid : valid_config (Some c) = (beta >? 0)).
    { cbn [valid_config]. by rewrite Hcfg, Hbeta. }
    split; [by rewrite Hlen |].
    split.
    { intros Hb. apply Forall_cons. split; [| by apply Hpos].
      apply CheckTouch_status_valid. rewrite Hvalid.
      by apply Z.gtb_lt. }
    split.
    { intros Hb.
      assert (Hrun : CheckTouch (Some c) hw = (-2, Some c, O)).
      { apply CheckTouch_invalid. rewrite Hvalid.
        destruct (Z.gtb_spec beta 0); [lia | done]. }
      rewrite Hrun in *. cbn [fst snd] in *. injection Hc' as <-.
      destruct (Hnon Hb) as [Hall Hsame].
      split; [by apply Forall_cons | exact Hsame]. }
    repeat split; try congruence. intros Hp. by apply Hproc', Eproc. }
  destruct Hinit as (Hcfg & Hmin & Hlong & Hbeta & Hpr & Hproc).
  destruct (Hgen c Hcfg Hbeta)
    as (Hlen & Hpos & Hnon & Hcfg' & Hmin' & Hlong' & Hbeta' & Hpr' & Hproc').
  split; [exact Hlen |]. split; [exact Hpos |]. split; [exact Hnon |].
  repeat split; try congruence. intros Hp. by apply Hproc', Hproc.
Qed.

(** X19: with a filter shift in [1, 30], filtered coordinates that lie
    in the range of a raw sample, [0 .. 255 << 14], stay in it through
    every poll: a snap puts them there and a filter update moves them
    between their old value and the sample.  The coordinate that [main]
    hands to the calibration, [(f + 8) >> 4], is then in [0, 255 * 1024]
    and does not overflow. *)
Theorem polls_filtered_range (c : touch_control_t) (ticks : list touch_hw) :
  1 <= mkBetaShft c <= 30 -> filtered_ok c ->
  let c' := snd (polls c ticks) in
  filtered_ok c'
  /\ sar32 (add32 (mXf c') 8) 4 = (mXf c' + 8) / 16
  /\ sar32 (add32 (mYf c') 8) 4 = (mYf c' + 8) / 16
  /\ 0 <= sar32 (add32 (mXf c') 8) 4 <= 255 * 1024
  /\ 0 <= sar32 (add32 (mYf c') 8) 4 <= 255 * 1024.
Proof.
  intros Hb Hok. cbv zeta.
  assert (Hinv : filtered_ok (snd (polls c ticks))).
  { revert c Hb Hok. induction ticks as [| hw rest IH]; intros c Hb Hok; [done |].
    destruct (polls_cons c hw rest) as (c' & Hc' & ->). cbn [snd].
    destruct (CheckTouch_keeps c hw) as (c'' & Hc'' & _ & _ & _ & Ebeta & _).
    rewrite Hc' in Hc''. injection Hc'' as <-.
    apply IH; [by rewrite Ebeta |]. by eapply CheckTouch_filtered. }
  split; [exact Hinv |].
  assert (Hscale : forall f, 0 <= f <= 255 * 2 ^ 14 ->
            sar32 (add32 f 8) 4 = (f + 8) / 16
            /\ 0 <= sar32 (add32 f 8) 4 <= 255 * 1024).
  { intros f Hf. unfold sar32, add32.
    rewrite wrap32_id by (unfold INT_MIN, INT_MAX; lia).
    rewrite Z.shiftr_div_pow2 by lia. change (2 ^ 4) with 16.
    split; [done |]. split; [apply Z.div_pos; lia |].
    assert ((f + 8) / 16 < 255 * 1024 + 1)
      by (apply Z.div_lt_upper_bound; lia).
    lia. }
  destruct Hinv as [Hx Hy].
  destruct (Hscale _ Hx) as [Ex Rx]. destruct (Hscale _ Hy) as [Ey Ry].
  done.
Qed.

(** The demo's control block, polled with the pen down twice. *)
Lemma polls_filtered_range_witness :
  1 <= mkBetaShft control0 <= 30 /\ filtered_ok control0
  /\ filtered_ok (snd (polls control0 [hw_pressed_late; hw_pressed_soon])).
Proof.
  assert (Hb : 1 <= mkBetaShft control0 <= 30) by (cbn; lia).
  assert (Hok : filtered_ok control0) by (vm_compute; intuition discriminate).
  split; [exact Hb |]. split; [exact Hok |].
  apply (polls_filtered_range control0 [hw_pressed_late; hw_pressed_soon] Hb Hok).
Defined.

(** ** Calibration and the pen *)

Section CalibrationAndPen.
Import Calibration.

Section CalibrationReads.

Lemma rd_take (l : list Z) (m k : Z) :
  0 <= k < m -> rd (take (Z.to_nat m) l) k = rd l k.
Proof.
  intros Hk. unfold rd. destruct (k <? 0); [done |].
  by rewrite lookup_take_lt by lia.
Qed.

Lemma rd_prefix (l l' : list Z) (m k : Z) :
  take (Z.to_nat m) l = take (Z.to_nat m) l' -> 0 <= k < m -> rd l k = rd l' k.
Proof.
  intros E Hk. rewrite <- (rd_take l m k), <- (rd_take l' m k) by done.
  by rewrite E.
Qed.

Lemma for_all_ext_in {I S : Type} (f g : I -> S -> S) (l : list I) (s : S) :
  (forall i s, i ∈ l -> f i s = g i s) -> for_all f l s = for_all g l s.
Proof.
  revert s. induction l as [| i l IH]; intros s H; [done |].
  rewrite !for_all_cons, H by left. apply IH.
  intros j s' Hj. apply H. by right.
Qed.

Lemma accumulate_prefix ref ref' smp smp' n :
  take (Z.to_nat (2 * n)) ref = take (Z.to_nat (2 * n)) ref' ->
  take (Z.to_nat (2 * n)) smp = take (Z.to_nat (2 * n)) smp' ->
  accumulate ref smp n = accumulate ref' smp' n.
Proof.
  intros Er Es. unfold accumulate. apply for_all_ext_in.
  intros i s Hi. apply elem_of_range in Hi.
  unfold accumulate_point, point.
  rewrite Z.shiftl_mul_pow2 by lia. change (2 ^ 1) with 2.
  rewrite (rd_prefix smp smp' (2 * n) (i * 2 + 0)) by (done || lia).
  rewrite (rd_prefix smp smp' (2 * n) (i * 2 + 1)) by (done || lia).
  rewrite (rd_prefix ref ref' (2 * n) (i * 2 + 0)) by (done || lia).
  rewrite (rd_prefix ref ref' (2 * n) (i * 2 + 1)) by (done || lia).
  done.
Qed.

Lemma load3_prefix ref ref' smp smp' :
  take (Z.to_nat (2 * 3)) ref = take (Z.to_nat (2 * 3)) ref' ->
  take (Z.to_nat (2 * 3)) smp = take (Z.to_nat (2 * 3)) smp' ->
  load3 ref smp = load3 ref' smp'.
Proof.
  intros Er Es. unfold load3, point.
  rewrite !(rd_prefix smp smp' (2 * 3)) by (done || lia).
  rewrite !(rd_prefix ref ref' (2 * 3)) by (done || lia).
  done.
Qed.

End CalibrationReads.

(** X20: [CalculateCalibrationMat] reads the first [npoints] points of
    each array and nothing beyond them: arrays that agree on their first
    [2 * npoints] entries give the same status and the same matrix.  The
    status does not depend on the matrix passed in, and when the status is
    not negative neither does the matrix returned: all six coefficients
    are overwritten. *)
Theorem CalculateCalibrationMat_reads (ref ref' smp smp' : list Z) (n : Z)
    (pcmat pcmat' : calibration_mat_t) :
  take (Z.to_nat (2 * n)) ref = take (Z.to_nat (2 * n)) ref' ->
  take (Z.to_nat (2 * n)) smp = take (Z.to_nat (2 * n)) smp' ->
  CalculateCalibrationMat ref smp n pcmat
  = CalculateCalibrationMat ref' smp' n pcmat
  /\ fst (CalculateCalibrationMat ref smp n pcmat)
     = fst (CalculateCalibrationMat ref smp n pcmat')
  /\ (0 <= fst (CalculateCalibrationMat ref smp n pcmat) ->
      snd (CalculateCalibrationMat ref smp n pcmat)
      = snd (CalculateCalibrationMat ref smp n pcmat')).
Proof.
  intros Er Es. split; [| split].
  - unfold CalculateCalibrationMat.
    destruct (n <? 3); [done |].
    destruct (Z.eqb_spec n 3) as [-> | Hne].
    + by rewrite (load3_prefix ref ref' smp smp').
    + by rewrite (accumulate_prefix ref ref' smp smp' n).
  - unfold CalculateCalibrationMat.
    destruct (n <? 3); [done |]. cbv zeta.
    destruct (n =? 3).
    + by destruct (below_eps _).
    + destruct (_ || _); [done |]. by destruct (below_eps _).
  - unfold CalculateCalibrationMat.
    destruct (n <? 3); [cbn; lia |]. cbv zeta.
    destruct (n =? 3).
    + destruct (below_eps _); [cbn; lia | done].
    + destruct (_ || _); [cbn; lia |]. destruct (below_eps _); [cbn; lia | done].
Qed.

(** The demo's four points, followed by other entries. *)
Lemma CalculateCalibrationMat_reads_witness :
  take (Z.to_nat (2 * 4)) ref_corners
  = take (Z.to_nat (2 * 4)) (ref_corners ++ [1; 2])
  /\ take (Z.to_nat (2 * 4)) smp_demo
     = take (Z.to_nat (2 * 4)) (smp_demo ++ [3; 4; 5])
  /\ CalculateCalibrationMat ref_corners smp_demo 4 mat_zero
     = CalculateCalibrationMat (ref_corners ++ [1; 2]) (smp_demo ++ [3; 4; 5])
         4 mat_zero.
Proof.
  assert (Hr : take (Z.to_nat (2 * 4)) ref_corners
               = take (Z.to_nat (2 * 4)) (ref_corners ++ [1; 2])) by reflexivity.
  assert (Hs : take (Z.to_nat (2 * 4)) smp_demo
               = take (Z.to_nat (2 * 4)) (smp_demo ++ [3; 4; 5])) by reflexivity.
  split; [exact Hr |]. split; [exact Hs |].
  apply (CalculateCalibrationMat_reads ref_corners (ref_corners ++ [1; 2])
           smp_demo (smp_demo ++ [3; 4; 5]) 4 mat_zero mat_zero Hr Hs).
Defined.

Section IdentityCalibration.

(** One term [d1024 * K * (float) v] of the transformation, and the sum
    of the two terms, the offset and one half, converted. *)
Let term (k : float) (v : Z) : float := fmul (fmul (fdiv f1 f1024) k) (of_int v).
Let total (a b k3 : float) : Z := float_to_int16 (fadd (fadd (fadd a b) k3) fhalf).

Lemma TouchTransformCoords_terms pcmat Px Py :
  TouchTransformCoords pcmat Px Py
  = (total (term (KX1 pcmat) Px) (term (KX2 pcmat) Py) (KX3 pcmat),
     total (term (KY1 pcmat)
                 (total (term (KX1 pcmat) Px) (term (KX2 pcmat) Py) (KX3 pcmat)))
           (term (KY2 pcmat) Py) (KY3 pcmat)).
Proof. done. Qed.

Lemma forallb_range (P : Z -> bool) lo hi v :
  forallb P (range lo hi) = true -> lo <= v < hi -> P v = true.
Proof.
  intros H Hv. rewrite forallb_forall in H. apply H.
  apply list_elem_of_In, elem_of_seqZ. lia.
Qed.

Lemma term_zero_raw v : 0 <= v < 256 -> term f0 v = f0.
Proof.
  intros Hv.
  pose proof (forallb_range
                (fun v => match term f0 v with
                          | S754_zero false => true | _ => false end)
                0 256 v ltac:(vm_compute; reflexivity) Hv) as H.
  cbv beta in H. by destruct (term f0 v) as [[] | | |].
Qed.

Lemma term_zero_snapped v : 0 <= v < 256 -> term f0 (snapped v) = f0.
Proof.
  intros Hv.
  pose proof (forallb_range
                (fun v => match term f0 (snapped v) with
                          | S754_zero false => true | _ => false end)
                0 256 v ltac:(vm_compute; reflexivity) Hv) as H.
  cbv beta in H. by destruct (term f0 (snapped v)) as [[] | | |].
Qed.

Lemma total_x v : 0 <= v < 256 -> total (term f1 (snapped v)) f0 f0 = v.
Proof.
  intros Hv.
  pose proof (forallb_range
                (fun v => total (term f1 (snapped v)) f0 f0 =? v)
                0 256 v ltac:(vm_compute; reflexivity) Hv) as H.
  by apply Z.eqb_eq in H.
Qed.

Lemma total_y v : 0 <= v < 256 -> total f0 (term f1 (snapped v)) f0 = v.
Proof.
  intros Hv.
  pose proof (forallb_range
                (fun v => total f0 (term f1 (snapped v)) f0 =? v)
                0 256 v ltac:(vm_compute; reflexivity) Hv) as H.
  by apply Z.eqb_eq in H.
Qed.

(** The identity calibration on a snapped sample. *)
Lemma identity_snapped x y :
  0 <= x < 256 -> 0 <= y < 256 ->
  TouchTransformCoords mat_identity (snapped x) (snapped y) = (x, y).
Proof.
  intros Hx Hy. rewrite TouchTransformCoords_terms.
  cbn [mat_identity KX1 KX2 KX3 KY1 KY2 KY3].
  rewrite (term_zero_snapped y), (total_x x) by done.
  by rewrite (term_zero_raw x), (total_y y) by done.
Qed.

End IdentityCalibration.

(** X21: from the pen to the pixel.  On a poll that snaps, with the
    identity calibration, the point [main] plots is the raw sample itself:
    the filtered value [raw << 14], scaled by [(f + 8) >> 4] and
    transformed, gives back [raw], for both coordinates. *)
Theorem pen_point_identity (c : touch_control_t) (hw : touch_hw) :
  valid_config (Some c) = true -> pressed c hw = true ->
  exceeds (ktm64_now hw) (mTmOfLastTouch c) (mkTmLongFlick c) = true ->
  exists c',
    CheckTouch (Some c) hw = (0, Some c', 2%nat)
    /\ mIsProcessed c' = true
    /\ pen_point mat_identity c' = (mX c', mY c')
    /\ 0 <= mX c' <= 255 /\ 0 <= mY c' <= 255.
Proof.
  intros Hv Hp Hl. eexists. rewrite CheckTouch_snap by done.
  split; [reflexivity |]. cbn [mIsProcessed mX mY].
  split; [done |].
  pose proof (wrapu8_range (spi_in hw 0)) as Hx.
  pose proof (wrapu8_range (spi_in hw 1)) as Hy.
  split; [| lia].
  unfold pen_point. cbn [mXf mYf]. apply identity_snapped; lia.
Qed.

(** The snap tick of the demo's control block: the pen is at (41, 52). *)
Lemma pen_point_identity_witness :
  valid_config (Some control0) = true
  /\ pressed control0 hw_pressed_late = true
  /\ exceeds (ktm64_now hw_pressed_late) (mTmOfLastTouch control0)
             (mkTmLongFlick control0) = true
  /\ exists c',
       CheckTouch (Some control0) hw_pressed_late = (0, Some c', 2%nat)
       /\ pen_point mat_identity c' = (mX c', mY c')
       /\ mX c' = 41 /\ mY c' = 52.
Proof.
  split; [reflexivity |]. split; [reflexivity |]. split; [reflexivity |].
  destruct (pen_point_identity control0 hw_pressed_late eq_refl eq_refl eq_refl)
    as (c' & Hrun & _ & Hpt & _).
  exists c'. split; [exact Hrun |]. split; [exact Hpt |].
  rewrite CheckTouch_snap in Hrun by reflexivity.
  injection Hrun as <-. split; reflexivity.
Defined.

End CalibrationAndPen.

(** ** The generator *)

Section Xorshift.

Lemma word32_high v i : word32 v -> 32 <= i -> Z.testbit v i = false.
Proof.
  intros Hv Hi. rewrite <- (Z.mod_small v (2 ^ 32)) by exact Hv.
  apply Z.mod_pow2_bits_high. lia.
Qed.

Lemma word32_bits v :
  0 <= v -> (forall i, 32 <= i -> Z.testbit v i = false) -> word32 v.
Proof.
  intros Hv H. apply word32_mod. apply Z.bits_inj'. intros i Hi.
  rewrite Z.land_spec, Z.testbit_ones_nonneg by lia.
  destruct (Z.ltb_spec i 32); [apply andb_true_r |].
  rewrite H by lia. done.
Qed.

Lemma word32_eq a b :
  word32 a -> word32 b ->
  (forall i, 0 <= i < 32 -> Z.testbit a i = Z.testbit b i) -> a = b.
Proof.
  intros Ha Hb H. apply Z.bits_inj'. intros i Hi.
  destruct (Z_lt_dec i 32); [apply H; lia |].
  by rewrite !word32_high by (done || lia).
Qed.

Lemma word32_wrapu v : word32 (wrapu 32 v).
Proof. unfold wrapu, word32. apply Z.mod_pos_bound. lia. Qed.

Lemma word32_lxor a b : word32 a -> word32 b -> word32 (Z.lxor a b).
Proof.
  intros Ha Hb. apply word32_bits.
  - apply Z.lxor_nonneg. unfold word32 in *. lia.
  - intros i Hi. by rewrite Z.lxor_spec, !word32_high by (done || lia).
Qed.

Lemma word32_shiftr a k : 0 <= k -> word32 a -> word32 (Z.shiftr a k).
Proof.
  intros Hk Ha. apply word32_bits.
  - apply Z.shiftr_nonneg. unfold word32 in Ha. lia.
  - intros i Hi. rewrite Z.shiftr_spec by lia. apply word32_high; [done | lia].
Qed.

(** The two kinds of round of the generator, bit by bit. *)
Lemma xor_shl_bit v k i :
  0 <= k -> 0 <= i < 32 ->
  Z.testbit (Z.lxor v (wrapu 32 (Z.shiftl v k))) i
  = xorb (Z.testbit v i) (Z.testbit v (i - k)).
Proof.
  intros Hk Hi. unfold wrapu.
  by rewrite Z.lxor_spec, Z.mod_pow2_bits_low, Z.shiftl_spec by lia.
Qed.

Lemma xor_shr_bit v k i :
  0 <= k -> 0 <= i ->
  Z.testbit (Z.lxor v (Z.shiftr v k)) i
  = xorb (Z.testbit v i) (Z.testbit v (i + k)).
Proof. intros Hk Hi. by rewrite Z.lxor_spec, Z.shiftr_spec by lia. Qed.

(** Each round can be undone: the low bits of [v ^ (v << k)] are those of
    [v], and every other bit gives the next one; likewise from the top
    for [v ^ (v >> k)]. *)
Lemma xor_shl_inj a b k :
  0 < k -> word32 a -> word32 b ->
  Z.lxor a (wrapu 32 (Z.shiftl a k)) = Z.lxor b (wrapu 32 (Z.shiftl b k)) ->
  a = b.
Proof.
  intros Hk Ha Hb E. apply word32_eq; [done | done |].
  assert (H : forall i, 0 <= i -> i < 32 -> Z.testbit a i = Z.testbit b i).
  { apply (Wf_Z.Z_lt_induction
             (fun i => i < 32 -> Z.testbit a i = Z.testbit b i)).
    intros i IH Hi32.
    destruct (Z_lt_dec i 0); [by rewrite !Z.testbit_neg_r by lia |].
    pose proof (f_equal (fun v => Z.testbit v i) E) as Ei. cbv beta in Ei.
    rewrite !xor_shl_bit in Ei by lia.
    assert (Hprev : Z.testbit a (i - k) = Z.testbit b (i - k)).
    { destruct (Z_lt_dec (i - k) 0); [by rewrite !Z.testbit_neg_r by lia |].
      apply IH; lia. }
    rewrite Hprev in Ei. by apply xorb_move_l_r_2 in Ei;
      rewrite Ei, xorb_assoc, xorb_nilpotent, xorb_false_r. }
  intros i Hi. apply H; lia.
Qed.

Lemma xor_shr_inj a b k :
  0 < k -> word32 a -> word32 b ->
  Z.lxor a (Z.shiftr a k) = Z.lxor b (Z.shiftr b k) -> a = b.
Proof.
  intros Hk Ha Hb E. apply word32_eq; [done | done |].
  assert (H : forall j, 0 <= j ->
            Z.testbit a (31 - j) = Z.testbit b (31 - j)).
  { apply (Wf_Z.Z_lt_induction
             (fun j => Z.testbit a (31 - j) = Z.testbit b (31 - j))).
    intros j IH.
    destruct (Z_lt_dec j 0); [by rewrite !word32_high by (done || lia) |].
    destruct (Z_lt_dec 31 j); [by rewrite !Z.testbit_neg_r by lia |].
    pose proof (f_equal (fun v => Z.testbit v (31 - j)) E) as Ej. cbv beta in Ej.
    rewrite !xor_shr_bit in Ej by lia.
    assert (Hnext : Z.testbit a (31 - j + k) = Z.testbit b (31 - j + k)).
    { destruct (Z_le_dec 32 (31 - j + k));
        [by rewrite !word32_high by (done || lia) |].
      replace (31 - j + k) with (31 - (j - k)) by lia. apply IH. lia. }
    rewrite Hnext in Ej. by apply xorb_move_l_r_2 in Ej;
      rewrite Ej, xorb_assoc, xorb_nilpotent, xorb_false_r. }
  intros i Hi. replace i with (31 - (31 - i)) by lia. apply H. lia.
Qed.

End Xorshift.

(** X22: [PRN32] maps 32-bit words to 32-bit words, and no two words to
    the same one: every round of the xorshift can be undone.  As 0 is
    mapped to 0, a seed that is not 0 never becomes 0, so the generator
    cannot get stuck there. *)
Theorem PRN32_injective (a b : Z) :
  word32 a -> word32 b ->
  word32 (PRN32 a)
  /\ (PRN32 a = PRN32 b -> a = b)
  /\ PRN32 0 = 0
  /\ (a <> 0 -> PRN32 a <> 0).
Proof.
  intros Ha Hb.
  assert (Hw : forall v, word32 v ->
            word32 (Z.lxor v (wrapu 32 (Z.shiftl v 13)))
            /\ word32 (Z.lxor (Z.lxor v (wrapu 32 (Z.shiftl v 13)))
                              (Z.shiftr (Z.lxor v (wrapu 32 (Z.shiftl v 13))) 17))
            /\ word32 (PRN32 v)).
  { intros v Hv.
    assert (H1 : word32 (Z.lxor v (wrapu 32 (Z.shiftl v 13))))
      by (apply word32_lxor; [done | apply word32_wrapu]).
    assert (H2 : word32 (Z.lxor (Z.lxor v (wrapu 32 (Z.shiftl v 13)))
                           (Z.shiftr (Z.lxor v (wrapu 32 (Z.shiftl v 13))) 17)))
      by (apply word32_lxor; [done | by apply word32_shiftr]).
    split; [done |]. split; [done |].
    unfold PRN32. cbv zeta. apply word32_lxor; [done | apply word32_wrapu]. }
  assert (Hinj : forall u v, word32 u -> word32 v -> PRN32 u = PRN32 v -> u = v).
  { intros u v Hu Hv E. unfold PRN32 in E. cbv zeta in E.
    destruct (Hw u Hu) as (Hu1 & Hu2 & _). destruct (Hw v Hv) as (Hv1 & Hv2 & _).
    apply xor_shl_inj in E; [| lia | done | done].
    apply xor_shr_inj in E; [| lia | done | done].
    apply xor_shl_inj in E; [done | lia | done | done]. }
  split; [apply Hw, Ha |]. split; [by apply Hinj |].
  split; [reflexivity |].
  intros Hne E. apply Hne. apply Hinj; [done | | done].
  unfold word32. lia.
Qed.

(** The seed of the demo and its successor. *)
Lemma PRN32_injective_witness :
  word32 0xa5efddbd /\ word32 1
  /\ PRN32 0xa5efddbd <> 0 /\ word32 (PRN32 0xa5efddbd).
Proof.
  assert (Ha : word32 0xa5efddbd) by (unfold word32; lia).
  assert (Hb : word32 1) by (unfold word32; lia).
  split; [exact Ha |]. split; [exact Hb |].
  destruct (PRN32_injective 0xa5efddbd 1 Ha Hb) as (Hw & _ & _ & Hnz).
  split; [apply Hnz; discriminate | exact Hw].
Defined.

(** ** The random tests *)

Section Demo.

(** A flush with the demo's budget of 10000 blocks sends every block that
    awaits an update. *)
Lemma flush_all pscr :
  TftFullScreenSelectiveWrite pscr 10000
  = (1, flush_blocks pscr (pending pscr), out_blocks pscr (pending pscr))
  /\ pending (flush_blocks pscr (pending pscr)) = [].
Proof.
  pose proof (length_pending pscr) as Hlen. change TEXT_CHARCOUNT with 1200 in Hlen.
  split.
  - rewrite selective_write_positive by (unfold INT_MAX; lia).
    destruct (Z.leb_spec 10000 (Z.of_nat (length (pending pscr)))); [lia |].
    by rewrite take_ge by lia.
  - rewrite <- (take_ge (pending pscr) (length (pending pscr))) at 1 by lia.
    unfold pending at 1, flush_blocks. cbn [with_color mpColorBuffer].
    unfold pending.
    rewrite dirty_cells_after_flush by apply NoDup_blocks.
    by rewrite drop_all.
Qed.

Lemma PRN32_word32 v : word32 v -> word32 (PRN32 v).
Proof.
  intros Hv. unfold PRN32. cbv zeta.
  repeat first [apply word32_lxor | apply word32_wrapu
               | apply word32_shiftr; [lia |] | exact Hv].
Qed.

Lemma mod_range v :
  (0 <= v mod 240 < PIX_WIDTH) /\ (0 <= v mod 320 < PIX_HEIGHT)
  /\ (0 <= v mod 312 < PIX_HEIGHT - 8).
Proof.
  unfold PIX_WIDTH, PIX_HEIGHT.
  pose proof (Z.mod_pos_bound v 240). pose proof (Z.mod_pos_bound v 320).
  pose proof (Z.mod_pos_bound v 312). lia.
Qed.

Lemma TftPutLine_wf pscr x0 y0 x1 y1 :
  wf_screen pscr ->
  0 <= x0 < PIX_WIDTH -> 0 <= y0 < PIX_HEIGHT ->
  0 <= x1 < PIX_WIDTH -> 0 <= y1 < PIX_HEIGHT ->
  wf_screen (TftPutLine pscr x0 y0 x1 y1).
Proof.
  intros Hwf Hx0 Hy0 Hx1 Hy1.
  destruct (TftPutLine_setup x0 y0 x1 y1 Hx0 Hy0 Hx1 Hy1)
    as (sx & sy & dx & dy & err0 & Hrun & Hsx & Hsy & Herr0 & Hinv).
  rewrite Hrun.
  assert (Hbx : forall x, 0 <= sx * (x1 - x) <= dx -> 0 <= x < PIX_WIDTH)
    by (intros x Hr; change PIX_WIDTH with 240 in *; nia).
  assert (Hby : forall y, 0 <= sy * (y1 - y) <= dy -> 0 <= y < PIX_HEIGHT)
    by (intros y Hr; change PIX_HEIGHT with 320 in *; nia).
  by destruct (put_line_loop_tracked x1 y1 sx sy dx dy err0
              ltac:(lia) ltac:(lia) ltac:(lia) ltac:(lia) Hbx Hby Herr0
              1000 pscr x0 y0 err0 Hwf Hinv) as [Hwf' _].
Qed.

Section DemoLabel.

Variable kFONT_ : list Z.

(** A label keeps the sizes of the buffers. *)
Lemma put_label_glyph_length over chr x_pix y_pix pscr :
  let s' := put_label_glyph kFONT_ over chr x_pix y_pix pscr in
  length (mpPixBuffer s') = length (mpPixBuffer pscr)
  /\ length (mpColorBuffer s') = length (mpColorBuffer pscr).
Proof.
  cbv zeta. unfold put_label_glyph.
  match goal with
  | |- context [for_all ?f ?js (?p, ?c)] =>
      pose proof (for_all_ind
        (fun st : list Z * list Z =>
           length (fst st) = length (mpPixBuffer pscr)
           /\ length (snd st) = length (mpColorBuffer pscr))
        f js (p, c)) as Hloop
  end.
  cbv beta in Hloop.
  match type of Hloop with
  | ?A -> ?B -> _ => assert (HA : A); [| assert (HB : B)]
  end.
  - done.
  - intros j st Hst. apply for_all_ind; [exact Hst |].
    intros i [pix cb] [Hpix Hcol]. cbn [fst snd] in *. split.
    + destruct (glyph_bit _ _ _ _); [by rewrite length_SET |].
      destruct over; [by rewrite length_CLR | done].
    + by rewrite length_wr.
  - specialize (Hloop HA HB).
    destruct (for_all _ _ _) as [pix cb]. exact Hloop.
Qed.

Lemma put_label_loop_length over y_pix pstr : forall max_len x_pix pscr,
  let s' := put_label_loop kFONT_ over pstr max_len x_pix y_pix pscr in
  length (mpPixBuffer s') = length (mpPixBuffer pscr)
  /\ length (mpColorBuffer s') = length (mpColorBuffer pscr).
Proof.
  induction pstr as [| chr pstr IH]; intros max_len x_pix pscr; cbv zeta.
  { by cbn [put_label_loop]. }
  destruct max_len as [| max_len]; [done |].
  cbn [put_label_loop]. destruct (chr =? 0); [done |].
  destruct (_ || _); [done |].
  destruct (put_label_glyph_length over (chr - 32) x_pix y_pix pscr) as [E1 E2].
  destruct (IH max_len (x_pix + 8)
              (put_label_glyph kFONT_ over (chr - 32) x_pix y_pix pscr))
    as [E3 E4].
  split; congruence.
Qed.

End DemoLabel.

End Demo.

(** X23: one round of [TestRandomLines] on a screen with buffers of the
    declared sizes.  The end points drawn from the generator are points of
    the plane; the line is drawn between them, both end pixels set and no
    pixel cleared; and after the flush that follows no block awaits an
    update.  The seed stays a 32-bit word. *)
Theorem TestRandomLines_round (p_screen : screen_control_t) (rnd_seed : Z) :
  wf_screen p_screen -> word32 rnd_seed ->
  let s1 := PRN32 rnd_seed in
  let s2 := PRN32 s1 in
  let s3 := PRN32 s2 in
  let s4 := PRN32 s3 in
  let r := TestRandomLines p_screen rnd_seed in
  let p' := fst (fst r) in
  snd (fst r) = s4 /\ word32 s4
  /\ (0 <= s1 mod 240 < PIX_WIDTH /\ 0 <= s3 mod 320 < PIX_HEIGHT)
  /\ (0 <= s2 mod 240 < PIX_WIDTH /\ 0 <= s4 mod 320 < PIX_HEIGHT)
  /\ pixel_at p' (s1 mod 240) (s3 mod 320) = 1
  /\ pixel_at p' (s2 mod 240) (s4 mod 320) = 1
  /\ (forall x y, pixel_at p_screen x y = 1 -> pixel_at p' x y = 1)
  /\ pending p' = []
  /\ wf_screen p'.
Proof.
  intros Hwf Hseed. cbv zeta.
  set (s1 := PRN32 rnd_seed). set (s2 := PRN32 s1).
  set (s3 := PRN32 s2). set (s4 := PRN32 s3).
  assert (Hx0 : 0 <= s1 mod 240 < PIX_WIDTH) by apply mod_range.
  assert (Hx1 : 0 <= s2 mod 240 < PIX_WIDTH) by apply mod_range.
  assert (Hy0 : 0 <= s3 mod 320 < PIX_HEIGHT) by apply mod_range.
  assert (Hy1 : 0 <= s4 mod 320 < PIX_HEIGHT) by apply mod_range.
  set (p1 := TftPutLine p_screen (s1 mod 240) (s3 mod 320)
                        (s2 mod 240) (s4 mod 320)).
  assert (Hrun : TestRandomLines p_screen rnd_seed
                 = (flush_blocks p1 (pending p1), s4, out_blocks p1 (pending p1))).
  { unfold TestRandomLines. cbv zeta. fold s1 s2 s3 s4. fold p1.
    destruct (flush_all p1) as [-> _]. done. }
  rewrite Hrun. cbn [fst snd].
  destruct (TftPutLine_ends p_screen _ _ _ _ Hwf Hx0 Hy0 Hx1 Hy1) as [Hs He].
  fold p1 in Hs, He.
  destruct (TftPutLine_setup _ _ _ _ Hx0 Hy0 Hx1 Hy1)
    as (sx & sy & dx & dy & err0 & Hloop & _).
  destruct (put_line_loop_frame 1000 p_screen (s1 mod 240) (s3 mod 320)
              (s2 mod 240) (s4 mod 320) sx sy dx dy err0) as (Hmono & _).
  rewrite <- Hloop in Hmono. fold p1 in Hmono.
  assert (Hwf1 : wf_screen p1) by (by apply TftPutLine_wf).
  destruct (flush_blocks_frame p1 (pending p1)) as (Ep & _ & _ & _ & _ & El).
  split; [done |].
  split; [by repeat apply PRN32_word32 |].
  split; [done |]. split; [done |].
  unfold pixel_at. rewrite Ep.
  split; [exact Hs |]. split; [exact He |].
  split; [intros x y; apply Hmono |].
  split; [apply flush_all |].
  destruct Hwf1 as [Hp1 Hc1]. split; [by rewrite Ep | by rewrite El].
Qed.

(** X24: one round of [TestRandomLabels] on a screen with buffers of the
    declared sizes, whatever the font.  The label is put at a point drawn
    from the generator; a point too far right for one glyph draws nothing.
    The label clears no pixel and changes no ink or paper, and the flush
    that follows leaves no block awaiting an update.  The seed stays a
    32-bit word. *)
Theorem TestRandomLabels_round (kFONT_ : list Z) (p_screen : screen_control_t)
    (rnd_seed : Z) :
  wf_screen p_screen -> word32 rnd_seed ->
  let s1 := PRN32 rnd_seed in
  let s2 := PRN32 s1 in
  let r := TestRandomLabels kFONT_ p_screen rnd_seed in
  let p' := fst (fst r) in
  snd (fst r) = s2 /\ word32 s2
  /\ (PIX_WIDTH - 8 < s1 mod 240 -> mpPixBuffer p' = mpPixBuffer p_screen)
  /\ (forall x y, pixel_at p_screen x y = 1 -> pixel_at p' x y = 1)
  /\ (forall k, ink_of (rd (mpColorBuffer p') k)
                = ink_of (rd (mpColorBuffer p_screen) k)
                /\ paper_of (rd (mpColorBuffer p') k)
                   = paper_of (rd (mpColorBuffer p_screen) k))
  /\ pending p' = []
  /\ wf_screen p'.
Proof.
  intros Hwf Hseed. cbv zeta.
  set (s1 := PRN32 rnd_seed). set (s2 := PRN32 s1).
  set (p1 := TftPutTextLabel kFONT_ p_screen pico_rulezz
               (s1 mod 240) (s2 mod 312) false).
  assert (Hrun : TestRandomLabels kFONT_ p_screen rnd_seed
                 = (flush_blocks p1 (pending p1), s2, out_blocks p1 (pending p1))).
  { unfold TestRandomLabels. cbv zeta. fold s1 s2. fold p1.
    destruct (flush_all p1) as [-> _]. done. }
  rewrite Hrun. cbn [fst snd].
  destruct (flush_blocks_frame p1 (pending p1)) as (Ep & _ & _ & _ & _ & El).
  assert (Hlab : (forall n, GET_DATA_BIT (mpPixBuffer p_screen) n = 1 ->
                            GET_DATA_BIT (mpPixBuffer p1) n = 1)
                 /\ (forall k, ink_of (rd (mpColorBuffer p1) k)
                               = ink_of (rd (mpColorBuffer p_screen) k)
                               /\ paper_of (rd (mpColorBuffer p1) k)
                                  = paper_of (rd (mpColorBuffer p_screen) k))
                 /\ wf_screen p1).
  { unfold p1, TftPutTextLabel. destruct (_ || _).
    - split; [done |]. split; [done | exact Hwf].
    - destruct (put_label_loop_frame kFONT_ false (s2 mod 312) pico_rulezz
                  (Z.to_nat (Z.shiftr (PIX_WIDTH - s1 mod 240) 3))
                  (s1 mod 240) p_screen) as (Hm & Hc & _).
      destruct (put_label_loop_length kFONT_ false (s2 mod 312) pico_rulezz
                  (Z.to_nat (Z.shiftr (PIX_WIDTH - s1 mod 240) 3))
                  (s1 mod 240) p_screen) as [E1 E2].
      split; [by apply Hm |]. split; [exact Hc |].
      destruct Hwf as [Hp Hcb]. split; congruence. }
  destruct Hlab as (Hm & Hc & [Hp1 Hc1]).
  split; [done |].
  split; [by repeat apply PRN32_word32 |].
  split.
  { intros Hx. rewrite Ep. unfold p1, TftPutTextLabel.
    destruct (Z.gtb_spec (s1 mod 240) (PIX_WIDTH - 8)); [done | lia]. }
  split; [intros x y; unfold pixel_at; rewrite Ep; apply Hm |].
  split.
  { intros k. destruct (Hc k) as [<- <-].
    unfold flush_blocks. cbn [with_color mpColorBuffer].
    apply clear_cells_colors. }
  split; [apply flush_all |].
  split; [by rewrite Ep | by rewrite El].
Qed.

(** The first round of each demo on the idle screen, from the seed the
    demo starts with. *)
Lemma TestRandomLines_round_witness :
  wf_screen screen_idle /\ word32 0xa5efddbd
  /\ pending (fst (fst (TestRandomLines screen_idle 0xa5efddbd))) = []
  /\ wf_screen (fst (fst (TestRandomLines screen_idle 0xa5efddbd))).
Proof.
  assert (Hwf : wf_screen screen_idle) by (split; reflexivity).
  assert (Hs : word32 0xa5efddbd) by (unfold word32; lia).
  split; [exact Hwf |]. split; [exact Hs |].
  destruct (TestRandomLines_round screen_idle 0xa5efddbd Hwf Hs)
    as (_ & _ & _ & _ & _ & _ & _ & Hp & Hw).
  split; [exact Hp | exact Hw].
Defined.

Lemma TestRandomLabels_round_witness :
  wf_screen screen_idle /\ word32 0xa5efddbd
  /\ pending (fst (fst (TestRandomLabels (replicate 762 0x81) screen_idle
                          0xa5efddbd))) = []
  /\ wf_screen (fst (fst (TestRandomLabels (replicate 762 0x81) screen_idle
                            0xa5efddbd))).
Proof.
  assert (Hwf : wf_screen screen_idle) by (split; reflexivity).
  assert (Hs : word32 0xa5efddbd) by (unfold word32; lia).
  split; [exact Hwf |]. split; [exact Hs |].
  destruct (TestRandomLabels_round (replicate 762 0x81) screen_idle 0xa5efddbd
              Hwf Hs) as (_ & _ & _ & _ & _ & Hp & Hw).
  split; [exact Hp | exact Hw].
Defined.
